(** * PySpice SPICE netlist parser: semantic walker, resolver and IR facade

    A shallow embedding of [PySpice/Spice/EBNFParser.py].  The Python classes
    become modules holding a record [t] and the methods as functions;
    exceptions become values of the type [exn] carried in a sum; the mutable
    walker becomes a state-and-exception monad over an explicit scope stack.

    The generated grammar ([SpiceGrammar], [SpiceModel]), the expression
    classes ([Expressions]) and the netlist object model ([Netlist],
    [BasicElement]) are imported by the source file and are not part of it:
    the outcome of the grammar, the file system and the sink are taken as
    explicit inputs. *)

From stdpp Require Import gmap strings list fin_maps pretty sorting.
From Stdlib Require Import Ascii NArith ZArith Lia.

Set Warnings "-register-all,-clear-no-such-hyp".

(** ** Unicode text

    A Python string is a sequence of code points.  A string of the model is
    the UTF-8 encoding of the text, as the file that the parser reads holds
    it; [decode] gives the code points back.  The tables are those of
    Unicode 14.0, the version of the [unicodedata] module of Python 3.11. *)

Module Unicode.

Local Open Scope N_scope.

Fixpoint bytes (s : string) : list N :=
  match s with
  | EmptyString => []
  | String b s' => N_of_ascii b :: bytes s'
  end.

Fixpoint of_bytes (l : list N) : string :=
  match l with
  | [] => EmptyString
  | b :: l' => String (ascii_of_N b) (of_bytes l')
  end.

Definition between (lo hi b : N) : bool := (lo <=? b) && (b <=? hi).

(** A byte that continues a character. *)
Definition continuation (b : N) : bool := between 0x80 0xBF b.

(** The second byte of a character of three and of four bytes: the
    shortest encoding only, no surrogate, nothing beyond U+10FFFF. *)
Definition second_of_three (b1 b2 : N) : bool :=
  if b1 =? 0xE0 then between 0xA0 0xBF b2
  else if b1 =? 0xED then between 0x80 0x9F b2
  else continuation b2.
Definition second_of_four (b1 b2 : N) : bool :=
  if b1 =? 0xF0 then between 0x90 0xBF b2
  else if b1 =? 0xF4 then between 0x80 0x8F b2
  else continuation b2.

(** [bytes.decode('utf-8')]: the code points of a well-formed byte
    sequence, [None] for the [UnicodeDecodeError]. *)
Fixpoint decode (l : list N) : option (list N) :=
  match l with
  | [] => Some []
  | b1 :: l1 =>
      if b1 <? 0x80 then cons b1 <$> decode l1
      else
        match l1 with
        | [] => None
        | b2 :: l2 =>
            if between 0xC2 0xDF b1 then
              if continuation b2
              then cons ((b1 - 0xC0) * 64 + (b2 - 0x80)) <$> decode l2
              else None
            else
              match l2 with
              | [] => None
              | b3 :: l3 =>
                  if between 0xE0 0xEF b1 then
                    if second_of_three b1 b2 && continuation b3
                    then cons ((b1 - 0xE0) * 4096 + (b2 - 0x80) * 64 + (b3 - 0x80))
                           <$> decode l3
                    else None
                  else
                    match l3 with
                    | [] => None
                    | b4 :: l4 =>
                        if between 0xF0 0xF4 b1 && second_of_four b1 b2
                           && continuation b3 && continuation b4
                        then cons ((b1 - 0xF0) * 262144 + (b2 - 0x80) * 4096
                                   + (b3 - 0x80) * 64 + (b4 - 0x80))
                               <$> decode l4
                        else None
                    end
              end
        end
  end.

(** [str.encode('utf-8')] *)
Definition encode_point (c : N) : list N :=
  if c <? 0x80 then [c]
  else if c <? 0x800 then [0xC0 + c / 64; 0x80 + c mod 64]
  else if c <? 0x10000 then [0xE0 + c / 4096; 0x80 + (c / 64) mod 64; 0x80 + c mod 64]
  else [0xF0 + c / 262144; 0x80 + (c / 4096) mod 64; 0x80 + (c / 64) mod 64;
        0x80 + c mod 64].

Definition encode (l : list N) : list N := flat_map encode_point l.

(** A code point that a string can hold: no surrogate, at most U+10FFFF. *)
Definition scalar (c : N) : bool := (c <? 0xD800) || between 0xE000 0x10FFFF c.

Definition lowercase_mapping_1 : list (N * list N) :=
  [(0x41, [0x61]); (0x42, [0x62]); (0x43, [0x63]); (0x44, [0x64]); (0x45, [0x65]);
   (0x46, [0x66]); (0x47, [0x67]); (0x48, [0x68]); (0x49, [0x69]); (0x4A, [0x6A]);
   (0x4B, [0x6B]); (0x4C, [0x6C]); (0x4D, [0x6D]); (0x4E, [0x6E]); (0x4F, [0x6F]);
   (0x50, [0x70]); (0x51, [0x71]); (0x52, [0x72]); (0x53, [0x73]); (0x54, [0x74]);
   (0x55, [0x75]); (0x56, [0x76]); (0x57, [0x77]); (0x58, [0x78]); (0x59, [0x79]);
   (0x5A, [0x7A]); (0xC0, [0xE0]); (0xC1, [0xE1]); (0xC2, [0xE2]); (0xC3, [0xE3]);
   (0xC4, [0xE4]); (0xC5, [0xE5]); (0xC6, [0xE6]); (0xC7, [0xE7]); (0xC8, [0xE8]);
   (0xC9, [0xE9]); (0xCA, [0xEA]); (0xCB, [0xEB]); (0xCC, [0xEC]); (0xCD, [0xED]);
   (0xCE, [0xEE]); (0xCF, [0xEF]); (0xD0, [0xF0]); (0xD1, [0xF1]); (0xD2, [0xF2]);
   (0xD3, [0xF3]); (0xD4, [0xF4]); (0xD5, [0xF5]); (0xD6, [0xF6]); (0xD8, [0xF8]);
   (0xD9, [0xF9]); (0xDA, [0xFA]); (0xDB, [0xFB]); (0xDC, [0xFC]); (0xDD, [0xFD]);
   (0xDE, [0xFE]); (0x100, [0x101]); (0x102, [0x103]); (0x104, [0x105]); (0x106, [0x107]);
   (0x108, [0x109]); (0x10A, [0x10B]); (0x10C, [0x10D]); (0x10E, [0x10F]); (0x110, [0x111]);
   (0x112, [0x113]); (0x114, [0x115]); (0x116, [0x117]); (0x118, [0x119]); (0x11A, [0x11B]);
   (0x11C, [0x11D]); (0x11E, [0x11F]); (0x120, [0x121]); (0x122, [0x123]); (0x124, [0x125]);
   (0x126, [0x127]); (0x128, [0x129]); (0x12A, [0x12B]); (0x12C, [0x12D]); (0x12E, [0x12F]);
   (0x130, [0x69; 0x307]); (0x132, [0x133]); (0x134, [0x135]); (0x136, [0x137]);
   (0x139, [0x13A]); (0x13B, [0x13C]); (0x13D, [0x13E]); (0x13F, [0x140]); (0x141, [0x142]);
   (0x143, [0x144]); (0x145, [0x146]); (0x147, [0x148]); (0x14A, [0x14B]); (0x14C, [0x14D]);
   (0x14E, [0x14F]); (0x150, [0x151]); (0x152, [0x153]); (0x154, [0x155]); (0x156, [0x157]);
   (0x158, [0x159]); (0x15A, [0x15B]); (0x15C, [0x15D]); (0x15E, [0x15F]); (0x160, [0x161]);
   (0x162, [0x163]); (0x164, [0x165]); (0x166, [0x167]); (0x168, [0x169]); (0x16A, [0x16B]);
   (0x16C, [0x16D]); (0x16E, [0x16F]); (0x170, [0x171]); (0x172, [0x173]); (0x174, [0x175]);
   (0x176, [0x177]); (0x178, [0xFF]); (0x179, [0x17A]); (0x17B, [0x17C]); (0x17D, [0x17E]);
   (0x181, [0x253]); (0x182, [0x183]); (0x184, [0x185]); (0x186, [0x254]); (0x187, [0x188]);
   (0x189, [0x256]); (0x18A, [0x257]); (0x18B, [0x18C]); (0x18E, [0x1DD]); (0x18F, [0x259]);
   (0x190, [0x25B]); (0x191, [0x192]); (0x193, [0x260]); (0x194, [0x263]); (0x196, [0x269]);
   (0x197, [0x268]); (0x198, [0x199]); (0x19C, [0x26F]); (0x19D, [0x272]); (0x19F, [0x275]);
   (0x1A0, [0x1A1]); (0x1A2, [0x1A3]); (0x1A4, [0x1A5]); (0x1A6, [0x280]); (0x1A7, [0x1A8]);
   (0x1A9, [0x283]); (0x1AC, [0x1AD]); (0x1AE, [0x288]); (0x1AF, [0x1B0]); (0x1B1, [0x28A]);
   (0x1B2, [0x28B]); (0x1B3, [0x1B4]); (0x1B5, [0x1B6]); (0x1B7, [0x292]); (0x1B8, [0x1B9]);
   (0x1BC, [0x1BD]); (0x1C4, [0x1C6]); (0x1C5, [0x1C6]); (0x1C7, [0x1C9]); (0x1C8, [0x1C9]);
   (0x1CA, [0x1CC]); (0x1CB, [0x1CC]); (0x1CD, [0x1CE]); (0x1CF, [0x1D0]); (0x1D1, [0x1D2]);
   (0x1D3, [0x1D4]); (0x1D5, [0x1D6]); (0x1D7, [0x1D8]); (0x1D9, [0x1DA]); (0x1DB, [0x1DC]);
   (0x1DE, [0x1DF]); (0x1E0, [0x1E1]); (0x1E2, [0x1E3]); (0x1E4, [0x1E5]); (0x1E6, [0x1E7]);
   (0x1E8, [0x1E9]); (0x1EA, [0x1EB]); (0x1EC, [0x1ED]); (0x1EE, [0x1EF]); (0x1F1, [0x1F3]);
   (0x1F2, [0x1F3]); (0x1F4, [0x1F5]); (0x1F6, [0x195]); (0x1F7, [0x1BF]); (0x1F8, [0x1F9]);
   (0x1FA, [0x1FB]); (0x1FC, [0x1FD]); (0x1FE, [0x1FF]); (0x200, [0x201]); (0x202, [0x203]);
   (0x204, [0x205]); (0x206, [0x207]); (0x208, [0x209]); (0x20A, [0x20B]); (0x20C, [0x20D]);
   (0x20E, [0x20F]); (0x210, [0x211]); (0x212, [0x213]); (0x214, [0x215]); (0x216, [0x217]);
   (0x218, [0x219]); (0x21A, [0x21B]); (0x21C, [0x21D]); (0x21E, [0x21F]); (0x220, [0x19E]);
   (0x222, [0x223]); (0x224, [0x225]); (0x226, [0x227]); (0x228, [0x229]); (0x22A, [0x22B]);
   (0x22C, [0x22D]); (0x22E, [0x22F]); (0x230, [0x231]); (0x232, [0x233]); (0x23A, [0x2C65]);
   (0x23B, [0x23C]); (0x23D, [0x19A]); (0x23E, [0x2C66]); (0x241, [0x242]); (0x243, [0x180]);
   (0x244, [0x289]); (0x245, [0x28C]); (0x246, [0x247]); (0x248, [0x249]); (0x24A, [0x24B]);
   (0x24C, [0x24D]); (0x24E, [0x24F]); (0x370, [0x371]); (0x372, [0x373]); (0x376, [0x377]);
   (0x37F, [0x3F3]); (0x386, [0x3AC]); (0x388, [0x3AD]); (0x389, [0x3AE]); (0x38A, [0x3AF]);
   (0x38C, [0x3CC]); (0x38E, [0x3CD]); (0x38F, [0x3CE]); (0x391, [0x3B1]); (0x392, [0x3B2]);
   (0x393, [0x3B3])].

Definition lowercase_mapping_2 : list (N * list N) :=
  [(0x394, [0x3B4]); (0x395, [0x3B5]); (0x396, [0x3B6]); (0x397, [0x3B7]); (0x398, [0x3B8]);
   (0x399, [0x3B9]); (0x39A, [0x3BA]); (0x39B, [0x3BB]); (0x39C, [0x3BC]); (0x39D, [0x3BD]);
   (0x39E, [0x3BE]); (0x39F, [0x3BF]); (0x3A0, [0x3C0]); (0x3A1, [0x3C1]); (0x3A3, [0x3C3]);
   (0x3A4, [0x3C4]); (0x3A5, [0x3C5]); (0x3A6, [0x3C6]); (0x3A7, [0x3C7]); (0x3A8, [0x3C8]);
   (0x3A9, [0x3C9]); (0x3AA, [0x3CA]); (0x3AB, [0x3CB]); (0x3CF, [0x3D7]); (0x3D8, [0x3D9]);
   (0x3DA, [0x3DB]); (0x3DC, [0x3DD]); (0x3DE, [0x3DF]); (0x3E0, [0x3E1]); (0x3E2, [0x3E3]);
   (0x3E4, [0x3E5]); (0x3E6, [0x3E7]); (0x3E8, [0x3E9]); (0x3EA, [0x3EB]); (0x3EC, [0x3ED]);
   (0x3EE, [0x3EF]); (0x3F4, [0x3B8]); (0x3F7, [0x3F8]); (0x3F9, [0x3F2]); (0x3FA, [0x3FB]);
   (0x3FD, [0x37B]); (0x3FE, [0x37C]); (0x3FF, [0x37D]); (0x400, [0x450]); (0x401, [0x451]);
   (0x402, [0x452]); (0x403, [0x453]); (0x404, [0x454]); (0x405, [0x455]); (0x406, [0x456]);
   (0x407, [0x457]); (0x408, [0x458]); (0x409, [0x459]); (0x40A, [0x45A]); (0x40B, [0x45B]);
   (0x40C, [0x45C]); (0x40D, [0x45D]); (0x40E, [0x45E]); (0x40F, [0x45F]); (0x410, [0x430]);
   (0x411, [0x431]); (0x412, [0x432]); (0x413, [0x433]); (0x414, [0x434]); (0x415, [0x435]);
   (0x416, [0x436]); (0x417, [0x437]); (0x418, [0x438]); (0x419, [0x439]); (0x41A, [0x43A]);
   (0x41B, [0x43B]); (0x41C, [0x43C]); (0x41D, [0x43D]); (0x41E, [0x43E]); (0x41F, [0x43F]);
   (0x420, [0x440]); (0x421, [0x441]); (0x422, [0x442]); (0x423, [0x443]); (0x424, [0x444]);
   (0x425, [0x445]); (0x426, [0x446]); (0x427, [0x447]); (0x428, [0x448]); (0x429, [0x449]);
   (0x42A, [0x44A]); (0x42B, [0x44B]); (0x42C, [0x44C]); (0x42D, [0x44D]); (0x42E, [0x44E]);
   (0x42F, [0x44F]); (0x460, [0x461]); (0x462, [0x463]); (0x464, [0x465]); (0x466, [0x467]);
   (0x468, [0x469]); (0x46A, [0x46B]); (0x46C, [0x46D]); (0x46E, [0x46F]); (0x470, [0x471]);
   (0x472, [0x473]); (0x474, [0x475]); (0x476, [0x477]); (0x478, [0x479]); (0x47A, [0x47B]);
   (0x47C, [0x47D]); (0x47E, [0x47F]); (0x480, [0x481]); (0x48A, [0x48B]); (0x48C, [0x48D]);
   (0x48E, [0x48F]); (0x490, [0x491]); (0x492, [0x493]); (0x494, [0x495]); (0x496, [0x497]);
   (0x498, [0x499]); (0x49A, [0x49B]); (0x49C, [0x49D]); (0x49E, [0x49F]); (0x4A0, [0x4A1]);
   (0x4A2, [0x4A3]); (0x4A4, [0x4A5]); (0x4A6, [0x4A7]); (0x4A8, [0x4A9]); (0x4AA, [0x4AB]);
   (0x4AC, [0x4AD]); (0x4AE, [0x4AF]); (0x4B0, [0x4B1]); (0x4B2, [0x4B3]); (0x4B4, [0x4B5]);
   (0x4B6, [0x4B7]); (0x4B8, [0x4B9]); (0x4BA, [0x4BB]); (0x4BC, [0x4BD]); (0x4BE, [0x4BF]);
   (0x4C0, [0x4CF]); (0x4C1, [0x4C2]); (0x4C3, [0x4C4]); (0x4C5, [0x4C6]); (0x4C7, [0x4C8]);
   (0x4C9, [0x4CA]); (0x4CB, [0x4CC]); (0x4CD, [0x4CE]); (0x4D0, [0x4D1]); (0x4D2, [0x4D3]);
   (0x4D4, [0x4D5]); (0x4D6, [0x4D7]); (0x4D8, [0x4D9]); (0x4DA, [0x4DB]); (0x4DC, [0x4DD]);
   (0x4DE, [0x4DF]); (0x4E0, [0x4E1]); (0x4E2, [0x4E3]); (0x4E4, [0x4E5]); (0x4E6, [0x4E7]);
   (0x4E8, [0x4E9]); (0x4EA, [0x4EB]); (0x4EC, [0x4ED]); (0x4EE, [0x4EF]); (0x4F0, [0x4F1]);
   (0x4F2, [0x4F3]); (0x4F4, [0x4F5]); (0x4F6, [0x4F7]); (0x4F8, [0x4F9]); (0x4FA, [0x4FB]);
   (0x4FC, [0x4FD]); (0x4FE, [0x4FF]); (0x500, [0x501]); (0x502, [0x503]); (0x504, [0x505]);
   (0x506, [0x507]); (0x508, [0x509]); (0x50A, [0x50B]); (0x50C, [0x50D]); (0x50E, [0x50F]);
   (0x510, [0x511]); (0x512, [0x513]); (0x514, [0x515]); (0x516, [0x517]); (0x518, [0x519]);
   (0x51A, [0x51B]); (0x51C, [0x51D]); (0x51E, [0x51F]); (0x520, [0x521]); (0x522, [0x523]);
   (0x524, [0x525]); (0x526, [0x527]); (0x528, [0x529]); (0x52A, [0x52B]); (0x52C, [0x52D]);
   (0x52E, [0x52F]); (0x531, [0x561]); (0x532, [0x562]); (0x533, [0x563]); (0x534, [0x564]);
   (0x535, [0x565]); (0x536, [0x566]); (0x537, [0x567]); (0x538, [0x568]); (0x539, [0x569]);
   (0x53A, [0x56A]); (0x53B, [0x56B]); (0x53C, [0x56C]); (0x53D, [0x56D]); (0x53E, [0x56E]);
   (0x53F, [0x56F]); (0x540, [0x570]); (0x541, [0x571]); (0x542, [0x572]); (0x543, [0x573]);
   (0x544, [0x574]); (0x545, [0x575]); (0x546, [0x576]); (0x547, [0x577]); (0x548, [0x578]);
   (0x549, [0x579]); (0x54A, [0x57A]); (0x54B, [0x57B]); (0x54C, [0x57C]); (0x54D, [0x57D]);
   (0x54E, [0x57E]); (0x54F, [0x57F]); (0x550, [0x580]); (0x551, [0x581]); (0x552, [0x582]);
   (0x553, [0x583]); (0x554, [0x584]); (0x555, [0x585]); (0x556, [0x586]); (0x10A0, [0x2D00]);
   (0x10A1, [0x2D01]); (0x10A2, [0x2D02]); (0x10A3, [0x2D03]); (0x10A4, [0x2D04]);
   (0x10A5, [0x2D05]); (0x10A6, [0x2D06]); (0x10A7, [0x2D07]); (0x10A8, [0x2D08]);
   (0x10A9, [0x2D09]); (0x10AA, [0x2D0A])].

Definition lowercase_mapping_3 : list (N * list N) :=
  [(0x10AB, [0x2D0B]); (0x10AC, [0x2D0C]); (0x10AD, [0x2D0D]); (0x10AE, [0x2D0E]);
   (0x10AF, [0x2D0F]); (0x10B0, [0x2D10]); (0x10B1, [0x2D11]); (0x10B2, [0x2D12]);
   (0x10B3, [0x2D13]); (0x10B4, [0x2D14]); (0x10B5, [0x2D15]); (0x10B6, [0x2D16]);
   (0x10B7, [0x2D17]); (0x10B8, [0x2D18]); (0x10B9, [0x2D19]); (0x10BA, [0x2D1A]);
   (0x10BB, [0x2D1B]); (0x10BC, [0x2D1C]); (0x10BD, [0x2D1D]); (0x10BE, [0x2D1E]);
   (0x10BF, [0x2D1F]); (0x10C0, [0x2D20]); (0x10C1, [0x2D21]); (0x10C2, [0x2D22]);
   (0x10C3, [0x2D23]); (0x10C4, [0x2D24]); (0x10C5, [0x2D25]); (0x10C7, [0x2D27]);
   (0x10CD, [0x2D2D]); (0x13A0, [0xAB70]); (0x13A1, [0xAB71]); (0x13A2, [0xAB72]);
   (0x13A3, [0xAB73]); (0x13A4, [0xAB74]); (0x13A5, [0xAB75]); (0x13A6, [0xAB76]);
   (0x13A7, [0xAB77]); (0x13A8, [0xAB78]); (0x13A9, [0xAB79]); (0x13AA, [0xAB7A]);
   (0x13AB, [0xAB7B]); (0x13AC, [0xAB7C]); (0x13AD, [0xAB7D]); (0x13AE, [0xAB7E]);
   (0x13AF, [0xAB7F]); (0x13B0, [0xAB80]); (0x13B1, [0xAB81]); (0x13B2, [0xAB82]);
   (0x13B3, [0xAB83]); (0x13B4, [0xAB84]); (0x13B5, [0xAB85]); (0x13B6, [0xAB86]);
   (0x13B7, [0xAB87]); (0x13B8, [0xAB88]); (0x13B9, [0xAB89]); (0x13BA, [0xAB8A]);
   (0x13BB, [0xAB8B]); (0x13BC, [0xAB8C]); (0x13BD, [0xAB8D]); (0x13BE, [0xAB8E]);
   (0x13BF, [0xAB8F]); (0x13C0, [0xAB90]); (0x13C1, [0xAB91]); (0x13C2, [0xAB92]);
   (0x13C3, [0xAB93]); (0x13C4, [0xAB94]); (0x13C5, [0xAB95]); (0x13C6, [0xAB96]);
   (0x13C7, [0xAB97]); (0x13C8, [0xAB98]); (0x13C9, [0xAB99]); (0x13CA, [0xAB9A]);
   (0x13CB, [0xAB9B]); (0x13CC, [0xAB9C]); (0x13CD, [0xAB9D]); (0x13CE, [0xAB9E]);
   (0x13CF, [0xAB9F]); (0x13D0, [0xABA0]); (0x13D1, [0xABA1]); (0x13D2, [0xABA2]);
   (0x13D3, [0xABA3]); (0x13D4, [0xABA4]); (0x13D5, [0xABA5]); (0x13D6, [0xABA6]);
   (0x13D7, [0xABA7]); (0x13D8, [0xABA8]); (0x13D9, [0xABA9]); (0x13DA, [0xABAA]);
   (0x13DB, [0xABAB]); (0x13DC, [0xABAC]); (0x13DD, [0xABAD]); (0x13DE, [0xABAE]);
   (0x13DF, [0xABAF]); (0x13E0, [0xABB0]); (0x13E1, [0xABB1]); (0x13E2, [0xABB2]);
   (0x13E3, [0xABB3]); (0x13E4, [0xABB4]); (0x13E5, [0xABB5]); (0x13E6, [0xABB6]);
   (0x13E7, [0xABB7]); (0x13E8, [0xABB8]); (0x13E9, [0xABB9]); (0x13EA, [0xABBA]);
   (0x13EB, [0xABBB]); (0x13EC, [0xABBC]); (0x13ED, [0xABBD]); (0x13EE, [0xABBE]);
   (0x13EF, [0xABBF]); (0x13F0, [0x13F8]); (0x13F1, [0x13F9]); (0x13F2, [0x13FA]);
   (0x13F3, [0x13FB]); (0x13F4, [0x13FC]); (0x13F5, [0x13FD]); (0x1C90, [0x10D0]);
   (0x1C91, [0x10D1]); (0x1C92, [0x10D2]); (0x1C93, [0x10D3]); (0x1C94, [0x10D4]);
   (0x1C95, [0x10D5]); (0x1C96, [0x10D6]); (0x1C97, [0x10D7]); (0x1C98, [0x10D8]);
   (0x1C99, [0x10D9]); (0x1C9A, [0x10DA]); (0x1C9B, [0x10DB]); (0x1C9C, [0x10DC]);
   (0x1C9D, [0x10DD]); (0x1C9E, [0x10DE]); (0x1C9F, [0x10DF]); (0x1CA0, [0x10E0]);
   (0x1CA1, [0x10E1]); (0x1CA2, [0x10E2]); (0x1CA3, [0x10E3]); (0x1CA4, [0x10E4]);
   (0x1CA5, [0x10E5]); (0x1CA6, [0x10E6]); (0x1CA7, [0x10E7]); (0x1CA8, [0x10E8]);
   (0x1CA9, [0x10E9]); (0x1CAA, [0x10EA]); (0x1CAB, [0x10EB]); (0x1CAC, [0x10EC]);
   (0x1CAD, [0x10ED]); (0x1CAE, [0x10EE]); (0x1CAF, [0x10EF]); (0x1CB0, [0x10F0]);
   (0x1CB1, [0x10F1]); (0x1CB2, [0x10F2]); (0x1CB3, [0x10F3]); (0x1CB4, [0x10F4]);
   (0x1CB5, [0x10F5]); (0x1CB6, [0x10F6]); (0x1CB7, [0x10F7]); (0x1CB8, [0x10F8]);
   (0x1CB9, [0x10F9]); (0x1CBA, [0x10FA]); (0x1CBD, [0x10FD]); (0x1CBE, [0x10FE]);
   (0x1CBF, [0x10FF]); (0x1E00, [0x1E01]); (0x1E02, [0x1E03]); (0x1E04, [0x1E05]);
   (0x1E06, [0x1E07]); (0x1E08, [0x1E09]); (0x1E0A, [0x1E0B]); (0x1E0C, [0x1E0D]);
   (0x1E0E, [0x1E0F]); (0x1E10, [0x1E11]); (0x1E12, [0x1E13]); (0x1E14, [0x1E15]);
   (0x1E16, [0x1E17]); (0x1E18, [0x1E19]); (0x1E1A, [0x1E1B]); (0x1E1C, [0x1E1D]);
   (0x1E1E, [0x1E1F]); (0x1E20, [0x1E21]); (0x1E22, [0x1E23]); (0x1E24, [0x1E25]);
   (0x1E26, [0x1E27]); (0x1E28, [0x1E29]); (0x1E2A, [0x1E2B]); (0x1E2C, [0x1E2D]);
   (0x1E2E, [0x1E2F]); (0x1E30, [0x1E31]); (0x1E32, [0x1E33]); (0x1E34, [0x1E35]);
   (0x1E36, [0x1E37]); (0x1E38, [0x1E39]); (0x1E3A, [0x1E3B]); (0x1E3C, [0x1E3D]);
   (0x1E3E, [0x1E3F]); (0x1E40, [0x1E41]); (0x1E42, [0x1E43]); (0x1E44, [0x1E45]);
   (0x1E46, [0x1E47]); (0x1E48, [0x1E49]); (0x1E4A, [0x1E4B]); (0x1E4C, [0x1E4D]);
   (0x1E4E, [0x1E4F]); (0x1E50, [0x1E51]); (0x1E52, [0x1E53]); (0x1E54, [0x1E55]);
   (0x1E56, [0x1E57]); (0x1E58, [0x1E59]); (0x1E5A, [0x1E5B]); (0x1E5C, [0x1E5D]);
   (0x1E5E, [0x1E5F]); (0x1E60, [0x1E61]); (0x1E62, [0x1E63]); (0x1E64, [0x1E65]);
   (0x1E66, [0x1E67]); (0x1E68, [0x1E69]); (0x1E6A, [0x1E6B]); (0x1E6C, [0x1E6D]);
   (0x1E6E, [0x1E6F]); (0x1E70, [0x1E71]); (0x1E72, [0x1E73]); (0x1E74, [0x1E75]);
   (0x1E76, [0x1E77]); (0x1E78, [0x1E79]); (0x1E7A, [0x1E7B]); (0x1E7C, [0x1E7D]);
   (0x1E7E, [0x1E7F]); (0x1E80, [0x1E81]); (0x1E82, [0x1E83]); (0x1E84, [0x1E85]);
   (0x1E86, [0x1E87]); (0x1E88, [0x1E89]); (0x1E8A, [0x1E8B]); (0x1E8C, [0x1E8D]);
   (0x1E8E, [0x1E8F]); (0x1E90, [0x1E91]); (0x1E92, [0x1E93]); (0x1E94, [0x1E95]);
   (0x1E9E, [0xDF]); (0x1EA0, [0x1EA1]); (0x1EA2, [0x1EA3]); (0x1EA4, [0x1EA5])].

Definition lowercase_mapping_4 : list (N * list N) :=
  [(0x1EA6, [0x1EA7]); (0x1EA8, [0x1EA9]); (0x1EAA, [0x1EAB]); (0x1EAC, [0x1EAD]);
   (0x1EAE, [0x1EAF]); (0x1EB0, [0x1EB1]); (0x1EB2, [0x1EB3]); (0x1EB4, [0x1EB5]);
   (0x1EB6, [0x1EB7]); (0x1EB8, [0x1EB9]); (0x1EBA, [0x1EBB]); (0x1EBC, [0x1EBD]);
   (0x1EBE, [0x1EBF]); (0x1EC0, [0x1EC1]); (0x1EC2, [0x1EC3]); (0x1EC4, [0x1EC5]);
   (0x1EC6, [0x1EC7]); (0x1EC8, [0x1EC9]); (0x1ECA, [0x1ECB]); (0x1ECC, [0x1ECD]);
   (0x1ECE, [0x1ECF]); (0x1ED0, [0x1ED1]); (0x1ED2, [0x1ED3]); (0x1ED4, [0x1ED5]);
   (0x1ED6, [0x1ED7]); (0x1ED8, [0x1ED9]); (0x1EDA, [0x1EDB]); (0x1EDC, [0x1EDD]);
   (0x1EDE, [0x1EDF]); (0x1EE0, [0x1EE1]); (0x1EE2, [0x1EE3]); (0x1EE4, [0x1EE5]);
   (0x1EE6, [0x1EE7]); (0x1EE8, [0x1EE9]); (0x1EEA, [0x1EEB]); (0x1EEC, [0x1EED]);
   (0x1EEE, [0x1EEF]); (0x1EF0, [0x1EF1]); (0x1EF2, [0x1EF3]); (0x1EF4, [0x1EF5]);
   (0x1EF6, [0x1EF7]); (0x1EF8, [0x1EF9]); (0x1EFA, [0x1EFB]); (0x1EFC, [0x1EFD]);
   (0x1EFE, [0x1EFF]); (0x1F08, [0x1F00]); (0x1F09, [0x1F01]); (0x1F0A, [0x1F02]);
   (0x1F0B, [0x1F03]); (0x1F0C, [0x1F04]); (0x1F0D, [0x1F05]); (0x1F0E, [0x1F06]);
   (0x1F0F, [0x1F07]); (0x1F18, [0x1F10]); (0x1F19, [0x1F11]); (0x1F1A, [0x1F12]);
   (0x1F1B, [0x1F13]); (0x1F1C, [0x1F14]); (0x1F1D, [0x1F15]); (0x1F28, [0x1F20]);
   (0x1F29, [0x1F21]); (0x1F2A, [0x1F22]); (0x1F2B, [0x1F23]); (0x1F2C, [0x1F24]);
   (0x1F2D, [0x1F25]); (0x1F2E, [0x1F26]); (0x1F2F, [0x1F27]); (0x1F38, [0x1F30]);
   (0x1F39, [0x1F31]); (0x1F3A, [0x1F32]); (0x1F3B, [0x1F33]); (0x1F3C, [0x1F34]);
   (0x1F3D, [0x1F35]); (0x1F3E, [0x1F36]); (0x1F3F, [0x1F37]); (0x1F48, [0x1F40]);
   (0x1F49, [0x1F41]); (0x1F4A, [0x1F42]); (0x1F4B, [0x1F43]); (0x1F4C, [0x1F44]);
   (0x1F4D, [0x1F45]); (0x1F59, [0x1F51]); (0x1F5B, [0x1F53]); (0x1F5D, [0x1F55]);
   (0x1F5F, [0x1F57]); (0x1F68, [0x1F60]); (0x1F69, [0x1F61]); (0x1F6A, [0x1F62]);
   (0x1F6B, [0x1F63]); (0x1F6C, [0x1F64]); (0x1F6D, [0x1F65]); (0x1F6E, [0x1F66]);
   (0x1F6F, [0x1F67]); (0x1F88, [0x1F80]); (0x1F89, [0x1F81]); (0x1F8A, [0x1F82]);
   (0x1F8B, [0x1F83]); (0x1F8C, [0x1F84]); (0x1F8D, [0x1F85]); (0x1F8E, [0x1F86]);
   (0x1F8F, [0x1F87]); (0x1F98, [0x1F90]); (0x1F99, [0x1F91]); (0x1F9A, [0x1F92]);
   (0x1F9B, [0x1F93]); (0x1F9C, [0x1F94]); (0x1F9D, [0x1F95]); (0x1F9E, [0x1F96]);
   (0x1F9F, [0x1F97]); (0x1FA8, [0x1FA0]); (0x1FA9, [0x1FA1]); (0x1FAA, [0x1FA2]);
   (0x1FAB, [0x1FA3]); (0x1FAC, [0x1FA4]); (0x1FAD, [0x1FA5]); (0x1FAE, [0x1FA6]);
   (0x1FAF, [0x1FA7]); (0x1FB8, [0x1FB0]); (0x1FB9, [0x1FB1]); (0x1FBA, [0x1F70]);
   (0x1FBB, [0x1F71]); (0x1FBC, [0x1FB3]); (0x1FC8, [0x1F72]); (0x1FC9, [0x1F73]);
   (0x1FCA, [0x1F74]); (0x1FCB, [0x1F75]); (0x1FCC, [0x1FC3]); (0x1FD8, [0x1FD0]);
   (0x1FD9, [0x1FD1]); (0x1FDA, [0x1F76]); (0x1FDB, [0x1F77]); (0x1FE8, [0x1FE0]);
   (0x1FE9, [0x1FE1]); (0x1FEA, [0x1F7A]); (0x1FEB, [0x1F7B]); (0x1FEC, [0x1FE5]);
   (0x1FF8, [0x1F78]); (0x1FF9, [0x1F79]); (0x1FFA, [0x1F7C]); (0x1FFB, [0x1F7D]);
   (0x1FFC, [0x1FF3]); (0x2126, [0x3C9]); (0x212A, [0x6B]); (0x212B, [0xE5]);
   (0x2132, [0x214E]); (0x2160, [0x2170]); (0x2161, [0x2171]); (0x2162, [0x2172]);
   (0x2163, [0x2173]); (0x2164, [0x2174]); (0x2165, [0x2175]); (0x2166, [0x2176]);
   (0x2167, [0x2177]); (0x2168, [0x2178]); (0x2169, [0x2179]); (0x216A, [0x217A]);
   (0x216B, [0x217B]); (0x216C, [0x217C]); (0x216D, [0x217D]); (0x216E, [0x217E]);
   (0x216F, [0x217F]); (0x2183, [0x2184]); (0x24B6, [0x24D0]); (0x24B7, [0x24D1]);
   (0x24B8, [0x24D2]); (0x24B9, [0x24D3]); (0x24BA, [0x24D4]); (0x24BB, [0x24D5]);
   (0x24BC, [0x24D6]); (0x24BD, [0x24D7]); (0x24BE, [0x24D8]); (0x24BF, [0x24D9]);
   (0x24C0, [0x24DA]); (0x24C1, [0x24DB]); (0x24C2, [0x24DC]); (0x24C3, [0x24DD]);
   (0x24C4, [0x24DE]); (0x24C5, [0x24DF]); (0x24C6, [0x24E0]); (0x24C7, [0x24E1]);
   (0x24C8, [0x24E2]); (0x24C9, [0x24E3]); (0x24CA, [0x24E4]); (0x24CB, [0x24E5]);
   (0x24CC, [0x24E6]); (0x24CD, [0x24E7]); (0x24CE, [0x24E8]); (0x24CF, [0x24E9]);
   (0x2C00, [0x2C30]); (0x2C01, [0x2C31]); (0x2C02, [0x2C32]); (0x2C03, [0x2C33]);
   (0x2C04, [0x2C34]); (0x2C05, [0x2C35]); (0x2C06, [0x2C36]); (0x2C07, [0x2C37]);
   (0x2C08, [0x2C38]); (0x2C09, [0x2C39]); (0x2C0A, [0x2C3A]); (0x2C0B, [0x2C3B]);
   (0x2C0C, [0x2C3C]); (0x2C0D, [0x2C3D]); (0x2C0E, [0x2C3E]); (0x2C0F, [0x2C3F]);
   (0x2C10, [0x2C40]); (0x2C11, [0x2C41]); (0x2C12, [0x2C42]); (0x2C13, [0x2C43]);
   (0x2C14, [0x2C44]); (0x2C15, [0x2C45]); (0x2C16, [0x2C46]); (0x2C17, [0x2C47]);
   (0x2C18, [0x2C48]); (0x2C19, [0x2C49]); (0x2C1A, [0x2C4A]); (0x2C1B, [0x2C4B]);
   (0x2C1C, [0x2C4C]); (0x2C1D, [0x2C4D]); (0x2C1E, [0x2C4E]); (0x2C1F, [0x2C4F]);
   (0x2C20, [0x2C50]); (0x2C21, [0x2C51]); (0x2C22, [0x2C52]); (0x2C23, [0x2C53]);
   (0x2C24, [0x2C54]); (0x2C25, [0x2C55]); (0x2C26, [0x2C56]); (0x2C27, [0x2C57]);
   (0x2C28, [0x2C58]); (0x2C29, [0x2C59]); (0x2C2A, [0x2C5A]); (0x2C2B, [0x2C5B]);
   (0x2C2C, [0x2C5C]); (0x2C2D, [0x2C5D]); (0x2C2E, [0x2C5E]); (0x2C2F, [0x2C5F]);
   (0x2C60, [0x2C61]); (0x2C62, [0x26B]); (0x2C63, [0x1D7D]); (0x2C64, [0x27D])].

Definition lowercase_mapping_5 : list (N * list N) :=
  [(0x2C67, [0x2C68]); (0x2C69, [0x2C6A]); (0x2C6B, [0x2C6C]); (0x2C6D, [0x251]);
   (0x2C6E, [0x271]); (0x2C6F, [0x250]); (0x2C70, [0x252]); (0x2C72, [0x2C73]);
   (0x2C75, [0x2C76]); (0x2C7E, [0x23F]); (0x2C7F, [0x240]); (0x2C80, [0x2C81]);
   (0x2C82, [0x2C83]); (0x2C84, [0x2C85]); (0x2C86, [0x2C87]); (0x2C88, [0x2C89]);
   (0x2C8A, [0x2C8B]); (0x2C8C, [0x2C8D]); (0x2C8E, [0x2C8F]); (0x2C90, [0x2C91]);
   (0x2C92, [0x2C93]); (0x2C94, [0x2C95]); (0x2C96, [0x2C97]); (0x2C98, [0x2C99]);
   (0x2C9A, [0x2C9B]); (0x2C9C, [0x2C9D]); (0x2C9E, [0x2C9F]); (0x2CA0, [0x2CA1]);
   (0x2CA2, [0x2CA3]); (0x2CA4, [0x2CA5]); (0x2CA6, [0x2CA7]); (0x2CA8, [0x2CA9]);
   (0x2CAA, [0x2CAB]); (0x2CAC, [0x2CAD]); (0x2CAE, [0x2CAF]); (0x2CB0, [0x2CB1]);
   (0x2CB2, [0x2CB3]); (0x2CB4, [0x2CB5]); (0x2CB6, [0x2CB7]); (0x2CB8, [0x2CB9]);
   (0x2CBA, [0x2CBB]); (0x2CBC, [0x2CBD]); (0x2CBE, [0x2CBF]); (0x2CC0, [0x2CC1]);
   (0x2CC2, [0x2CC3]); (0x2CC4, [0x2CC5]); (0x2CC6, [0x2CC7]); (0x2CC8, [0x2CC9]);
   (0x2CCA, [0x2CCB]); (0x2CCC, [0x2CCD]); (0x2CCE, [0x2CCF]); (0x2CD0, [0x2CD1]);
   (0x2CD2, [0x2CD3]); (0x2CD4, [0x2CD5]); (0x2CD6, [0x2CD7]); (0x2CD8, [0x2CD9]);
   (0x2CDA, [0x2CDB]); (0x2CDC, [0x2CDD]); (0x2CDE, [0x2CDF]); (0x2CE0, [0x2CE1]);
   (0x2CE2, [0x2CE3]); (0x2CEB, [0x2CEC]); (0x2CED, [0x2CEE]); (0x2CF2, [0x2CF3]);
   (0xA640, [0xA641]); (0xA642, [0xA643]); (0xA644, [0xA645]); (0xA646, [0xA647]);
   (0xA648, [0xA649]); (0xA64A, [0xA64B]); (0xA64C, [0xA64D]); (0xA64E, [0xA64F]);
   (0xA650, [0xA651]); (0xA652, [0xA653]); (0xA654, [0xA655]); (0xA656, [0xA657]);
   (0xA658, [0xA659]); (0xA65A, [0xA65B]); (0xA65C, [0xA65D]); (0xA65E, [0xA65F]);
   (0xA660, [0xA661]); (0xA662, [0xA663]); (0xA664, [0xA665]); (0xA666, [0xA667]);
   (0xA668, [0xA669]); (0xA66A, [0xA66B]); (0xA66C, [0xA66D]); (0xA680, [0xA681]);
   (0xA682, [0xA683]); (0xA684, [0xA685]); (0xA686, [0xA687]); (0xA688, [0xA689]);
   (0xA68A, [0xA68B]); (0xA68C, [0xA68D]); (0xA68E, [0xA68F]); (0xA690, [0xA691]);
   (0xA692, [0xA693]); (0xA694, [0xA695]); (0xA696, [0xA697]); (0xA698, [0xA699]);
   (0xA69A, [0xA69B]); (0xA722, [0xA723]); (0xA724, [0xA725]); (0xA726, [0xA727]);
   (0xA728, [0xA729]); (0xA72A, [0xA72B]); (0xA72C, [0xA72D]); (0xA72E, [0xA72F]);
   (0xA732, [0xA733]); (0xA734, [0xA735]); (0xA736, [0xA737]); (0xA738, [0xA739]);
   (0xA73A, [0xA73B]); (0xA73C, [0xA73D]); (0xA73E, [0xA73F]); (0xA740, [0xA741]);
   (0xA742, [0xA743]); (0xA744, [0xA745]); (0xA746, [0xA747]); (0xA748, [0xA749]);
   (0xA74A, [0xA74B]); (0xA74C, [0xA74D]); (0xA74E, [0xA74F]); (0xA750, [0xA751]);
   (0xA752, [0xA753]); (0xA754, [0xA755]); (0xA756, [0xA757]); (0xA758, [0xA759]);
   (0xA75A, [0xA75B]); (0xA75C, [0xA75D]); (0xA75E, [0xA75F]); (0xA760, [0xA761]);
   (0xA762, [0xA763]); (0xA764, [0xA765]); (0xA766, [0xA767]); (0xA768, [0xA769]);
   (0xA76A, [0xA76B]); (0xA76C, [0xA76D]); (0xA76E, [0xA76F]); (0xA779, [0xA77A]);
   (0xA77B, [0xA77C]); (0xA77D, [0x1D79]); (0xA77E, [0xA77F]); (0xA780, [0xA781]);
   (0xA782, [0xA783]); (0xA784, [0xA785]); (0xA786, [0xA787]); (0xA78B, [0xA78C]);
   (0xA78D, [0x265]); (0xA790, [0xA791]); (0xA792, [0xA793]); (0xA796, [0xA797]);
   (0xA798, [0xA799]); (0xA79A, [0xA79B]); (0xA79C, [0xA79D]); (0xA79E, [0xA79F]);
   (0xA7A0, [0xA7A1]); (0xA7A2, [0xA7A3]); (0xA7A4, [0xA7A5]); (0xA7A6, [0xA7A7]);
   (0xA7A8, [0xA7A9]); (0xA7AA, [0x266]); (0xA7AB, [0x25C]); (0xA7AC, [0x261]);
   (0xA7AD, [0x26C]); (0xA7AE, [0x26A]); (0xA7B0, [0x29E]); (0xA7B1, [0x287]);
   (0xA7B2, [0x29D]); (0xA7B3, [0xAB53]); (0xA7B4, [0xA7B5]); (0xA7B6, [0xA7B7]);
   (0xA7B8, [0xA7B9]); (0xA7BA, [0xA7BB]); (0xA7BC, [0xA7BD]); (0xA7BE, [0xA7BF]);
   (0xA7C0, [0xA7C1]); (0xA7C2, [0xA7C3]); (0xA7C4, [0xA794]); (0xA7C5, [0x282]);
   (0xA7C6, [0x1D8E]); (0xA7C7, [0xA7C8]); (0xA7C9, [0xA7CA]); (0xA7D0, [0xA7D1]);
   (0xA7D6, [0xA7D7]); (0xA7D8, [0xA7D9]); (0xA7F5, [0xA7F6]); (0xFF21, [0xFF41]);
   (0xFF22, [0xFF42]); (0xFF23, [0xFF43]); (0xFF24, [0xFF44]); (0xFF25, [0xFF45]);
   (0xFF26, [0xFF46]); (0xFF27, [0xFF47]); (0xFF28, [0xFF48]); (0xFF29, [0xFF49]);
   (0xFF2A, [0xFF4A]); (0xFF2B, [0xFF4B]); (0xFF2C, [0xFF4C]); (0xFF2D, [0xFF4D]);
   (0xFF2E, [0xFF4E]); (0xFF2F, [0xFF4F]); (0xFF30, [0xFF50]); (0xFF31, [0xFF51]);
   (0xFF32, [0xFF52]); (0xFF33, [0xFF53]); (0xFF34, [0xFF54]); (0xFF35, [0xFF55]);
   (0xFF36, [0xFF56]); (0xFF37, [0xFF57]); (0xFF38, [0xFF58]); (0xFF39, [0xFF59]);
   (0xFF3A, [0xFF5A]); (0x10400, [0x10428]); (0x10401, [0x10429]); (0x10402, [0x1042A]);
   (0x10403, [0x1042B]); (0x10404, [0x1042C]); (0x10405, [0x1042D]); (0x10406, [0x1042E]);
   (0x10407, [0x1042F]); (0x10408, [0x10430]); (0x10409, [0x10431]); (0x1040A, [0x10432]);
   (0x1040B, [0x10433]); (0x1040C, [0x10434]); (0x1040D, [0x10435]); (0x1040E, [0x10436]);
   (0x1040F, [0x10437]); (0x10410, [0x10438]); (0x10411, [0x10439]); (0x10412, [0x1043A]);
   (0x10413, [0x1043B]); (0x10414, [0x1043C]); (0x10415, [0x1043D]); (0x10416, [0x1043E]);
   (0x10417, [0x1043F]); (0x10418, [0x10440]); (0x10419, [0x10441]); (0x1041A, [0x10442])].

Definition lowercase_mapping_6 : list (N * list N) :=
  [(0x1041B, [0x10443]); (0x1041C, [0x10444]); (0x1041D, [0x10445]); (0x1041E, [0x10446]);
   (0x1041F, [0x10447]); (0x10420, [0x10448]); (0x10421, [0x10449]); (0x10422, [0x1044A]);
   (0x10423, [0x1044B]); (0x10424, [0x1044C]); (0x10425, [0x1044D]); (0x10426, [0x1044E]);
   (0x10427, [0x1044F]); (0x104B0, [0x104D8]); (0x104B1, [0x104D9]); (0x104B2, [0x104DA]);
   (0x104B3, [0x104DB]); (0x104B4, [0x104DC]); (0x104B5, [0x104DD]); (0x104B6, [0x104DE]);
   (0x104B7, [0x104DF]); (0x104B8, [0x104E0]); (0x104B9, [0x104E1]); (0x104BA, [0x104E2]);
   (0x104BB, [0x104E3]); (0x104BC, [0x104E4]); (0x104BD, [0x104E5]); (0x104BE, [0x104E6]);
   (0x104BF, [0x104E7]); (0x104C0, [0x104E8]); (0x104C1, [0x104E9]); (0x104C2, [0x104EA]);
   (0x104C3, [0x104EB]); (0x104C4, [0x104EC]); (0x104C5, [0x104ED]); (0x104C6, [0x104EE]);
   (0x104C7, [0x104EF]); (0x104C8, [0x104F0]); (0x104C9, [0x104F1]); (0x104CA, [0x104F2]);
   (0x104CB, [0x104F3]); (0x104CC, [0x104F4]); (0x104CD, [0x104F5]); (0x104CE, [0x104F6]);
   (0x104CF, [0x104F7]); (0x104D0, [0x104F8]); (0x104D1, [0x104F9]); (0x104D2, [0x104FA]);
   (0x104D3, [0x104FB]); (0x10570, [0x10597]); (0x10571, [0x10598]); (0x10572, [0x10599]);
   (0x10573, [0x1059A]); (0x10574, [0x1059B]); (0x10575, [0x1059C]); (0x10576, [0x1059D]);
   (0x10577, [0x1059E]); (0x10578, [0x1059F]); (0x10579, [0x105A0]); (0x1057A, [0x105A1]);
   (0x1057C, [0x105A3]); (0x1057D, [0x105A4]); (0x1057E, [0x105A5]); (0x1057F, [0x105A6]);
   (0x10580, [0x105A7]); (0x10581, [0x105A8]); (0x10582, [0x105A9]); (0x10583, [0x105AA]);
   (0x10584, [0x105AB]); (0x10585, [0x105AC]); (0x10586, [0x105AD]); (0x10587, [0x105AE]);
   (0x10588, [0x105AF]); (0x10589, [0x105B0]); (0x1058A, [0x105B1]); (0x1058C, [0x105B3]);
   (0x1058D, [0x105B4]); (0x1058E, [0x105B5]); (0x1058F, [0x105B6]); (0x10590, [0x105B7]);
   (0x10591, [0x105B8]); (0x10592, [0x105B9]); (0x10594, [0x105BB]); (0x10595, [0x105BC]);
   (0x10C80, [0x10CC0]); (0x10C81, [0x10CC1]); (0x10C82, [0x10CC2]); (0x10C83, [0x10CC3]);
   (0x10C84, [0x10CC4]); (0x10C85, [0x10CC5]); (0x10C86, [0x10CC6]); (0x10C87, [0x10CC7]);
   (0x10C88, [0x10CC8]); (0x10C89, [0x10CC9]); (0x10C8A, [0x10CCA]); (0x10C8B, [0x10CCB]);
   (0x10C8C, [0x10CCC]); (0x10C8D, [0x10CCD]); (0x10C8E, [0x10CCE]); (0x10C8F, [0x10CCF]);
   (0x10C90, [0x10CD0]); (0x10C91, [0x10CD1]); (0x10C92, [0x10CD2]); (0x10C93, [0x10CD3]);
   (0x10C94, [0x10CD4]); (0x10C95, [0x10CD5]); (0x10C96, [0x10CD6]); (0x10C97, [0x10CD7]);
   (0x10C98, [0x10CD8]); (0x10C99, [0x10CD9]); (0x10C9A, [0x10CDA]); (0x10C9B, [0x10CDB]);
   (0x10C9C, [0x10CDC]); (0x10C9D, [0x10CDD]); (0x10C9E, [0x10CDE]); (0x10C9F, [0x10CDF]);
   (0x10CA0, [0x10CE0]); (0x10CA1, [0x10CE1]); (0x10CA2, [0x10CE2]); (0x10CA3, [0x10CE3]);
   (0x10CA4, [0x10CE4]); (0x10CA5, [0x10CE5]); (0x10CA6, [0x10CE6]); (0x10CA7, [0x10CE7]);
   (0x10CA8, [0x10CE8]); (0x10CA9, [0x10CE9]); (0x10CAA, [0x10CEA]); (0x10CAB, [0x10CEB]);
   (0x10CAC, [0x10CEC]); (0x10CAD, [0x10CED]); (0x10CAE, [0x10CEE]); (0x10CAF, [0x10CEF]);
   (0x10CB0, [0x10CF0]); (0x10CB1, [0x10CF1]); (0x10CB2, [0x10CF2]); (0x118A0, [0x118C0]);
   (0x118A1, [0x118C1]); (0x118A2, [0x118C2]); (0x118A3, [0x118C3]); (0x118A4, [0x118C4]);
   (0x118A5, [0x118C5]); (0x118A6, [0x118C6]); (0x118A7, [0x118C7]); (0x118A8, [0x118C8]);
   (0x118A9, [0x118C9]); (0x118AA, [0x118CA]); (0x118AB, [0x118CB]); (0x118AC, [0x118CC]);
   (0x118AD, [0x118CD]); (0x118AE, [0x118CE]); (0x118AF, [0x118CF]); (0x118B0, [0x118D0]);
   (0x118B1, [0x118D1]); (0x118B2, [0x118D2]); (0x118B3, [0x118D3]); (0x118B4, [0x118D4]);
   (0x118B5, [0x118D5]); (0x118B6, [0x118D6]); (0x118B7, [0x118D7]); (0x118B8, [0x118D8]);
   (0x118B9, [0x118D9]); (0x118BA, [0x118DA]); (0x118BB, [0x118DB]); (0x118BC, [0x118DC]);
   (0x118BD, [0x118DD]); (0x118BE, [0x118DE]); (0x118BF, [0x118DF]); (0x16E40, [0x16E60]);
   (0x16E41, [0x16E61]); (0x16E42, [0x16E62]); (0x16E43, [0x16E63]); (0x16E44, [0x16E64]);
   (0x16E45, [0x16E65]); (0x16E46, [0x16E66]); (0x16E47, [0x16E67]); (0x16E48, [0x16E68]);
   (0x16E49, [0x16E69]); (0x16E4A, [0x16E6A]); (0x16E4B, [0x16E6B]); (0x16E4C, [0x16E6C]);
   (0x16E4D, [0x16E6D]); (0x16E4E, [0x16E6E]); (0x16E4F, [0x16E6F]); (0x16E50, [0x16E70]);
   (0x16E51, [0x16E71]); (0x16E52, [0x16E72]); (0x16E53, [0x16E73]); (0x16E54, [0x16E74]);
   (0x16E55, [0x16E75]); (0x16E56, [0x16E76]); (0x16E57, [0x16E77]); (0x16E58, [0x16E78]);
   (0x16E59, [0x16E79]); (0x16E5A, [0x16E7A]); (0x16E5B, [0x16E7B]); (0x16E5C, [0x16E7C]);
   (0x16E5D, [0x16E7D]); (0x16E5E, [0x16E7E]); (0x16E5F, [0x16E7F]); (0x1E900, [0x1E922]);
   (0x1E901, [0x1E923]); (0x1E902, [0x1E924]); (0x1E903, [0x1E925]); (0x1E904, [0x1E926]);
   (0x1E905, [0x1E927]); (0x1E906, [0x1E928]); (0x1E907, [0x1E929]); (0x1E908, [0x1E92A]);
   (0x1E909, [0x1E92B]); (0x1E90A, [0x1E92C]); (0x1E90B, [0x1E92D]); (0x1E90C, [0x1E92E]);
   (0x1E90D, [0x1E92F]); (0x1E90E, [0x1E930]); (0x1E90F, [0x1E931]); (0x1E910, [0x1E932]);
   (0x1E911, [0x1E933]); (0x1E912, [0x1E934]); (0x1E913, [0x1E935]); (0x1E914, [0x1E936]);
   (0x1E915, [0x1E937]); (0x1E916, [0x1E938]); (0x1E917, [0x1E939]); (0x1E918, [0x1E93A]);
   (0x1E919, [0x1E93B]); (0x1E91A, [0x1E93C]); (0x1E91B, [0x1E93D]); (0x1E91C, [0x1E93E]);
   (0x1E91D, [0x1E93F]); (0x1E91E, [0x1E940]); (0x1E91F, [0x1E941]); (0x1E920, [0x1E942]);
   (0x1E921, [0x1E943])].

(** The characters that [str.lower] changes, in the order of their code points, each with the characters that take its place. *)
Definition lowercase_mapping : list (N * list N) :=
  lowercase_mapping_1 ++ lowercase_mapping_2 ++ lowercase_mapping_3 ++ lowercase_mapping_4 ++ lowercase_mapping_5 ++ lowercase_mapping_6.

Definition case_ignorable_1 : list (N * N) :=
  [(0x27, 0x27); (0x2E, 0x2E); (0x3A, 0x3A); (0x5E, 0x5E); (0x60, 0x60); (0xA8, 0xA8);
   (0xAD, 0xAD); (0xAF, 0xAF); (0xB4, 0xB4); (0xB7, 0xB8); (0x2B0, 0x36F); (0x374, 0x375);
   (0x37A, 0x37A); (0x384, 0x385); (0x387, 0x387); (0x483, 0x489); (0x559, 0x559);
   (0x55F, 0x55F); (0x591, 0x5BD); (0x5BF, 0x5BF); (0x5C1, 0x5C2); (0x5C4, 0x5C5);
   (0x5C7, 0x5C7); (0x5F4, 0x5F4); (0x600, 0x605); (0x610, 0x61A); (0x61C, 0x61C);
   (0x640, 0x640); (0x64B, 0x65F); (0x670, 0x670); (0x6D6, 0x6DD); (0x6DF, 0x6E8);
   (0x6EA, 0x6ED); (0x70F, 0x70F); (0x711, 0x711); (0x730, 0x74A); (0x7A6, 0x7B0);
   (0x7EB, 0x7F5); (0x7FA, 0x7FA); (0x7FD, 0x7FD); (0x816, 0x82D); (0x859, 0x85B);
   (0x888, 0x888); (0x890, 0x891); (0x898, 0x89F); (0x8C9, 0x902); (0x93A, 0x93A);
   (0x93C, 0x93C); (0x941, 0x948); (0x94D, 0x94D); (0x951, 0x957); (0x962, 0x963);
   (0x971, 0x971); (0x981, 0x981); (0x9BC, 0x9BC); (0x9C1, 0x9C4); (0x9CD, 0x9CD);
   (0x9E2, 0x9E3); (0x9FE, 0x9FE); (0xA01, 0xA02); (0xA3C, 0xA3C); (0xA41, 0xA42);
   (0xA47, 0xA48); (0xA4B, 0xA4D); (0xA51, 0xA51); (0xA70, 0xA71); (0xA75, 0xA75);
   (0xA81, 0xA82); (0xABC, 0xABC); (0xAC1, 0xAC5); (0xAC7, 0xAC8); (0xACD, 0xACD);
   (0xAE2, 0xAE3); (0xAFA, 0xAFF); (0xB01, 0xB01); (0xB3C, 0xB3C); (0xB3F, 0xB3F);
   (0xB41, 0xB44); (0xB4D, 0xB4D); (0xB55, 0xB56); (0xB62, 0xB63); (0xB82, 0xB82);
   (0xBC0, 0xBC0); (0xBCD, 0xBCD); (0xC00, 0xC00); (0xC04, 0xC04); (0xC3C, 0xC3C);
   (0xC3E, 0xC40); (0xC46, 0xC48); (0xC4A, 0xC4D); (0xC55, 0xC56); (0xC62, 0xC63);
   (0xC81, 0xC81); (0xCBC, 0xCBC); (0xCBF, 0xCBF); (0xCC6, 0xCC6); (0xCCC, 0xCCD);
   (0xCE2, 0xCE3); (0xD00, 0xD01); (0xD3B, 0xD3C); (0xD41, 0xD44); (0xD4D, 0xD4D);
   (0xD62, 0xD63); (0xD81, 0xD81); (0xDCA, 0xDCA); (0xDD2, 0xDD4); (0xDD6, 0xDD6);
   (0xE31, 0xE31); (0xE34, 0xE3A); (0xE46, 0xE4E); (0xEB1, 0xEB1); (0xEB4, 0xEBC);
   (0xEC6, 0xEC6); (0xEC8, 0xECD); (0xF18, 0xF19); (0xF35, 0xF35); (0xF37, 0xF37);
   (0xF39, 0xF39); (0xF71, 0xF7E); (0xF80, 0xF84); (0xF86, 0xF87); (0xF8D, 0xF97);
   (0xF99, 0xFBC); (0xFC6, 0xFC6); (0x102D, 0x1030); (0x1032, 0x1037); (0x1039, 0x103A);
   (0x103D, 0x103E); (0x1058, 0x1059); (0x105E, 0x1060); (0x1071, 0x1074); (0x1082, 0x1082);
   (0x1085, 0x1086); (0x108D, 0x108D); (0x109D, 0x109D); (0x10FC, 0x10FC); (0x135D, 0x135F);
   (0x1712, 0x1714); (0x1732, 0x1733); (0x1752, 0x1753); (0x1772, 0x1773); (0x17B4, 0x17B5);
   (0x17B7, 0x17BD); (0x17C6, 0x17C6); (0x17C9, 0x17D3); (0x17D7, 0x17D7); (0x17DD, 0x17DD);
   (0x180B, 0x180F); (0x1843, 0x1843); (0x1885, 0x1886); (0x18A9, 0x18A9); (0x1920, 0x1922);
   (0x1927, 0x1928); (0x1932, 0x1932); (0x1939, 0x193B); (0x1A17, 0x1A18); (0x1A1B, 0x1A1B);
   (0x1A56, 0x1A56); (0x1A58, 0x1A5E); (0x1A60, 0x1A60); (0x1A62, 0x1A62); (0x1A65, 0x1A6C);
   (0x1A73, 0x1A7C); (0x1A7F, 0x1A7F); (0x1AA7, 0x1AA7); (0x1AB0, 0x1ACE); (0x1B00, 0x1B03);
   (0x1B34, 0x1B34); (0x1B36, 0x1B3A); (0x1B3C, 0x1B3C); (0x1B42, 0x1B42); (0x1B6B, 0x1B73);
   (0x1B80, 0x1B81); (0x1BA2, 0x1BA5); (0x1BA8, 0x1BA9); (0x1BAB, 0x1BAD); (0x1BE6, 0x1BE6);
   (0x1BE8, 0x1BE9); (0x1BED, 0x1BED); (0x1BEF, 0x1BF1); (0x1C2C, 0x1C33); (0x1C36, 0x1C37);
   (0x1C78, 0x1C7D); (0x1CD0, 0x1CD2); (0x1CD4, 0x1CE0); (0x1CE2, 0x1CE8); (0x1CED, 0x1CED);
   (0x1CF4, 0x1CF4); (0x1CF8, 0x1CF9); (0x1D2C, 0x1D6A); (0x1D78, 0x1D78); (0x1D9B, 0x1DFF);
   (0x1FBD, 0x1FBD); (0x1FBF, 0x1FC1); (0x1FCD, 0x1FCF); (0x1FDD, 0x1FDF); (0x1FED, 0x1FEF);
   (0x1FFD, 0x1FFE); (0x200B, 0x200F); (0x2018, 0x2019); (0x2024, 0x2024); (0x2027, 0x2027);
   (0x202A, 0x202E); (0x2060, 0x2064); (0x2066, 0x206F); (0x2071, 0x2071); (0x207F, 0x207F);
   (0x2090, 0x209C); (0x20D0, 0x20F0); (0x2C7C, 0x2C7D); (0x2CEF, 0x2CF1); (0x2D6F, 0x2D6F);
   (0x2D7F, 0x2D7F); (0x2DE0, 0x2DFF); (0x2E2F, 0x2E2F); (0x3005, 0x3005); (0x302A, 0x302D);
   (0x3031, 0x3035); (0x303B, 0x303B); (0x3099, 0x309E); (0x30FC, 0x30FE); (0xA015, 0xA015);
   (0xA4F8, 0xA4FD); (0xA60C, 0xA60C); (0xA66F, 0xA672); (0xA674, 0xA67D); (0xA67F, 0xA67F);
   (0xA69C, 0xA69F); (0xA6F0, 0xA6F1); (0xA700, 0xA721); (0xA770, 0xA770); (0xA788, 0xA78A);
   (0xA7F2, 0xA7F4); (0xA7F8, 0xA7F9); (0xA802, 0xA802); (0xA806, 0xA806); (0xA80B, 0xA80B);
   (0xA825, 0xA826); (0xA82C, 0xA82C); (0xA8C4, 0xA8C5)].

Definition case_ignorable_2 : list (N * N) :=
  [(0xA8E0, 0xA8F1); (0xA8FF, 0xA8FF); (0xA926, 0xA92D); (0xA947, 0xA951); (0xA980, 0xA982);
   (0xA9B3, 0xA9B3); (0xA9B6, 0xA9B9); (0xA9BC, 0xA9BD); (0xA9CF, 0xA9CF); (0xA9E5, 0xA9E6);
   (0xAA29, 0xAA2E); (0xAA31, 0xAA32); (0xAA35, 0xAA36); (0xAA43, 0xAA43); (0xAA4C, 0xAA4C);
   (0xAA70, 0xAA70); (0xAA7C, 0xAA7C); (0xAAB0, 0xAAB0); (0xAAB2, 0xAAB4); (0xAAB7, 0xAAB8);
   (0xAABE, 0xAABF); (0xAAC1, 0xAAC1); (0xAADD, 0xAADD); (0xAAEC, 0xAAED); (0xAAF3, 0xAAF4);
   (0xAAF6, 0xAAF6); (0xAB5B, 0xAB5F); (0xAB69, 0xAB6B); (0xABE5, 0xABE5); (0xABE8, 0xABE8);
   (0xABED, 0xABED); (0xFB1E, 0xFB1E); (0xFBB2, 0xFBC2); (0xFE00, 0xFE0F); (0xFE13, 0xFE13);
   (0xFE20, 0xFE2F); (0xFE52, 0xFE52); (0xFE55, 0xFE55); (0xFEFF, 0xFEFF); (0xFF07, 0xFF07);
   (0xFF0E, 0xFF0E); (0xFF1A, 0xFF1A); (0xFF3E, 0xFF3E); (0xFF40, 0xFF40); (0xFF70, 0xFF70);
   (0xFF9E, 0xFF9F); (0xFFE3, 0xFFE3); (0xFFF9, 0xFFFB); (0x101FD, 0x101FD);
   (0x102E0, 0x102E0); (0x10376, 0x1037A); (0x10780, 0x10785); (0x10787, 0x107B0);
   (0x107B2, 0x107BA); (0x10A01, 0x10A03); (0x10A05, 0x10A06); (0x10A0C, 0x10A0F);
   (0x10A38, 0x10A3A); (0x10A3F, 0x10A3F); (0x10AE5, 0x10AE6); (0x10D24, 0x10D27);
   (0x10EAB, 0x10EAC); (0x10F46, 0x10F50); (0x10F82, 0x10F85); (0x11001, 0x11001);
   (0x11038, 0x11046); (0x11070, 0x11070); (0x11073, 0x11074); (0x1107F, 0x11081);
   (0x110B3, 0x110B6); (0x110B9, 0x110BA); (0x110BD, 0x110BD); (0x110C2, 0x110C2);
   (0x110CD, 0x110CD); (0x11100, 0x11102); (0x11127, 0x1112B); (0x1112D, 0x11134);
   (0x11173, 0x11173); (0x11180, 0x11181); (0x111B6, 0x111BE); (0x111C9, 0x111CC);
   (0x111CF, 0x111CF); (0x1122F, 0x11231); (0x11234, 0x11234); (0x11236, 0x11237);
   (0x1123E, 0x1123E); (0x112DF, 0x112DF); (0x112E3, 0x112EA); (0x11300, 0x11301);
   (0x1133B, 0x1133C); (0x11340, 0x11340); (0x11366, 0x1136C); (0x11370, 0x11374);
   (0x11438, 0x1143F); (0x11442, 0x11444); (0x11446, 0x11446); (0x1145E, 0x1145E);
   (0x114B3, 0x114B8); (0x114BA, 0x114BA); (0x114BF, 0x114C0); (0x114C2, 0x114C3);
   (0x115B2, 0x115B5); (0x115BC, 0x115BD); (0x115BF, 0x115C0); (0x115DC, 0x115DD);
   (0x11633, 0x1163A); (0x1163D, 0x1163D); (0x1163F, 0x11640); (0x116AB, 0x116AB);
   (0x116AD, 0x116AD); (0x116B0, 0x116B5); (0x116B7, 0x116B7); (0x1171D, 0x1171F);
   (0x11722, 0x11725); (0x11727, 0x1172B); (0x1182F, 0x11837); (0x11839, 0x1183A);
   (0x1193B, 0x1193C); (0x1193E, 0x1193E); (0x11943, 0x11943); (0x119D4, 0x119D7);
   (0x119DA, 0x119DB); (0x119E0, 0x119E0); (0x11A01, 0x11A0A); (0x11A33, 0x11A38);
   (0x11A3B, 0x11A3E); (0x11A47, 0x11A47); (0x11A51, 0x11A56); (0x11A59, 0x11A5B);
   (0x11A8A, 0x11A96); (0x11A98, 0x11A99); (0x11C30, 0x11C36); (0x11C38, 0x11C3D);
   (0x11C3F, 0x11C3F); (0x11C92, 0x11CA7); (0x11CAA, 0x11CB0); (0x11CB2, 0x11CB3);
   (0x11CB5, 0x11CB6); (0x11D31, 0x11D36); (0x11D3A, 0x11D3A); (0x11D3C, 0x11D3D);
   (0x11D3F, 0x11D45); (0x11D47, 0x11D47); (0x11D90, 0x11D91); (0x11D95, 0x11D95);
   (0x11D97, 0x11D97); (0x11EF3, 0x11EF4); (0x13430, 0x13438); (0x16AF0, 0x16AF4);
   (0x16B30, 0x16B36); (0x16B40, 0x16B43); (0x16F4F, 0x16F4F); (0x16F8F, 0x16F9F);
   (0x16FE0, 0x16FE1); (0x16FE3, 0x16FE4); (0x1AFF0, 0x1AFF3); (0x1AFF5, 0x1AFFB);
   (0x1AFFD, 0x1AFFE); (0x1BC9D, 0x1BC9E); (0x1BCA0, 0x1BCA3); (0x1CF00, 0x1CF2D);
   (0x1CF30, 0x1CF46); (0x1D167, 0x1D169); (0x1D173, 0x1D182); (0x1D185, 0x1D18B);
   (0x1D1AA, 0x1D1AD); (0x1D242, 0x1D244); (0x1DA00, 0x1DA36); (0x1DA3B, 0x1DA6C);
   (0x1DA75, 0x1DA75); (0x1DA84, 0x1DA84); (0x1DA9B, 0x1DA9F); (0x1DAA1, 0x1DAAF);
   (0x1E000, 0x1E006); (0x1E008, 0x1E018); (0x1E01B, 0x1E021); (0x1E023, 0x1E024);
   (0x1E026, 0x1E02A); (0x1E130, 0x1E13D); (0x1E2AE, 0x1E2AE); (0x1E2EC, 0x1E2EF);
   (0x1E8D0, 0x1E8D6); (0x1E944, 0x1E94B); (0x1F3FB, 0x1F3FF); (0xE0001, 0xE0001);
   (0xE0020, 0xE007F); (0xE0100, 0xE01EF)].

(** The ranges of the characters with the property Case_Ignorable. *)
Definition case_ignorable : list (N * N) :=
  case_ignorable_1 ++ case_ignorable_2.

Definition cased_letters_1 : list (N * N) :=
  [(0x41, 0x5A); (0x61, 0x7A); (0xAA, 0xAA); (0xB5, 0xB5); (0xBA, 0xBA); (0xC0, 0xD6);
   (0xD8, 0xF6); (0xF8, 0x1BA); (0x1BC, 0x1BF); (0x1C4, 0x293); (0x295, 0x2AF); (0x370, 0x373);
   (0x376, 0x377); (0x37B, 0x37D); (0x37F, 0x37F); (0x386, 0x386); (0x388, 0x38A);
   (0x38C, 0x38C); (0x38E, 0x3A1); (0x3A3, 0x3F5); (0x3F7, 0x481); (0x48A, 0x52F);
   (0x531, 0x556); (0x560, 0x588); (0x10A0, 0x10C5); (0x10C7, 0x10C7); (0x10CD, 0x10CD);
   (0x10D0, 0x10FA); (0x10FD, 0x10FF); (0x13A0, 0x13F5); (0x13F8, 0x13FD); (0x1C80, 0x1C88);
   (0x1C90, 0x1CBA); (0x1CBD, 0x1CBF); (0x1D00, 0x1D2B); (0x1D6B, 0x1D77); (0x1D79, 0x1D9A);
   (0x1E00, 0x1F15); (0x1F18, 0x1F1D); (0x1F20, 0x1F45); (0x1F48, 0x1F4D); (0x1F50, 0x1F57);
   (0x1F59, 0x1F59); (0x1F5B, 0x1F5B); (0x1F5D, 0x1F5D); (0x1F5F, 0x1F7D); (0x1F80, 0x1FB4);
   (0x1FB6, 0x1FBC); (0x1FBE, 0x1FBE); (0x1FC2, 0x1FC4); (0x1FC6, 0x1FCC); (0x1FD0, 0x1FD3);
   (0x1FD6, 0x1FDB); (0x1FE0, 0x1FEC); (0x1FF2, 0x1FF4); (0x1FF6, 0x1FFC); (0x2102, 0x2102);
   (0x2107, 0x2107); (0x210A, 0x2113); (0x2115, 0x2115); (0x2119, 0x211D); (0x2124, 0x2124);
   (0x2126, 0x2126); (0x2128, 0x2128); (0x212A, 0x212D); (0x212F, 0x2134); (0x2139, 0x2139);
   (0x213C, 0x213F); (0x2145, 0x2149); (0x214E, 0x214E); (0x2160, 0x217F); (0x2183, 0x2184);
   (0x24B6, 0x24E9); (0x2C00, 0x2C7B); (0x2C7E, 0x2CE4); (0x2CEB, 0x2CEE); (0x2CF2, 0x2CF3);
   (0x2D00, 0x2D25); (0x2D27, 0x2D27); (0x2D2D, 0x2D2D); (0xA640, 0xA66D); (0xA680, 0xA69B);
   (0xA722, 0xA76F); (0xA771, 0xA787); (0xA78B, 0xA78E); (0xA790, 0xA7CA); (0xA7D0, 0xA7D1);
   (0xA7D3, 0xA7D3); (0xA7D5, 0xA7D9); (0xA7F5, 0xA7F6); (0xA7FA, 0xA7FA); (0xAB30, 0xAB5A);
   (0xAB60, 0xAB68); (0xAB70, 0xABBF); (0xFB00, 0xFB06); (0xFB13, 0xFB17); (0xFF21, 0xFF3A);
   (0xFF41, 0xFF5A); (0x10400, 0x1044F); (0x104B0, 0x104D3); (0x104D8, 0x104FB);
   (0x10570, 0x1057A); (0x1057C, 0x1058A); (0x1058C, 0x10592); (0x10594, 0x10595);
   (0x10597, 0x105A1); (0x105A3, 0x105B1); (0x105B3, 0x105B9); (0x105BB, 0x105BC);
   (0x10C80, 0x10CB2); (0x10CC0, 0x10CF2); (0x118A0, 0x118DF); (0x16E40, 0x16E7F);
   (0x1D400, 0x1D454); (0x1D456, 0x1D49C); (0x1D49E, 0x1D49F); (0x1D4A2, 0x1D4A2);
   (0x1D4A5, 0x1D4A6); (0x1D4A9, 0x1D4AC); (0x1D4AE, 0x1D4B9); (0x1D4BB, 0x1D4BB);
   (0x1D4BD, 0x1D4C3); (0x1D4C5, 0x1D505); (0x1D507, 0x1D50A); (0x1D50D, 0x1D514);
   (0x1D516, 0x1D51C); (0x1D51E, 0x1D539); (0x1D53B, 0x1D53E); (0x1D540, 0x1D544);
   (0x1D546, 0x1D546); (0x1D54A, 0x1D550); (0x1D552, 0x1D6A5); (0x1D6A8, 0x1D6C0);
   (0x1D6C2, 0x1D6DA); (0x1D6DC, 0x1D6FA); (0x1D6FC, 0x1D714); (0x1D716, 0x1D734);
   (0x1D736, 0x1D74E); (0x1D750, 0x1D76E); (0x1D770, 0x1D788); (0x1D78A, 0x1D7A8);
   (0x1D7AA, 0x1D7C2); (0x1D7C4, 0x1D7CB); (0x1DF00, 0x1DF09); (0x1DF0B, 0x1DF1E);
   (0x1E900, 0x1E943); (0x1F130, 0x1F149); (0x1F150, 0x1F169); (0x1F170, 0x1F189)].

(** The ranges of the characters with the property Cased that are not Case_Ignorable. *)
Definition cased_letters : list (N * N) :=
  cased_letters_1.

(** The characters from U+0080 on that [str.isspace] takes as blanks. *)
Definition spaces : list N :=
  [0x85; 0xA0; 0x1680; 0x2000; 0x2001; 0x2002; 0x2003; 0x2004; 0x2005; 0x2006; 0x2007; 0x2008;
   0x2009; 0x200A; 0x2028; 0x2029; 0x202F; 0x205F; 0x3000].

(** The digit zero of each script: the nine characters after it are its
    digits one to nine. *)
Definition zeros : list N :=
  [0x30; 0x660; 0x6F0; 0x7C0; 0x966; 0x9E6; 0xA66; 0xAE6; 0xB66; 0xBE6; 0xC66; 0xCE6; 0xD66;
   0xDE6; 0xE50; 0xED0; 0xF20; 0x1040; 0x1090; 0x17E0; 0x1810; 0x1946; 0x19D0; 0x1A80; 0x1A90;
   0x1B50; 0x1BB0; 0x1C40; 0x1C50; 0xA620; 0xA8D0; 0xA900; 0xA9D0; 0xA9F0; 0xAA50; 0xABF0;
   0xFF10; 0x104A0; 0x10D30; 0x11066; 0x110F0; 0x11136; 0x111D0; 0x112F0; 0x11450; 0x114D0;
   0x11650; 0x116C0; 0x11730; 0x118E0; 0x11950; 0x11C50; 0x11D50; 0x11DA0; 0x16A60; 0x16AC0;
   0x16B50; 0x1D7CE; 0x1D7D8; 0x1D7E2; 0x1D7EC; 0x1D7F6; 0x1E140; 0x1E2F0; 0x1E950; 0x1FBF0].

(** Lookup in a table sorted by code point. *)
Fixpoint in_ranges (c : N) (ranges : list (N * N)) : bool :=
  match ranges with
  | [] => false
  | (lo, hi) :: ranges' =>
      if c <? lo then false else if c <=? hi then true else in_ranges c ranges'
  end.

Fixpoint mapping_of (c : N) (table : list (N * list N)) : option (list N) :=
  match table with
  | [] => None
  | (k, v) :: table' =>
      if c <? k then None else if c =? k then Some v else mapping_of c table'
  end.

(** The lowercase of one character out of context. *)
Definition lower_point (c : N) : list N :=
  match mapping_of c lowercase_mapping with
  | Some l => l
  | None => [c]
  end.

Definition ignorable (c : N) : bool := in_ranges c case_ignorable.
Definition cased (c : N) : bool := in_ranges c cased_letters.

(** The first character that is not case-ignorable is a cased letter. *)
Fixpoint cased_ahead (l : list N) : bool :=
  match l with
  | [] => false
  | c :: l' => if ignorable c then cased_ahead l' else cased c
  end.

Definition capital_sigma : N := 0x3A3.

(** [str.lower()] on code points.  A capital sigma becomes the final sigma
    U+03C2 when a cased letter stands before it and none after it,
    case-ignorable characters between them set aside, and the sigma U+03C3
    otherwise; [after_cased] tells whether the last character before that is
    not case-ignorable is a cased letter. *)
Fixpoint lower_points (after_cased : bool) (l : list N) : list N :=
  match l with
  | [] => []
  | c :: l' =>
      (if c =? capital_sigma
       then [if after_cased && negb (cased_ahead l') then 0x3C2 else 0x3C3]
       else lower_point c)
      ++ lower_points (if ignorable c then after_cased else cased c) l'
  end.

(** A character that [lower_points] leaves alone wherever it stands. *)
Definition stable (c : N) : bool :=
  bool_decide (lower_point c = [c]) && negb (c =? capital_sigma) && scalar c.

(** The decimal value of a digit of any script. *)
Fixpoint digit_from (c : N) (zeros : list N) : option N :=
  match zeros with
  | [] => None
  | z :: zeros' =>
      if c <? z then None else if c <=? z + 9 then Some (c - z) else digit_from c zeros'
  end.
Definition decimal (c : N) : option N := digit_from c (0x30 :: zeros).

(** What [int] and [float] make of a string before they read it: a
    character from U+007F on becomes a blank when it is one, the ASCII digit
    of its value when it is a decimal digit, and ends the reading with an
    error otherwise. *)
Fixpoint to_ascii (l : list N) : option (list N) :=
  match l with
  | [] => Some []
  | c :: l' =>
      if c <? 0x7F then cons c <$> to_ascii l'
      else if bool_decide (c ∈ spaces) then cons 0x20 <$> to_ascii l'
      else
        match decimal c with
        | Some d => cons (0x30 + d) <$> to_ascii l'
        | None => None
        end
  end.

End Unicode.

(** ** Python strings *)

Module Str.

(** [str.lower()]; bytes that are not the encoding of a text, which no
    Python string holds, are left as they are. *)
Definition lower (s : string) : string :=
  match Unicode.decode (Unicode.bytes s) with
  | Some points => Unicode.of_bytes (Unicode.encode (Unicode.lower_points false points))
  | None => s
  end.

Fixpoint startswith (p s : string) : bool :=
  match p, s with
  | EmptyString, _ => true
  | String a p', String b s' => if Ascii.eqb a b then startswith p' s' else false
  | String _ _, EmptyString => false
  end.

(** [sub in s] *)
Fixpoint contains (sub s : string) : bool :=
  startswith sub s ||
  match s with
  | EmptyString => false
  | String _ s' => contains sub s'
  end.

Definition join (sep : string) (l : list string) : string :=
  match l with
  | [] => ""
  | x :: l' => fold_left (fun acc y => acc +:+ sep +:+ y) l' x
  end.

(** [repr] of a string without quotes or escapes in it. *)
Definition repr (s : string) : string := "'" +:+ s +:+ "'".

(** [repr] of a set of strings; Python leaves the order of the elements
    open, the model lists them in the order of [elements]. *)
Definition repr_set (X : gset string) : string :=
  match elements X with
  | [] => "set()"
  | l => "{" +:+ join ", " (map repr l) +:+ "}"
  end.

Definition repr_list (l : list string) : string := "[" +:+ join ", " l +:+ "]".

End Str.

(** ** Exceptions *)

Inductive exn : Type :=
| ValueError (msg : string)
| NameError (msg : string)
| ParseError (msg : string)        (* class ParseError(NameError) *)
| UnboundLocalError (msg : string)
| AttributeError (msg : string)
| TypeError (msg : string)
| IndexError (msg : string)
| KeyError (msg : string)
| ZeroDivisionError (msg : string)
| SyntaxError (msg : string)
| OSError (msg : string)
| FileNotFoundError (msg : string).   (* class FileNotFoundError(OSError) *)

(** [str(e)] *)
Definition exn_str (e : exn) : string :=
  match e with
  | ValueError m | NameError m | ParseError m | UnboundLocalError m
  | AttributeError m | TypeError m | IndexError m | KeyError m
  | ZeroDivisionError m | SyntaxError m | OSError m | FileNotFoundError m => m
  end.

(** [type(e) is ParseError] *)
Definition is_ParseError (e : exn) : bool :=
  match e with ParseError _ => true | _ => false end.

Definition result (A : Type) : Type := (exn + A)%type.

Definition Return {A} (a : A) : result A := inr a.
Definition Raise {A} (e : exn) : result A := inl e.

Definition result_bind {A B} (m : result A) (k : A -> result B) : result B :=
  match m with
  | inl e => inl e
  | inr a => k a
  end.

Definition result_map {A B} (f : A -> B) (m : result A) : result B :=
  match m with
  | inl e => inl e
  | inr a => inr (f a)
  end.

Declare Scope result_scope.
Delimit Scope result_scope with result.
Notation "x <- e1 ;; e2" := (result_bind e1 (fun x => e2))
  (at level 100, e1 at next level, right associativity) : result_scope.
Notation "e1 ;; e2" := (result_bind e1 (fun _ => e2))
  (at level 100, right associativity) : result_scope.

(** [[f(x) for x in l]], stopping at the first exception. *)
Fixpoint traverse {A B} (f : A -> result B) (l : list A) : result (list B) :=
  match l with
  | [] => Return []
  | x :: l' =>
      (y <- f x ;;
       ys <- traverse f l' ;;
       Return (y :: ys))%result
  end.

(** [for x in l: f(x)] *)
Fixpoint for_each {A} (f : A -> result unit) (l : list A) : result unit :=
  match l with
  | [] => Return tt
  | x :: l' => (f x ;; for_each f l')%result
  end.

(** [for x in l: s = f(x, s)], stopping at the first exception. *)
Fixpoint foldM {A S} (f : A -> S -> result S) (l : list A) (s : S) : result S :=
  match l with
  | [] => Return s
  | x :: l' => (s' <- f x s ;; foldM f l' s')%result
  end.

(** ** Values held by the IR *)

(** Modelled from the spec: the waveform classes of [HighLevelElement],
    missing from the sources, are the tags returned with the parameters of a
    transient specification. *)
Inductive waveform_class : Type :=
| PulseMixin | SinusoidalMixin | PatternMixin.

(** Modelled from the spec: the expression classes of [Expressions] and the
    unit values of [Unit] are missing from the sources; a device parameter
    holds either a primitive value or an expression node.  Kept here are the
    numbers, the strings and the nodes the walker itself builds: [V(a, b)],
    [I(d)] and the product made by [*], and the pair of a waveform class and
    its parameters that a transient specification is walked to. *)
Inductive pyvalue : Type :=
| PStr (s : string)
| PInt (z : Z)
| PFloat (literal : string)
| PBool (b : bool)
| PV (positive negative : option string)
| PI (device : string)
| PMul (l r : pyvalue)
| PTransient (waveform : waveform_class) (parameters : gmap string pyvalue).

(** A node of an element: a name, or an integer such as the ground 0. *)
Inductive pynode : Type :=
| NStr (s : string)
| NInt (z : Z).

Abbreviation kwargs := (gmap string pyvalue).

(** Modelled from the spec: the element classes of [BasicElement], missing
    from the sources, are the device-class tags handed to
    [ElementStatement]. *)
Inductive element_class : Type :=
| BehavioralSource | BipolarJunctionTransistor | Capacitor | CoupledInductor
| CurrentSource | Diode | Inductor | JunctionFieldEffectTransistor | Mosfet
| Resistor | SubCircuitElement | VoltageControlledSwitch | VoltageSource.

(** ** Python builtins *)

Module Py.

Definition is_digit (c : N) : bool := Unicode.between 0x30 0x39 c.

(** The blanks that [int] and [float] drop at both ends: tab, line feed,
    vertical tab, form feed, carriage return and space. *)
Definition is_space (c : N) : bool := Unicode.between 0x09 0x0D c || (c =? 0x20)%N.

Fixpoint lstrip (l : list N) : list N :=
  match l with
  | c :: l' => if is_space c then lstrip l' else l
  | [] => []
  end.
Definition strip (l : list N) : list N := rev (lstrip (rev (lstrip l))).

(** An optional sign: [true] for a minus. *)
Definition strip_sign (l : list N) : bool * list N :=
  match l with
  | 0x2D%N :: l' => (true, l')
  | 0x2B%N :: l' => (false, l')
  | _ => (false, l)
  end.

(** The digits that follow a digit, where one underscore may stand between
    two digits: their value added to [acc], and what follows them. *)
Fixpoint more_digits (acc : Z) (l : list N) : Z * list N :=
  match l with
  | c :: l' =>
      if is_digit c then more_digits (acc * 10 + Z.of_N (c - 0x30)) l'
      else if (c =? 0x5F)%N then
        match l' with
        | d :: l'' =>
            if is_digit d then more_digits (acc * 10 + Z.of_N (d - 0x30)) l'' else (acc, l)
        | [] => (acc, l)
        end
      else (acc, l)
  | [] => (acc, l)
  end.

(** A group of digits at the front, if there is one. *)
Definition digits (l : list N) : option (Z * list N) :=
  match l with
  | c :: l' => if is_digit c then Some (more_digits (Z.of_N (c - 0x30)) l') else None
  | [] => None
  end.

(** The code points of a string as [int] and [float] read them. *)
Definition numeral (s : string) : option (list N) :=
  points ← Unicode.decode (Unicode.bytes s);
  strip <$> Unicode.to_ascii points.

(** [int(s)] in base ten, [None] for the [ValueError]: blanks, a sign, and
    digits with single underscores between them. *)
Definition int (s : string) : option Z :=
  l ← numeral s;
  let '(neg, l) := strip_sign l in
  '(v, rest) ← digits l;
  match rest with
  | [] => Some (if neg then (- v)%Z else v)
  | _ :: _ => None
  end.

(** The letters of [word] at the front of [l], in upper or lower case. *)
Fixpoint letters (word l : list N) : option (list N) :=
  match word, l with
  | [], _ => Some l
  | w :: word', c :: l' =>
      if (c =? w)%N || (c + 0x20 =? w)%N then letters word' l' else None
  | _ :: _, [] => None
  end.

Definition is_word (word : string) (l : list N) : bool :=
  bool_decide (letters (Unicode.bytes word) l = Some []).

(** [float(s)], [None] for the [ValueError]: blanks, a sign, and then one of
    the words [inf], [infinity] and [nan] or a decimal literal with an
    optional fraction and exponent.  The float is kept as the string it was
    read from. *)
Definition float (s : string) : option string :=
  l ← numeral s;
  let '(_, l) := strip_sign l in
  if is_word "inf" l || is_word "infinity" l || is_word "nan" l then Some s
  else
    let '(whole, l) := match digits l with Some (_, r) => (true, r) | None => (false, l) end in
    let '(fraction, l) :=
      match l with
      | 0x2E%N :: r =>
          match digits r with Some (_, r') => (true, r') | None => (false, r) end
      | _ => (false, l)
      end in
    if negb (whole || fraction) then None
    else
      match l with
      | [] => Some s
      | c :: r =>
          if (c =? 0x65)%N || (c =? 0x45)%N then
            let '(_, r) := strip_sign r in
            match digits r with
            | Some (_, []) => Some s
            | _ => None
            end
          else None
      end.

(** [str(x)] of a node. *)
Definition str (n : pynode) : string :=
  match n with
  | NStr s => s
  | NInt z => pretty z
  end.

(** [dict(pairs)]: a later pair replaces an earlier one of the same key. *)
Definition dict {V} (pairs : list (string * V)) : gmap string V :=
  fold_left (fun m (kv : string * V) => <[fst kv := snd kv]> m) pairs ∅.

(** A [dict] with its order: the entries stand in the order in which
    their keys were first set. *)
Abbreviation items := (list (string * pyvalue)).

(** [d[k] = v]: a new key goes to the end, a key of the dict keeps its
    place. *)
Fixpoint set_item (k : string) (v : pyvalue) (d : items) : items :=
  match d with
  | [] => [(k, v)]
  | (k', v') :: d' =>
      if bool_decide (k = k') then (k, v) :: d' else (k', v') :: set_item k v d'
  end.

(** [result = {}; for parameter in pairs: result.update(parameter)] *)
Definition ordered_dict (pairs : list (string * pyvalue)) : items :=
  fold_left (fun d (kv : string * pyvalue) => set_item (fst kv) (snd kv) d) pairs [].

(** [d.update(e)]: the entries of [e] win. *)
Definition update {V} (d e : gmap string V) : gmap string V := e ∪ d.

(** [l[idx::step]] for [0 < step]. *)
Definition slice_from_step {A} (idx step : nat) (l : list A) : list A :=
  map snd (filter (fun p : nat * A => (idx <=? fst p)%nat && ((fst p - idx) mod step =? 0)%nat)
             (imap pair l)).

(** A call [f(a, ..., **kw)] fails when [kw] names a parameter that is
    already bound positionally. *)
Definition check_keywords {V} (fn : string) (positional : list string) (kw : gmap string V)
    : result unit :=
  match filter (fun k => bool_decide (is_Some (kw !! k))) positional with
  | [] => Return tt
  | k :: _ => Raise (TypeError (fn +:+ "() got multiple values for argument '" +:+ k +:+ "'"))
  end.

End Py.

(** ** The sink of [build] *)

Module Netlist.

(** Modelled from the spec: the netlist object model ([Netlist.Circuit],
    [Netlist.SubCircuit]) is missing from the sources; it is the opaque sink
    that [build] drives by [parameter], [model], [subcircuit] and the
    instantiation of elements.  A netlist is kept as its constructor
    arguments and the calls it has received, in order; it accepts every
    call, so an exception that a netlist class could raise is outside the
    model. *)
Inductive t : Type :=
| mk (name : string) (nodes : list string) (parameters : kwargs) (calls : list call)
with call : Type :=
| CallParameter (name : string) (value : pyvalue)          (* circuit.parameter(name, value) *)
| CallModel (name type : string) (parameters : kwargs)     (* circuit.model(name, type, **kw) *)
| CallSubcircuit (subcircuit : t)                          (* circuit.subcircuit(subckt) *)
| CallElement (cls : element_class) (name : string) (nodes : list pynode)
    (parameters : kwargs).                             (* cls(circuit, name, *nodes, **kw) *)

Definition calls_of (n : t) : list call := match n with mk _ _ _ c => c end.

Definition Circuit (title : string) : t := mk title [] ∅ [].
Definition SubCircuit (name : string) (nodes : list string) (parameters : kwargs) : t :=
  mk name nodes parameters [].

Definition receive (c : call) (n : t) : t :=
  match n with mk name nodes parameters calls => mk name nodes parameters (calls ++ [c]) end.

(** The element instantiations a netlist has received. *)
Definition is_element (c : call) : bool :=
  match c with CallElement _ _ _ _ => true | _ => false end.
Definition elements_of (n : t) : list call := filter (fun c => is_element c) (calls_of n).

End Netlist.

(** ** The statements of the IR *)

Module DataStatement.
Record t : Type := mk {
  _table : string;
  _parameters : gmap string (list pyvalue)
}.
Definition table (s : t) : string := _table s.
End DataStatement.

Module IncludeStatement.
Record t : Type := mk { _include : string }.
End IncludeStatement.

Module ModelStatement.
Record t : Type := mk {
  _name : string;
  _model_type : string;
  _parameters : kwargs
}.
Definition name (s : t) : string := _name s.

Definition build (s : t) (circuit : Netlist.t) : Netlist.t :=
  Netlist.receive (Netlist.CallModel (_name s) (_model_type s) (_parameters s)) circuit.
End ModelStatement.

Module ParamStatement.
Record t : Type := mk { _parameters : Py.items }.

(** [for key, value in self._parameters.items(): circuit.parameter(key, value)]:
    the entries come in the order of the dict. *)
Definition build (s : t) (circuit : Netlist.t) : Netlist.t :=
  fold_left (fun c (kv : string * pyvalue) =>
               Netlist.receive (Netlist.CallParameter (fst kv) (snd kv)) c)
    (_parameters s) circuit.
End ParamStatement.

Module ElementStatement.
Record t : Type := mk {
  _statement : element_class;
  _prefix : ascii;
  _name : string;
  _nodes : list pynode;
  _params : kwargs
}.

(** [__init__(self, statement, name, *nodes, **params)]: [name[0]] is the
    prefix, [name[1:]] the name. *)
Definition __init__ (statement : element_class) (name : string)
    (nodes : list pynode) (params : kwargs) : result t :=
  match name with
  | EmptyString => Raise (IndexError "string index out of range")
  | String c rest => Return (mk statement c rest nodes params)
  end.

(** [translate_ground_node]: the list it returns is never filled, and the
    assignment goes to [self._node], an attribute no element has. *)
Definition translate_ground_node (s : t) (ground : pynode) : result (list pynode) :=
  let nodes : list pynode := [] in
  (for_each (fun node =>
               if bool_decide (Py.str node = Py.str ground)
               then Raise (AttributeError
                      "'ElementStatement' object has no attribute '_node'")
               else Return tt) (_nodes s) ;;
   Return nodes)%result.

(** [build(self, circuit, ground=0)]:
    [self._statement(circuit, self._name, *self._nodes, **self._params)]. *)
Definition build (s : t) (circuit : Netlist.t) (ground : pynode) : Netlist.t :=
  Netlist.receive (Netlist.CallElement (_statement s) (_name s) (_nodes s) (_params s)) circuit.
End ElementStatement.

(** What a statement list holds. *)
Inductive Statement : Type :=
| SElement (e : ElementStatement.t)
| SInclude (i : IncludeStatement.t).

(** [if isinstance(statement, ElementStatement): statement.build(circuit, ground)] *)
Definition build_statement (ground : pynode) (circuit : Netlist.t) (statement : Statement)
    : Netlist.t :=
  match statement with
  | SElement e => ElementStatement.build e circuit ground
  | SInclude _ => circuit
  end.


Module SubCircuitStatement.
Inductive t : Type := mk {
  _name : string;
  _nodes : list string;
  _parameters : kwargs;
  _statements : list Statement;
  _subcircuits : list t;
  _models : list ModelStatement.t;
  _required_subcircuits : gset string;
  _required_models : gset string;
  _params : list ParamStatement.t
}.

Definition name (s : t) : string := _name s.

(** [__init__(self, name, *nodes, **params)] *)
Definition __init__ (name : string) (nodes : list string) (params : kwargs) : t :=
  mk name nodes params [] [] [] ∅ ∅ [].

Definition append (st : Statement) (s : t) : t :=
  mk (_name s) (_nodes s) (_parameters s) (_statements s ++ [st]) (_subcircuits s)
     (_models s) (_required_subcircuits s) (_required_models s) (_params s).
Definition appendModel (m : ModelStatement.t) (s : t) : t :=
  mk (_name s) (_nodes s) (_parameters s) (_statements s) (_subcircuits s)
     (_models s ++ [m]) (_required_subcircuits s) (_required_models s) (_params s).
Definition appendParam (p : ParamStatement.t) (s : t) : t :=
  mk (_name s) (_nodes s) (_parameters s) (_statements s) (_subcircuits s)
     (_models s) (_required_subcircuits s) (_required_models s) (_params s ++ [p]).
Definition appendSubCircuit (c : t) (s : t) : t :=
  mk (_name s) (_nodes s) (_parameters s) (_statements s) (_subcircuits s ++ [c])
     (_models s) (_required_subcircuits s) (_required_models s) (_params s).

Definition add_required_model (m : string) (s : t) : t :=
  mk (_name s) (_nodes s) (_parameters s) (_statements s) (_subcircuits s)
     (_models s) (_required_subcircuits s) ({[m]} ∪ _required_models s) (_params s).
Definition add_required_subcircuit (m : string) (s : t) : t :=
  mk (_name s) (_nodes s) (_parameters s) (_statements s) (_subcircuits s)
     (_models s) ({[m]} ∪ _required_subcircuits s) (_required_models s) (_params s).

(** [self._subcircuits = result] *)
Definition set_subcircuits (l : list t) (s : t) : t :=
  mk (_name s) (_nodes s) (_parameters s) (_statements s) l
     (_models s) (_required_subcircuits s) (_required_models s) (_params s).

(** [build(self, ground=0, parent=None)]; the parent is only stored on the
    sink. *)
Fixpoint build (s : t) (ground : pynode) {struct s} : Netlist.t :=
  let subcircuit := Netlist.SubCircuit (_name s) (_nodes s) (_parameters s) in
  let subcircuit := fold_left (fun c p => ParamStatement.build p c) (_params s) subcircuit in
  let subcircuit := fold_left (fun c m => ModelStatement.build m c) (_models s) subcircuit in
  let subcircuit :=
    fold_left (fun c x => Netlist.receive (Netlist.CallSubcircuit (build x ground)) c)
      (_subcircuits s) subcircuit in
  fold_left (build_statement ground) (_statements s) subcircuit.
End SubCircuitStatement.

Module LibraryStatement.
Record t : Type := mk {
  _entry : string;
  _statements : list Statement;
  _subcircuits : list SubCircuitStatement.t;
  _models : list ModelStatement.t;
  _params : list ParamStatement.t
}.

Definition entry (s : t) : string := _entry s.
Definition __init__ (entry : string) : t := mk entry [] [] [] [].

Definition append (st : Statement) (s : t) : t :=
  mk (_entry s) (_statements s ++ [st]) (_subcircuits s) (_models s) (_params s).
Definition appendModel (m : ModelStatement.t) (s : t) : t :=
  mk (_entry s) (_statements s) (_subcircuits s) (_models s ++ [m]) (_params s).
Definition appendParam (p : ParamStatement.t) (s : t) : t :=
  mk (_entry s) (_statements s) (_subcircuits s) (_models s) (_params s ++ [p]).
Definition appendSubCircuit (c : SubCircuitStatement.t) (s : t) : t :=
  mk (_entry s) (_statements s) (_subcircuits s ++ [c]) (_models s) (_params s).
End LibraryStatement.

Module LibCallStatement.
Record t : Type := mk { _library : string; _entry : string }.

(** [build(self, circuit, libraries)].  The last loop calls
    [statement.build(circuit, parent=circuit)] on the subcircuits of the
    library and drops what it returns: the sink receives nothing from it. *)
Definition build (s : t) (circuit : Netlist.t) (libraries : gmap string LibraryStatement.t)
    : result Netlist.t :=
  match libraries !! _entry s with
  | None => Raise (KeyError (Str.repr (_entry s)))
  | Some library =>
      let circuit :=
        fold_left (fun c p => ParamStatement.build p c) (LibraryStatement._params library)
          circuit in
      let circuit :=
        fold_left (fun c m => ModelStatement.build m c) (LibraryStatement._models library)
          circuit in
      Return circuit
  end.
End LibCallStatement.

Module CircuitStatement.
Record t : Type := mk {
  _path : string;
  _title : string;
  _library_calls : list LibCallStatement.t;
  _statements : list Statement;
  _libraries : gmap string LibraryStatement.t;
  _subcircuits : list SubCircuitStatement.t;
  _models : list ModelStatement.t;
  _required_subcircuits : gset string;
  _required_models : gset string;
  _params : list ParamStatement.t;
  _data : gmap string DataStatement.t
}.

Definition name (c : t) : string := _title c.
Definition models (c : t) := _models c.
Definition subcircuits (c : t) := _subcircuits c.
Definition params (c : t) := _params c.

(** [__init__(self, title, path)]; [path] is the walker's file name. *)
Definition __init__ (title path : string) : t :=
  mk path title [] [] ∅ [] [] ∅ ∅ [] ∅.

Definition append (st : Statement) (c : t) : t :=
  mk (_path c) (_title c) (_library_calls c) (_statements c ++ [st]) (_libraries c)
     (_subcircuits c) (_models c) (_required_subcircuits c) (_required_models c)
     (_params c) (_data c).
Definition appendData (d : DataStatement.t) (c : t) : t :=
  mk (_path c) (_title c) (_library_calls c) (_statements c) (_libraries c)
     (_subcircuits c) (_models c) (_required_subcircuits c) (_required_models c)
     (_params c) (<[DataStatement.table d := d]> (_data c)).
Definition appendLibrary (l : LibraryStatement.t) (c : t) : t :=
  mk (_path c) (_title c) (_library_calls c) (_statements c)
     (<[LibraryStatement.entry l := l]> (_libraries c))
     (_subcircuits c) (_models c) (_required_subcircuits c) (_required_models c)
     (_params c) (_data c).
Definition appendLibraryCall (l : LibCallStatement.t) (c : t) : t :=
  mk (_path c) (_title c) (_library_calls c ++ [l]) (_statements c) (_libraries c)
     (_subcircuits c) (_models c) (_required_subcircuits c) (_required_models c)
     (_params c) (_data c).
Definition appendModel (m : ModelStatement.t) (c : t) : t :=
  mk (_path c) (_title c) (_library_calls c) (_statements c) (_libraries c)
     (_subcircuits c) (_models c ++ [m]) (_required_subcircuits c) (_required_models c)
     (_params c) (_data c).
Definition appendParam (p : ParamStatement.t) (c : t) : t :=
  mk (_path c) (_title c) (_library_calls c) (_statements c) (_libraries c)
     (_subcircuits c) (_models c) (_required_subcircuits c) (_required_models c)
     (_params c ++ [p]) (_data c).
Definition appendSubCircuit (s : SubCircuitStatement.t) (c : t) : t :=
  mk (_path c) (_title c) (_library_calls c) (_statements c) (_libraries c)
     (_subcircuits c ++ [s]) (_models c) (_required_subcircuits c) (_required_models c)
     (_params c) (_data c).

Definition add_required_model (m : string) (c : t) : t :=
  mk (_path c) (_title c) (_library_calls c) (_statements c) (_libraries c)
     (_subcircuits c) (_models c) (_required_subcircuits c) ({[m]} ∪ _required_models c)
     (_params c) (_data c).
Definition add_required_subcircuit (m : string) (c : t) : t :=
  mk (_path c) (_title c) (_library_calls c) (_statements c) (_libraries c)
     (_subcircuits c) (_models c) ({[m]} ∪ _required_subcircuits c) (_required_models c)
     (_params c) (_data c).

Definition set_title (title : string) (c : t) : t :=
  mk (_path c) title (_library_calls c) (_statements c) (_libraries c)
     (_subcircuits c) (_models c) (_required_subcircuits c) (_required_models c)
     (_params c) (_data c).
Definition set_subcircuits (l : list SubCircuitStatement.t) (c : t) : t :=
  mk (_path c) (_title c) (_library_calls c) (_statements c) (_libraries c)
     l (_models c) (_required_subcircuits c) (_required_models c)
     (_params c) (_data c).
(** The two assignments of [SpiceParser.__init__] under [library=True]. *)
Definition set_required (models subcircuits : gset string) (c : t) : t :=
  mk (_path c) (_title c) (_library_calls c) (_statements c) (_libraries c)
     (_subcircuits c) (_models c) subcircuits models
     (_params c) (_data c).

(** [build(self, ground=0)] *)
Definition build (c : t) (ground : pynode) : result Netlist.t :=
  (let circuit := Netlist.Circuit (_title c) in
   circuit <- foldM (fun statement circuit =>
                       LibCallStatement.build statement circuit (_libraries c))
                (_library_calls c) circuit ;;
   let circuit := fold_left (fun c p => ParamStatement.build p c) (_params c) circuit in
   let circuit := fold_left (fun c m => ModelStatement.build m c) (_models c) circuit in
   let circuit :=
     fold_left (fun c x =>
                  Netlist.receive (Netlist.CallSubcircuit (SubCircuitStatement.build x ground)) c)
       (_subcircuits c) circuit in
   Return (fold_left (build_statement ground) (_statements c) circuit))%result.
End CircuitStatement.

(** ** The resolver: [SpiceParser._check_models] and [SpiceParser._sort_subcircuits] *)

Module Resolver.

Import SubCircuitStatement.

(** [{x.lower() for x in available}] *)
Definition lower_set (X : gset string) : gset string := set_map Str.lower X.

(** [[x.name.lower() for x in l]] *)
Definition subcircuit_names (l : list SubCircuitStatement.t) : list string :=
  map (fun s => Str.lower (SubCircuitStatement.name s)) l.
Definition model_names (l : list ModelStatement.t) : list string :=
  map (fun m => Str.lower (ModelStatement.name m)) l.

(** The closing loop of [_check_models]; a Python set is walked in an
    order the language leaves open, the model takes that of [elements]. *)
Fixpoint check_required_models (required : list string) (p_available_models : gset string)
    (name : string) : result unit :=
  match required with
  | [] => Return tt
  | model :: rest =>
      if bool_decide (model ∈ p_available_models)
      then check_required_models rest p_available_models name
      else Raise (ValueError ("Model (" +:+ model +:+ ") not available in (" +:+ name +:+ ")"))
  end.

(** The body of [_check_models] for a scope given by its attributes;
    [check_sub] is the recursive call on a subcircuit. *)
Definition _check_models_scope
    (check_sub : SubCircuitStatement.t -> gset string -> result unit)
    (name : string) (models : list ModelStatement.t)
    (subcircuits : list SubCircuitStatement.t) (required_models : gset string)
    (available_models : gset string) : result unit :=
  let p_available_models := lower_set available_models ∪ list_to_set (model_names models) in
  (for_each (fun subcircuit => check_sub subcircuit p_available_models) subcircuits ;;
   check_required_models (elements required_models) p_available_models name)%result.

Fixpoint _check_models_sub (circuit : SubCircuitStatement.t) (available_models : gset string)
    {struct circuit} : result unit :=
  _check_models_scope _check_models_sub
    (SubCircuitStatement.name circuit) (_models circuit) (_subcircuits circuit)
    (_required_models circuit) available_models.

Definition _check_models (circuit : CircuitStatement.t) (available_models : gset string)
    : result unit :=
  _check_models_scope _check_models_sub
    (CircuitStatement.name circuit) (CircuitStatement._models circuit)
    (CircuitStatement._subcircuits circuit)
    (CircuitStatement._required_models circuit) available_models.

(** An entry of [dependencies.items()]: the subcircuit and what it requires
    from outside itself. *)
Definition item : Type := (SubCircuitStatement.t * gset string)%type.

(** [sorted(items, key=lambda item: len(item[1]))]: a stable sort, so an
    item goes in front of the first one whose key is not smaller. *)
Fixpoint insert_item (x : item) (l : list item) : list item :=
  match l with
  | [] => [x]
  | y :: l' =>
      if (size (snd x) <=? size (snd y))%nat then x :: y :: l' else y :: insert_item x l'
  end.

Definition sorted_items (l : list item) : list item := foldr insert_item [] l.

(** [for name in depends: if name not in result_names: break] reaches its
    [else] branch exactly when no name is missing. *)
Definition all_emitted (depends : gset string) (result_names : list string) : bool :=
  forallb (fun name => bool_decide (name ∈ result_names)) (elements depends).

(** One run of [for item in items] followed by the removals.  Each item
    of [remove] is the very object met in [items] (a subcircuit compares by
    identity), so [items.remove(item)] takes out exactly the entries that
    were emitted: the third component is what stays in [items]. *)
Fixpoint for_items (items : list item) (result : list SubCircuitStatement.t)
    (result_names : list string)
    : list SubCircuitStatement.t * list string * list item :=
  match items with
  | [] => (result, result_names, [])
  | (subckt, depends) :: rest =>
      if all_emitted depends result_names
      then for_items rest (result ++ [subckt])
             (result_names ++ [Str.lower (SubCircuitStatement.name subckt)])
      else
        let '(result', result_names', kept) := for_items rest result result_names in
        (result', result_names', (subckt, depends) :: kept)
  end.

(** [while 0 < len(items) < previous]; [None] when the fuel runs out. *)
Fixpoint while_items (fuel previous : nat) (items : list item)
    (result : list SubCircuitStatement.t) (result_names : list string)
    : option (list item * list SubCircuitStatement.t) :=
  match fuel with
  | O => None
  | S fuel' =>
      if (0 <? length items)%nat && (length items <? previous)%nat then
        let previous := length items in
        let '(result', result_names', items') := for_items items result result_names in
        while_items fuel' previous items' result' result_names'
      else Some (items, result)
  end.

(** The loop from its initial state.  The length of [items] bounds the
    number of rounds ([while_items_total] below), so the fuel suffices and
    the last branch is never taken. *)
Definition sort_loop (items : list item) : list item * list SubCircuitStatement.t :=
  let previous := S (length items) in
  match while_items (S previous) previous items [] [] with
  | Some r => r
  | None => (items, [])
  end.

Fixpoint check_required_subcircuits (required : list string)
    (p_available_subcircuits : gset string) (name : string) : result unit :=
  match required with
  | [] => Return tt
  | subcircuit :: rest =>
      if bool_decide (subcircuit ∈ p_available_subcircuits)
      then check_required_subcircuits rest p_available_subcircuits name
      else Raise (ValueError ("Subcircuit (" +:+ subcircuit +:+ ") not available in ("
                                +:+ name +:+ ")"))
  end.

(** [[(key.name, value) for key, value in items]] as [%s] prints it. *)
Definition repr_items (items : list item) : string :=
  Str.repr_list
    (map (fun it : item =>
            "(" +:+ Str.repr (SubCircuitStatement.name (fst it)) +:+ ", "
                +:+ Str.repr_set (snd it) +:+ ")") items).

(** The body of [_sort_subcircuits]: the new subcircuit list and the
    returned set.  The keys of [dependencies] are the subcircuit objects,
    which compare by identity: the dictionary holds one entry for each
    subcircuit, in the order of the list. *)
Definition _sort_subcircuits_scope
    (sort_sub : SubCircuitStatement.t -> gset string -> result item)
    (name : string) (subcircuits : list SubCircuitStatement.t)
    (required_subcircuits : gset string) (available_subcircuits : gset string)
    : result (list SubCircuitStatement.t * gset string) :=
  let names := subcircuit_names subcircuits in
  let p_available_subcircuits := lower_set available_subcircuits ∪ list_to_set names in
  (dependencies <- traverse (fun subcircuit => sort_sub subcircuit p_available_subcircuits)
                     subcircuits ;;
   check_required_subcircuits (elements required_subcircuits) p_available_subcircuits name ;;
   let items := sorted_items dependencies in
   let '(items', result) := sort_loop items in
   if (0 <? length items')%nat
   then Raise (ValueError ("Crossed dependencies (" +:+ repr_items items' +:+ ")"))
   else Return (result, required_subcircuits ∖ list_to_set names))%result.

Fixpoint _sort_subcircuits_sub (circuit : SubCircuitStatement.t)
    (available_subcircuits : gset string) {struct circuit} : result item :=
  (r <- _sort_subcircuits_scope _sort_subcircuits_sub
          (SubCircuitStatement.name circuit) (_subcircuits circuit)
          (_required_subcircuits circuit) available_subcircuits ;;
   Return (set_subcircuits (fst r) circuit, snd r))%result.

Definition _sort_subcircuits (circuit : CircuitStatement.t)
    (available_subcircuits : gset string) : result (CircuitStatement.t * gset string) :=
  (r <- _sort_subcircuits_scope _sort_subcircuits_sub
          (CircuitStatement.name circuit) (CircuitStatement._subcircuits circuit)
          (CircuitStatement._required_subcircuits circuit) available_subcircuits ;;
   Return (CircuitStatement.set_subcircuits (fst r) circuit, snd r))%result.

End Resolver.


(** ** The syntax tree handed to the walker

    The node classes come from the generated [SpiceModel], which is missing
    from the sources; each record below lists the attributes the walker
    reads.  An attribute the walker passes to [self.walk] holds the walked
    value (a name, a value, a keyword map); an absent optional attribute is
    [None]. *)

Module Node.

(** Modelled from the spec: the value of a name attribute, possibly given
    twice as in [.subckt X ... .ends X] or [.lib X ... .endl X]. *)
Inductive names : Type :=
| Single (s : string)
| Pair (first second : string).

(** Modelled from the spec: a Q line, with the nodes collector, base,
    emitter and optional substrate, and the trailing positional arguments. *)
Record BJT : Type := mkBJT {
  bjt_dev : string;
  bjt_args : list string;
  bjt_collector : string;
  bjt_base : string;
  bjt_emitter : string;
  bjt_substrate : option string;
  bjt_area : option pyvalue;
  bjt_parameters : option kwargs
}.

(** Modelled from the spec: an M line, with its four nodes. *)
Record MOSFET : Type := mkMOSFET {
  mos_dev : string;
  mos_model : option string;
  mos_param : option kwargs;   (* the map all spellings of the list come to *)
  mos_drain : string;
  mos_gate : string;
  mos_source : string;
  mos_bulk : string
}.

(** Modelled from the spec: an S line, with its optional control nodes. *)
Record Switch : Type := mkSwitch {
  sw_dev : string;
  sw_model : option string;
  sw_initial_state : option string;
  sw_positive : string;
  sw_negative : string;
  sw_control_p : option string;
  sw_control_n : option string
}.

(** Modelled from the spec: E and G lines; [vc_gain] is the attribute [gain]
    of E and [transconductance] of G. *)
Record VoltageControlled : Type := mkVoltageControlled {
  vc_dev : string;
  vc_controller : option pyvalue;
  vc_control_positive : option string;
  vc_control_negative : option string;
  vc_gain : option pyvalue;
  vc_positive : string;
  vc_negative : string
}.

(** Modelled from the spec: F and H lines; [cc_gain] is the attribute [gain]
    of F and [transresistance] of H. *)
Record CurrentControlled : Type := mkCurrentControlled {
  cc_dev : string;
  cc_controller : option pyvalue;
  cc_gain : option pyvalue;
  cc_positive : string;
  cc_negative : string
}.

(** Modelled from the spec: a B line. *)
Record NonLinearDependentSource : Type := mkNonLinearDependentSource {
  nl_dev : string;
  nl_positive : string;
  nl_negative : string;
  nl_expr : pyvalue;
  nl_parameters : option kwargs;
  nl_magnitude : string
}.

(** Modelled from the spec: an X line; the subcircuit name is the last of
    its tokens, or the one before [params:]. *)
Record Subcircuit : Type := mkSubcircuit {
  x_dev : string;
  x_node : list string;
  x_params : option string;
  x_parameters : option kwargs
}.

(** Modelled from the spec: a [.data] line. *)
Record DataCmd : Type := mkDataCmd {
  data_table : string;
  data_name : list string;
  data_value : list pyvalue;
  data_line : nat
}.

(** Modelled from the spec: a [.model] line. *)
Record ModelCmd : Type := mkModelCmd {
  model_name : string;
  model_type : string;
  model_parameters : option kwargs
}.

(** Modelled from the spec: a [.lib file entry] line. *)
Record LibCall : Type := mkLibCall {
  call_entry : names;
  call_filename : string
}.

(** Modelled from the spec: R, C and L lines, which share their attributes:
    an optional model, an optional value, optional keyword parameters and
    two nodes. *)
Record Passive : Type := mkPassive {
  pas_dev : string;
  pas_model : option string;
  pas_value : option pyvalue;
  pas_parameters : option kwargs;
  pas_positive : string;
  pas_negative : string
}.

(** Modelled from the spec: a D line. *)
Record DiodeDevice : Type := mkDiodeDevice {
  dio_dev : string;
  dio_model : option string;
  dio_area : option pyvalue;
  dio_positive : string;
  dio_negative : string
}.

(** Modelled from the spec: a J line. *)
Record JFET : Type := mkJFET {
  jfet_dev : string;
  jfet_model : option string;
  jfet_area : option pyvalue;
  jfet_parameters : option kwargs;
  jfet_drain : string;
  jfet_gate : string;
  jfet_source : string
}.

(** Modelled from the spec: a K line, with the names of the inductors it
    couples and the coupling factor. *)
Record MutualInductor : Type := mkMutualInductor {
  mut_dev : string;
  mut_model : option string;
  mut_inductor : list string;
  mut_value : pyvalue
}.

(** Modelled from the spec: what [self.walk] gives for an attribute that
    the grammar fills with one value or with a list of values. *)
Inductive walked : Type :=
| One (v : pyvalue)
| Many (l : list pyvalue).

(** Modelled from the spec: the arguments of [PULSE(...)], [SIN(...)] and
    [PAT(...)]. *)
Record PulseArguments : Type := mkPulseArguments {
  pulse_v1 : pyvalue;
  pulse_value : option walked
}.

Record SinArguments : Type := mkSinArguments {
  sin_v0 : pyvalue;
  sin_va : pyvalue;
  sin_freq : pyvalue;
  sin_value : option walked
}.

Record PatArguments : Type := mkPatArguments {
  pat_vhi : pyvalue;
  pat_vlo : pyvalue;
  pat_td : pyvalue;
  pat_tr : pyvalue;
  pat_tf : pyvalue;
  pat_tsample : pyvalue;
  pat_data : pyvalue;
  pat_repeat : option string
}.

(** Modelled from the spec: a transient specification, [PULSE(...)],
    [SIN(...)], [PAT(...)] or [PWL(...)]; the walkers of the arguments of a
    piecewise linear one are not followed, it comes with what
    [walk_TransientPWL] returns or raises for it. *)
Inductive Transient : Type :=
| TPulse (ast : PulseArguments)
| TSin (ast : SinArguments)
| TPat (ast : PatArguments)
| TPWL (walked : result pyvalue).

(** Modelled from the spec: V and I lines. *)
Record Source : Type := mkSource {
  src_dev : string;
  src_dc_value : option pyvalue;
  src_ac_magnitude : option pyvalue;
  src_ac_phase : option pyvalue;
  src_transient : option Transient;
  src_positive : string;
  src_negative : string
}.

(** Modelled from the spec: the lines of a netlist the walker is followed
    on; a [.lib] block and a [.subckt] definition hold lines in turn.  An
    [.include] line comes with the exception of the parser that its statement
    runs on the included file, when that one fails; [LCommand] stands for the
    lines whose walker gives their text back and touches nothing ([.ac],
    [.dc], [.ic], the simulator line, a comment). *)
Inductive Line : Type :=
| LBJT (node : BJT)
| LMOSFET (node : MOSFET)
| LSwitch (node : Switch)
| LVoltageControlledVoltageSource (node : VoltageControlled)
| LVoltageControlledCurrentSource (node : VoltageControlled)
| LCurrentControlledCurrentSource (node : CurrentControlled)
| LCurrentControlledVoltageSource (node : CurrentControlled)
| LNonLinearDependentSource (node : NonLinearDependentSource)
| LSubcircuit (node : Subcircuit)
| LDataCmd (node : DataCmd)
| LModelCmd (node : ModelCmd)
| LParamCmd (parameters : option (list (string * pyvalue)))
| LTitleCmd (title : string)
| LLibCall (node : LibCall)
| LLibBlock (entry : names) (lines : list Line)
| LSubcktCmd (name : names) (node : option (list string)) (parameters : option kwargs)
    (lines : list Line) (parseinfo_line : nat)
| LResistor (node : Passive)
| LCapacitor (node : Passive)
| LInductor (node : Passive)
| LDiode (node : DiodeDevice)
| LJFET (node : JFET)
| LMutualInductor (node : MutualInductor)
| LVoltageSource (node : Source)
| LCurrentSource (node : Source)
| LIncludeCmd (filename : string) (failure : option exn)
| LCommand (text : string).

(** Modelled from the spec: the root of the tree, production [Circuit]. *)
Record Circuit : Type := mkCircuit {
  circuit_title : string;
  circuit_lines : list Line
}.

End Node.

(** ** The semantic walker *)

Module SpiceModelWalker.

Import Node.

(** A scope opened by [.subckt] or by [.lib]. *)
Inductive scope : Type :=
| SubcktScope (s : SubCircuitStatement.t)
| LibScope (l : LibraryStatement.t).

(** The walker once [walk_Circuit] has made the root.  [_scopes] holds the
    open definitions, innermost first: [self._present] is its head, or the
    root when it is empty, and [self._context] is the rest of it with the
    root underneath.  The root is held once, so that a write through
    [self._root] and one through [self._present] reach the same object
    while the root is the present scope. *)
Record t : Type := mk {
  _path : string;
  _root : CircuitStatement.t;
  _scopes : list scope
}.

Definition with_root (f : CircuitStatement.t -> CircuitStatement.t) (w : t) : t :=
  mk (_path w) (f (_root w)) (_scopes w).

(** A method call on [self._present], by the class of the present scope. *)
Definition on_present
    (fc : CircuitStatement.t -> result CircuitStatement.t)
    (fs : SubCircuitStatement.t -> result SubCircuitStatement.t)
    (fl : LibraryStatement.t -> result LibraryStatement.t) (w : t) : result t :=
  match _scopes w with
  | [] => (c <- fc (_root w) ;; Return (mk (_path w) c []))%result
  | SubcktScope s :: rest =>
      (s' <- fs s ;; Return (mk (_path w) (_root w) (SubcktScope s' :: rest)))%result
  | LibScope l :: rest =>
      (l' <- fl l ;; Return (mk (_path w) (_root w) (LibScope l' :: rest)))%result
  end.

(** The statement list of the present scope. *)
Definition present_statements (w : t) : list Statement :=
  match _scopes w with
  | [] => CircuitStatement._statements (_root w)
  | SubcktScope s :: _ => SubCircuitStatement._statements s
  | LibScope l :: _ => LibraryStatement._statements l
  end.

Definition no_attribute {A} (cls attr : string) : result A :=
  Raise (AttributeError ("'" +:+ cls +:+ "' object has no attribute '" +:+ attr +:+ "'")).

(** [self._present.append(statement)] *)
Definition present_append (st : Statement) : t -> result t :=
  on_present (fun c => Return (CircuitStatement.append st c))
             (fun s => Return (SubCircuitStatement.append st s))
             (fun l => Return (LibraryStatement.append st l)).

Definition present_appendModel (m : ModelStatement.t) : t -> result t :=
  on_present (fun c => Return (CircuitStatement.appendModel m c))
             (fun s => Return (SubCircuitStatement.appendModel m s))
             (fun l => Return (LibraryStatement.appendModel m l)).

Definition present_appendParam (p : ParamStatement.t) : t -> result t :=
  on_present (fun c => Return (CircuitStatement.appendParam p c))
             (fun s => Return (SubCircuitStatement.appendParam p s))
             (fun l => Return (LibraryStatement.appendParam p l)).

(** [self._present.appendLibraryCall(...)]: only the root has the method. *)
Definition present_appendLibraryCall (lc : LibCallStatement.t) : t -> result t :=
  on_present (fun c => Return (CircuitStatement.appendLibraryCall lc c))
             (fun _ => no_attribute "SubCircuitStatement" "appendLibraryCall")
             (fun _ => no_attribute "LibraryStatement" "appendLibraryCall").

(** [self._present._required_models.add(name)]: a library has no such set. *)
Definition present_require_model (name : string) : t -> result t :=
  on_present (fun c => Return (CircuitStatement.add_required_model name c))
             (fun s => Return (SubCircuitStatement.add_required_model name s))
             (fun _ => no_attribute "LibraryStatement" "_required_models").

Definition present_require_subcircuit (name : string) : t -> result t :=
  on_present (fun c => Return (CircuitStatement.add_required_subcircuit name c))
             (fun s => Return (SubCircuitStatement.add_required_subcircuit name s))
             (fun _ => no_attribute "LibraryStatement" "_required_subcircuits").

(** [self.walk(x)] for an attribute that is [None]: no walker but
    [walk_object] applies. *)
Definition walk_option {A} (x : option A) : result A :=
  match x with
  | Some a => Return a
  | None => Raise (ParseError "No walker defined for the node: None")
  end.

Definition walk_Device (ast : string) : result string :=
  match ast with
  | EmptyString => Raise (IndexError "string index out of range")
  | String c _ =>
      if bool_decide (c ∈ ["E"; "F"; "G"; "H"]%char)
      then Return ("B" +:+ ast)
      else Return ast
  end.

(** [_to_number] on a string: [int], else [float], else the [ValueError]
    of [float]. *)
Definition _to_number (value : string) : result pyvalue :=
  match Py.int value with
  | Some z => Return (PInt z)
  | None =>
      match Py.float value with
      | Some literal => Return (PFloat literal)
      | None => Raise (ValueError ("could not convert string to float: " +:+ Str.repr value))
      end
  end.

(** [ElementStatement(cls, device, *nodes, **kwargs)] appended to the
    present scope. *)
Definition append_element (cls : element_class) (device : string) (nodes : list string)
    (kw : kwargs) (w : t) : result t :=
  (Py.check_keywords "__init__" ["self"; "statement"; "name"] kw ;;
   e <- ElementStatement.__init__ cls device (map NStr nodes) kw ;;
   present_append (SElement e) w)%result.

(** [kwargs.update(self.walk(node.parameters))] when the attribute is set. *)
Definition update_parameters (parameters : option kwargs) (kw : kwargs) : kwargs :=
  match parameters with
  | Some p => Py.update kw p
  | None => kw
  end.

(** The local variables of [walk_BJT] that its branches assign;
    [model_name] is [None] while it is unbound. *)
Record bjt_locals : Type := mk_bjt_locals {
  l_nodes : list string;
  l_kwargs : kwargs;
  l_substrate : option string;
  l_area : option pyvalue;
  l_model_name : option string
}.

(** [args[i]] for an index known to be in range. *)
Definition arg (args : list string) (i : nat) : string := nth i args "".

(** The two-argument branch. *)
Definition bjt_two (args : list string) (l : bjt_locals) : bjt_locals :=
  let l1 :=
    match l_area l with
    | None =>
        match _to_number (arg args 1) with
        | inr area =>
            mk_bjt_locals (l_nodes l) (<["area" := area]> (l_kwargs l)) (l_substrate l)
              (Some area) (Some (arg args 0))
        | inl _ => l
        end
    | Some _ => l
    end in
  match l_area l1 with
  | None =>
      mk_bjt_locals (l_nodes l1 ++ [arg args 0]) (l_kwargs l1) (l_substrate l1)
        (l_area l1) (Some (arg args 1))
  | Some _ => l1
  end.

(** The three-argument branch; its [else] belongs to the second [if]. *)
Definition bjt_three (dev : string) (args : list string) (l : bjt_locals)
    : result bjt_locals :=
  let l1 :=
    match l_area l with
    | None =>
        match _to_number (arg args 2) with
        | inr area =>
            mk_bjt_locals (l_nodes l ++ [arg args 0]) (<["area" := area]> (l_kwargs l))
              (l_substrate l) (Some area) (Some (arg args 1))
        | inl _ => l
        end
    | Some _ => l
    end in
  match l_area l1, l_substrate l1 with
  | None, None =>
      Return (mk_bjt_locals (l_nodes l1 ++ [arg args 0; arg args 1]) (l_kwargs l1)
                (Some (arg args 0)) (l_area l1) (Some (arg args 2)))
  | _, _ =>
      Raise (ValueError ("Present device not compatible with BJT definition: " +:+ dev))
  end.

(** [walk_BJT]; the messages show the device by its text. *)
Definition walk_BJT (node : BJT) (w : t) : result t :=
  (device <- walk_Device (bjt_dev node) ;;
   let args := bjt_args node in
   let l_args := length args in
   let nodes := [bjt_collector node; bjt_base node; bjt_emitter node] in
   let nodes := match bjt_substrate node with Some s => nodes ++ [s] | None => nodes end in
   let l0 := mk_bjt_locals nodes ∅ (bjt_substrate node) (bjt_area node) None in
   l <- match l_args with
        | 0 => Raise (ValueError ("The device " +:+ bjt_dev node +:+ " has no model"))
        | 1 => Return (mk_bjt_locals (l_nodes l0) (l_kwargs l0) (l_substrate l0) (l_area l0)
                         (Some (arg args 0)))
        | 2 => Return (bjt_two args l0)
        | 3 => bjt_three (bjt_dev node) args l0
        | _ => Raise (ValueError ("Present device not compatible with BJT definition: "
                                    +:+ bjt_dev node))
        end ;;
   let kw := update_parameters (bjt_parameters node) (l_kwargs l) in
   model_name <- match l_model_name l with
                 | Some m => Return m
                 | None => Raise (UnboundLocalError
                     "local variable 'model_name' referenced before assignment")
                 end ;;
   let kw := <["model" := PStr model_name]> kw in
   w <- present_require_model (Str.lower model_name) w ;;
   append_element BipolarJunctionTransistor device (l_nodes l) kw w)%result.

Definition walk_MOSFET (node : MOSFET) (w : t) : result t :=
  (device <- walk_Device (mos_dev node) ;;
   model_name <- match mos_model node with
                 | None => Raise (ValueError ("The device " +:+ mos_dev node +:+ " has no model"))
                 | Some m => Return m
                 end ;;
   let kw : kwargs := <["model" := PStr model_name]> ∅ in
   w <- present_require_model (Str.lower model_name) w ;;
   let kw := update_parameters (mos_param node) kw in
   let nodes := [mos_drain node; mos_gate node; mos_source node; mos_bulk node] in
   append_element Mosfet device nodes kw w)%result.

Definition walk_Switch (node : Switch) (w : t) : result t :=
  (device <- walk_Device (sw_dev node) ;;
   let kw : kwargs := ∅ in
   r <- match sw_model node with
        | Some model_name =>
            (w' <- present_require_model (Str.lower model_name) w ;;
             Return (<["model" := PStr model_name]> kw, w'))
        | None => Return (kw, w)
        end ;;
   let kw := fst r in
   let w := snd r in
   let kw := match sw_initial_state node with
             | Some s => <["initial_state" := PStr s]> kw
             | None => kw
             end in
   let positive := sw_positive node in
   let negative := sw_negative node in
   nodes <- match sw_control_p node, sw_control_n node with
            | Some control_p, Some control_n =>
                Return (Some [positive; negative; control_p; control_n])
            | Some _, None => Raise (ValueError "Only one control node defined")
            | None, None => Return (Some [positive; negative])
            | None, Some _ => Return None      (* [nodes] stays unbound *)
            end ;;
   nodes <- match nodes with
            | Some l => Return l
            | None => Raise (UnboundLocalError
                               "local variable 'nodes' referenced before assignment")
            end ;;
   append_element VoltageControlledSwitch device nodes kw w)%result.


(** E and H lines put their expression under ["V"], F and G lines under
    ["I"]. *)
Definition walk_VoltageControlledVoltageSource (node : VoltageControlled) (w : t)
    : result t :=
  (device <- walk_Device (vc_dev node) ;;
   match vc_controller node, vc_control_positive node, vc_control_negative node,
         vc_gain node with
   | None, None, None, None =>
       Raise (ValueError ("Device " +:+ vc_dev node +:+ " not properly defined"))
   | _, _, _, _ => Return tt
   end ;;
   kw <- match vc_controller node with
         | Some controller => Return ({["V" := controller]} : kwargs)
         | None =>
             (value <- walk_option (vc_gain node) ;;
              Return ({["V" := PMul (PV (vc_control_positive node) (vc_control_negative node))
                                    value]} : kwargs))
         end ;;
   append_element BehavioralSource device [vc_positive node; vc_negative node] kw w)%result.

Definition walk_VoltageControlledCurrentSource (node : VoltageControlled) (w : t)
    : result t :=
  (device <- walk_Device (vc_dev node) ;;
   match vc_controller node, vc_control_positive node, vc_control_negative node,
         vc_gain node with
   | None, None, None, None =>
       Raise (ValueError ("Device " +:+ vc_dev node +:+ " not properly defined"))
   | _, _, _, _ => Return tt
   end ;;
   kw <- match vc_controller node with
         | Some controller => Return ({["I" := controller]} : kwargs)
         | None =>
             (value <- walk_option (vc_gain node) ;;
              Return ({["I" := PMul (PV (vc_control_positive node) (vc_control_negative node))
                                    value]} : kwargs))
         end ;;
   append_element BehavioralSource device [vc_positive node; vc_negative node] kw w)%result.

(** The guard of the F and H walkers asks for [node.dev is None] among its
    conjuncts; the device has just been walked, so it never raises. *)
Definition walk_CurrentControlledCurrentSource (node : CurrentControlled) (w : t)
    : result t :=
  (device <- walk_Device (cc_dev node) ;;
   kw <- match cc_controller node with
         | Some controller => Return ({["I" := controller]} : kwargs)
         | None =>
             (value <- walk_option (cc_gain node) ;;
              Return ({["I" := PMul (PI device) value]} : kwargs))
         end ;;
   append_element BehavioralSource device [cc_positive node; cc_negative node] kw w)%result.

Definition walk_CurrentControlledVoltageSource (node : CurrentControlled) (w : t)
    : result t :=
  (device <- walk_Device (cc_dev node) ;;
   kw <- match cc_controller node with
         | Some controller => Return ({["V" := controller]} : kwargs)
         | None =>
             (value <- walk_option (cc_gain node) ;;
              Return ({["V" := PMul (PI device) value]} : kwargs))
         end ;;
   append_element BehavioralSource device [cc_positive node; cc_negative node] kw w)%result.

Definition walk_NonLinearDependentSource (node : NonLinearDependentSource) (w : t)
    : result t :=
  (device <- walk_Device (nl_dev node) ;;
   let kw := update_parameters (nl_parameters node) ∅ in
   let kw := if bool_decide (nl_magnitude node = "V")
             then <["voltage_expression" := nl_expr node]> kw
             else <["current_expression" := nl_expr node]> kw in
   append_element BehavioralSource device [nl_positive node; nl_negative node] kw w)%result.

(** [l[-k]] for [k = 1, 2]. *)
Definition from_end (k : nat) (l : list string) : result string :=
  match rev l !! (k - 1) with
  | Some x => Return x
  | None => Raise (IndexError "list index out of range")
  end.

Definition walk_Subcircuit (node : Subcircuit) (w : t) : result t :=
  (device <- walk_Device (x_dev node) ;;
   let node_node := x_node node in
   let k := match x_params node with Some _ => 2 | None => 1 end in
   subcircuit_name <- from_end k node_node ;;
   let nodes := take (length node_node - k) node_node in
   let kw := update_parameters (x_parameters node) ∅ in
   w <- present_require_subcircuit (Str.lower subcircuit_name) w ;;
   append_element SubCircuitElement device (subcircuit_name :: nodes) kw w)%result.

(** [dict([(name, values[idx::len(names)]) for idx, name in enumerate(names)])] *)
Definition data_parameters (names : list string) (values : list pyvalue)
    : gmap string (list pyvalue) :=
  Py.dict (imap (fun idx name => (name, Py.slice_from_step idx (length names) values)) names).

Definition walk_DataCmd (node : DataCmd) (w : t) : result t :=
  (let table := data_table node in
   let names := data_name node in
   let values := data_value node in
   (if (length names =? 0)%nat
    then Raise (ZeroDivisionError "integer division or modulo by zero")
    else Return tt) ;;
   (if negb (length values mod length names =? 0)%nat
    then Raise (ValueError ("The number of elements per parameter do not match (line: "
                              +:+ pretty (data_line node) +:+ ")"))
    else Return tt) ;;
   let parameters := data_parameters names values in
   Py.check_keywords "__init__" ["self"; "table"] parameters ;;
   Return (with_root (CircuitStatement.appendData (DataStatement.mk table parameters)) w)
  )%result.

Definition default_parameters (parameters : option kwargs) : kwargs :=
  match parameters with
  | Some p => p
  | None => ∅
  end.

Definition walk_ModelCmd (node : ModelCmd) (w : t) : result t :=
  (let parameters := default_parameters (model_parameters node) in
   Py.check_keywords "__init__" ["self"; "name"; "device"] parameters ;;
   present_appendModel (ModelStatement.mk (model_name node) (model_type node) parameters) w
  )%result.

(** [walk_Parameters] makes one dict of the parameters of the line, taken
    in their order. *)
Definition walk_ParamCmd (parameters : option (list (string * pyvalue))) (w : t)
    : result t :=
  (let parameters := match parameters with
                     | Some pairs => Py.ordered_dict pairs
                     | None => []
                     end in
   Py.check_keywords "__init__" ["self"] (Py.dict parameters) ;;
   present_appendParam (ParamStatement.mk parameters) w)%result.

(** [id(self._root) == id(self._present)]: no scope is open. *)
Definition walk_TitleCmd (title : string) (w : t) : result t :=
  match _scopes w with
  | [] => Return (with_root (CircuitStatement.set_title title) w)
  | _ :: _ => Raise (SyntaxError ".Title command can only be used in the root circuit.")
  end.

(** [if node.model is not None: model_name = self.walk(node.model);
    kwargs['model'] = model_name;
    self._present._required_models.add(model_name.lower())] *)
Definition optional_model (model : option string) (kw : kwargs) (w : t)
    : result (kwargs * t) :=
  match model with
  | Some model_name =>
      (w' <- present_require_model (Str.lower model_name) w ;;
       Return (<["model" := PStr model_name]> kw, w'))%result
  | None => Return (kw, w)
  end.

(** [if value is None: if 'r' in kwargs: value = kwargs.pop('r');
    kwargs['resistance'] = value elif 'R' in kwargs: ...] *)
Definition value_from_keywords (value : option pyvalue) (key lower upper : string)
    (kw : kwargs) : kwargs :=
  match value with
  | Some _ => kw
  | None =>
      match kw !! lower with
      | Some v => <[key := v]> (delete lower kw)
      | None =>
          match kw !! upper with
          | Some v => <[key := v]> (delete upper kw)
          | None => kw
          end
      end
  end.

(** [walk_Resistor], [walk_Capacitor] and [walk_Inductor] are the same
    text but for the element class, the key of the value and the two
    spellings of its keyword. *)
Definition walk_passive (cls : element_class) (key lower upper : string)
    (node : Passive) (w : t) : result t :=
  (device <- walk_Device (pas_dev node) ;;
   r <- optional_model (pas_model node) ∅ w ;;
   let kw := fst r in
   let w := snd r in
   let value := pas_value node in
   let kw := match value with
             | Some v => <[key := v]> kw
             | None => kw
             end in
   let kw := update_parameters (pas_parameters node) kw in
   let kw := value_from_keywords value key lower upper kw in
   append_element cls device [pas_positive node; pas_negative node] kw w)%result.

Definition walk_Resistor : Passive -> t -> result t :=
  walk_passive Resistor "resistance" "r" "R".
Definition walk_Capacitor : Passive -> t -> result t :=
  walk_passive Capacitor "capacitance" "c" "C".
Definition walk_Inductor : Passive -> t -> result t :=
  walk_passive Inductor "inductance" "l" "L".

Definition walk_Diode (node : DiodeDevice) (w : t) : result t :=
  (device <- walk_Device (dio_dev node) ;;
   model_name <- match dio_model node with
                 | None => Raise (ValueError ("The device " +:+ dio_dev node +:+ " has no model"))
                 | Some m => Return m
                 end ;;
   let kw : kwargs := <["model" := PStr model_name]> ∅ in
   w <- present_require_model (Str.lower model_name) w ;;
   let kw := match dio_area node with
             | Some area => <["area" := area]> kw
             | None => kw
             end in
   append_element Diode device [dio_positive node; dio_negative node] kw w)%result.

Definition walk_JFET (node : JFET) (w : t) : result t :=
  (device <- walk_Device (jfet_dev node) ;;
   model_name <- match jfet_model node with
                 | None => Raise (ValueError ("The device " +:+ jfet_dev node +:+ " has no model"))
                 | Some m => Return m
                 end ;;
   let kw : kwargs := <["model" := PStr model_name]> ∅ in
   w <- present_require_model (Str.lower model_name) w ;;
   let kw := match jfet_area node with
             | Some area => <["area" := area]> kw
             | None => kw
             end in
   let kw := update_parameters (jfet_parameters node) kw in
   append_element JunctionFieldEffectTransistor device
     [jfet_drain node; jfet_gate node; jfet_source node] kw w)%result.

(** [walk_MutualInductor]: the element is made without nodes. *)
Definition walk_MutualInductor (node : MutualInductor) (w : t) : result t :=
  (device <- walk_Device (mut_dev node) ;;
   r <- optional_model (mut_model node) ∅ w ;;
   let kw := fst r in
   let w := snd r in
   let inductors := mut_inductor node in
   (if negb (length inductors =? 2)%nat
    then Raise (ParseError "Presently, only two inductors are allowed.")
    else Return tt) ;;
   let kw := <["inductor1" := PStr (arg inductors 0)]> kw in
   let kw := <["inductor2" := PStr (arg inductors 1)]> kw in
   let kw := <["coupling_factor" := mut_value node]> kw in
   append_element CoupledInductor device [] kw w)%result.

(** [dict([(key, value) for value, key in zip(values, keys)])] *)
Definition named_arguments (values : list pyvalue) (keys : list string) : kwargs :=
  Py.dict (map (fun vk : pyvalue * string => (snd vk, fst vk)) (zip values keys)).

Definition pulse_keys : list string :=
  ["initial_value"; "pulsed_value"; "delay_time"; "rise_time"; "fall_time"; "pulse_width";
   "period"; "phase"].
Definition sin_keys : list string :=
  ["offset"; "amplitude"; "frequency"; "delay"; "damping_factor"].
Definition pat_keys : list string :=
  ["high_value"; "low_value"; "delay_time"; "rise_time"; "fall_time"; "bit_period";
   "bit_pattern"; "repeat"].

(** [type(value).__name__]; the classes of the expression nodes are those
    of the calls [V(...)], [I(...)] and [Mul(...)] in the walker. *)
Definition type_name (value : pyvalue) : string :=
  match value with
  | PStr _ => "str"
  | PInt _ => "int"
  | PFloat _ => "float"
  | PBool _ => "bool"
  | PV _ _ => "V"
  | PI _ => "I"
  | PMul _ _ => "Mul"
  | PTransient _ _ => "tuple"
  end.

Definition double_quote : string := String (ascii_of_nat 34) EmptyString.

(** [return [v1] + value]: the sum fails when [value] is not a list. *)
Definition walk_PulseArguments (node : PulseArguments) : result (list pyvalue) :=
  match pulse_value node with
  | None => Return [pulse_v1 node]
  | Some (Many value) => Return (pulse_v1 node :: value)
  | Some (One value) =>
      Raise (TypeError ("can only concatenate list (not " +:+ double_quote
                          +:+ type_name value +:+ double_quote +:+ ") to list"))
  end.

Definition walk_TransientPulse (ast : PulseArguments) : result (waveform_class * kwargs) :=
  (values <- walk_PulseArguments ast ;;
   Return (PulseMixin, named_arguments values pulse_keys))%result.

Definition walk_SinArguments (node : SinArguments) : list pyvalue :=
  let v0 := sin_v0 node in
  let va := sin_va node in
  let freq := sin_freq node in
  match sin_value node with
  | None => [v0; va; freq]
  | Some (Many value) => [v0; va; freq] ++ value
  | Some (One value) => [v0; va; freq; value]
  end.

Definition walk_TransientSin (ast : SinArguments) : waveform_class * kwargs :=
  (SinusoidalMixin, named_arguments (walk_SinArguments ast) sin_keys).

Definition walk_PatArguments (node : PatArguments) : list pyvalue :=
  let repeat := match pat_repeat node with
                | Some r => bool_decide (r = "1")
                | None => false
                end in
  [pat_vhi node; pat_vlo node; pat_td node; pat_tr node; pat_tf node; pat_tsample node;
   pat_data node; PBool repeat].

Definition walk_TransientPat (ast : PatArguments) : waveform_class * kwargs :=
  (PatternMixin, named_arguments (walk_PatArguments ast) pat_keys).

(** What [walk_TransientSpecification] gives: the pair that the walker
    of the waveform returns. *)
Definition walk_TransientSpecification (transient : Transient) : result pyvalue :=
  match transient with
  | TPulse ast =>
      (r <- walk_TransientPulse ast ;; Return (PTransient (fst r) (snd r)))%result
  | TSin ast => let r := walk_TransientSin ast in Return (PTransient (fst r) (snd r))
  | TPat ast => let r := walk_TransientPat ast in Return (PTransient (fst r) (snd r))
  | TPWL walked => walked
  end.

(** [walk_VoltageSource] and [walk_CurrentSource] are the same text but
    for the element class. *)
Definition walk_source (cls : element_class) (node : Source) (w : t) : result t :=
  (device <- walk_Device (src_dev node) ;;
   let kw : kwargs := ∅ in
   let kw := match src_dc_value node with
             | Some v => <["dc_value" := v]> kw
             | None => kw
             end in
   let kw := match src_ac_magnitude node with
             | Some v => <["ac_magnitude" := v]> kw
             | None => kw
             end in
   let kw := match src_ac_phase node with
             | Some v => <["ac_phase" := v]> kw
             | None => kw
             end in
   kw <- match src_transient node with
         | Some transient =>
             (v <- walk_TransientSpecification transient ;;
              Return (<["transient" := v]> kw))
         | None => Return kw
         end ;;
   append_element cls device [src_positive node; src_negative node] kw w)%result.

Definition walk_VoltageSource : Source -> t -> result t := walk_source VoltageSource.
Definition walk_CurrentSource : Source -> t -> result t := walk_source CurrentSource.

(** [self._present.append(IncludeStatement(self._root, filename))]: the
    constructor runs a parser on the included file and turns every exception
    of it into a [FileNotFoundError] that begins with the path of the root. *)
Definition walk_IncludeCmd (filename : string) (failure : option exn) (w : t) : result t :=
  match failure with
  | Some e =>
      Raise (FileNotFoundError (CircuitStatement._path (_root w) +:+ ": " +:+ exn_str e))
  | None => present_append (SInclude (IncludeStatement.mk filename)) w
  end.

(** The entry check of [walk_LibBlock] and [walk_LibCall]: [len] and the
    indices apply to a pair of names and to a single name, a string, alike;
    the length of a string is the number of its characters. *)
Definition library_entry (entries : names) : result string :=
  let differ a b :=
    Raise (NameError ("Begin and end library entries differ: " +:+ a +:+ " != " +:+ b)) in
  match entries with
  | Pair a b => if bool_decide (a = b) then Return a else differ a b
  | Single s =>
      match Unicode.decode (Unicode.bytes s) with
      | Some [a; b] =>
          let first := Unicode.of_bytes (Unicode.encode_point a) in
          let second := Unicode.of_bytes (Unicode.encode_point b) in
          if bool_decide (a = b) then Return first else differ first second
      | _ => Return s
      end
  end.

Definition walk_LibCall (node : LibCall) (w : t) : result t :=
  (entries <- library_entry (call_entry node) ;;
   present_appendLibraryCall (LibCallStatement.mk (call_filename node) entries) w)%result.

Definition subckt_name (path : string) (line : nat) (name : names) : result string :=
  match name with
  | Pair a b =>
      if bool_decide (a = b) then Return a
      else Raise (NameError ("Begin and end library entries differ (file:" +:+ path
                               +:+ ", line:" +:+ pretty line +:+ "): "
                               +:+ a +:+ " != " +:+ b))
  | Single s => Return s
  end.

Definition scope_class (sc : scope) : string :=
  match sc with
  | SubcktScope _ => "SubCircuitStatement"
  | LibScope _ => "LibraryStatement"
  end.

(** [tmp = self._context.pop(); tmp.appendLibrary(self._present);
    self._present = tmp] *)
Definition close_LibBlock (w : t) : result t :=
  match _scopes w with
  | [] => Raise (IndexError "pop from empty list")
  | LibScope l :: [] => Return (mk (_path w) (CircuitStatement.appendLibrary l (_root w)) [])
  | SubcktScope _ :: [] => no_attribute "SubCircuitStatement" "entry"
  | _ :: tmp :: _ => no_attribute (scope_class tmp) "appendLibrary"
  end.

(** [tmp = self._context.pop(); tmp.appendSubCircuit(self._present);
    self._present = tmp].  The present scope is the subcircuit that the
    command opened ([walk_Line_scopes] below), so the library case is not
    reached. *)
Definition close_SubcktCmd (w : t) : result t :=
  match _scopes w with
  | [] => Raise (IndexError "pop from empty list")
  | LibScope _ :: _ => Raise (TypeError "a library where a subcircuit was opened")
  | SubcktScope s :: [] =>
      Return (mk (_path w) (CircuitStatement.appendSubCircuit s (_root w)) [])
  | SubcktScope s :: SubcktScope p :: rest =>
      Return (mk (_path w) (_root w)
                (SubcktScope (SubCircuitStatement.appendSubCircuit s p) :: rest))
  | SubcktScope s :: LibScope p :: rest =>
      Return (mk (_path w) (_root w)
                (LibScope (LibraryStatement.appendSubCircuit s p) :: rest))
  end.

Definition open_scope (sc : scope) (w : t) : t :=
  mk (_path w) (_root w) (sc :: _scopes w).

Fixpoint walk_Line (line : Line) (w : t) {struct line} : result t :=
  match line with
  | LBJT node => walk_BJT node w
  | LMOSFET node => walk_MOSFET node w
  | LSwitch node => walk_Switch node w
  | LVoltageControlledVoltageSource node => walk_VoltageControlledVoltageSource node w
  | LVoltageControlledCurrentSource node => walk_VoltageControlledCurrentSource node w
  | LCurrentControlledCurrentSource node => walk_CurrentControlledCurrentSource node w
  | LCurrentControlledVoltageSource node => walk_CurrentControlledVoltageSource node w
  | LNonLinearDependentSource node => walk_NonLinearDependentSource node w
  | LSubcircuit node => walk_Subcircuit node w
  | LDataCmd node => walk_DataCmd node w
  | LModelCmd node => walk_ModelCmd node w
  | LParamCmd parameters => walk_ParamCmd parameters w
  | LTitleCmd title => walk_TitleCmd title w
  | LLibCall node => walk_LibCall node w
  | LLibBlock entry lines =>                              (* walk_LibBlock *)
      (entries <- library_entry entry ;;
       let library := LibraryStatement.__init__ entries in
       w <- foldM walk_Line lines (open_scope (LibScope library) w) ;;
       close_LibBlock w)%result
  | LSubcktCmd name node parameters lines line =>         (* walk_SubcktCmd *)
      (name <- subckt_name (_path w) line name ;;
       nodes <- walk_option node ;;
       let parameters := default_parameters parameters in
       Py.check_keywords "__init__" ["self"; "name"] parameters ;;
       let subckt := SubCircuitStatement.__init__ name nodes parameters in
       w <- foldM walk_Line lines (open_scope (SubcktScope subckt) w) ;;
       close_SubcktCmd w)%result
  | LResistor node => walk_Resistor node w
  | LCapacitor node => walk_Capacitor node w
  | LInductor node => walk_Inductor node w
  | LDiode node => walk_Diode node w
  | LJFET node => walk_JFET node w
  | LMutualInductor node => walk_MutualInductor node w
  | LVoltageSource node => walk_VoltageSource node w
  | LCurrentSource node => walk_CurrentSource node w
  | LIncludeCmd filename failure => walk_IncludeCmd filename failure w
  | LCommand _ => Return w
  end.

Definition walk_Lines (lines : list Line) (w : t) : result t := foldM walk_Line lines w.

(** [walk_Circuit] on the fresh walker of [SpiceParser.__init__], whose
    [_root] is [None]: the root is made, the lines are walked and the
    context must be empty again. *)
Definition walk_Circuit (node : Circuit) (path : string) : result CircuitStatement.t :=
  (let root := CircuitStatement.__init__ (circuit_title node) path in
   w <- walk_Lines (circuit_lines node) (mk path root []) ;;
   if negb (length (_scopes w) =? 0)%nat
   then Raise (ParseError ("Not closed hierarchy: " +:+ path))
   else Return (_root w))%result.

End SpiceModelWalker.

(** ** The parser object *)

Module SpiceParser.

(** What the constructor takes from outside the module: the file system,
    the generated grammar and the working directory. *)
Record env : Type := mk_env {
  read_file : string -> result string;        (* open(path, 'rb').read().decode('utf-8') *)
  parse : string -> result Node.Circuit;      (* self._parser.parse(raw_code) *)
  getcwd : string
}.

Record t : Type := mk {
  _path : string;
  _circuit : CircuitStatement.t
}.

Definition _check_models := Resolver._check_models.
Definition _sort_subcircuits := Resolver._sort_subcircuits.

(** The assignments under [if library:]. *)
Definition promote (library : bool) (circuit : CircuitStatement.t) : CircuitStatement.t :=
  if library
  then CircuitStatement.set_required
         (list_to_set (Resolver.model_names (CircuitStatement._models circuit)))
         (list_to_set (Resolver.subcircuit_names (CircuitStatement._subcircuits circuit)))
         circuit
  else circuit.

(** The closing [try] block: any exception of the two passes comes out as
    a [ParseError]. *)
Definition resolve (path : string) (circuit : CircuitStatement.t)
    : result CircuitStatement.t :=
  match (_check_models circuit ∅ ;; _sort_subcircuits circuit ∅)%result with
  | inl e => Raise (ParseError (path +:+ ": " +:+ exn_str e))
  | inr (circuit', _) => Return circuit'
  end.

(** The constructor from the syntax tree on: the walk, the promotion of a
    library and the two passes. *)
Definition from_model (path : string) (library : bool) (model : Node.Circuit) : result t :=
  (circuit <- SpiceModelWalker.walk_Circuit model path ;;
   circuit <- resolve path (promote library circuit) ;;
   Return (mk path circuit))%result.

Definition __init__ (e : env) (path source : option string) (library : bool) : result t :=
  (raw_code <- match path, source with
               | Some p, _ => read_file e p
               | None, Some s => Return s
               | None, None => Raise (ValueError "No path or source")
               end ;;
   model <- match parse e raw_code with
            | inl err =>
                match path with
                | Some p => Raise (ParseError (p +:+ ": " +:+ exn_str err))
                | None => Raise (ParseError (exn_str err))
                end
            | inr model => Return model
            end ;;
   let path := match path with Some p => p | None => getcwd e end in
   from_model path library model)%result.

Definition circuit (p : t) : CircuitStatement.t := _circuit p.
Definition models (p : t) := CircuitStatement.models (_circuit p).
Definition subcircuits (p : t) := CircuitStatement.subcircuits (_circuit p).
Definition parameters (p : t) := CircuitStatement.params (_circuit p).

(** The objects met by [not] and [and] in the two predicates. *)
Inductive pyobject : Type :=
| OBool (b : bool)
| OCircuit (c : CircuitStatement.t)
| OSubcircuits (l : list SubCircuitStatement.t)
| OModels (l : list ModelStatement.t).

(** [bool(x)]: a list is true when it is not empty; [CircuitStatement]
    defines neither [__bool__] nor [__len__], so an instance is true. *)
Definition truth (x : pyobject) : bool :=
  match x with
  | OBool b => b
  | OCircuit _ => true
  | OSubcircuits l => negb (length l =? 0)%nat
  | OModels l => negb (length l =? 0)%nat
  end.

Definition py_not (x : pyobject) : pyobject := OBool (negb (truth x)).
Definition py_and (x y : pyobject) : pyobject := if truth x then y else x.

Definition is_only_subcircuit (p : t) : bool :=
  truth (py_and (py_not (OCircuit (_circuit p))) (OSubcircuits (subcircuits p))).

Definition is_only_model (p : t) : bool :=
  truth (py_and (py_and (py_not (OCircuit (circuit p))) (py_not (OSubcircuits (subcircuits p))))
                (OModels (models p))).

(** [build_circuit(self, ground=0)]: [self._circuit.build(str(ground))] *)
Definition build_circuit (p : t) (ground : pynode) : result Netlist.t :=
  CircuitStatement.build (_circuit p) (NStr (Py.str ground)).

End SpiceParser.

(** ** Properties stated by the specification *)

Module Spec.

Import SubCircuitStatement.

(** The lowercased name by which a subcircuit is looked up. *)
Definition lname (s : SubCircuitStatement.t) : string :=
  Str.lower (SubCircuitStatement.name s).

(** What a subcircuit depends on in the scope that holds it: the names it
    instantiates and does not define itself. *)
Definition depends_of (s : SubCircuitStatement.t) : gset string :=
  _required_subcircuits s ∖ list_to_set (Resolver.subcircuit_names (_subcircuits s)).

(** A subcircuit list is topologically ordered when every name a member
    depends on is the name of a member before it. *)
Definition ordered (l : list SubCircuitStatement.t) : Prop :=
  ∀ before s after name,
    l = before ++ s :: after → name ∈ depends_of s → name ∈ map lname before.

(** The same in every scope below a subcircuit. *)
Inductive all_ordered : SubCircuitStatement.t → Prop :=
| all_ordered_intro s :
    ordered (_subcircuits s) → Forall all_ordered (_subcircuits s) → all_ordered s.

Definition circuit_ordered (c : CircuitStatement.t) : Prop :=
  ordered (CircuitStatement._subcircuits c)
  ∧ Forall all_ordered (CircuitStatement._subcircuits c).

(** The subcircuit list of a subcircuit, or of a subcircuit below it. *)
Inductive scope_below : SubCircuitStatement.t → list SubCircuitStatement.t → Prop :=
| scope_here s : scope_below s (_subcircuits s)
| scope_deeper s x l : x ∈ _subcircuits s → scope_below x l → scope_below s l.

(** The subcircuit lists that the passes over a circuit reach: the list of
    the circuit and the lists of the subcircuits below it. *)
Inductive resolved_scope (c : CircuitStatement.t) : list SubCircuitStatement.t → Prop :=
| resolved_root : resolved_scope c (CircuitStatement._subcircuits c)
| resolved_sub x l :
    x ∈ CircuitStatement._subcircuits c → scope_below x l → resolved_scope c l.

(** The subcircuit lists of the subcircuits defined in the [.lib] blocks of
    a circuit, and of the subcircuits below them. *)
Inductive library_scope (c : CircuitStatement.t) : list SubCircuitStatement.t → Prop :=
| library_scope_intro entry library x l :
    CircuitStatement._libraries c !! entry = Some library →
    x ∈ LibraryStatement._subcircuits library →
    scope_below x l → library_scope c l.

(** The order read on the subcircuits themselves: a member of the list
    that another member depends on stands before it. *)
Definition dependencies_first (l : list SubCircuitStatement.t) : Prop :=
  ∀ i j s d,
    l !! i = Some s → l !! j = Some d → lname d ∈ depends_of s → j < i.

(** The order in every subcircuit scope of a circuit, those defined in
    library blocks included. *)
Definition every_scope_ordered (c : CircuitStatement.t) : Prop :=
  ∀ l, resolved_scope c l ∨ library_scope c l → dependencies_first l.


(** An entry of [dependencies] pairs a subcircuit with what it depends on. *)
Definition item_ok (it : Resolver.item) : Prop := snd it = depends_of (fst it).

(** What a recursive call of the sort hands back for the subcircuit [x]. *)
Definition child_ok (x : SubCircuitStatement.t) (r : Resolver.item) : Prop :=
  lname (fst r) = lname x ∧ snd r = depends_of (fst r) ∧ all_ordered (fst r).

(** The model check in the words of the specification: in every scope the
    required models are among the models of the scope and those inherited
    from the scopes around it. *)
Inductive models_available : gset string → SubCircuitStatement.t → Prop :=
| models_available_intro inherited s :
    _required_models s ⊆ inherited ∪ list_to_set (Resolver.model_names (_models s)) →
    Forall (models_available (inherited ∪ list_to_set (Resolver.model_names (_models s))))
      (_subcircuits s) →
    models_available inherited s.

Definition circuit_models_available (c : CircuitStatement.t) : Prop :=
  CircuitStatement._required_models c
    ⊆ list_to_set (Resolver.model_names (CircuitStatement._models c))
  ∧ Forall (models_available (list_to_set (Resolver.model_names (CircuitStatement._models c))))
      (CircuitStatement._subcircuits c).

(** The required model [m] is missing in the scope named [n], which is the
    subcircuit [s] or a subcircuit below it, when [s] inherits the models
    [inherited]. *)
Inductive missing_model (m n : string) : gset string → SubCircuitStatement.t → Prop :=
| missing_here inherited s :
    m ∈ _required_models s →
    m ∉ inherited ∪ list_to_set (Resolver.model_names (_models s)) →
    n = SubCircuitStatement.name s →
    missing_model m n inherited s
| missing_below inherited s x :
    x ∈ _subcircuits s →
    missing_model m n (inherited ∪ list_to_set (Resolver.model_names (_models s))) x →
    missing_model m n inherited s.

Definition circuit_missing_model (c : CircuitStatement.t) (m n : string) : Prop :=
  let defined : gset string :=
    list_to_set (Resolver.model_names (CircuitStatement._models c)) in
  (m ∈ CircuitStatement._required_models c ∧ (m ∉ defined) ∧ n = CircuitStatement.name c)
  ∨ (∃ x, x ∈ CircuitStatement._subcircuits c ∧ missing_model m n defined x).

(** The same availability for the subcircuits defined in the [.lib] blocks
    of a circuit, which inherit the models of the block and of the circuit. *)
Definition library_models_available (c : CircuitStatement.t) : Prop :=
  ∀ entry library,
    CircuitStatement._libraries c !! entry = Some library →
    Forall (models_available
              (list_to_set (Resolver.model_names (CircuitStatement._models c))
               ∪ list_to_set (Resolver.model_names (LibraryStatement._models library))))
      (LibraryStatement._subcircuits library).

(** The availability in every scope of a circuit, the subcircuits of its
    library blocks included. *)
Definition every_scope_models_available (c : CircuitStatement.t) : Prop :=
  circuit_models_available c ∧ library_models_available c.

(** The text of the error of [_check_models] for the model [m] in the
    scope [n]. *)
Definition model_not_available (m n : string) : string :=
  "Model (" +:+ m +:+ ") not available in (" +:+ n +:+ ")".

(** The key under which the walker of a controlled source stores its
    expression, and the device name of the line. *)
Definition controlled_source_key (line : Node.Line) : option string :=
  match line with
  | Node.LVoltageControlledVoltageSource _ | Node.LCurrentControlledVoltageSource _ =>
      Some "V"
  | Node.LVoltageControlledCurrentSource _ | Node.LCurrentControlledCurrentSource _ =>
      Some "I"
  | _ => None
  end.

Definition device_of (line : Node.Line) : string :=
  match line with
  | Node.LVoltageControlledVoltageSource n | Node.LVoltageControlledCurrentSource n =>
      Node.vc_dev n
  | Node.LCurrentControlledCurrentSource n | Node.LCurrentControlledVoltageSource n =>
      Node.cc_dev n
  | _ => ""
  end.

(** A device name that begins with one of the letters E, F, G, H. *)
Definition controlled_letter (dev : string) : Prop :=
  ∃ c rest, dev = String c rest ∧ c ∈ ["E"; "F"; "G"; "H"]%char.

(** A switch line with exactly one of its two control nodes. *)
Definition half_specified (node : Node.Switch) : Prop :=
  (is_Some (Node.sw_control_p node) ∧ Node.sw_control_n node = None)
  ∨ (Node.sw_control_p node = None ∧ is_Some (Node.sw_control_n node)).

(** The node list a switch line stands for when it has both control nodes
    or none. *)
Definition switch_nodes (node : Node.Switch) : option (list pynode) :=
  match Node.sw_control_p node, Node.sw_control_n node with
  | Some p, Some n =>
      Some [NStr (Node.sw_positive node); NStr (Node.sw_negative node); NStr p; NStr n]
  | None, None => Some [NStr (Node.sw_positive node); NStr (Node.sw_negative node)]
  | _, _ => None
  end.

(** The present scope is a library block. *)
Definition in_library (w : SpiceModelWalker.t) : Prop :=
  ∃ l rest, SpiceModelWalker._scopes w = SpiceModelWalker.LibScope l :: rest.

(** A line occurs in a list of lines, at any depth of [.subckt] and [.lib]
    blocks. *)
Inductive occurs (x : Node.Line) : list Node.Line → Prop :=
| occurs_here rest : occurs x (x :: rest)
| occurs_later l rest : occurs x rest → occurs x (l :: rest)
| occurs_in_library entry lines rest :
    occurs x lines → occurs x (Node.LLibBlock entry lines :: rest)
| occurs_in_subckt name node parameters lines line rest :
    occurs x lines → occurs x (Node.LSubcktCmd name node parameters lines line :: rest).

(** The statement a [.data] line stands for. *)
Definition data_statement (node : Node.DataCmd) : DataStatement.t :=
  DataStatement.mk (Node.data_table node)
    (SpiceModelWalker.data_parameters (Node.data_name node) (Node.data_value node)).

(** The lines inside a [.subckt] or [.lib] block. *)
Definition sublines (line : Node.Line) : list Node.Line :=
  match line with
  | Node.LLibBlock _ lines => lines
  | Node.LSubcktCmd _ _ _ lines _ => lines
  | _ => []
  end.

(** Two walker states hold the same open scopes, but for the content of
    the innermost one. *)
Definition same_scopes (w w' : SpiceModelWalker.t) : Prop :=
  match SpiceModelWalker._scopes w, SpiceModelWalker._scopes w' with
  | [], [] => True
  | SpiceModelWalker.SubcktScope _ :: rest, SpiceModelWalker.SubcktScope _ :: rest' =>
      rest = rest'
  | SpiceModelWalker.LibScope _ :: rest, SpiceModelWalker.LibScope _ :: rest' =>
      rest = rest'
  | _, _ => False
  end.

End Spec.

(** ** Concrete netlists *)

Module Examples.

Import Node.

(** An environment whose grammar yields the tree [model] and which has no
    file to read. *)
Definition env_of (model : Node.Circuit) : SpiceParser.env :=
  SpiceParser.mk_env (fun path => Raise (OSError ("No such file or directory: " +:+ path)))
    (fun _ => Return model) "/work".

(** [.subckt name a b ... .ends] *)
Definition subckt (name : string) (lines : list Line) : Line :=
  LSubcktCmd (Single name) (Some ["a"; "b"]) None lines 1.

(** [Xdev a b name] *)
Definition instance (dev name : string) : Line :=
  LSubcircuit (mkSubcircuit dev ["a"; "b"; name] None None).

(** Three subcircuits written in the order C, B, A, where C instantiates B
    and B instantiates A. *)
Definition chain_CBA : Node.Circuit :=
  mkCircuit "chain"
    [subckt "C" [instance "X1" "B"]; subckt "B" [instance "X1" "A"]; subckt "A" []].

(** The subcircuit statements the walker makes of them. *)
Definition leaf (name : string) (required : gset string) (statements : list Statement)
    : SubCircuitStatement.t :=
  SubCircuitStatement.mk name ["a"; "b"] ∅ statements [] [] required ∅ [].

Definition instance_statement (name : string) : Statement :=
  SElement (ElementStatement.mk SubCircuitElement "X" "1" [NStr name; NStr "a"; NStr "b"] ∅).

Definition leaf_A : SubCircuitStatement.t := leaf "A" ∅ [].
Definition leaf_B : SubCircuitStatement.t := leaf "B" {["a"]} [instance_statement "A"].
Definition leaf_C : SubCircuitStatement.t := leaf "C" {["b"]} [instance_statement "B"].

Definition chain_circuit (subcircuits : list SubCircuitStatement.t) : CircuitStatement.t :=
  CircuitStatement.set_subcircuits subcircuits (CircuitStatement.__init__ "chain" "/work").

Definition chain_parser : SpiceParser.t :=
  SpiceParser.mk "/work" (chain_circuit [leaf_A; leaf_B; leaf_C]).

(** A [.lib] block that holds the subcircuit OUTER, in which C, which
    instantiates B, is written before B. *)
Definition library_outer : Node.Circuit :=
  mkCircuit "T"
    [LLibBlock (Single "fast")
       [subckt "OUTER" [subckt "C" [instance "X1" "B"]; subckt "B" []]]].

(** Subcircuit A, a subcircuit B that instantiates A, and a second
    subcircuit A that instantiates B. *)
Definition duplicate_A : Node.Circuit :=
  mkCircuit "T"
    [subckt "A" []; subckt "B" [instance "X1" "A"]; subckt "A" [instance "X1" "B"]].

(** A [.lib] block that holds a subcircuit with the line
    [M1 d g s b UNKMOD], and no [.model] anywhere. *)
Definition unknown_model_in_library : Node.Circuit :=
  mkCircuit "T"
    [LLibBlock (Single "fast")
       [subckt "amp" [LMOSFET (mkMOSFET "M1" (Some "UNKMOD") None "d" "g" "s" "b")]]].

(** [M1 d g s b UNKMOD] and no [.model]. *)
Definition unknown_model : Node.Circuit :=
  mkCircuit "T" [LMOSFET (mkMOSFET "M1" (Some "UNKMOD") None "d" "g" "s" "b")].

(** What the walker makes of a tree, for a tree it accepts. *)
Definition walked (model : Node.Circuit) (path : string) : CircuitStatement.t :=
  match SpiceModelWalker.walk_Circuit model path with
  | inr circuit => circuit
  | inl _ => CircuitStatement.__init__ "" path
  end.

(** A walker at the top level of an empty circuit, inside a subcircuit and
    inside a library block. *)
Definition at_root : SpiceModelWalker.t :=
  SpiceModelWalker.mk "/work" (CircuitStatement.__init__ "T" "/work") [].
Definition in_subckt : SpiceModelWalker.t :=
  SpiceModelWalker.open_scope
    (SpiceModelWalker.SubcktScope (SubCircuitStatement.__init__ "amp" ["a"; "b"] ∅)) at_root.
Definition in_library : SpiceModelWalker.t :=
  SpiceModelWalker.open_scope
    (SpiceModelWalker.LibScope (LibraryStatement.__init__ "fast")) at_root.

(** Subcircuit A uses B and B uses A. *)
Definition cycle_AB : Node.Circuit :=
  mkCircuit "cycle" [subckt "A" [instance "X1" "B"]; subckt "B" [instance "X1" "A"]].

(** Subcircuit A at the top level, and a subcircuit B whose own
    subcircuit C instantiates A: no subcircuit depends on itself. *)
Definition nested_uses_outer : Node.Circuit :=
  mkCircuit "nested" [subckt "A" []; subckt "B" [subckt "C" [instance "X1" "A"]]].

(** [Q1 c b e t 2N2222 1.5]: thermal node, model and area. *)
Definition bjt_thermal_model_area : Node.BJT :=
  mkBJT "Q1" ["t"; "2N2222"; "1.5"] "c" "b" "e" None None None.

(** [Q1 c b e s t 2N2222 1.5]: substrate, thermal node, model and area. *)
Definition bjt_substrate_thermal_model_area : Node.BJT :=
  mkBJT "Q1" ["t"; "2N2222"; "1.5"] "c" "b" "e" (Some "s") None None.

(** [Q1 c b e 2N2222 1.5]: model and area. *)
Definition bjt_model_area : Node.BJT :=
  mkBJT "Q1" ["2N2222"; "1.5"] "c" "b" "e" None None None.

(** [Q1 c b e t 2N2222] with the [area] attribute set to 2. *)
Definition bjt_area_keyword : Node.BJT :=
  mkBJT "Q1" ["t"; "2N2222"] "c" "b" "e" None (Some (PInt 2)) None.

(** [.subckt foo a b] closed by [.ends bar]. *)
Definition mismatched_ends : Node.Circuit :=
  mkCircuit "T" [LSubcktCmd (Pair "foo" "bar") (Some ["a"; "b"]) None [] 2].

(** [Q1 c b e] without a model. *)
Definition bjt_without_model : Node.Circuit :=
  mkCircuit "T" [LBJT (mkBJT "Q1" [] "c" "b" "e" None None None)].

(** [.model nch nmos] and [M1 d g gnd gnd nch]. *)
Definition grounded_mosfet : Node.Circuit :=
  mkCircuit "T"
    [LModelCmd (mkModelCmd "nch" "nmos" None);
     LMOSFET (mkMOSFET "M1" (Some "nch") None "d" "g" "gnd" "gnd")].

(** [E1 out 0 in 0 2] *)
Definition vcvs_E1 : Node.VoltageControlled :=
  mkVoltageControlled "E1" None (Some "in") (Some "0") (Some (PInt 2)) "out" "0".

(** The walker after a line it accepts. *)
Definition after (line : Node.Line) (w : SpiceModelWalker.t) : SpiceModelWalker.t :=
  match SpiceModelWalker.walk_Line line w with
  | inr w' => w'
  | inl _ => w
  end.

(** [S1 a b c d sw] and [S2 a b sw]. *)
Definition switch_four : Node.Switch :=
  mkSwitch "S1" (Some "sw") None "a" "b" (Some "c") (Some "d").
Definition switch_two : Node.Switch :=
  mkSwitch "S2" (Some "sw") None "a" "b" None None.
(** A switch with its positive control node only, and one with its
    negative control node only. *)
Definition switch_only_p : Node.Switch :=
  mkSwitch "S3" (Some "sw") None "a" "b" (Some "c") None.
Definition switch_only_n : Node.Switch :=
  mkSwitch "S4" (Some "sw") None "a" "b" None (Some "d").

(** The switch [S1 a b c d sw] written in a [.lib] block. *)
Definition switch_in_library : Node.Circuit :=
  mkCircuit "T" [LLibBlock (Single "fast") [LSwitch switch_four]].

(** A switch with one control node inside a subcircuit. *)
Definition half_switch_in_subckt : Node.Circuit :=
  mkCircuit "T" [subckt "amp" [LSwitch switch_only_n]].

(** [.data sweep r c 1 2 3 4] and a later [.data sweep r 5 6]. *)
Definition data_sweep : Node.DataCmd :=
  mkDataCmd "sweep" ["r"; "c"] [PInt 1; PInt 2; PInt 3; PInt 4] 3.
Definition data_sweep_again : Node.DataCmd :=
  mkDataCmd "sweep" ["r"] [PInt 5; PInt 6] 7.

(** [.param b=1 a=2], [.model nch nmos] and [M1 d g gnd gnd nch]. *)
Definition parameters_b_a : Node.Circuit :=
  mkCircuit "T"
    [LParamCmd (Some [("b", PInt 1); ("a", PInt 2)]);
     LModelCmd (mkModelCmd "nch" "nmos" None);
     LMOSFET (mkMOSFET "M1" (Some "nch") None "d" "g" "gnd" "gnd")].

(** [.lib models.lib fast] in a netlist without a [.lib fast] block. *)
Definition unknown_library_call : Node.Circuit :=
  mkCircuit "T" [LLibCall (mkLibCall (Single "fast") "models.lib")].

(** A netlist of subcircuits only and one of models only. *)
Definition only_subcircuits : Node.Circuit :=
  mkCircuit "lib" [subckt "A" []; subckt "B" [instance "X1" "A"]].
Definition only_models : Node.Circuit :=
  mkCircuit "lib" [LModelCmd (mkModelCmd "nch" "nmos" None);
                   LModelCmd (mkModelCmd "pch" "pmos" None)].

End Examples.

(** ** Views of the IR used in the statements about the resolver, the walker
    and the build *)

Module View.

Import SubCircuitStatement.

(** [s'] is [s] with its subcircuit list rearranged, at every depth: the
    members of the list of [s'] are those of [s], each rearranged in turn,
    in some order; name, nodes, statements, models and requirements are
    those of [s]. *)
Inductive reordered : SubCircuitStatement.t → SubCircuitStatement.t → Prop :=
| reordered_intro s mid result :
    _subcircuits s ≡ₚ mid → Forall2 reordered mid result →
    reordered s (set_subcircuits result s).

(** The lowercased names of the subcircuits a scope defines. *)
Definition defined (l : list SubCircuitStatement.t) : gset string :=
  list_to_set (Resolver.subcircuit_names l).

(** A netlist whose subcircuits hold no subcircuits themselves. *)
Definition flat (c : CircuitStatement.t) : Prop :=
  Forall (λ s, _subcircuits s = []) (CircuitStatement._subcircuits c).

(** The three messages of the resolver. *)
Definition resolver_message (msg : string) : Prop :=
  Str.startswith "Model (" msg = true
  ∨ Str.startswith "Subcircuit (" msg = true
  ∨ Str.startswith "Crossed dependencies (" msg = true.

(** A circuit with other data tables. *)
Definition with_data (data : gmap string DataStatement.t) (c : CircuitStatement.t)
    : CircuitStatement.t :=
  CircuitStatement.mk (CircuitStatement._path c) (CircuitStatement._title c)
    (CircuitStatement._library_calls c) (CircuitStatement._statements c)
    (CircuitStatement._libraries c) (CircuitStatement._subcircuits c)
    (CircuitStatement._models c) (CircuitStatement._required_subcircuits c)
    (CircuitStatement._required_models c) (CircuitStatement._params c) data.

(** Two circuits that differ in their data tables at most. *)
Definition same_but_data (c c' : CircuitStatement.t) : Prop :=
  c' = with_data (CircuitStatement._data c') c.

(** Two states of a scope that was opened by the same [.subckt] or [.lib]
    line. *)
Definition same_header (sc sc' : SpiceModelWalker.scope) : Prop :=
  match sc, sc' with
  | SpiceModelWalker.SubcktScope s, SpiceModelWalker.SubcktScope s' =>
      _name s' = _name s ∧ _nodes s' = _nodes s ∧ _parameters s' = _parameters s
  | SpiceModelWalker.LibScope l, SpiceModelWalker.LibScope l' =>
      LibraryStatement._entry l' = LibraryStatement._entry l
  | _, _ => False
  end.

(** [w'] is [w] after lines walked inside an open block: the block is the
    one that was open, the scopes around it are untouched, and the root
    differs in its data tables at most. *)
Definition inside (w w' : SpiceModelWalker.t) : Prop :=
  SpiceModelWalker._path w' = SpiceModelWalker._path w
  ∧ same_but_data (SpiceModelWalker._root w) (SpiceModelWalker._root w')
  ∧ match SpiceModelWalker._scopes w, SpiceModelWalker._scopes w' with
    | sc :: rest, sc' :: rest' => same_header sc sc' ∧ rest' = rest
    | _, _ => False
    end.

(** The models and the subcircuits that the present scope requires; a
    library block keeps no such sets. *)
Definition present_required_models (w : SpiceModelWalker.t) : gset string :=
  match SpiceModelWalker._scopes w with
  | [] => CircuitStatement._required_models (SpiceModelWalker._root w)
  | SpiceModelWalker.SubcktScope s :: _ => _required_models s
  | SpiceModelWalker.LibScope _ :: _ => ∅
  end.

Definition present_required_subcircuits (w : SpiceModelWalker.t) : gset string :=
  match SpiceModelWalker._scopes w with
  | [] => CircuitStatement._required_subcircuits (SpiceModelWalker._root w)
  | SpiceModelWalker.SubcktScope s :: _ => _required_subcircuits s
  | SpiceModelWalker.LibScope _ :: _ => ∅
  end.

(** A line that records a model or a subcircuit in the present scope:
    a MOSFET, a BJT, an instance of a subcircuit, a switch with a model. *)
Definition records_requirement (line : Node.Line) : Prop :=
  match line with
  | Node.LMOSFET _ | Node.LBJT _ | Node.LSubcircuit _ => True
  | Node.LSwitch node => is_Some (Node.sw_model node)
  | _ => False
  end.

(** The calls that [build] makes on the sink: for the entries of a
    parameter statement, for a model, for the elements of a statement list
    (an include statement makes none) and for a library call. *)
Definition parameter_calls (p : ParamStatement.t) : list Netlist.call :=
  map (λ kv : string * pyvalue, Netlist.CallParameter (fst kv) (snd kv))
    (ParamStatement._parameters p).

Definition model_call (m : ModelStatement.t) : Netlist.call :=
  Netlist.CallModel (ModelStatement._name m) (ModelStatement._model_type m)
    (ModelStatement._parameters m).

Definition element_call (e : ElementStatement.t) : Netlist.call :=
  Netlist.CallElement (ElementStatement._statement e) (ElementStatement._name e)
    (ElementStatement._nodes e) (ElementStatement._params e).

Definition element_calls (l : list Statement) : list Netlist.call :=
  omap (λ st, match st with
              | SElement e => Some (element_call e)
              | SInclude _ => None
              end) l.

Definition scope_calls (params : list ParamStatement.t) (models : list ModelStatement.t)
    : list Netlist.call :=
  concat (map parameter_calls params) ++ map model_call models.

Definition library_call_calls (libraries : gmap string LibraryStatement.t)
    (lc : LibCallStatement.t) : list Netlist.call :=
  match libraries !! LibCallStatement._entry lc with
  | Some library =>
      scope_calls (LibraryStatement._params library) (LibraryStatement._models library)
  | None => []
  end.

(** A netlist that has received further calls. *)
Definition received (calls : list Netlist.call) (n : Netlist.t) : Netlist.t :=
  match n with
  | Netlist.mk name nodes parameters calls0 => Netlist.mk name nodes parameters (calls0 ++ calls)
  end.

(** The readings of the arguments that follow the nodes of a Q line: the
    further nodes, the area that is stored and the model.  [None] is a line
    that [walk_BJT] refuses. *)
Definition bjt_shape (node : Node.BJT) : option (list string * option pyvalue * string) :=
  match Node.bjt_args node, Node.bjt_area node with
  | [m], _ => Some ([], None, m)
  | [a; b], None =>
      match SpiceModelWalker._to_number b with
      | inr v => Some ([], Some v, a)
      | inl _ => Some ([a], None, b)
      end
  | [a; b; c], None =>
      match Node.bjt_substrate node, SpiceModelWalker._to_number c with
      | None, inl _ => Some ([a; b], None, c)
      | _, _ => None
      end
  | _, _ => None
  end.

(** The collector, base and emitter of a Q line, and its substrate when
    it has one. *)
Definition bjt_nodes (node : Node.BJT) : list string :=
  [Node.bjt_collector node; Node.bjt_base node; Node.bjt_emitter node]
  ++ match Node.bjt_substrate node with Some s => [s] | None => [] end.

(** The keywords of an element made with a model: the parameters of the
    line over the area, and the model over both. *)
Definition bjt_keywords (node : Node.BJT) (area : option pyvalue) (m : string) : kwargs :=
  <["model" := PStr m]>
    (SpiceModelWalker.update_parameters (Node.bjt_parameters node)
       (match area with Some v => <["area" := v]> ∅ | None => ∅ end)).

(** No keyword of the line bears the name of a positional parameter of
    [ElementStatement.__init__]. *)
Definition free_keywords (parameters : option kwargs) : Prop :=
  ∀ p, parameters = Some p → p !! "self" = None ∧ p !! "statement" = None ∧ p !! "name" = None.

(** The filter of [l[idx::step]] on a list whose first position is [o]. *)
Definition slice_at {A} (o idx step : nat) (l : list A) : list A :=
  map snd (filter (λ p : nat * A, (idx <=? fst p)%nat && ((fst p - idx) mod step =? 0)%nat)
             (imap (λ i x, (o + i, x)) l)).

(** A set of names in lower case. *)
Definition lowercase (X : gset string) : Prop := ∀ x, x ∈ X → Str.lower x = x.

(** The requirements of a subcircuit and of the subcircuits it holds, at
    every depth, are in lower case. *)
Inductive lowered_sub : SubCircuitStatement.t → Prop :=
| lowered_sub_intro s :
    lowercase (_required_models s) → lowercase (_required_subcircuits s) →
    Forall lowered_sub (_subcircuits s) → lowered_sub s.

Definition lowered_library (l : LibraryStatement.t) : Prop :=
  Forall lowered_sub (LibraryStatement._subcircuits l).

Definition lowered_circuit (c : CircuitStatement.t) : Prop :=
  lowercase (CircuitStatement._required_models c)
  ∧ lowercase (CircuitStatement._required_subcircuits c)
  ∧ Forall lowered_sub (CircuitStatement._subcircuits c)
  ∧ map_Forall (λ _ l, lowered_library l) (CircuitStatement._libraries c).

Definition lowered_scope (sc : SpiceModelWalker.scope) : Prop :=
  match sc with
  | SpiceModelWalker.SubcktScope s => lowered_sub s
  | SpiceModelWalker.LibScope l => lowered_library l
  end.

Definition lowered (w : SpiceModelWalker.t) : Prop :=
  lowered_circuit (SpiceModelWalker._root w)
  ∧ Forall lowered_scope (SpiceModelWalker._scopes w).

End View.

(** * Properties *)

(** ** Lowercasing *)

Section Unicode_facts.
Import Unicode.
Local Open Scope N_scope.

Lemma of_bytes_bytes s : of_bytes (bytes s) = s.
Proof. induction s as [|b s IH]; simpl; [done|]. by rewrite ascii_N_embedding, IH. Qed.

Lemma bytes_of_bytes l : Forall (λ b, b < 256) l → bytes (of_bytes l) = l.
Proof.
  induction 1 as [|b l Hb _ IH]; simpl; [done|]. rewrite N_ascii_embedding by done.
  by f_equal.
Qed.

(** The tests on bytes and code points as propositions. *)
Ltac tests :=
  unfold continuation, second_of_three, second_of_four, scalar, between in *;
  repeat match goal with
    | H : (if ?b then _ else _) = _ |- _ => destruct b eqn:?
    | H : _ && _ = true |- _ => apply andb_true_iff in H as [? ?]
    | H : _ && _ = false |- _ => apply andb_false_iff in H as [?|?]
    | H : _ || _ = true |- _ => apply orb_true_iff in H as [?|?]
    | H : _ || _ = false |- _ => apply orb_false_iff in H as [? ?]
    | H : (_ <? _) = true |- _ => apply N.ltb_lt in H
    | H : (_ <? _) = false |- _ => apply N.ltb_ge in H
    | H : (_ <=? _) = true |- _ => apply N.leb_le in H
    | H : (_ <=? _) = false |- _ => apply N.leb_gt in H
    | H : (_ =? _) = true |- _ => apply N.eqb_eq in H
    | H : (_ =? _) = false |- _ => apply N.eqb_neq in H
    end.

Ltac arith := zify; Z.to_euclidean_division_equations; lia.

(** Settles the tests of the goal that the hypotheses decide. *)
Ltac decide_tests :=
  unfold continuation, second_of_three, second_of_four, scalar, between;
  repeat match goal with
    | |- context [?a <? ?b] =>
        first [ rewrite (proj2 (N.ltb_lt a b)) by arith
              | rewrite (proj2 (N.ltb_ge a b)) by arith ]
    | |- context [?a <=? ?b] =>
        first [ rewrite (proj2 (N.leb_le a b)) by arith
              | rewrite (proj2 (N.leb_gt a b)) by arith ]
    | |- context [?a =? ?b] =>
        first [ rewrite (proj2 (N.eqb_eq a b)) by arith
              | rewrite (proj2 (N.eqb_neq a b)) by arith ]
    end;
  cbn [andb orb negb].

(** One step of [decode]. *)
Lemma decode_eq l :
  decode l
  = match l with
    | [] => Some []
    | b1 :: l1 =>
        if b1 <? 0x80 then cons b1 <$> decode l1
        else
          match l1 with
          | [] => None
          | b2 :: l2 =>
              if between 0xC2 0xDF b1 then
                if continuation b2
                then cons ((b1 - 0xC0) * 64 + (b2 - 0x80)) <$> decode l2
                else None
              else
                match l2 with
                | [] => None
                | b3 :: l3 =>
                    if between 0xE0 0xEF b1 then
                      if second_of_three b1 b2 && continuation b3
                      then cons ((b1 - 0xE0) * 4096 + (b2 - 0x80) * 64 + (b3 - 0x80))
                             <$> decode l3
                      else None
                    else
                      match l3 with
                      | [] => None
                      | b4 :: l4 =>
                          if between 0xF0 0xF4 b1 && second_of_four b1 b2
                             && continuation b3 && continuation b4
                          then cons ((b1 - 0xF0) * 262144 + (b2 - 0x80) * 4096
                                     + (b3 - 0x80) * 64 + (b4 - 0x80))
                                 <$> decode l4
                          else None
                      end
                end
          end
    end.
Proof. by destruct l as [|? [|? [|? [|? ?]]]]. Qed.

Lemma decode_encode_point c l :
  scalar c = true → decode (encode_point c ++ l) = cons c <$> decode l.
Proof.
  intros Hc. unfold encode_point.
  destruct (c <? 0x80) eqn:H1; [cbn [app]; rewrite decode_eq; by rewrite H1|].
  destruct (c <? 0x800) eqn:H2; [|destruct (c <? 0x10000) eqn:H3];
    cbn [app]; rewrite decode_eq; tests; try arith; decide_tests.
  - do 2 f_equal. arith.
  - destruct (decide (c / 4096 = 0)) as [He0|He0];
      [|destruct (decide (c / 4096 = 13)) as [Hed|Hed]]; decide_tests; do 2 f_equal; arith.
  - do 2 f_equal. arith.
  - destruct (decide (c / 262144 = 0)) as [Hf0|Hf0];
      [|destruct (decide (c / 262144 = 4)) as [Hf4|Hf4]]; decide_tests; do 2 f_equal; arith.
Qed.

Lemma decode_encode l :
  Forall (λ c, scalar c = true) l → decode (encode l) = Some l.
Proof.
  induction 1 as [|c l Hc _ IH]; [done|].
  unfold encode. cbn [flat_map]. fold (encode l).
  by rewrite decode_encode_point, IH.
Qed.

Lemma encode_point_bytes c :
  scalar c = true → Forall (λ b, b < 256) (encode_point c).
Proof.
  intros Hc. unfold encode_point.
  destruct (c <? 0x80) eqn:H1; [|destruct (c <? 0x800) eqn:H2; [|destruct (c <? 0x10000) eqn:H3]];
    tests; repeat constructor; arith.
Qed.

Lemma encode_bytes l :
  Forall (λ c, scalar c = true) l → Forall (λ b, b < 256) (encode l).
Proof.
  induction 1 as [|c l Hc _ IH]; [constructor|].
  unfold encode. cbn [flat_map]. apply Forall_app. split; [by apply encode_point_bytes|exact IH].
Qed.

(** What [decode] gives are code points that a string can hold. *)
Lemma decode_scalar l : ∀ points, decode l = Some points → Forall (λ c, scalar c = true) points.
Proof.
  induction (Nat.lt_wf_0_projected length l) as [l _ IH]. intros points.
  rewrite decode_eq.
  assert (∀ c l' points,
            (length l' < length l)%nat → scalar c = true →
            cons c <$> decode l' = Some points → Forall (λ c, scalar c = true) points) as Hstep.
  { intros c l' ps Hlen Hc Hps. apply fmap_Some in Hps as (ps' & Hps' & ->).
    constructor; [done|]. by apply (IH l'). }
  destruct l as [|b1 l1]; [by intros [= <-]|].
  destruct (b1 <? 0x80) eqn:H1.
  { apply Hstep; [simpl; lia|]. tests. decide_tests. done. }
  destruct l1 as [|b2 l2]; [done|].
  destruct (between 0xC2 0xDF b1) eqn:H2.
  { destruct (continuation b2) eqn:Hb2; [|done].
    apply Hstep; [simpl; lia|]. tests. decide_tests. done. }
  destruct l2 as [|b3 l3]; [done|].
  destruct (between 0xE0 0xEF b1) eqn:H3.
  { destruct (second_of_three b1 b2 && continuation b3) eqn:Hb3; [|done].
    apply Hstep; [simpl; lia|].
    apply andb_true_iff in Hb3 as [Hb2 Hb3]. unfold second_of_three in Hb2.
    destruct (b1 =? 0xE0) eqn:He0; [|destruct (b1 =? 0xED) eqn:Hed]; tests;
      unfold scalar, between; apply orb_true_iff;
      (destruct (decide ((b1 - 0xE0) * 4096 + (b2 - 0x80) * 64 + (b3 - 0x80) < 0xD800));
       [left; by apply N.ltb_lt
       |right; apply andb_true_iff; split; apply N.leb_le; arith]). }
  destruct l3 as [|b4 l4]; [done|].
  destruct (between 0xF0 0xF4 b1 && second_of_four b1 b2 && continuation b3 && continuation b4)
    eqn:H4; [|done].
  apply Hstep; [simpl; lia|].
  apply andb_true_iff in H4 as [H4 Hb4]. apply andb_true_iff in H4 as [H4 Hb3].
  apply andb_true_iff in H4 as [H4 Hb2]. unfold second_of_four in Hb2.
  destruct (b1 =? 0xF0) eqn:Hf0; [|destruct (b1 =? 0xF4) eqn:Hf4]; tests;
    unfold scalar, between; apply orb_true_iff; right; apply andb_true_iff;
    split; apply N.leb_le; arith.
Qed.

Lemma mapping_of_elem c table v : mapping_of c table = Some v → (c, v) ∈ table.
Proof.
  induction table as [|[k w] table IH]; simpl; [done|].
  destruct (c <? k); [done|]. destruct (c =? k) eqn:Hk.
  - apply N.eqb_eq in Hk as ->. intros [= ->]. left.
  - intros H. right. by apply IH.
Qed.

(** The table maps to lowercase characters only. *)
Lemma lowercase_mapping_stable :
  forallb (λ p : N * list N, forallb stable (snd p)) lowercase_mapping = true.
Proof. vm_compute. reflexivity. Qed.

Lemma lower_point_stable c :
  scalar c = true → c ≠ capital_sigma → Forall (λ o, stable o = true) (lower_point c).
Proof.
  intros Hc Hsigma. unfold lower_point at 1.
  destruct (mapping_of c lowercase_mapping) as [v|] eqn:Hv.
  - apply mapping_of_elem in Hv.
    pose proof lowercase_mapping_stable as Htable.
    rewrite forallb_forall in Htable. apply list_elem_of_In, Htable in Hv. simpl in Hv.
    rewrite forallb_forall in Hv. apply Forall_forall. intros o Ho.
    by apply Hv, list_elem_of_In.
  - constructor; [|constructor]. unfold stable. rewrite Hc.
    apply N.eqb_neq in Hsigma. rewrite Hsigma. cbn [negb]. rewrite !andb_true_r.
    apply bool_decide_eq_true. unfold lower_point. by rewrite Hv.
Qed.

Lemma lower_points_stable l : ∀ after_cased,
  Forall (λ c, scalar c = true) l →
  Forall (λ o, stable o = true) (lower_points after_cased l).
Proof.
  induction l as [|c l IH]; intros after_cased Hl; [constructor|].
  apply Forall_cons in Hl as [Hc Hl]. cbn [lower_points]. apply Forall_app. split; [|by apply IH].
  destruct (c =? capital_sigma) eqn:Hsigma.
  - destruct (after_cased && negb (cased_ahead l)); repeat constructor; vm_compute; reflexivity.
  - apply lower_point_stable; [done|]. by apply N.eqb_neq.
Qed.

Lemma lower_points_fixed l : ∀ after_cased,
  Forall (λ o, stable o = true) l → lower_points after_cased l = l.
Proof.
  induction l as [|c l IH]; intros after_cased Hl; [done|].
  apply Forall_cons in Hl as [Hc Hl]. cbn [lower_points]. rewrite IH by done.
  unfold stable in Hc. apply andb_true_iff in Hc as [Hc _].
  apply andb_true_iff in Hc as [Hc Hsigma]. apply negb_true_iff in Hsigma.
  rewrite Hsigma. apply bool_decide_eq_true in Hc. by rewrite Hc.
Qed.

Lemma stable_scalar l :
  Forall (λ o, stable o = true) l → Forall (λ c, scalar c = true) l.
Proof.
  intros H. eapply Forall_impl; [exact H|].
  intros c Hc. unfold stable in Hc. by apply andb_true_iff in Hc as [_ ?].
Qed.

End Unicode_facts.

(** [str.lower] gives a string that it leaves as it is. *)
Lemma lower_idemp s : Str.lower (Str.lower s) = Str.lower s.
Proof.
  unfold Str.lower.
  destruct (Unicode.decode (Unicode.bytes s)) as [points|] eqn:Hs; [|by rewrite Hs].
  pose proof (lower_points_stable points false (decode_scalar _ _ Hs)) as Hstable.
  rewrite bytes_of_bytes by (by apply encode_bytes, stable_scalar).
  rewrite decode_encode by (by apply stable_scalar).
  by rewrite lower_points_fixed.
Qed.


(** [str.lower] on names with letters outside ASCII: an umlaut, a final
    sigma, and the dotted capital I, which becomes two characters. *)
Lemma lower_examples :
  Str.lower "Nch" = "nch"
  ∧ Str.lower "ÄMP" = "ämp"
  ∧ Str.lower "ΟΔΟΣ" = "οδος"
  ∧ Str.lower "İ" = "i̇".
Proof. vm_compute. by split_and!. Qed.

(** [_to_number] on the spellings that [int] and [float] accept besides
    plain digits, and on two that they refuse. *)
Lemma to_number_examples :
  SpiceModelWalker._to_number "1_000" = inr (PInt 1000)
  ∧ SpiceModelWalker._to_number " 12 " = inr (PInt 12)
  ∧ SpiceModelWalker._to_number "1.5" = inr (PFloat "1.5")
  ∧ SpiceModelWalker._to_number "1e3" = inr (PFloat "1e3")
  ∧ SpiceModelWalker._to_number "inf" = inr (PFloat "inf")
  ∧ SpiceModelWalker._to_number "-Infinity" = inr (PFloat "-Infinity")
  ∧ SpiceModelWalker._to_number "nan" = inr (PFloat "nan")
  ∧ SpiceModelWalker._to_number "2N2222"
    = inl (ValueError "could not convert string to float: '2N2222'")
  ∧ SpiceModelWalker._to_number "1__0"
    = inl (ValueError "could not convert string to float: '1__0'").
Proof. vm_compute. by split_and!. Qed.

(** A subcircuit and a model whose names hold a capital outside ASCII are
    found under their names in lower case. *)
Lemma names_outside_ascii_resolve :
  ∃ p, SpiceParser.from_model "/work" false
         (Node.mkCircuit "T"
            [Examples.subckt "ÄMP" [];
             Examples.instance "X1" "ämp";
             Node.LModelCmd (Node.mkModelCmd "NÇH" "nmos" None);
             Node.LMOSFET (Node.mkMOSFET "M1" (Some "nçh") None "d" "g" "s" "b")])
       = inr p.
Proof. eexists. vm_compute. reflexivity. Qed.

(** ** Induction over nested subcircuits *)

Section SubCircuit_induction.
Import SubCircuitStatement.
Variable P : SubCircuitStatement.t → Prop.
Hypothesis step : ∀ s, Forall P (_subcircuits s) → P s.

Fixpoint SubCircuit_nested_ind (s : SubCircuitStatement.t) : P s :=
  step s
    ((fix go (l : list SubCircuitStatement.t) : Forall P l :=
        match l with
        | [] => @List.Forall_nil _ P
        | x :: l' => @List.Forall_cons _ P x l' (SubCircuit_nested_ind x) (go l')
        end) (_subcircuits s)).
End SubCircuit_induction.

Lemma lower_set_names (l : list string) (X : gset string) :
  Resolver.lower_set (X ∪ list_to_set (map Str.lower l))
  = Resolver.lower_set X ∪ list_to_set (map Str.lower l).
Proof.
  unfold Resolver.lower_set. apply set_eq. intros x.
  rewrite elem_of_union, !elem_of_map, elem_of_list_to_set, list_elem_of_fmap.
  split.
  - intros (y & -> & Hy). apply elem_of_union in Hy as [Hy | Hy].
    + left. eauto.
    + right. rewrite elem_of_list_to_set, list_elem_of_fmap in Hy.
      destruct Hy as (z & -> & Hz). exists z. by rewrite lower_idemp.
  - intros [(y & -> & Hy) | (z & -> & Hz)].
    + exists y. split; [done|]. apply elem_of_union. by left.
    + exists (Str.lower z). rewrite lower_idemp. split; [done|]. apply elem_of_union. right.
      rewrite elem_of_list_to_set, list_elem_of_fmap. eauto.
Qed.

(** ** The subcircuit sort *)

Section Sort.
Import SubCircuitStatement Resolver Spec.

Lemma ordered_nil : ordered [].
Proof. intros before s after name H. by destruct before. Qed.

Lemma ordered_snoc l s :
  ordered l → (∀ name, name ∈ depends_of s → name ∈ map lname l) → ordered (l ++ [s]).
Proof.
  intros Hl Hs before s' after name Heq Hin.
  destruct after as [|x after _] using rev_ind.
  - apply app_inj_tail in Heq as [-> ->]. by apply Hs.
  - rewrite app_comm_cons, app_assoc in Heq.
    apply app_inj_tail in Heq as [-> _]. by eapply Hl.
Qed.

Lemma all_emitted_spec depends result_names :
  all_emitted depends result_names = true ↔ ∀ name, name ∈ depends → name ∈ result_names.
Proof.
  unfold all_emitted. rewrite forallb_forall. split.
  - intros H name Hin. apply elem_of_elements, list_elem_of_In in Hin.
    apply H in Hin. by apply bool_decide_eq_true in Hin.
  - intros H name Hin. apply bool_decide_eq_true, H, elem_of_elements, list_elem_of_In, Hin.
Qed.

Lemma for_items_spec items : ∀ result result_names result' result_names' kept,
  for_items items result result_names = (result', result_names', kept) →
  Forall item_ok items →
  result_names = map lname result →
  ordered result →
  result_names' = map lname result'
  ∧ ordered result'
  ∧ Forall item_ok kept
  ∧ length kept ≤ length items
  ∧ result' ++ map fst kept ≡ₚ result ++ map fst items.
Proof.
  induction items as [|[subckt depends] items IH]; intros result names result' names' kept.
  - simpl. intros [= <- <- <-] _ Hn Ho. rewrite !app_nil_r. repeat split; auto.
  - simpl. intros Hrun Hok Hn Ho. apply Forall_cons in Hok as [Hit Hok].
    unfold item_ok in Hit. simpl in Hit.
    destruct (all_emitted depends names) eqn:Hall.
    + apply IH in Hrun as (? & ? & ? & ? & Hperm); try done.
      * repeat split; try done; [lia|].
        rewrite Hperm. simpl. rewrite <- app_assoc. done.
      * rewrite Hn, map_app. done.
      * apply ordered_snoc; [done|]. intros name Hin. rewrite <- Hn.
        apply (proj1 (all_emitted_spec _ _) Hall). by rewrite Hit.
    + destruct (for_items items result names) as [[r n] k] eqn:Hrest.
      injection Hrun as <- <- <-.
      apply IH in Hrest as (? & ? & ? & ? & Hperm); try done.
      repeat split; try done.
      * by apply Forall_cons.
      * simpl; lia.
      * simpl. rewrite <- !Permutation_middle. by f_equiv.
Qed.

Lemma while_items_spec fuel : ∀ previous items result result_names items' result',
  while_items fuel previous items result result_names = Some (items', result') →
  Forall item_ok items →
  result_names = map lname result →
  ordered result →
  ordered result'
  ∧ result' ++ map fst items' ≡ₚ result ++ map fst items.
Proof.
  induction fuel as [|fuel IH]; intros previous items result names items' result'; [done|].
  simpl. destruct ((0 <? length items) && (length items <? previous)).
  - destruct (for_items items result names) as [[r n] k] eqn:Hrun.
    intros Hloop Hok Hn Ho.
    apply for_items_spec in Hrun as (? & ? & ? & ? & Hperm); try done.
    apply IH in Hloop as (? & Hperm'); try done.
    split; [done|]. by rewrite Hperm'.
  - intros [= <- <-]. done.
Qed.

Lemma while_items_total fuel : ∀ previous items result result_names,
  0 < fuel → (length items < previous → length items < fuel) →
  is_Some (while_items fuel previous items result result_names).
Proof.
  induction fuel as [|fuel IH]; intros previous items result names Hpos Hlen; [lia|].
  simpl. destruct ((0 <? length items) && (length items <? previous)) eqn:Hcond; [|eauto].
  apply andb_true_iff in Hcond as [H0 Hlt].
  apply Nat.ltb_lt in H0, Hlt.
  destruct (for_items items result names) as [[r n] k] eqn:Hrun.
  assert (length k ≤ length items) as Hk.
  { clear -Hrun. revert result names r n k Hrun.
    induction items as [|[s d] items IH]; intros result names r n k; simpl.
    - by intros [= <- <- <-].
    - destruct (all_emitted d names).
      + intros H. apply IH in H. lia.
      + destruct (for_items items result names) as [[r' n'] k'] eqn:Hrest.
        intros [= <- <- <-]. apply IH in Hrest. simpl. lia. }
  apply IH; lia.
Qed.

Lemma sort_loop_spec items items' result :
  sort_loop items = (items', result) →
  Forall item_ok items →
  ordered result ∧ result ++ map fst items' ≡ₚ map fst items.
Proof.
  unfold sort_loop. intros Hloop Hok.
  destruct (while_items_total (S (S (length items))) (S (length items)) items [] [])
    as [[i r] Hsome]; [lia..|].
  rewrite Hsome in Hloop. injection Hloop as -> ->.
  apply while_items_spec in Hsome; auto using ordered_nil.
Qed.

Lemma insert_item_perm x l : insert_item x l ≡ₚ x :: l.
Proof.
  induction l as [|y l IH]; simpl; [done|].
  destruct (size x.2 <=? size y.2); [done|]. rewrite IH. apply perm_swap.
Qed.

Lemma sorted_items_perm l : sorted_items l ≡ₚ l.
Proof.
  induction l as [|x l IH]; simpl; [done|]. by rewrite insert_item_perm, IH.
Qed.
(** [sorted_items] is the stable sort by the size of the dependency set:
    its result is sorted, and the items of any one size stand in it in the
    order they had. *)
Lemma insert_item_sorted x l :
  StronglySorted (λ a b : item, size (snd a) ≤ size (snd b)) l →
  StronglySorted (λ a b : item, size (snd a) ≤ size (snd b)) (insert_item x l).
Proof.
  induction 1 as [|y l Hl IH Hy]; simpl.
  - repeat constructor.
  - destruct (size (snd x) <=? size (snd y)) eqn:Hcmp.
    + apply Nat.leb_le in Hcmp. constructor; [by constructor|].
      constructor; [done|]. eapply Forall_impl; [exact Hy|]. simpl. intros; lia.
    + apply Nat.leb_gt in Hcmp. constructor; [done|].
      rewrite insert_item_perm. constructor; [lia|done].
Qed.

Lemma sorted_items_sorted l :
  StronglySorted (λ a b : item, size (snd a) ≤ size (snd b)) (sorted_items l).
Proof.
  induction l as [|x l IH]; simpl; [constructor|]. by apply insert_item_sorted.
Qed.

Lemma insert_item_stable k x l :
  filter (λ it : item, size (snd it) = k) (insert_item x l)
  = filter (λ it : item, size (snd it) = k) (x :: l).
Proof.
  induction l as [|y l IH]; simpl; [done|].
  destruct (size (snd x) <=? size (snd y)) eqn:Hcmp; [done|].
  apply Nat.leb_gt in Hcmp.
  rewrite (filter_cons _ y), IH, !filter_cons.
  repeat case_decide; try done; lia.
Qed.

Lemma sorted_items_stable k l :
  filter (λ it : item, size (snd it) = k) (sorted_items l)
  = filter (λ it : item, size (snd it) = k) l.
Proof.
  induction l as [|x l IH]; simpl; [done|].
  by rewrite insert_item_stable, !filter_cons, IH.
Qed.
End Sort.

Section Sort_scopes.
Import SubCircuitStatement Resolver Spec.

Lemma traverse_Forall2 {A B} (f : A → result B) l ys :
  traverse f l = inr ys → Forall2 (λ x y, f x = inr y) l ys.
Proof.
  revert ys. induction l as [|x l IH]; simpl; intros ys.
  - intros [= <-]. constructor.
  - destruct (f x) as [e|y] eqn:Hx; simpl; [done|].
    destruct (traverse f l) as [e|ys'] eqn:Hl; simpl; [done|].
    intros [= <-]. constructor; auto.
Qed.

Lemma sort_scope_spec sort_sub name subcircuits required available result ret :
  Forall (λ x, ∀ a r, sort_sub x a = inr r → child_ok x r) subcircuits →
  _sort_subcircuits_scope sort_sub name subcircuits required available = inr (result, ret) →
  ordered result
  ∧ Forall all_ordered result
  ∧ map lname result ≡ₚ map lname subcircuits
  ∧ ret = required ∖ list_to_set (subcircuit_names subcircuits).
Proof.
  intros Hsub. unfold _sort_subcircuits_scope.
  destruct (traverse _ subcircuits) as [e|dependencies] eqn:Htr; simpl; [done|].
  destruct (check_required_subcircuits _ _ _) as [e|[]]; simpl; [done|].
  destruct (sort_loop (sorted_items dependencies)) as [items' res] eqn:Hloop.
  destruct (0 <? length items') eqn:Hlen; [done|].
  intros [= <- <-].
  apply Nat.ltb_ge in Hlen. destruct items' as [|? ?]; [|simpl in Hlen; lia].
  apply traverse_Forall2 in Htr.
  assert (Forall2 child_ok subcircuits dependencies) as Hdeps.
  { clear -Hsub Htr. revert Hsub.
    induction Htr as [|x y l k Hxy _ IH]; intros Hsub; [constructor|].
    apply Forall_cons in Hsub as [Hx Hl]. constructor; eauto. }
  assert (Forall item_ok dependencies ∧ Forall (λ it, all_ordered (fst it)) dependencies
          ∧ map lname (map fst dependencies) = map lname subcircuits) as (Hok & Hall & Hnames).
  { clear -Hdeps. induction Hdeps as [|x y l k (? & ? & ?) _ (? & ? & ?)]; simpl.
    - repeat split; constructor.
    - repeat split; [by constructor|by constructor|congruence]. }
  apply sort_loop_spec in Hloop as [Hord Hperm].
  2:{ by rewrite sorted_items_perm. }
  simpl in Hperm. rewrite app_nil_r, sorted_items_perm in Hperm.
  repeat split; try done.
  - rewrite Hperm. by apply Forall_fmap.
  - by rewrite Hperm, Hnames.
Qed.

Lemma sort_sub_spec s : ∀ available r,
  _sort_subcircuits_sub s available = inr r → child_ok s r.
Proof.
  induction s as [s IH] using SubCircuit_nested_ind. intros available [s' ret].
  destruct s as [name nodes parameters statements subcircuits models rs rm params].
  simpl in *.
  destruct (_sort_subcircuits_scope _ name subcircuits rs available) as [e|[result d]] eqn:Hs;
    simpl; [done|].
  intros [= <- <-].
  apply sort_scope_spec in Hs as (Hord & Hall & Hperm & ->); [|done].
  unfold child_ok. simpl. split; [done|]. split.
  - unfold depends_of, subcircuit_names. simpl. fold lname.
    by rewrite Hperm.
  - by apply all_ordered_intro.
Qed.

Lemma sort_circuit_spec c available c' ret :
  _sort_subcircuits c available = inr (c', ret) →
  circuit_ordered c'
  ∧ map lname (CircuitStatement._subcircuits c') ≡ₚ map lname (CircuitStatement._subcircuits c).
Proof.
  unfold _sort_subcircuits.
  destruct (_sort_subcircuits_scope _ _ _ _ _) as [e|[result d]] eqn:Hs; simpl; [done|].
  intros [= <- <-].
  apply sort_scope_spec in Hs as (Hord & Hall & Hperm & _).
  - split; [split|]; done.
  - apply Forall_forall. intros x _. apply sort_sub_spec.
Qed.
End Sort_scopes.

Section Chain.
Import SubCircuitStatement Resolver Spec.

Lemma all_emitted_empty names : all_emitted ∅ names = true.
Proof. unfold all_emitted. by rewrite elements_empty. Qed.

Lemma all_emitted_singleton name names :
  all_emitted {[name]} names = bool_decide (name ∈ names).
Proof. unfold all_emitted. rewrite elements_singleton. simpl. by rewrite andb_true_r. Qed.

Lemma check_required_subcircuits_ok required p name :
  (∀ x, x ∈ required → x ∈ p) → check_required_subcircuits required p name = inr tt.
Proof.
  induction required as [|x l IH]; simpl; intros H; [done|].
  rewrite bool_decide_eq_true_2 by (apply H; left).
  apply IH. intros y Hy. apply H. by right.
Qed.

(** A subcircuit without subcircuits of its own comes back as it is,
    with all it requires. *)
Lemma sort_leaf s available :
  _subcircuits s = [] →
  _required_subcircuits s ⊆ lower_set available →
  _sort_subcircuits_sub s available = inr (s, _required_subcircuits s).
Proof.
  destruct s as [name nodes parameters statements subcircuits models rs rm params].
  simpl. intros -> Hreq.
  unfold _sort_subcircuits_scope. simpl.
  rewrite check_required_subcircuits_ok.
  2:{ intros x Hx. apply elem_of_elements in Hx. set_solver. }
  simpl. unfold set_subcircuits. simpl. do 2 f_equal. set_solver.
Qed.

Context (A B C : SubCircuitStatement.t).
Hypothesis leaf_A : _subcircuits A = [].
Hypothesis leaf_B : _subcircuits B = [].
Hypothesis leaf_C : _subcircuits C = [].
Hypothesis req_A : _required_subcircuits A = ∅.
Hypothesis req_B : _required_subcircuits B = {[lname A]}.
Hypothesis req_C : _required_subcircuits C = {[lname B]}.
Hypothesis AB : lname A ≠ lname B.

Ltac member := rewrite ?elem_of_cons, ?elem_of_nil; intuition congruence.

Ltac run_sort :=
  repeat first
    [ rewrite all_emitted_empty
    | rewrite all_emitted_singleton
    | rewrite size_empty
    | rewrite size_singleton
    | rewrite bool_decide_eq_true_2 by member
    | rewrite bool_decide_eq_false_2 by member
    | progress cbn [sorted_items foldr insert_item fst snd Nat.leb Nat.ltb andb length
                    while_items for_items app sort_loop] ].

Lemma sort_loop_chain items :
  items ≡ₚ [(A, ∅); (B, {[lname A]}); (C, {[lname B]})] →
  sort_loop (sorted_items items) = ([], [A; B; C]).
Proof.
  intros H. symmetry in H. apply permutations_Permutation in H. simpl in H.
  unfold lname in *.
  repeat (apply elem_of_cons in H; destruct H as [-> | H]); [..|by apply elem_of_nil in H];
    run_sort; unfold sort_loop; run_sort; reflexivity.
Qed.

Lemma lower_set_subcircuit_names (l : list SubCircuitStatement.t) (X : gset string) :
  lower_set (X ∪ list_to_set (subcircuit_names l))
  = lower_set X ∪ list_to_set (subcircuit_names l).
Proof.
  unfold subcircuit_names.
  rewrite <- (map_map SubCircuitStatement.name Str.lower). apply lower_set_names.
Qed.

Lemma traverse_leaves available l :
  Forall (λ x, _subcircuits x = [] ∧ _required_subcircuits x ⊆ lower_set available) l →
  traverse (λ x, _sort_subcircuits_sub x available) l
  = inr (map (λ x, (x, _required_subcircuits x)) l).
Proof.
  induction 1 as [|x l [Hleaf Hreq] _ IH]; simpl; [done|].
  by rewrite sort_leaf, IH.
Qed.

Lemma sort_chain (c : CircuitStatement.t) :
  CircuitStatement._subcircuits c ≡ₚ [A; B; C] →
  CircuitStatement._required_subcircuits c ⊆ {[lname A; lname B; lname C]} →
  ∃ ret, _sort_subcircuits c ∅ = inr (CircuitStatement.set_subcircuits [A; B; C] c, ret).
Proof.
  intros Hperm Hreq. unfold _sort_subcircuits, _sort_subcircuits_scope.
  set (p := lower_set ∅ ∪ list_to_set (subcircuit_names (CircuitStatement._subcircuits c))).
  assert (∀ x, x ∈ [lname A; lname B; lname C] → x ∈ p ∧ x ∈ lower_set p) as Hp.
  { intros x Hx. unfold p. rewrite lower_set_subcircuit_names.
    assert (x ∈ subcircuit_names (CircuitStatement._subcircuits c)) as Hin.
    { unfold subcircuit_names. fold lname. by rewrite Hperm. }
    set_solver. }
  rewrite traverse_leaves.
  2:{ rewrite Hperm. repeat constructor; try done.
      - rewrite req_A. set_solver.
      - rewrite req_B. intros x Hx. apply Hp. set_solver.
      - rewrite req_C. intros x Hx. apply Hp. set_solver. }
  simpl. rewrite check_required_subcircuits_ok.
  2:{ intros x Hx. apply elem_of_elements in Hx. apply Hp. set_solver. }
  simpl. rewrite sort_loop_chain.
  2:{ rewrite Hperm. simpl. by rewrite req_A, req_B, req_C. }
  simpl. eauto.
Qed.
End Chain.

(** When the names of the list are distinct, being ordered by names is
    being ordered by members: a member that another depends on stands
    before it. *)
Lemma ordered_members_first l before s after t :
  Spec.ordered l →
  NoDup (map Spec.lname l) →
  l = before ++ s :: after →
  t ∈ l →
  Spec.lname t ∈ Spec.depends_of s →
  t ∈ before.
Proof.
  intros Hord Hnodup Hsplit Ht Hdep.
  specialize (Hord _ _ _ _ Hsplit Hdep).
  apply list_elem_of_fmap in Hord as (u & Hname & Hu).
  assert (u ∈ l) as Hul by (rewrite Hsplit; apply elem_of_app; by left).
  apply list_elem_of_lookup in Ht as [i Hi].
  apply list_elem_of_lookup in Hul as [j Hj].
  assert (i = j) as ->.
  { eapply NoDup_lookup; [exact Hnodup| |].
    - rewrite list_lookup_fmap, Hi. reflexivity.
    - rewrite list_lookup_fmap, Hj. simpl. by rewrite Hname. }
  by replace t with u by congruence.
Qed.

(** ** When the sort emits everything *)

Section Sort_complete.
Import SubCircuitStatement Resolver Spec.

Lemma for_items_length items : ∀ result names r n kept,
  for_items items result names = (r, n, kept) → length kept ≤ length items.
Proof.
  induction items as [|[s d] items IH]; intros result names r n kept; simpl.
  - by intros [= <- <- <-].
  - destruct (all_emitted d names).
    + intros H. apply IH in H. lia.
    + destruct (for_items items result names) as [[r' n'] k'] eqn:Hrest.
      intros [= <- <- <-]. apply IH in Hrest. simpl. lia.
Qed.

(** A round that emits nothing found every item waiting for a name. *)
Lemma for_items_stuck items : ∀ result names r n kept,
  for_items items result names = (r, n, kept) →
  length kept = length items →
  Forall (λ it : item, all_emitted (snd it) names = false) items.
Proof.
  induction items as [|[s d] items IH]; intros result names r n kept; simpl.
  - constructor.
  - destruct (all_emitted d names) eqn:Hd.
    + intros H Hlen. apply for_items_length in H. lia.
    + destruct (for_items items result names) as [[r' n'] k'] eqn:Hrest.
      intros [= <- <- <-] Hlen. simpl in Hlen.
      constructor; [done|]. eapply IH; [exact Hrest|lia].
Qed.

Lemma all_emitted_false depends names :
  all_emitted depends names = false → ∃ name, name ∈ depends ∧ name ∉ names.
Proof.
  unfold all_emitted. intros H.
  assert (∃ name, name ∈ elements depends ∧ name ∉ names) as (name & Hin & Hno).
  { induction (elements depends) as [|x l IH]; simpl in H; [done|].
    apply andb_false_iff in H as [H|H].
    - apply bool_decide_eq_false in H. exists x. split; [left|done].
    - destruct (IH H) as (name & ? & ?). exists name. split; [by right|done]. }
  exists name. split; [by apply elem_of_elements|done].
Qed.

(** If the subcircuits at hand can be put in an order [l0] in which every
    dependency comes first, a round over a non-empty [items] emits at least
    one of them. *)
Lemma for_items_progress l0 items result names r n kept :
  names = map lname result →
  Forall item_ok items →
  ordered l0 →
  l0 ≡ₚ result ++ map fst items →
  items ≠ [] →
  for_items items result names = (r, n, kept) →
  length kept < length items.
Proof.
  intros Hn Hok Hord Hperm Hne Hrun.
  pose proof (for_items_length _ _ _ _ _ _ Hrun) as Hle.
  destruct (decide (length kept = length items)) as [Heq|]; [|lia].
  exfalso. pose proof (for_items_stuck _ _ _ _ _ _ Hrun Heq) as Hstuck.
  assert (∀ s, s ∈ map fst items → ∃ name, name ∈ depends_of s ∧ name ∉ names) as Hwait.
  { intros s Hs. apply list_elem_of_fmap in Hs as ([s' d] & -> & Hin). simpl.
    rewrite Forall_forall in Hstuck, Hok.
    specialize (Hstuck _ Hin). specialize (Hok _ Hin).
    unfold item_ok in Hok. simpl in *. subst d.
    by apply all_emitted_false. }
  assert (∀ before after, l0 = before ++ after → ∀ t, t ∈ before → lname t ∈ names) as Hbefore.
  { intros before. induction before as [|t before IH] using rev_ind; intros after Hsplit t' Ht'.
    - by apply elem_of_nil in Ht'.
    - rewrite <- app_assoc in Hsplit. simpl in Hsplit.
      apply elem_of_app in Ht' as [Ht'|Ht']; [by eapply IH|].
      apply list_elem_of_singleton in Ht' as ->.
      assert (t ∈ result ++ map fst items) as Hin.
      { rewrite <- Hperm, Hsplit. apply elem_of_app. right. left. }
      apply elem_of_app in Hin as [Hin|Hin].
      + rewrite Hn. apply list_elem_of_fmap. eauto.
      + destruct (Hwait _ Hin) as (name & Hdep & Hno). destruct Hno.
        specialize (Hord _ _ _ _ Hsplit Hdep).
        apply list_elem_of_fmap in Hord as (u & -> & Hu). by eapply IH. }
  destruct items as [|[s d] items]; [done|].
  assert (s ∈ l0) as Hs by (rewrite Hperm; apply elem_of_app; right; left).
  apply list_elem_of_split in Hs as (before & after & Hsplit).
  destruct (Hwait s) as (name & Hdep & Hno); [left|]. destruct Hno.
  specialize (Hord _ _ _ _ Hsplit Hdep).
  apply list_elem_of_fmap in Hord as (u & -> & Hu). by eapply Hbefore.
Qed.

Lemma while_items_complete l0 fuel : ∀ previous items result names,
  names = map lname result →
  Forall item_ok items →
  ordered result →
  ordered l0 →
  l0 ≡ₚ result ++ map fst items →
  length items < previous →
  length items < fuel →
  ∃ result', while_items fuel previous items result names = Some ([], result').
Proof.
  induction fuel as [|fuel IH]; intros previous items result names Hn Hok Hres Hord Hperm Hp Hf;
    [lia|].
  simpl. destruct items as [|it items].
  - simpl. eauto.
  - replace ((0 <? length (it :: items)) && (length (it :: items) <? previous)) with true.
    2:{ symmetry. apply andb_true_iff. split; [done|]. by apply Nat.ltb_lt. }
    destruct (for_items (it :: items) result names) as [[r n] kept] eqn:Hrun.
    pose proof (for_items_progress l0 _ _ _ _ _ _ Hn Hok Hord Hperm ltac:(done) Hrun) as Hlt.
    apply for_items_spec in Hrun as (? & ? & ? & ? & Hperm'); try done.
    apply IH; try done; [by rewrite Hperm'|lia].
Qed.

(** The second half of the pass: once the subcircuits of the scope have
    been sorted themselves and the required names are available, the loop
    emits all of them provided they admit a topological order. *)
Lemma sort_scope_complete sort_sub name subcircuits required available dependencies l0 :
  traverse (λ s, sort_sub s (lower_set available ∪ list_to_set (subcircuit_names subcircuits)))
    subcircuits = inr dependencies →
  Forall item_ok dependencies →
  required ⊆ lower_set available ∪ list_to_set (subcircuit_names subcircuits) →
  ordered l0 →
  l0 ≡ₚ map fst dependencies →
  ∃ result,
    _sort_subcircuits_scope sort_sub name subcircuits required available
    = inr (result, required ∖ list_to_set (subcircuit_names subcircuits))
    ∧ result ≡ₚ map fst dependencies.
Proof.
  intros Htr Hok Hreq Hord Hperm. unfold _sort_subcircuits_scope.
  rewrite Htr. simpl. rewrite check_required_subcircuits_ok.
  2:{ intros x Hx. apply Hreq. by apply elem_of_elements. }
  simpl.
  destruct (while_items_complete l0
              (S (S (length (sorted_items dependencies))))
              (S (length (sorted_items dependencies))) (sorted_items dependencies) [] [])
    as [result Hloop]; try done.
  - by rewrite sorted_items_perm.
  - apply ordered_nil.
  - simpl. by rewrite sorted_items_perm.
  - lia.
  - lia.
  - unfold sort_loop. rewrite Hloop. simpl. exists result. split; [done|].
    apply while_items_spec in Hloop as [_ Hp]; try done.
    + simpl in Hp. rewrite app_nil_r, sorted_items_perm in Hp. done.
    + by rewrite sorted_items_perm.
    + apply ordered_nil.
Qed.
End Sort_complete.

(** ** The constructor *)

Lemma init_from_model e path source library p :
  SpiceParser.__init__ e path source library = inr p →
  ∃ path' model, SpiceParser.from_model path' library model = inr p.
Proof.
  unfold SpiceParser.__init__.
  destruct (match path with Some _ => _ | None => _ end) as [err|raw_code]; simpl; [done|].
  destruct (SpiceParser.parse e raw_code) as [err|model].
  - by destruct path.
  - simpl. eauto.
Qed.

Lemma from_model_sorted path library model p :
  SpiceParser.from_model path library model = inr p →
  ∃ circuit ret,
    SpiceModelWalker.walk_Circuit model path = inr circuit
    ∧ Resolver._check_models (SpiceParser.promote library circuit) ∅ = inr tt
    ∧ Resolver._sort_subcircuits (SpiceParser.promote library circuit) ∅
      = inr (SpiceParser.circuit p, ret).
Proof.
  unfold SpiceParser.from_model, SpiceParser.resolve.
  destruct (SpiceModelWalker.walk_Circuit model path) as [e|circuit]; simpl; [done|].
  unfold SpiceParser._check_models, SpiceParser._sort_subcircuits.
  destruct (Resolver._check_models _ ∅) as [e|[]] eqn:Hcheck; simpl; [done|].
  destruct (Resolver._sort_subcircuits _ ∅) as [e|[c' ret]] eqn:Hsort; simpl; [done|].
  intros [= <-]. simpl. by exists circuit, ret.
Qed.

(** ** The order in the scopes of a circuit *)

Lemma all_ordered_scope_below s l :
  Spec.all_ordered s → Spec.scope_below s l → Spec.ordered l.
Proof.
  intros Hall Hscope. induction Hscope as [s|s x l Hx _ IH].
  - by inversion Hall.
  - apply IH. inversion Hall as [? _ Hsubs]; subst.
    rewrite Forall_forall in Hsubs. by apply Hsubs.
Qed.

Lemma circuit_ordered_resolved c l :
  Spec.circuit_ordered c → Spec.resolved_scope c l → Spec.ordered l.
Proof.
  intros [Hroot Hsubs] [|x l' Hx Hscope]; [done|].
  rewrite Forall_forall in Hsubs. eapply all_ordered_scope_below; [|exact Hscope].
  by apply Hsubs.
Qed.

(** With distinct names the order by names is the order of the members. *)
Lemma ordered_dependencies_first l :
  Spec.ordered l → NoDup (map Spec.lname l) → Spec.dependencies_first l.
Proof.
  intros Hord Hnodup i j s d Hi Hj Hdep.
  pose proof (take_drop_middle l i s Hi) as Hsplit. symmetry in Hsplit.
  pose proof (ordered_members_first l (take i l) s (drop (S i) l) d Hord Hnodup Hsplit)
    as Hbefore.
  assert (d ∈ take i l) as [k Hk]%list_elem_of_lookup.
  { apply Hbefore; [by eapply list_elem_of_lookup_2|done]. }
  apply lookup_take_Some in Hk as [Hk Hlt].
  assert (j = k) as ->; [|done].
  eapply NoDup_lookup; [exact Hnodup| |].
  - by rewrite list_lookup_fmap, Hj.
  - by rewrite list_lookup_fmap, Hk.
Qed.

(** C1 (as amended).  When the construction of a [SpiceParser] completes,
    the subcircuit list of the circuit and of every subcircuit reached from it
    through subcircuit lists is topologically ordered by name: every name a
    subcircuit depends on (a name it instantiates and does not define itself)
    is the lowercased name of a subcircuit earlier in the same list; when the
    lowercased names of the list are distinct, every member that another
    member depends on stands before it.  In particular three subcircuits [A],
    [B], [C] without subcircuits of their own, where [B] instantiates [A] and
    [C] instantiates [B], come out as [[A; B; C]] whatever the order they were
    written in. *)
Theorem C1_subcircuits_topologically_ordered :
  (∀ e path source library p l,
     SpiceParser.__init__ e path source library = inr p →
     Spec.resolved_scope (SpiceParser.circuit p) l →
     Spec.ordered l
     ∧ (NoDup (map Spec.lname l) → Spec.dependencies_first l))
  ∧ (∀ (c : CircuitStatement.t) (A B C : SubCircuitStatement.t),
       SubCircuitStatement._subcircuits A = [] →
       SubCircuitStatement._subcircuits B = [] →
       SubCircuitStatement._subcircuits C = [] →
       SubCircuitStatement._required_subcircuits A = ∅ →
       SubCircuitStatement._required_subcircuits B = {[Spec.lname A]} →
       SubCircuitStatement._required_subcircuits C = {[Spec.lname B]} →
       Spec.lname A ≠ Spec.lname B →
       CircuitStatement._subcircuits c ≡ₚ [A; B; C] →
       CircuitStatement._required_subcircuits c ⊆ {[Spec.lname A; Spec.lname B; Spec.lname C]} →
       ∃ ret, SpiceParser._sort_subcircuits c ∅
              = inr (CircuitStatement.set_subcircuits [A; B; C] c, ret)).
Proof.
  split.
  - intros e path source library p l Hinit Hscope.
    apply init_from_model in Hinit as (path' & model & Hmodel).
    apply from_model_sorted in Hmodel as (circuit & ret & _ & _ & Hsort).
    apply sort_circuit_spec in Hsort as [Hord _].
    assert (Spec.ordered l) as Hl by (by eapply circuit_ordered_resolved).
    split; [done|]. by apply ordered_dependencies_first.
  - intros c A B C ? ? ? ? ? ? ? ? ?. by apply sort_chain.
Qed.

Lemma C1_witness :
  (Spec.ordered [Examples.leaf_A; Examples.leaf_B; Examples.leaf_C]
   ∧ (NoDup (map Spec.lname [Examples.leaf_A; Examples.leaf_B; Examples.leaf_C]) →
      Spec.dependencies_first [Examples.leaf_A; Examples.leaf_B; Examples.leaf_C]))
  ∧ ∃ ret, SpiceParser._sort_subcircuits
             (Examples.chain_circuit [Examples.leaf_C; Examples.leaf_B; Examples.leaf_A]) ∅
           = inr (CircuitStatement.set_subcircuits
                    [Examples.leaf_A; Examples.leaf_B; Examples.leaf_C]
                    (Examples.chain_circuit
                       [Examples.leaf_C; Examples.leaf_B; Examples.leaf_A]), ret).
Proof.
  split.
  - apply (proj1 C1_subcircuits_topologically_ordered
             (Examples.env_of Examples.chain_CBA) None (Some "") false Examples.chain_parser).
    + vm_compute. reflexivity.
    + apply Spec.resolved_root.
  - apply (proj2 C1_subcircuits_topologically_ordered); try reflexivity.
    + vm_compute. discriminate.
    + exact (Permutation_sym
               (Permutation_rev [Examples.leaf_A; Examples.leaf_B; Examples.leaf_C])).
    + apply (bool_decide_unpack _). vm_compute. exact I.
Defined.

(** The claim C1 as stated fails in two ways.  The subcircuits that a
    [.lib] block holds are never sorted: the subcircuit OUTER of such a block,
    in which C instantiates B and is written first, keeps the list [[C; B]]
    after a construction that completes.  And two subcircuits of one name
    are both kept: for A, B that instantiates A, and a second A that
    instantiates B, the construction completes with the list in this order,
    in which B stands before a subcircuit A that it depends on. *)
Lemma C1_counterexample :
  (∃ p, SpiceParser.__init__ (Examples.env_of Examples.library_outer) None (Some "") false
        = inr p
        ∧ ¬ Spec.every_scope_ordered (SpiceParser.circuit p))
  ∧ (∃ p, SpiceParser.__init__ (Examples.env_of Examples.duplicate_A) None (Some "") false
          = inr p
          ∧ map SubCircuitStatement.name (CircuitStatement._subcircuits (SpiceParser.circuit p))
            = ["A"; "B"; "A"]
          ∧ ¬ Spec.every_scope_ordered (SpiceParser.circuit p)).
Proof.
  split.
  - eexists. split; [vm_compute; reflexivity|]. intros Hall.
    set (B := SubCircuitStatement.__init__ "B" ["a"; "b"] ∅).
    set (C := SubCircuitStatement.append (Examples.instance_statement "B")
                (SubCircuitStatement.add_required_subcircuit "b"
                   (SubCircuitStatement.__init__ "C" ["a"; "b"] ∅))).
    set (OUTER := SubCircuitStatement.appendSubCircuit B
                    (SubCircuitStatement.appendSubCircuit C
                       (SubCircuitStatement.__init__ "OUTER" ["a"; "b"] ∅))).
    assert (Spec.dependencies_first [C; B]) as Hfirst.
    { apply Hall. right.
      apply (Spec.library_scope_intro _ "fast"
               (LibraryStatement.appendSubCircuit OUTER (LibraryStatement.__init__ "fast"))
               OUTER [C; B]).
      - vm_compute. reflexivity.
      - simpl. by left.
      - exact (Spec.scope_here OUTER). }
    specialize (Hfirst 0 1 C B eq_refl eq_refl).
    assert (1 < 0) as Hlt; [|lia].
    apply Hfirst. apply (bool_decide_unpack _). vm_compute. exact I.
  - eexists. split; [vm_compute; reflexivity|]. split; [vm_compute; reflexivity|].
    intros Hall.
    set (A1 := SubCircuitStatement.__init__ "A" ["a"; "b"] ∅).
    set (B := SubCircuitStatement.append (Examples.instance_statement "A")
                (SubCircuitStatement.add_required_subcircuit "a"
                   (SubCircuitStatement.__init__ "B" ["a"; "b"] ∅))).
    set (A2 := SubCircuitStatement.append (Examples.instance_statement "B")
                 (SubCircuitStatement.add_required_subcircuit "b"
                    (SubCircuitStatement.__init__ "A" ["a"; "b"] ∅))).
    assert (Spec.dependencies_first [A1; B; A2]) as Hfirst.
    { apply Hall. left. vm_compute. apply Spec.resolved_root. }
    specialize (Hfirst 1 2 B A2 eq_refl eq_refl).
    assert (2 < 1) as Hlt; [|lia].
    apply Hfirst. apply (bool_decide_unpack _). vm_compute. exact I.
Qed.

(** ** The model check *)

Section Check_models.
Import SubCircuitStatement Resolver Spec.

Lemma for_each_ok {A} (f : A → result unit) l :
  for_each f l = inr tt ↔ Forall (λ x, f x = inr tt) l.
Proof.
  induction l as [|x l IH]; simpl.
  - split; [constructor|done].
  - rewrite Forall_cons, <- IH. destruct (f x) as [e|[]]; simpl; naive_solver.
Qed.

Lemma for_each_error {A} (f : A → result unit) l e :
  for_each f l = inl e → ∃ x, x ∈ l ∧ f x = inl e.
Proof.
  induction l as [|x l IH]; simpl; [done|].
  destruct (f x) as [e'|[]] eqn:Hx; simpl.
  - intros [= ->]. exists x. split; [left|done].
  - intros H. apply IH in H as (y & ? & ?). exists y. split; [by right|done].
Qed.

Lemma check_required_models_ok required p name :
  check_required_models required p name = inr tt ↔ ∀ x, x ∈ required → x ∈ p.
Proof.
  induction required as [|x l IH]; simpl.
  - split; [|done]. intros _ x Hx. by apply elem_of_nil in Hx.
  - case_bool_decide as Hx.
    + rewrite IH. split.
      * intros H y Hy. apply elem_of_cons in Hy as [->|Hy]; auto.
      * intros H y Hy. apply H. by right.
    + split; [done|]. intros H. destruct Hx. apply H. by left.
Qed.

Lemma check_required_models_error required p name e :
  check_required_models required p name = inl e →
  ∃ m, m ∈ required ∧ (m ∉ p) ∧ e = ValueError (model_not_available m name).
Proof.
  induction required as [|x l IH]; simpl; [done|].
  case_bool_decide as Hx.
  - intros H. apply IH in H as (m & ? & ? & ?). exists m. split; [by right|done].
  - intros [= <-]. exists x. split; [left|done].
Qed.

Lemma lower_set_idemp (X : gset string) : lower_set (lower_set X) = lower_set X.
Proof.
  unfold lower_set. apply set_eq. intros x. rewrite !elem_of_map. split.
  - intros (y & -> & Hy). apply elem_of_map in Hy as (z & -> & Hz).
    exists z. by rewrite lower_idemp.
  - intros (y & -> & Hy). exists (Str.lower y). rewrite lower_idemp. split; [done|].
    apply elem_of_map. eauto.
Qed.

Lemma lower_set_model_names (l : list ModelStatement.t) (X : gset string) :
  lower_set (X ∪ list_to_set (model_names l)) = lower_set X ∪ list_to_set (model_names l).
Proof.
  unfold model_names.
  rewrite <- (map_map ModelStatement.name Str.lower). apply lower_set_names.
Qed.

(** The sets handed down by [_check_models] are closed under lowercasing. *)
Lemma accumulated_lowered available (l : list ModelStatement.t) :
  lower_set (lower_set available ∪ list_to_set (model_names l))
  = lower_set available ∪ list_to_set (model_names l).
Proof. by rewrite lower_set_model_names, lower_set_idemp. Qed.

Lemma check_sub_ok s : ∀ available,
  lower_set available = available →
  _check_models_sub s available = inr tt ↔ models_available available s.
Proof.
  induction s as [s IH] using SubCircuit_nested_ind. intros available Hlow.
  destruct s as [name nodes parameters statements subcircuits models rs rm params].
  simpl in *. unfold _check_models_scope. rewrite Hlow.
  set (p := available ∪ list_to_set (model_names models)).
  assert (lower_set p = p) as Hp.
  { unfold p. rewrite <- Hlow at 1. by rewrite accumulated_lowered, Hlow. }
  assert (for_each (λ x, _check_models_sub x p) subcircuits = inr tt
          ↔ Forall (models_available p) subcircuits) as Hsubs.
  { rewrite for_each_ok. clear -IH Hp. induction IH as [|x l Hx _ IHl].
    - split; constructor.
    - rewrite !Forall_cons, IHl, (Hx p Hp). done. }
  split.
  - intros Hrun. destruct (for_each _ subcircuits) as [e|[]] eqn:Hfor; simpl in Hrun; [done|].
    pose proof (proj1 (check_required_models_ok _ _ _) Hrun) as Hreq.
    constructor; simpl; fold p.
    + intros x Hx. apply Hreq. by apply elem_of_elements.
    + by apply Hsubs.
  - inversion 1 as [? ? Hreq Hforall]; subst. simpl in *. fold p in Hreq, Hforall.
    apply Hsubs in Hforall. rewrite Hforall. simpl.
    apply check_required_models_ok. intros x Hx. apply Hreq. by apply elem_of_elements.
Qed.

Lemma check_sub_error s : ∀ available e,
  lower_set available = available →
  _check_models_sub s available = inl e →
  ∃ m n, e = ValueError (model_not_available m n) ∧ missing_model m n available s.
Proof.
  induction s as [s IH] using SubCircuit_nested_ind. intros available e Hlow.
  destruct s as [name nodes parameters statements subcircuits models rs rm params].
  simpl in *. unfold _check_models_scope. rewrite Hlow.
  set (p := available ∪ list_to_set (model_names models)).
  assert (lower_set p = p) as Hp.
  { unfold p. rewrite <- Hlow at 1. by rewrite accumulated_lowered, Hlow. }
  destruct (for_each _ subcircuits) as [e'|[]] eqn:Hfor; simpl.
  - intros [= ->]. apply for_each_error in Hfor as (x & Hx & Herr).
    rewrite Forall_forall in IH. apply (IH x Hx p e Hp) in Herr as (m & n & -> & Hmiss).
    exists m, n. split; [done|]. by apply (missing_below m n available _ x).
  - intros H. apply check_required_models_error in H as (m & Hm & Hnot & ->).
    exists m, name. split; [done|]. apply missing_here; simpl; [|done|done].
    by apply elem_of_elements.
Qed.

Lemma lower_set_empty : lower_set ∅ = ∅.
Proof. unfold lower_set. apply set_eq. intros x. rewrite elem_of_map. set_solver. Qed.

Lemma check_circuit_ok c :
  _check_models c ∅ = inr tt ↔ circuit_models_available c.
Proof.
  unfold _check_models, _check_models_scope, circuit_models_available.
  rewrite lower_set_empty, (left_id_L ∅ (∪)).
  set (p := list_to_set (model_names (CircuitStatement._models c)) : gset string).
  assert (lower_set p = p) as Hp.
  { unfold p. rewrite <- (left_id_L ∅ (∪) (list_to_set _)) at 1.
    by rewrite lower_set_model_names, lower_set_empty, (left_id_L ∅ (∪)). }
  assert (for_each (λ x, _check_models_sub x p) (CircuitStatement._subcircuits c) = inr tt
          ↔ Forall (models_available p) (CircuitStatement._subcircuits c)) as Hsubs.
  { rewrite for_each_ok, !Forall_forall. split; intros H x Hx.
    - by apply (check_sub_ok x p Hp), H.
    - by apply (check_sub_ok x p Hp), H. }
  split.
  - intros Hrun.
    destruct (for_each _ (CircuitStatement._subcircuits c)) as [e|[]] eqn:Hfor;
      simpl in Hrun; [done|].
    pose proof (proj1 (check_required_models_ok _ _ _) Hrun) as Hreq. split.
    + intros x Hx. apply Hreq. by apply elem_of_elements.
    + by apply Hsubs.
  - intros [Hreq Hforall]. apply Hsubs in Hforall. rewrite Hforall. simpl.
    apply check_required_models_ok. intros x Hx. apply Hreq. by apply elem_of_elements.
Qed.

Lemma check_circuit_error c e :
  _check_models c ∅ = inl e →
  ∃ m n, e = ValueError (model_not_available m n) ∧ circuit_missing_model c m n.
Proof.
  unfold _check_models, _check_models_scope, circuit_missing_model.
  rewrite lower_set_empty, (left_id_L ∅ (∪)).
  set (p := list_to_set (model_names (CircuitStatement._models c)) : gset string).
  assert (lower_set p = p) as Hp.
  { unfold p. rewrite <- (left_id_L ∅ (∪) (list_to_set _)) at 1.
    by rewrite lower_set_model_names, lower_set_empty, (left_id_L ∅ (∪)). }
  destruct (for_each _ (CircuitStatement._subcircuits c)) as [e'|[]] eqn:Hfor; simpl.
  - intros [= ->]. apply for_each_error in Hfor as (x & Hx & Herr).
    apply (check_sub_error x p e Hp) in Herr as (m & n & -> & Hmiss).
    exists m, n. split; [done|]. right. by exists x.
  - intros H. apply check_required_models_error in H as (m & Hm & Hnot & ->).
    exists m, (CircuitStatement.name c). split; [done|]. left.
    split; [by apply elem_of_elements|done].
Qed.
End Check_models.

(** ** Substrings *)

Lemma startswith_app p s : Str.startswith p (p +:+ s) = true.
Proof.
  induction p as [|c p IH]; [by destruct s|].
  change (Str.startswith (String c p) (String c (p +:+ s)) = true).
  simpl. by rewrite Ascii.eqb_refl.
Qed.

Lemma contains_startswith sub s : Str.startswith sub s = true → Str.contains sub s = true.
Proof. intros H. destruct s; simpl; by rewrite H. Qed.

Lemma contains_app_r sub a s : Str.contains sub s = true → Str.contains sub (a +:+ s) = true.
Proof.
  intros H. induction a as [|c a IH]; [done|].
  change (Str.contains sub (String c (a +:+ s)) = true).
  simpl. rewrite IH. apply orb_true_r.
Qed.

Lemma contains_middle sub a b : Str.contains sub (a +:+ sub +:+ b) = true.
Proof. apply contains_app_r, contains_startswith, startswith_app. Qed.

Lemma append_assoc (a b c : string) : (a +:+ b) +:+ c = a +:+ b +:+ c.
Proof.
  induction a as [|x a IH]; [done|].
  change (String x ((a +:+ b) +:+ c) = String x (a +:+ b +:+ c)). by f_equal.
Qed.

(** C3 (as amended).  After the walk the model check holds exactly when,
    in the circuit and in every subcircuit reached from it through subcircuit
    lists, each required model is among the models defined in the scope or
    inherited from the scopes around it; when it does not hold the
    construction fails with a [ParseError] whose message is the path followed
    by [Model (m) not available in (n)] for a required model [m] that is
    missing in the scope named [n], the names standing between parentheses.
    For [M1 d g s b UNKMOD] without a [.model] the message holds
    [Model (unkmod) not available in (T)]. *)
Theorem C3_missing_model_is_a_ParseError path library model circuit :
  SpiceModelWalker.walk_Circuit model path = inr circuit →
  (Resolver._check_models (SpiceParser.promote library circuit) ∅ = inr tt
   ↔ Spec.circuit_models_available (SpiceParser.promote library circuit))
  ∧ (¬ Spec.circuit_models_available (SpiceParser.promote library circuit) →
     ∃ m n,
       Spec.circuit_missing_model (SpiceParser.promote library circuit) m n
       ∧ SpiceParser.from_model path library model
         = inl (ParseError (path +:+ ": " +:+ Spec.model_not_available m n))
       ∧ Str.contains ("Model (" +:+ m +:+ ") not available")
           (path +:+ ": " +:+ Spec.model_not_available m n) = true)
  ∧ SpiceParser.from_model path false Examples.unknown_model
    = inl (ParseError (path +:+ ": Model (unkmod) not available in (T)")).
Proof.
  intros Hwalk. split; [apply check_circuit_ok|]. split.
  - intros Hmissing. rewrite <- check_circuit_ok in Hmissing.
    destruct (Resolver._check_models (SpiceParser.promote library circuit) ∅)
      as [e|[]] eqn:Hcheck; [|done].
    apply check_circuit_error in Hcheck as Hshape. destruct Hshape as (m & n & -> & Hmiss).
    exists m, n. split; [done|]. split.
    + unfold SpiceParser.from_model, SpiceParser.resolve, SpiceParser._check_models.
      rewrite Hwalk. simpl. by rewrite Hcheck.
    + unfold Spec.model_not_available.
      replace (path +:+ ": " +:+ "Model (" +:+ m +:+ ") not available in (" +:+ n +:+ ")")
        with ((path +:+ ": ") +:+ ("Model (" +:+ m +:+ ") not available")
                +:+ (" in (" +:+ n +:+ ")")).
      * apply contains_middle.
      * rewrite !append_assoc. reflexivity.
  - vm_compute. reflexivity.
Qed.

Lemma C3_witness :
  (Resolver._check_models
     (SpiceParser.promote false (Examples.walked Examples.unknown_model "/work")) ∅ = inr tt
   ↔ Spec.circuit_models_available
       (SpiceParser.promote false (Examples.walked Examples.unknown_model "/work")))
  ∧ (¬ Spec.circuit_models_available
         (SpiceParser.promote false (Examples.walked Examples.unknown_model "/work")) →
     ∃ m n,
       Spec.circuit_missing_model
         (SpiceParser.promote false (Examples.walked Examples.unknown_model "/work")) m n
       ∧ SpiceParser.from_model "/work" false Examples.unknown_model
         = inl (ParseError ("/work" +:+ ": " +:+ Spec.model_not_available m n))
       ∧ Str.contains ("Model (" +:+ m +:+ ") not available")
           ("/work" +:+ ": " +:+ Spec.model_not_available m n) = true)
  ∧ SpiceParser.from_model "/work" false Examples.unknown_model
    = inl (ParseError ("/work" +:+ ": Model (unkmod) not available in (T)")).
Proof.
  apply (C3_missing_model_is_a_ParseError "/work" false Examples.unknown_model).
  vm_compute. reflexivity.
Defined.

(** The claim C3 as stated fails in two ways.  On its own example the
    message of the error does not hold the text [Model unkmod not available].
    And the subcircuits that a [.lib] block holds are never checked: a
    netlist whose only line with a model, [M1 d g s b UNKMOD], stands in a
    subcircuit of a [.lib] block is accepted, although no [.model] defines
    the model that this scope requires. *)
Lemma C3_counterexample :
  (¬ ∃ e, SpiceParser.from_model "/work" false Examples.unknown_model = inl e
          ∧ Str.contains "Model unkmod not available" (exn_str e) = true)
  ∧ (∃ p, SpiceParser.from_model "/work" false Examples.unknown_model_in_library = inr p
          ∧ ¬ Spec.every_scope_models_available (SpiceParser.circuit p)).
Proof.
  split.
  - intros (e & Hrun & Hcontains). vm_compute in Hrun. injection Hrun as <-.
    vm_compute in Hcontains. discriminate.
  - eexists. split; [vm_compute; reflexivity|]. intros [_ Hlib].
    set (amp := SubCircuitStatement.append
                  (SElement (ElementStatement.mk Mosfet "M" "1"
                               [NStr "d"; NStr "g"; NStr "s"; NStr "b"]
                               (<["model" := PStr "UNKMOD"]> ∅)))
                  (SubCircuitStatement.add_required_model "unkmod"
                     (SubCircuitStatement.__init__ "amp" ["a"; "b"] ∅))).
    specialize (Hlib "fast"
                  (LibraryStatement.appendSubCircuit amp (LibraryStatement.__init__ "fast"))).
    simpl in Hlib. apply Forall_cons in Hlib as [Hamp _]; [|vm_compute; reflexivity].
    inversion Hamp as [? ? Hreq _]; subst.
    assert ("unkmod" ∈ (∅ ∪ ∅ ∪ ∅ : gset string)) as Hin; [|set_solver].
    apply Hreq. simpl. set_solver.
Qed.

(** ** Where the code leaves its documentation *)

(** C7.  Subcircuit [A] stands at the top level and subcircuit [B] holds a
    subcircuit [C] that instantiates [A].  No subcircuit depends on itself,
    and [A] passes the availability test inside [C]; yet the pass over the
    scope of [B] waits for the name [a] among the subcircuits of [B] and the
    construction fails with [Crossed dependencies]. *)
Theorem C7_dependency_on_enclosing_scope_is_rejected :
  SpiceParser.from_model "/work" false Examples.nested_uses_outer
  = inl (ParseError "/work: Crossed dependencies ([('C', {'a'})])").
Proof. vm_compute. reflexivity. Qed.

(** The part of C7 that holds: two subcircuits that instantiate each other
    make the construction fail with [Crossed dependencies]. *)
Lemma cycle_is_rejected :
  ∃ msg, SpiceParser.from_model "/work" false Examples.cycle_AB = inl (ParseError msg)
         ∧ Str.contains "Crossed dependencies" msg = true.
Proof. eexists. split; vm_compute; reflexivity. Qed.

(** Whatever stops the loop of the sort while items remain is reported as
    crossed dependencies, and the loop itself always comes to an end. *)
Lemma sort_loop_terminates items :
  ∃ r, Resolver.while_items (S (S (length items))) (S (length items)) items [] [] = Some r
       ∧ Resolver.sort_loop items = r.
Proof.
  destruct (while_items_total (S (S (length items))) (S (length items)) items [] [])
    as [r Hr]; [lia..|].
  exists r. split; [done|]. unfold Resolver.sort_loop. by rewrite Hr.
Qed.

(** With three arguments the walker accepts one shape only: no area
    attribute, no substrate attribute and a last argument that is not a
    number. *)
Lemma bjt_three_accepted dev args l l' :
  SpiceModelWalker.bjt_three dev args l = inr l' →
  SpiceModelWalker.l_area l = None
  ∧ SpiceModelWalker.l_substrate l = None
  ∧ ∃ e, SpiceModelWalker._to_number (SpiceModelWalker.arg args 2) = inl e.
Proof.
  unfold SpiceModelWalker.bjt_three.
  destruct (SpiceModelWalker.l_area l) as [a|] eqn:Harea; simpl.
  - by rewrite Harea.
  - destruct (SpiceModelWalker._to_number _) as [e|v]; simpl.
    + rewrite Harea. destruct (SpiceModelWalker.l_substrate l); [done|]. eauto.
    + done.
Qed.

(** C2.  For [Q1 c b e t 2N2222 1.5], and for [Q1 c b e s t 2N2222 1.5]
    with its substrate, the last argument is a number, so by the rule it is
    the area, [2N2222] the model and [t] a node; the walker assigns them and
    then falls into the [else] of its next test, which raises the
    [ValueError].  With the [area] attribute set and two arguments no branch
    binds [model_name], and the walker stops on the unbound variable instead
    of taking the given area. *)
Theorem C2_numeric_last_argument_of_three_is_rejected (w : SpiceModelWalker.t) :
  SpiceModelWalker._to_number "1.5" = inr (PFloat "1.5")
  ∧ SpiceModelWalker.walk_BJT Examples.bjt_thermal_model_area w
    = inl (ValueError "Present device not compatible with BJT definition: Q1")
  ∧ SpiceModelWalker.walk_BJT Examples.bjt_substrate_thermal_model_area w
    = inl (ValueError "Present device not compatible with BJT definition: Q1")
  ∧ SpiceModelWalker.walk_BJT Examples.bjt_area_keyword w
    = inl (UnboundLocalError "local variable 'model_name' referenced before assignment").
Proof. repeat split; vm_compute; reflexivity. Qed.

(** The shapes the walker does take: [Q1 c b e 2N2222],
    [Q1 c b e sub 2N2222 1.5] and [Q1 c b e sub therm 2N2222], the substrate
    being an attribute of the node. *)
Lemma bjt_accepted_shapes :
  result_map SpiceModelWalker.present_statements
    (SpiceModelWalker.walk_BJT
       (Node.mkBJT "Q1" ["2N2222"] "c" "b" "e" None None None) Examples.at_root)
  = inr [SElement (ElementStatement.mk BipolarJunctionTransistor "Q" "1"
                     [NStr "c"; NStr "b"; NStr "e"] (<["model" := PStr "2N2222"]> ∅))]
  ∧ result_map SpiceModelWalker.present_statements
      (SpiceModelWalker.walk_BJT
         (Node.mkBJT "Q1" ["2N2222"; "1.5"] "c" "b" "e" (Some "sub") None None)
         Examples.at_root)
    = inr [SElement (ElementStatement.mk BipolarJunctionTransistor "Q" "1"
                       [NStr "c"; NStr "b"; NStr "e"; NStr "sub"]
                       (<["model" := PStr "2N2222"]> (<["area" := PFloat "1.5"]> ∅)))]
  ∧ result_map SpiceModelWalker.present_statements
      (SpiceModelWalker.walk_BJT
         (Node.mkBJT "Q1" ["therm"; "2N2222"] "c" "b" "e" (Some "sub") None None)
         Examples.at_root)
    = inr [SElement (ElementStatement.mk BipolarJunctionTransistor "Q" "1"
                       [NStr "c"; NStr "b"; NStr "e"; NStr "sub"; NStr "therm"]
                       (<["model" := PStr "2N2222"]> ∅))].
Proof. repeat split; vm_compute; reflexivity. Qed.

(** What the walker does with two arguments when the last is a number. *)
Lemma bjt_model_area_accepted :
  result_map SpiceModelWalker.present_statements
    (SpiceModelWalker.walk_BJT Examples.bjt_model_area Examples.at_root)
  = inr [SElement (ElementStatement.mk BipolarJunctionTransistor "Q" "1"
                     [NStr "c"; NStr "b"; NStr "e"]
                     (<["model" := PStr "2N2222"]> (<["area" := PFloat "1.5"]> ∅)))].
Proof. vm_compute. reflexivity. Qed.

(** C4.  A [.subckt foo] closed by [.ends bar] makes the walker raise a
    [NameError], and a BJT without model a [ValueError]; the walk is outside
    the [try] blocks of the constructor, so they leave it as they are. *)
Theorem C4_walker_exceptions_are_not_wrapped :
  SpiceParser.__init__ (Examples.env_of Examples.mismatched_ends) None (Some "netlist") false
  = inl (NameError "Begin and end library entries differ (file:/work, line:2): foo != bar")
  ∧ SpiceParser.__init__ (Examples.env_of Examples.bjt_without_model) None (Some "netlist") false
    = inl (ValueError "The device Q1 has no model")
  ∧ is_ParseError
      (NameError "Begin and end library entries differ (file:/work, line:2): foo != bar")
    = false
  ∧ is_ParseError (ValueError "The device Q1 has no model") = false.
Proof. repeat split; vm_compute; reflexivity. Qed.

(** Every exception of the walker leaves the constructor as it was raised. *)
Lemma walker_error_passes_unchanged path library model e :
  SpiceModelWalker.walk_Circuit model path = inl e →
  SpiceParser.from_model path library model = inl e.
Proof. intros H. unfold SpiceParser.from_model. by rewrite H. Qed.

(** The stages the constructor does wrap: the grammar and the two passes. *)
Lemma grammar_error_is_wrapped e path source library raw_code err :
  match path, source with
  | Some p, _ => SpiceParser.read_file e p
  | None, Some s => Return s
  | None, None => Raise (ValueError "No path or source")
  end = inr raw_code →
  SpiceParser.parse e raw_code = inl err →
  ∃ msg, SpiceParser.__init__ e path source library = inl (ParseError msg).
Proof.
  intros Hraw Hparse. unfold SpiceParser.__init__. rewrite Hraw. simpl. rewrite Hparse.
  destruct path; simpl; eauto.
Qed.

Lemma resolve_error_is_wrapped path circuit e :
  SpiceParser.resolve path circuit = inl e → is_ParseError e = true.
Proof.
  unfold SpiceParser.resolve.
  destruct (_ ;; _)%result as [e'|[c ret]]; [|done]. by intros [= <-].
Qed.

(** C6.  [M1 d g gnd gnd nch] built with the ground [gnd]: the element is
    instantiated with the nodes as they were written, [gnd] included. *)
Theorem C6_ground_node_is_not_rewritten :
  ∃ p, SpiceParser.from_model "/work" false Examples.grounded_mosfet = inr p
       ∧ result_map Netlist.elements_of (SpiceParser.build_circuit p (NStr "gnd"))
         = inr [Netlist.CallElement Mosfet "1" [NStr "d"; NStr "g"; NStr "gnd"; NStr "gnd"]
                  (<["model" := PStr "nch"]> ∅)].
Proof. eexists. split; vm_compute; reflexivity. Qed.

(** [translate_ground_node] itself cannot do the rewriting: it fails on a
    node equal to the ground and returns the empty list otherwise. *)
Lemma translate_ground_node_never_rewrites s ground :
  ElementStatement.translate_ground_node s ground = inr []
  ∨ ElementStatement.translate_ground_node s ground
    = inl (AttributeError "'ElementStatement' object has no attribute '_node'").
Proof.
  unfold ElementStatement.translate_ground_node.
  induction (ElementStatement._nodes s) as [|n l IH]; simpl; [by left|].
  case_bool_decide; simpl; [by right|]. exact IH.
Qed.

(** The ground handed to [build] has no part in what the sink receives. *)
Lemma fold_left_ext {A B} (f g : A → B → A) l a :
  (∀ a x, x ∈ l → f a x = g a x) → fold_left f l a = fold_left g l a.
Proof.
  revert a. induction l as [|x l IH]; intros a H; simpl; [done|].
  rewrite (H a x) by left. apply IH. intros a' y Hy. apply H. by right.
Qed.

Lemma build_statement_ignores_ground g1 g2 circuit statement :
  build_statement g1 circuit statement = build_statement g2 circuit statement.
Proof. by destruct statement. Qed.

Lemma SubCircuitStatement_build_ignores_ground s g1 g2 :
  SubCircuitStatement.build s g1 = SubCircuitStatement.build s g2.
Proof.
  induction s as [s IH] using SubCircuit_nested_ind.
  destruct s as [name nodes parameters statements subcircuits models rs rm params].
  simpl in *.
  rewrite (fold_left_ext (build_statement g1) (build_statement g2))
    by (intros; apply build_statement_ignores_ground).
  f_equal. apply fold_left_ext. intros a x Hx.
  rewrite Forall_forall in IH. by rewrite (IH x Hx).
Qed.

Lemma CircuitStatement_build_ignores_ground c g1 g2 :
  CircuitStatement.build c g1 = CircuitStatement.build c g2.
Proof.
  unfold CircuitStatement.build.
  destruct (foldM _ (CircuitStatement._library_calls c) _) as [e|circuit]; simpl; [done|].
  f_equal.
  rewrite (fold_left_ext (build_statement g1) (build_statement g2))
    by (intros; apply build_statement_ignores_ground).
  f_equal. apply fold_left_ext. intros a x Hx.
  by rewrite (SubCircuitStatement_build_ignores_ground x g1 g2).
Qed.

(** ** The walker *)

Section Walker.
Import Node SpiceModelWalker Spec.

Lemma present_append_statements st w w' :
  present_append st w = inr w' →
  present_statements w' = present_statements w ++ [st].
Proof.
  unfold present_append, on_present, present_statements.
  destruct (_scopes w) as [|[s|l] rest]; simpl; by intros [= <-].
Qed.

Lemma present_require_model_statements name w w' :
  present_require_model name w = inr w' →
  present_statements w' = present_statements w.
Proof.
  unfold present_require_model, on_present, present_statements.
  destruct (_scopes w) as [|[s|l] rest]; simpl; [| |done]; by intros [= <-].
Qed.

Lemma present_require_model_ok name w :
  ¬ in_library w → ∃ w', present_require_model name w = inr w'.
Proof.
  unfold present_require_model, on_present, in_library.
  destruct (_scopes w) as [|[s|l] rest]; simpl; eauto.
  intros H. destruct H. eauto.
Qed.

(** What [append_element] leaves in the present scope. *)
Lemma append_element_statements cls device nodes kw w w' :
  append_element cls device nodes kw w = inr w' →
  ∃ c rest,
    device = String c rest
    ∧ present_statements w'
      = present_statements w
        ++ [SElement (ElementStatement.mk cls c rest (map NStr nodes) kw)].
Proof.
  unfold append_element.
  destruct (Py.check_keywords _ _ kw) as [e|[]]; simpl; [done|].
  destruct device as [|c rest]; simpl; [done|].
  intros H. apply present_append_statements in H. eauto.
Qed.

Lemma check_keywords_ok {V} fn positional (kw : gmap string V) :
  (∀ k, k ∈ positional → kw !! k = None) → Py.check_keywords fn positional kw = inr tt.
Proof.
  intros H. unfold Py.check_keywords.
  replace (filter _ positional) with (@nil string); [done|].
  symmetry. induction positional as [|k l IH]; [done|].
  rewrite filter_cons. case_decide as Hk.
  - apply bool_decide_unpack in Hk as [v Hv]. rewrite H in Hv; [done|left].
  - apply IH. intros k' Hk'. apply H. by right.
Qed.

Lemma append_element_ok cls c rest nodes kw w :
  kw !! "self" = None → kw !! "statement" = None → kw !! "name" = None →
  ∃ w', append_element cls (String c rest) nodes kw w = inr w'.
Proof.
  intros H1 H2 H3. unfold append_element.
  rewrite check_keywords_ok.
  2:{ intros k Hk. repeat (apply elem_of_cons in Hk as [->|Hk]; [done|]).
      by apply elem_of_nil in Hk. }
  simpl. unfold present_append, on_present.
  destruct (_scopes w) as [|[s|l] rest']; simpl; eauto.
Qed.

Lemma walk_Device_controlled dev :
  controlled_letter dev → walk_Device dev = inr ("B" +:+ dev).
Proof.
  intros (c & rest & -> & Hc). unfold walk_Device.
  by rewrite bool_decide_eq_true_2.
Qed.
End Walker.

(** C5 (as amended).  For a controlled-source line whose device name begins
    with E, F, G or H, a successful walk appends one element to the present
    scope: its class is [BehavioralSource], its name is the device name with
    a [B] put in front, and its keyword parameters hold exactly one entry,
    under the key [V] for the voltage sources E and H and under the key [I]
    for the current sources F and G; neither [voltage_expression] nor
    [current_expression] is a key of it. *)
Theorem C5_controlled_sources_become_behavioral line key w w' :
  Spec.controlled_source_key line = Some key →
  Spec.controlled_letter (Spec.device_of line) →
  SpiceModelWalker.walk_Line line w = inr w' →
  ∃ e,
    SpiceModelWalker.present_statements w'
    = SpiceModelWalker.present_statements w ++ [SElement e]
    ∧ ElementStatement._statement e = BehavioralSource
    ∧ String (ElementStatement._prefix e) (ElementStatement._name e)
      = "B" +:+ Spec.device_of line
    ∧ dom (ElementStatement._params e) = {[key]}
    ∧ ElementStatement._params e !! "voltage_expression" = None
    ∧ ElementStatement._params e !! "current_expression" = None.
Proof.
  intros Hkey Hdev Hwalk.
  assert (∀ cls nodes (kw : kwargs) v,
            kw = {[key := v]} → (key = "V" ∨ key = "I") →
            SpiceModelWalker.append_element cls ("B" +:+ Spec.device_of line) nodes kw w
            = inr w' → cls = BehavioralSource →
            ∃ e, SpiceModelWalker.present_statements w'
                 = SpiceModelWalker.present_statements w ++ [SElement e]
                 ∧ ElementStatement._statement e = BehavioralSource
                 ∧ String (ElementStatement._prefix e) (ElementStatement._name e)
                   = "B" +:+ Spec.device_of line
                 ∧ dom (ElementStatement._params e) = {[key]}
                 ∧ ElementStatement._params e !! "voltage_expression" = None
                 ∧ ElementStatement._params e !! "current_expression" = None) as Hfinish.
  { intros cls nodes kw v -> Hk Happ ->.
    apply append_element_statements in Happ as (c & rest & Hname & Hst).
    eexists. split; [exact Hst|]. simpl. split; [done|]. split; [done|].
    split; [by rewrite dom_singleton_L|].
    split; apply lookup_singleton_ne; destruct Hk as [-> | ->]; done. }
  destruct line; simpl in Hkey; try discriminate; injection Hkey as <-;
    simpl in Hdev, Hwalk, Hfinish;
    [ unfold SpiceModelWalker.walk_VoltageControlledVoltageSource in Hwalk
    | unfold SpiceModelWalker.walk_VoltageControlledCurrentSource in Hwalk
    | unfold SpiceModelWalker.walk_CurrentControlledCurrentSource in Hwalk
    | unfold SpiceModelWalker.walk_CurrentControlledVoltageSource in Hwalk ];
    rewrite (walk_Device_controlled _ Hdev) in Hwalk; simpl in Hwalk.
  - destruct (match Node.vc_controller node with Some _ => _ | None => _ end)
      as [e|[]]; simpl in Hwalk; [done|].
    destruct (Node.vc_controller node) as [controller|]; simpl in Hwalk.
    + eapply Hfinish; eauto.
    + destruct (Node.vc_gain node) as [value|]; simpl in Hwalk; [|done].
      eapply Hfinish; eauto.
  - destruct (match Node.vc_controller node with Some _ => _ | None => _ end)
      as [e|[]]; simpl in Hwalk; [done|].
    destruct (Node.vc_controller node) as [controller|]; simpl in Hwalk.
    + eapply Hfinish; eauto.
    + destruct (Node.vc_gain node) as [value|]; simpl in Hwalk; [|done].
      eapply Hfinish; eauto.
  - destruct (Node.cc_controller node) as [controller|]; simpl in Hwalk.
    + eapply Hfinish; eauto.
    + destruct (Node.cc_gain node) as [value|]; simpl in Hwalk; [|done].
      eapply Hfinish; eauto.
  - destruct (Node.cc_controller node) as [controller|]; simpl in Hwalk.
    + eapply Hfinish; eauto.
    + destruct (Node.cc_gain node) as [value|]; simpl in Hwalk; [|done].
      eapply Hfinish; eauto.
Qed.

Lemma C5_witness :
  ∃ e,
    SpiceModelWalker.present_statements
      (Examples.after (Node.LVoltageControlledVoltageSource Examples.vcvs_E1) Examples.in_subckt)
    = SpiceModelWalker.present_statements Examples.in_subckt ++ [SElement e]
    ∧ ElementStatement._statement e = BehavioralSource
    ∧ String (ElementStatement._prefix e) (ElementStatement._name e)
      = "B" +:+ Spec.device_of (Node.LVoltageControlledVoltageSource Examples.vcvs_E1)
    ∧ dom (ElementStatement._params e) = {["V"]}
    ∧ ElementStatement._params e !! "voltage_expression" = None
    ∧ ElementStatement._params e !! "current_expression" = None.
Proof.
  apply (C5_controlled_sources_become_behavioral
           (Node.LVoltageControlledVoltageSource Examples.vcvs_E1) "V" Examples.in_subckt).
  - reflexivity.
  - exists "E"%char, "1". split; [reflexivity|]. by left.
  - vm_compute. reflexivity.
Defined.

(** The claim C5 as stated fails on [E1 out 0 in 0 2]: the element made of it
    has neither a [voltage_expression] nor a [current_expression]. *)
Lemma C5_counterexample :
  ∃ w e,
    SpiceModelWalker.walk_Line (Node.LVoltageControlledVoltageSource Examples.vcvs_E1)
      Examples.at_root = inr w
    ∧ SpiceModelWalker.present_statements w = [SElement e]
    ∧ ElementStatement._params e !! "voltage_expression" = None
    ∧ ElementStatement._params e !! "current_expression" = None.
Proof. do 2 eexists. repeat split; vm_compute; reflexivity. Qed.

Section Switch.
Import Node SpiceModelWalker Spec.

Lemma walk_Device_ok dev :
  dev ≠ "" → ∃ c rest, walk_Device dev = inr (String c rest).
Proof.
  destruct dev as [|c rest]; [done|]. intros _. unfold walk_Device.
  case_bool_decide; eauto.
Qed.

Lemma half_switch_fails node w :
  half_specified node → ∃ e, walk_Switch node w = inl e.
Proof.
  intros Hhalf. unfold walk_Switch.
  destruct (walk_Device (sw_dev node)) as [e|device]; simpl; [eauto|].
  destruct (match sw_model node with Some _ => _ | None => _ end) as [e|[kw w1]];
    simpl; [eauto|].
  destruct Hhalf as [[[p ->] ->] | [-> [n ->]]]; simpl; eauto.
Qed.

Lemma walk_Switch_nodes node w w' :
  walk_Switch node w = inr w' →
  ∃ e nodes,
    switch_nodes node = Some nodes
    ∧ present_statements w' = present_statements w ++ [SElement e]
    ∧ ElementStatement._nodes e = nodes
    ∧ ElementStatement._statement e = VoltageControlledSwitch.
Proof.
  unfold walk_Switch, switch_nodes.
  destruct (walk_Device (sw_dev node)) as [e|device]; simpl; [done|].
  assert (∀ kw w1 l,
            present_statements w1 = present_statements w →
            append_element VoltageControlledSwitch device l kw w1 = inr w' →
            ∃ e nodes,
              Some (map NStr l) = Some nodes
              ∧ present_statements w' = present_statements w ++ [SElement e]
              ∧ ElementStatement._nodes e = nodes
              ∧ ElementStatement._statement e = VoltageControlledSwitch) as Hfinish.
  { intros kw w1 l Hsame Happ.
    apply append_element_statements in Happ as (c & rest & _ & Hst).
    rewrite Hsame in Hst.
    by exists (ElementStatement.mk VoltageControlledSwitch c rest (map NStr l) kw),
              (map NStr l). }
  destruct (sw_model node) as [model_name|]; simpl.
  - destruct (present_require_model _ w) as [e|w1] eqn:Hreq; simpl; [done|].
    apply present_require_model_statements in Hreq.
    destruct (sw_control_p node) as [p|], (sw_control_n node) as [n|]; simpl; try done;
      apply Hfinish; done.
  - destruct (sw_control_p node) as [p|], (sw_control_n node) as [n|]; simpl; try done;
      apply Hfinish; done.
Qed.

Lemma walk_Switch_accepts node w :
  is_Some (switch_nodes node) →
  sw_dev node ≠ "" →
  sw_model node = None ∨ ¬ in_library w →
  ∃ w', walk_Switch node w = inr w'.
Proof.
  intros [nodes Hnodes] Hdev Hscope. unfold walk_Switch.
  destruct (walk_Device_ok _ Hdev) as (c & rest & ->). simpl.
  assert (∀ (kw : kwargs) w1 l,
            kw !! "self" = None → kw !! "statement" = None → kw !! "name" = None →
            ∃ w', append_element VoltageControlledSwitch (String c rest) l
                    (match sw_initial_state node with
                     | Some s => <["initial_state" := PStr s]> kw
                     | None => kw
                     end) w1 = inr w') as Hfinish.
  { intros kw w1 l H1 H2 H3. apply append_element_ok;
      destruct (sw_initial_state node); try done; by rewrite lookup_insert_ne. }
  unfold switch_nodes in Hnodes.
  destruct (sw_model node) as [model_name|]; simpl.
  - destruct Hscope as [|Hscope]; [done|].
    destruct (present_require_model_ok (Str.lower model_name) w Hscope) as [w1 ->]. simpl.
    destruct (sw_control_p node) as [p|], (sw_control_n node) as [n|]; simpl; try done;
      apply Hfinish; by rewrite lookup_insert_ne.
  - destruct (sw_control_p node) as [p|], (sw_control_n node) as [n|]; simpl; try done;
      apply Hfinish; done.
Qed.

(** A line that no walker state accepts stops the walk of every list of
    lines it occurs in. *)
Lemma failing_line_stops_walk x lines :
  (∀ w, ∃ e, walk_Line x w = inl e) → occurs x lines →
  ∀ w, ∃ e, walk_Lines lines w = inl e.
Proof.
  intros Hx. unfold walk_Lines.
  induction 1 as [rest|l rest _ IH|entry lines rest _ IH|name node parameters lines line rest _ IH];
    intros w; simpl.
  - destruct (Hx w) as [e ->]. simpl. eauto.
  - destruct (walk_Line l w) as [e|w1]; simpl; eauto.
  - destruct (library_entry entry) as [e|entries]; simpl; [eauto|].
    destruct (IH (open_scope (LibScope (LibraryStatement.__init__ entries)) w)) as [e ->].
    simpl. eauto.
  - destruct (subckt_name (_path w) line name) as [e|name']; simpl; [eauto|].
    destruct (walk_option node) as [e|nodes]; simpl; [eauto|].
    destruct (Py.check_keywords _ _ _) as [e|[]]; simpl; [eauto|].
    destruct (IH (open_scope
                    (SubcktScope (SubCircuitStatement.__init__ name' nodes
                                    (default_parameters parameters))) w)) as [e ->].
    simpl. eauto.
Qed.
End Switch.

(** What the walker does with the control nodes of a switch.  A switch
    line with exactly one of its two control nodes is refused in every walker
    state, and a netlist in which such a line occurs, at any depth, makes the
    construction of the parser fail.  A switch line the walker accepts has
    both control nodes or none, and the element appended for it has the four
    nodes (positive, negative, control positive, control negative) or the two
    nodes (positive, negative).  A switch line with both control nodes or
    none, and a device name, is accepted when it names no model or when the
    present scope is not a library block. *)
Lemma switch_control_nodes :
  (∀ node w, Spec.half_specified node → ∃ e, SpiceModelWalker.walk_Switch node w = inl e)
  ∧ (∀ path library model node,
       Spec.half_specified node →
       Spec.occurs (Node.LSwitch node) (Node.circuit_lines model) →
       ∃ e, SpiceParser.from_model path library model = inl e)
  ∧ (∀ node w w',
       SpiceModelWalker.walk_Switch node w = inr w' →
       ∃ e nodes,
         Spec.switch_nodes node = Some nodes
         ∧ SpiceModelWalker.present_statements w'
           = SpiceModelWalker.present_statements w ++ [SElement e]
         ∧ ElementStatement._nodes e = nodes
         ∧ ElementStatement._statement e = VoltageControlledSwitch)
  ∧ (∀ node w,
       is_Some (Spec.switch_nodes node) →
       Node.sw_dev node ≠ "" →
       Node.sw_model node = None ∨ ¬ Spec.in_library w →
       ∃ w', SpiceModelWalker.walk_Switch node w = inr w').
Proof.
  split; [exact half_switch_fails|]. split; [|split].
  - intros path library model node Hhalf Hocc.
    unfold SpiceParser.from_model, SpiceModelWalker.walk_Circuit.
    destruct (failing_line_stops_walk (Node.LSwitch node) (Node.circuit_lines model)
                (λ w, half_switch_fails node w Hhalf) Hocc
                (SpiceModelWalker.mk path
                   (CircuitStatement.__init__ (Node.circuit_title model) path) []))
      as [e ->].
    simpl. eauto.
  - exact walk_Switch_nodes.
  - exact walk_Switch_accepts.
Qed.

Lemma switch_control_nodes_examples :
  (∃ e, SpiceModelWalker.walk_Switch Examples.switch_only_p Examples.at_root = inl e)
  ∧ (∃ e, SpiceParser.from_model "/work" false Examples.half_switch_in_subckt = inl e)
  ∧ (∃ e nodes,
       Spec.switch_nodes Examples.switch_four = Some nodes
       ∧ SpiceModelWalker.present_statements
           (Examples.after (Node.LSwitch Examples.switch_four) Examples.in_subckt)
         = SpiceModelWalker.present_statements Examples.in_subckt ++ [SElement e]
       ∧ ElementStatement._nodes e = nodes
       ∧ ElementStatement._statement e = VoltageControlledSwitch)
  ∧ (∃ w', SpiceModelWalker.walk_Switch Examples.switch_two Examples.at_root = inr w').
Proof.
  destruct switch_control_nodes as (Hhalf & Hparse & Hnodes & Haccept).
  split; [|split; [|split]].
  - apply Hhalf. left. split; [by eexists|reflexivity].
  - apply (Hparse "/work" false Examples.half_switch_in_subckt Examples.switch_only_n).
    + right. split; [reflexivity|by eexists].
    + apply Spec.occurs_in_subckt, Spec.occurs_here.
  - apply (Hnodes Examples.switch_four Examples.in_subckt). vm_compute. reflexivity.
  - apply Haccept.
    + by eexists.
    + discriminate.
    + right. intros (l & rest & H). discriminate H.
Defined.

(** C8.  A switch line with both control nodes is not accepted everywhere:
    [S1 a b c d sw] written in a [.lib] block makes the walker raise the
    [AttributeError] of the missing set of required models, and the
    constructor fails with it; so does [S2 a b sw], which has no control
    node.  The same holds for every switch line with a device name and a
    model when the present scope is a library block, whatever its control
    nodes: the model is recorded before the control nodes are looked at. *)
Theorem C8_switch_with_a_model_is_refused_in_a_library_block :
  Spec.switch_nodes Examples.switch_four
  = Some [NStr "a"; NStr "b"; NStr "c"; NStr "d"]
  ∧ SpiceModelWalker.walk_Line (Node.LSwitch Examples.switch_four) Examples.in_library
    = inl (AttributeError "'LibraryStatement' object has no attribute '_required_models'")
  ∧ SpiceParser.from_model "/work" false Examples.switch_in_library
    = inl (AttributeError "'LibraryStatement' object has no attribute '_required_models'")
  ∧ SpiceModelWalker.walk_Line (Node.LSwitch Examples.switch_two) Examples.in_library
    = inl (AttributeError "'LibraryStatement' object has no attribute '_required_models'")
  ∧ (∀ node w,
       Node.sw_dev node ≠ "" →
       is_Some (Node.sw_model node) →
       Spec.in_library w →
       SpiceModelWalker.walk_Switch node w
       = inl (AttributeError
                "'LibraryStatement' object has no attribute '_required_models'")).
Proof.
  split; [reflexivity|]. split; [vm_compute; reflexivity|].
  split; [vm_compute; reflexivity|]. split; [vm_compute; reflexivity|].
  intros node w Hdev [model_name Hmodel] (l & rest & Hscope).
  unfold SpiceModelWalker.walk_Switch.
  destruct (walk_Device_ok _ Hdev) as (c & rest' & ->). simpl.
  rewrite Hmodel. unfold SpiceModelWalker.present_require_model, SpiceModelWalker.on_present.
  rewrite Hscope. reflexivity.
Qed.

(** ** The scope stack *)

Section Line_induction.
Import Node.
Variable P : Line → Prop.
Hypothesis step : ∀ line, Forall P (Spec.sublines line) → P line.

Fixpoint Line_nested_ind (line : Line) : P line :=
  let go :=
    fix go (l : list Line) : Forall P l :=
      match l with
      | [] => @List.Forall_nil _ P
      | x :: l' => @List.Forall_cons _ P x l' (Line_nested_ind x) (go l')
      end in
  step line
    (match line return Forall P (Spec.sublines line) with
     | LLibBlock _ lines => go lines
     | LSubcktCmd _ _ _ lines _ => go lines
     | _ => @List.Forall_nil _ P
     end).
End Line_induction.

Section Scopes.
Import Node SpiceModelWalker Spec.

Lemma same_scopes_refl w : same_scopes w w.
Proof. unfold same_scopes. by destruct (_scopes w) as [|[|] ?]. Qed.

Lemma same_scopes_trans w1 w2 w3 :
  same_scopes w1 w2 → same_scopes w2 w3 → same_scopes w1 w3.
Proof.
  unfold same_scopes.
  destruct (_scopes w1) as [|[|] ?], (_scopes w2) as [|[|] ?], (_scopes w3) as [|[|] ?];
    try done; congruence.
Qed.

Lemma on_present_same_scopes fc fs fl w w' :
  on_present fc fs fl w = inr w' → same_scopes w w'.
Proof.
  unfold on_present, same_scopes. destruct (_scopes w) as [|[s|l] rest].
  - destruct (fc _); simpl; [done|]. by intros [= <-].
  - destruct (fs _); simpl; [done|]. by intros [= <-].
  - destruct (fl _); simpl; [done|]. by intros [= <-].
Qed.

Lemma append_element_same_scopes cls device nodes kw w w' :
  append_element cls device nodes kw w = inr w' → same_scopes w w'.
Proof.
  unfold append_element.
  destruct (Py.check_keywords _ _ kw) as [e|[]]; simpl; [done|].
  destruct (ElementStatement.__init__ _ _ _ _) as [e|el]; simpl; [done|].
  apply on_present_same_scopes.
Qed.

Lemma foldM_same_scopes lines :
  Forall (λ line, ∀ w w', walk_Line line w = inr w' → same_scopes w w') lines →
  ∀ w w', foldM walk_Line lines w = inr w' → same_scopes w w'.
Proof.
  induction 1 as [|line lines Hline _ IH]; intros w w'; simpl.
  - intros [= <-]. apply same_scopes_refl.
  - destruct (walk_Line line w) as [e|w1] eqn:Hw; simpl; [done|].
    intros H. eapply same_scopes_trans; eauto.
Qed.

Lemma present_require_model_same_scopes name w w' :
  present_require_model name w = inr w' → same_scopes w w'.
Proof. apply on_present_same_scopes. Qed.

Lemma present_require_subcircuit_same_scopes name w w' :
  present_require_subcircuit name w = inr w' → same_scopes w w'.
Proof. apply on_present_same_scopes. Qed.

Lemma with_root_same_scopes f w : same_scopes w (with_root f w).
Proof. unfold same_scopes, with_root. simpl. by destruct (_scopes w) as [|[|] ?]. Qed.

(** The walkers are sequences of steps that may fail; [walk_steps] takes
    the successful branch of each and [walk_done] closes on the steps that
    touched the walker. *)
Ltac walk_steps :=
  repeat match goal with
    | |- result_bind ?m _ = inr _ → _ =>
        let H := fresh "Hstep" in destruct m eqn:H; simpl; [done|]
    end.

Ltac walk_done :=
  let H := fresh "Hlast" in
  intros H;
  first [ apply append_element_same_scopes in H
        | apply on_present_same_scopes in H ];
  first [ exact H
        | eapply same_scopes_trans; [|exact H];
          first [ eapply present_require_model_same_scopes; eassumption
                | eapply present_require_subcircuit_same_scopes; eassumption ] ].

Lemma walk_Switch_scopes node w w' : walk_Switch node w = inr w' → same_scopes w w'.
Proof.
  unfold walk_Switch.
  destruct (walk_Device (sw_dev node)) as [e|device]; simpl; [done|].
  destruct (sw_model node) as [model_name|]; simpl.
  - destruct (present_require_model _ w) as [e|w1] eqn:Hreq; simpl; [done|].
    walk_steps. walk_done.
  - walk_steps. walk_done.
Qed.

Lemma optional_model_scopes model kw w r :
  optional_model model kw w = inr r → same_scopes w (snd r).
Proof.
  unfold optional_model. destruct model as [m|].
  - destruct (present_require_model _ w) as [e|w1] eqn:Hreq; simpl; [done|].
    intros [= <-]. simpl. by eapply present_require_model_same_scopes.
  - intros [= <-]. apply same_scopes_refl.
Qed.

Lemma walk_passive_scopes cls key lower upper node w w' :
  walk_passive cls key lower upper node w = inr w' → same_scopes w w'.
Proof.
  unfold walk_passive.
  destruct (walk_Device (pas_dev node)) as [e|device]; simpl; [done|].
  destruct (optional_model _ _ w) as [e|r] eqn:Hr; simpl; [done|].
  intros H. apply append_element_same_scopes in H.
  eapply same_scopes_trans; [|exact H]. by eapply optional_model_scopes.
Qed.

Lemma walk_MutualInductor_scopes node w w' :
  walk_MutualInductor node w = inr w' → same_scopes w w'.
Proof.
  unfold walk_MutualInductor.
  destruct (walk_Device (mut_dev node)) as [e|device]; simpl; [done|].
  destruct (optional_model _ _ w) as [e|r] eqn:Hr; simpl; [done|].
  destruct (negb _); simpl; [done|].
  intros H. apply append_element_same_scopes in H.
  eapply same_scopes_trans; [|exact H]. by eapply optional_model_scopes.
Qed.

Lemma walk_source_scopes cls node w w' :
  walk_source cls node w = inr w' → same_scopes w w'.
Proof.
  unfold walk_source.
  destruct (walk_Device (src_dev node)) as [e|device]; simpl; [done|].
  destruct (match src_transient node with Some _ => _ | None => _ end) as [e|kw]; simpl;
    [done|].
  apply append_element_same_scopes.
Qed.

Lemma close_LibBlock_scopes w l w1 w' :
  same_scopes (open_scope (LibScope l) w) w1 → close_LibBlock w1 = inr w' →
  same_scopes w w'.
Proof.
  unfold same_scopes, open_scope, close_LibBlock. simpl.
  destruct (_scopes w1) as [|[s1|l1] rest1]; [done..|]. intros <-.
  destruct (_scopes w) as [|sc rest]; simpl.
  - by intros [= <-].
  - by destruct sc.
Qed.

Lemma close_SubcktCmd_scopes w s w1 w' :
  same_scopes (open_scope (SubcktScope s) w) w1 → close_SubcktCmd w1 = inr w' →
  same_scopes w w'.
Proof.
  unfold same_scopes, open_scope, close_SubcktCmd. simpl.
  destruct (_scopes w1) as [|[s1|l1] rest1]; [done| |done]. intros <-.
  destruct (_scopes w) as [|[p|p] rest]; simpl; by intros [= <-].
Qed.

(** Every line leaves the stack of open scopes as it found it: only the
    content of the present scope and of the root changes. *)
Lemma walk_Line_scopes line : ∀ w w', walk_Line line w = inr w' → same_scopes w w'.
Proof.
  induction line as [line IH] using Line_nested_ind. intros w w'.
  destruct line; simpl in *.
  - unfold walk_BJT. walk_steps. walk_done.
  - unfold walk_MOSFET. walk_steps. walk_done.
  - apply walk_Switch_scopes.
  - unfold walk_VoltageControlledVoltageSource. walk_steps. walk_done.
  - unfold walk_VoltageControlledCurrentSource. walk_steps. walk_done.
  - unfold walk_CurrentControlledCurrentSource. walk_steps. walk_done.
  - unfold walk_CurrentControlledVoltageSource. walk_steps. walk_done.
  - unfold walk_NonLinearDependentSource. walk_steps. walk_done.
  - unfold walk_Subcircuit. walk_steps. walk_done.
  - unfold walk_DataCmd. walk_steps. intros [= <-]. apply with_root_same_scopes.
  - unfold walk_ModelCmd. walk_steps. walk_done.
  - unfold walk_ParamCmd. walk_steps. walk_done.
  - unfold walk_TitleCmd. destruct (_scopes w) eqn:Hsc; [|done].
    intros [= <-]. apply with_root_same_scopes.
  - unfold walk_LibCall. walk_steps. walk_done.
  - walk_steps. intros Hclose. eapply close_LibBlock_scopes; [|exact Hclose].
    eapply foldM_same_scopes; eauto.
  - walk_steps. intros Hclose. eapply close_SubcktCmd_scopes; [|exact Hclose].
    eapply foldM_same_scopes; eauto.
  - apply walk_passive_scopes.
  - apply walk_passive_scopes.
  - apply walk_passive_scopes.
  - unfold walk_Diode. walk_steps. walk_done.
  - unfold walk_JFET. walk_steps. walk_done.
  - apply walk_MutualInductor_scopes.
  - apply walk_source_scopes.
  - apply walk_source_scopes.
  - unfold walk_IncludeCmd. destruct failure; [done|]. apply on_present_same_scopes.
  - intros [= <-]. apply same_scopes_refl.
Qed.

(** So the scope met by [close_SubcktCmd] is the subcircuit that the
    command opened, and the walk of a whole circuit ends at the root. *)
Lemma walk_Lines_scopes lines w w' : walk_Lines lines w = inr w' → same_scopes w w'.
Proof.
  apply foldM_same_scopes, Forall_forall. intros line _. apply walk_Line_scopes.
Qed.

Lemma hierarchy_is_closed model path e :
  walk_Circuit model path = inl e →
  ∃ e', walk_Lines (circuit_lines model)
          (mk path (CircuitStatement.__init__ (circuit_title model) path) []) = inl e'.
Proof.
  unfold walk_Circuit.
  destruct (walk_Lines _ _) as [e'|w] eqn:Hwalk; simpl; [eauto|].
  apply walk_Lines_scopes in Hwalk. unfold same_scopes in Hwalk. simpl in Hwalk.
  by destruct (_scopes w).
Qed.
End Scopes.

(** ** [.data] lines *)

Lemma walk_DataCmd_root node w w' :
  SpiceModelWalker.walk_DataCmd node w = inr w' →
  w' = SpiceModelWalker.with_root (CircuitStatement.appendData (Spec.data_statement node)) w.
Proof.
  unfold SpiceModelWalker.walk_DataCmd.
  destruct (length (Node.data_name node) =? 0); simpl; [done|].
  destruct (negb _); simpl; [done|].
  destruct (Py.check_keywords _ _ _) as [e|[]]; simpl; [done|].
  by intros [= <-].
Qed.

Lemma dict_lookup_None {V} (pairs : list (string * V)) k :
  k ∉ map fst pairs → Py.dict pairs !! k = None.
Proof.
  unfold Py.dict.
  assert (∀ m : gmap string V,
            m !! k = None → k ∉ map fst pairs →
            fold_left (λ m kv, <[fst kv := snd kv]> m) pairs m !! k = None) as H.
  { induction pairs as [|[k' v] pairs IH]; intros m Hm Hk; simpl; [done|].
    apply IH.
    - rewrite lookup_insert_ne; [done|]. intros ->. apply Hk. left.
    - intros Hin. apply Hk. by right. }
  apply H, lookup_empty.
Qed.

Lemma data_parameters_lookup_None names values k :
  k ∉ names → SpiceModelWalker.data_parameters names values !! k = None.
Proof.
  intros Hk. apply dict_lookup_None. intros Hin. apply Hk.
  apply list_elem_of_fmap in Hin as ([k' v] & -> & Hin).
  apply elem_of_lookup_imap in Hin as (i & name & [= <- _] & Hname).
  simpl. by eapply list_elem_of_lookup_2.
Qed.

(** A [.data] line with at least one column, a number of values that the
    number of columns divides and no column called [self] or [table] is
    accepted in every scope. *)
Lemma walk_DataCmd_accepts node w :
  Node.data_name node ≠ [] →
  length (Node.data_value node) mod length (Node.data_name node) = 0 →
  "self" ∉ Node.data_name node → "table" ∉ Node.data_name node →
  ∃ w', SpiceModelWalker.walk_DataCmd node w = inr w'.
Proof.
  intros Hne Hmod Hself Htable. unfold SpiceModelWalker.walk_DataCmd. cbv zeta.
  destruct (length (Node.data_name node) =? 0) eqn:Hzero.
  { apply Nat.eqb_eq in Hzero. by destruct (Node.data_name node). }
  rewrite Hmod. simpl.
  rewrite check_keywords_ok; [simpl; eauto|].
  intros k Hk. apply data_parameters_lookup_None.
  repeat (apply elem_of_cons in Hk as [->|Hk]; [done|]). by apply elem_of_nil in Hk.
Qed.

(** C10.  A [.data] line that the walker accepts, whatever scopes are open
    around it, leaves the open scopes as they are and changes the root in its
    data map only: the statement is stored there under its table name, and the
    statement lists, models, subcircuits, parameters, libraries and library
    calls of the root are the same as before.  A later [.data] line of the
    same table name takes the place of the earlier entry. *)
Theorem C10_data_is_recorded_in_the_root_only node w w' :
  SpiceModelWalker.walk_Line (Node.LDataCmd node) w = inr w' →
  SpiceModelWalker._scopes w' = SpiceModelWalker._scopes w
  ∧ CircuitStatement._data (SpiceModelWalker._root w')
    = <[Node.data_table node := Spec.data_statement node]>
        (CircuitStatement._data (SpiceModelWalker._root w))
  ∧ CircuitStatement._statements (SpiceModelWalker._root w')
    = CircuitStatement._statements (SpiceModelWalker._root w)
  ∧ CircuitStatement._models (SpiceModelWalker._root w')
    = CircuitStatement._models (SpiceModelWalker._root w)
  ∧ CircuitStatement._subcircuits (SpiceModelWalker._root w')
    = CircuitStatement._subcircuits (SpiceModelWalker._root w)
  ∧ CircuitStatement._params (SpiceModelWalker._root w')
    = CircuitStatement._params (SpiceModelWalker._root w)
  ∧ CircuitStatement._libraries (SpiceModelWalker._root w')
    = CircuitStatement._libraries (SpiceModelWalker._root w)
  ∧ CircuitStatement._library_calls (SpiceModelWalker._root w')
    = CircuitStatement._library_calls (SpiceModelWalker._root w)
  ∧ (∀ later w'',
       Node.data_table later = Node.data_table node →
       SpiceModelWalker.walk_Line (Node.LDataCmd later) w' = inr w'' →
       CircuitStatement._data (SpiceModelWalker._root w'')
       = <[Node.data_table node := Spec.data_statement later]>
           (CircuitStatement._data (SpiceModelWalker._root w))).
Proof.
  simpl. intros Hwalk. apply walk_DataCmd_root in Hwalk as ->. simpl.
  repeat (split; [reflexivity|]).
  intros later w'' Htable Hlater. apply walk_DataCmd_root in Hlater as ->. simpl.
  unfold DataStatement.table. simpl. rewrite Htable. apply insert_insert_eq.
Qed.

Lemma C10_witness :
  SpiceModelWalker._scopes (Examples.after (Node.LDataCmd Examples.data_sweep) Examples.in_subckt)
  = SpiceModelWalker._scopes Examples.in_subckt
  ∧ CircuitStatement._data
      (SpiceModelWalker._root
         (Examples.after (Node.LDataCmd Examples.data_sweep) Examples.in_subckt))
    = <[Node.data_table Examples.data_sweep := Spec.data_statement Examples.data_sweep]>
        (CircuitStatement._data (SpiceModelWalker._root Examples.in_subckt))
  ∧ CircuitStatement._data
      (SpiceModelWalker._root
         (Examples.after (Node.LDataCmd Examples.data_sweep_again)
            (Examples.after (Node.LDataCmd Examples.data_sweep) Examples.in_library)))
    = <[Node.data_table Examples.data_sweep := Spec.data_statement Examples.data_sweep_again]>
        (CircuitStatement._data (SpiceModelWalker._root Examples.in_library)).
Proof.
  split; [|split].
  - apply (C10_data_is_recorded_in_the_root_only Examples.data_sweep Examples.in_subckt).
    vm_compute. reflexivity.
  - apply (C10_data_is_recorded_in_the_root_only Examples.data_sweep Examples.in_subckt).
    vm_compute. reflexivity.
  - apply (C10_data_is_recorded_in_the_root_only Examples.data_sweep Examples.in_library
             (Examples.after (Node.LDataCmd Examples.data_sweep) Examples.in_library)).
    + vm_compute. reflexivity.
    + reflexivity.
    + vm_compute. reflexivity.
Defined.

(** ** The two predicates *)

(** C9.  For every parser, [is_only_subcircuit] and [is_only_model] return
    [False]: the circuit object is true, so the [not] in front of it is false
    and each conjunction stops there. *)
Theorem C9_only_predicates_are_false (p : SpiceParser.t) :
  SpiceParser.is_only_subcircuit p = false ∧ SpiceParser.is_only_model p = false.
Proof. split; reflexivity. Qed.

(** So also for a netlist of [.subckt] definitions only and for one of
    [.model] statements only. *)
Lemma only_predicates_on_libraries :
  (∃ p, SpiceParser.from_model "/work" true Examples.only_subcircuits = inr p
        ∧ SpiceParser.subcircuits p ≠ []
        ∧ SpiceParser.is_only_subcircuit p = false)
  ∧ (∃ p, SpiceParser.from_model "/work" true Examples.only_models = inr p
          ∧ SpiceParser.subcircuits p = [] ∧ SpiceParser.models p ≠ []
          ∧ SpiceParser.is_only_model p = false).
Proof.
  split; eexists; (split; [vm_compute; reflexivity|]); repeat split; done.
Qed.

(** * Further properties of the code *)

(** ** The resolver *)

Section Resolver_facts.
Import SubCircuitStatement Resolver Spec View.

Lemma Forall2_perm_r {A B} (R : A → B → Prop) l k k' :
  Forall2 R l k → k ≡ₚ k' → ∃ l', l ≡ₚ l' ∧ Forall2 R l' k'.
Proof.
  intros H Hp. revert l H.
  induction Hp as [|y k k' _ IH|y z k|k1 k2 k3 _ IH1 _ IH2]; intros l H.
  - exists l. split; [done|exact H].
  - inversion H as [|x ? l0 ? Hxy Hl]; subst.
    destruct (IH _ Hl) as (l' & Hperm & Hl'). exists (x :: l').
    split; [by constructor|by constructor].
  - inversion H as [|x1 ? l1 ? Hx1 Hl1]; subst.
    inversion Hl1 as [|x2 ? l2 ? Hx2 Hl2]; subst.
    exists (x2 :: x1 :: l2). split; [apply perm_swap|by repeat constructor].
  - destruct (IH1 _ H) as (l1 & Hp1 & H1). destruct (IH2 _ H1) as (l2 & Hp2 & H2).
    exists l2. split; [by etrans|done].
Qed.

Lemma sort_scope_reorders sort_sub name subcircuits required available result ret :
  Forall (λ x, ∀ a r, sort_sub x a = inr r → child_ok x r ∧ reordered x (fst r)) subcircuits →
  _sort_subcircuits_scope sort_sub name subcircuits required available = inr (result, ret) →
  ∃ mid, subcircuits ≡ₚ mid ∧ Forall2 reordered mid result.
Proof.
  intros Hsub. unfold _sort_subcircuits_scope.
  destruct (traverse _ subcircuits) as [e|dependencies] eqn:Htr; simpl; [done|].
  destruct (check_required_subcircuits _ _ _) as [e|[]]; simpl; [done|].
  destruct (sort_loop (sorted_items dependencies)) as [items' res] eqn:Hloop.
  destruct (0 <? length items') eqn:Hlen; [done|].
  intros [= <- <-].
  apply Nat.ltb_ge in Hlen. destruct items' as [|? ?]; [|simpl in Hlen; lia].
  apply traverse_Forall2 in Htr.
  assert (Forall item_ok dependencies ∧ Forall2 reordered subcircuits (map fst dependencies))
    as [Hok Hre].
  { clear -Hsub Htr. revert Hsub.
    induction Htr as [|x y l k Hxy _ IH]; intros Hsub; [by repeat constructor|].
    apply Forall_cons in Hsub as [Hx Hl]. destruct (IH Hl) as [? ?].
    destruct (Hx _ _ Hxy) as [(_ & Hit & _) Hr].
    split; [by constructor|]. simpl. by constructor. }
  apply sort_loop_spec in Hloop as [_ Hperm].
  2:{ by rewrite sorted_items_perm. }
  simpl in Hperm. rewrite app_nil_r, sorted_items_perm in Hperm.
  symmetry in Hperm. by eapply Forall2_perm_r.
Qed.

Lemma sort_sub_reorders s : ∀ available r,
  _sort_subcircuits_sub s available = inr r → reordered s (fst r).
Proof.
  induction s as [s IH] using SubCircuit_nested_ind. intros available [s' ret].
  destruct s as [name nodes parameters statements subcircuits models rs rm params].
  simpl in *.
  destruct (_sort_subcircuits_scope _ name subcircuits rs available) as [e|[result d]] eqn:Hs;
    simpl; [done|].
  intros [= <- <-].
  apply sort_scope_reorders in Hs as (mid & Hperm & Hmid).
  - by apply (reordered_intro (mk name nodes parameters statements subcircuits models rs rm params)
                mid result).
  - eapply Forall_impl; [exact IH|]. simpl. intros x Hx a r Hr.
    split; [by eapply sort_sub_spec|by eapply Hx].
Qed.

Lemma check_required_subcircuits_inv required p name :
  check_required_subcircuits required p name = inr tt → ∀ x, x ∈ required → x ∈ p.
Proof.
  induction required as [|y l IH]; simpl; intros H x Hx; [by apply elem_of_nil in Hx|].
  destruct (bool_decide (y ∈ p)) eqn:Hy; [|done].
  apply bool_decide_eq_true in Hy.
  apply elem_of_cons in Hx as [->|Hx]; [done|by apply IH].
Qed.

Lemma check_required_subcircuits_error required p name e :
  check_required_subcircuits required p name = inl e →
  ∃ x, x ∈ required ∧ (x ∉ p)
       ∧ e = ValueError ("Subcircuit (" +:+ x +:+ ") not available in (" +:+ name +:+ ")").
Proof.
  induction required as [|y l IH]; simpl; [done|].
  destruct (bool_decide (y ∈ p)) eqn:Hy.
  - intros H. destruct (IH H) as (x & ? & ? & ?). exists x. split; [by right|done].
  - apply bool_decide_eq_false in Hy. intros [= <-]. exists y. split; [left|done].
Qed.

(** The available set of a scope is a set of lowercased names. *)
Lemma lower_set_available (X : gset string) l :
  lower_set (lower_set X ∪ list_to_set (subcircuit_names l))
  = lower_set X ∪ list_to_set (subcircuit_names l).
Proof. by rewrite lower_set_subcircuit_names, lower_set_idemp. Qed.

Lemma lower_set_defined l : lower_set (defined l) = defined l.
Proof.
  unfold defined. pose proof (lower_set_subcircuit_names l ∅) as H.
  rewrite lower_set_empty, !(left_id_L ∅ (∪)) in H. exact H.
Qed.

Lemma set_subcircuits_same c :
  CircuitStatement.set_subcircuits (CircuitStatement._subcircuits c) c = c.
Proof. by destruct c. Qed.

Lemma traverse_error {A B} (f : A → result B) l e :
  traverse f l = inl e → ∃ x, x ∈ l ∧ f x = inl e.
Proof.
  induction l as [|x l IH]; simpl; [done|].
  destruct (f x) as [e'|y] eqn:Hx; simpl.
  - intros [= <-]. exists x. split; [left|done].
  - destruct (traverse f l) as [e'|ys]; simpl; [|done].
    intros [= <-]. destruct IH as (z & ? & ?); [done|]. exists z. split; [by right|done].
Qed.

Lemma sort_scope_error sort_sub name subcircuits required available e :
  Forall (λ x, ∀ a e, sort_sub x a = inl e → ∃ msg, e = ValueError msg ∧ resolver_message msg)
    subcircuits →
  _sort_subcircuits_scope sort_sub name subcircuits required available = inl e →
  ∃ msg, e = ValueError msg ∧ resolver_message msg.
Proof.
  intros Hsub. unfold _sort_subcircuits_scope.
  destruct (traverse _ subcircuits) as [e'|dependencies] eqn:Htr; simpl.
  { intros [= <-]. apply traverse_error in Htr as (x & Hx & He).
    rewrite Forall_forall in Hsub. by eapply Hsub. }
  destruct (check_required_subcircuits _ _ _) as [e'|[]] eqn:Hcheck; simpl.
  { intros [= <-]. apply check_required_subcircuits_error in Hcheck as (x & _ & _ & ->).
    eexists. split; [done|]. right. left. apply startswith_app. }
  destruct (sort_loop (sorted_items dependencies)) as [items' res].
  destruct (0 <? length items'); [|done].
  intros [= <-]. eexists. split; [done|]. right. right. apply startswith_app.
Qed.

Lemma sort_sub_error s : ∀ available e,
  _sort_subcircuits_sub s available = inl e → ∃ msg, e = ValueError msg ∧ resolver_message msg.
Proof.
  induction s as [s IH] using SubCircuit_nested_ind. intros available e.
  destruct s as [name nodes parameters statements subcircuits models rs rm params].
  simpl in *.
  destruct (_sort_subcircuits_scope _ name subcircuits rs available) as [e'|r] eqn:Hs;
    simpl; [|done].
  intros [= <-]. by eapply sort_scope_error.
Qed.

Lemma sort_circuit_error c available e :
  _sort_subcircuits c available = inl e → ∃ msg, e = ValueError msg ∧ resolver_message msg.
Proof.
  unfold _sort_subcircuits.
  destruct (_sort_subcircuits_scope _ _ _ _ _) as [e'|r] eqn:Hs; simpl; [|done].
  intros [= <-]. eapply sort_scope_error; [|exact Hs].
  apply Forall_forall. intros x _. apply sort_sub_error.
Qed.

(** An item list whose dependency sets are all empty is sorted already,
    and one round of the loop emits it as it stands. *)
Lemma sorted_items_independent (l : list item) :
  Forall (λ it : item, snd it = ∅) l → sorted_items l = l.
Proof.
  induction 1 as [|[s d] l Hd _ IH]; simpl; [done|]. rewrite IH. simpl in Hd. subst d.
  destruct l as [|[s' d'] l]; [done|]. cbn [insert_item snd]. by rewrite size_empty.
Qed.

Lemma for_items_independent (l : list item) : ∀ result names,
  Forall (λ it : item, snd it = ∅) l →
  for_items l result names
  = (result ++ map fst l, names ++ map (λ it : item, lname (fst it)) l, []).
Proof.
  induction l as [|[s d] l IH]; intros result names Hl; simpl.
  - by rewrite !app_nil_r.
  - apply Forall_cons in Hl as [Hd Hl]. simpl in Hd. subst d.
    rewrite all_emitted_empty, IH by done. by rewrite <- !app_assoc.
Qed.

Lemma sort_loop_independent (l : list item) :
  Forall (λ it : item, snd it = ∅) l → sort_loop l = ([], map fst l).
Proof.
  intros Hl. unfold sort_loop. destruct l as [|it l]; [done|].
  cbn [while_items]. replace (0 <? length (it :: l)) with true by done.
  replace (length (it :: l) <? S (length (it :: l))) with true
    by (symmetry; apply Nat.ltb_lt; lia).
  cbn [andb]. rewrite for_items_independent by done. done.
Qed.

(** Subcircuits without subcircuits of their own that the sort accepts
    come back as they are, and what they require is available. *)
Lemma sorted_leaves (p : gset string) subs dependencies :
  lower_set p = p →
  Forall (λ s, _subcircuits s = []) subs →
  Forall2 (λ x y, _sort_subcircuits_sub x p = inr y) subs dependencies →
  Forall (λ s, _required_subcircuits s ⊆ p) subs
  ∧ dependencies = map (λ x, (x, _required_subcircuits x)) subs.
Proof.
  intros Hlow Hflat Htr. revert Hflat.
  induction Htr as [|x y l k Hxy _ IH]; intros Hflat; [by split|].
  apply Forall_cons in Hflat as [Hx Hl]. destruct (IH Hl) as [? ->].
  assert (_required_subcircuits x ⊆ p) as Hsub.
  { destruct x as [name nodes parameters statements subcircuits models rs rm params].
    simpl in *. subst subcircuits.
    unfold _sort_subcircuits_scope in Hxy. simpl in Hxy.
    destruct (check_required_subcircuits _ _ _) as [e|[]] eqn:Hc; simpl in Hxy; [done|].
    intros z Hz. apply elem_of_elements in Hz.
    apply (check_required_subcircuits_inv _ _ _ Hc) in Hz. rewrite Hlow in Hz. set_solver. }
  rewrite sort_leaf in Hxy by (by rewrite ?Hlow). injection Hxy as <-.
  split; [by constructor|done].
Qed.

End Resolver_facts.

(** X1.  The subcircuit sort only rearranges: the subcircuit list it leaves
    in the circuit holds the subcircuits of the circuit, each with its own
    list rearranged in the same way and nothing else changed, and no other
    attribute of the circuit is touched.  What it returns is the set of the
    required names that no subcircuit of the circuit defines. *)
Theorem sort_only_reorders c available c' ret :
  Resolver._sort_subcircuits c available = inr (c', ret) →
  ∃ mid result,
    CircuitStatement._subcircuits c ≡ₚ mid
    ∧ Forall2 View.reordered mid result
    ∧ c' = CircuitStatement.set_subcircuits result c
    ∧ ret = CircuitStatement._required_subcircuits c
              ∖ View.defined (CircuitStatement._subcircuits c).
Proof.
  unfold Resolver._sort_subcircuits.
  destruct (Resolver._sort_subcircuits_scope _ _ _ _ _) as [e|[result d]] eqn:Hs; simpl; [done|].
  intros [= <- <-].
  pose proof Hs as Hspec. apply sort_scope_spec in Hspec as (_ & _ & _ & ->).
  2:{ apply Forall_forall. intros x _. apply sort_sub_spec. }
  apply sort_scope_reorders in Hs as (mid & Hperm & Hmid).
  2:{ apply Forall_forall. intros x _ a r Hr.
      split; [by eapply sort_sub_spec|by eapply sort_sub_reorders]. }
  by exists mid, result.
Qed.

Lemma sort_only_reorders_witness :
  ∃ c' ret,
    Resolver._sort_subcircuits
      (Examples.chain_circuit [Examples.leaf_C; Examples.leaf_B; Examples.leaf_A]) ∅
    = inr (c', ret)
    ∧ ∃ mid result,
        [Examples.leaf_C; Examples.leaf_B; Examples.leaf_A] ≡ₚ mid
        ∧ Forall2 View.reordered mid result
        ∧ c' = CircuitStatement.set_subcircuits result
                 (Examples.chain_circuit [Examples.leaf_C; Examples.leaf_B; Examples.leaf_A])
        ∧ ret = ∅ ∖ View.defined [Examples.leaf_C; Examples.leaf_B; Examples.leaf_A].
Proof.
  eexists _, _. split; [vm_compute; reflexivity|].
  apply (sort_only_reorders
           (Examples.chain_circuit [Examples.leaf_C; Examples.leaf_B; Examples.leaf_A]) ∅).
  vm_compute. reflexivity.
Defined.

(** X2.  For a netlist whose subcircuits hold no subcircuits themselves, the
    sort succeeds exactly when every name required by the circuit or by one
    of its subcircuits is the name of a subcircuit of the circuit, and the
    subcircuits can be put in an order in which each one comes after those
    it instantiates. *)
Theorem flat_sort_succeeds_iff c :
  View.flat c →
  (∃ c' ret, Resolver._sort_subcircuits c ∅ = inr (c', ret))
  ↔ (CircuitStatement._required_subcircuits c ⊆ View.defined (CircuitStatement._subcircuits c)
     ∧ Forall (λ s, SubCircuitStatement._required_subcircuits s
                      ⊆ View.defined (CircuitStatement._subcircuits c))
         (CircuitStatement._subcircuits c)
     ∧ ∃ l0, l0 ≡ₚ CircuitStatement._subcircuits c ∧ Spec.ordered l0).
Proof.
  intros Hflat. unfold View.flat in Hflat.
  set (subs := CircuitStatement._subcircuits c) in *.
  set (required := CircuitStatement._required_subcircuits c).
  set (p := Resolver.lower_set ∅ ∪ list_to_set (Resolver.subcircuit_names subs) : gset string).
  assert (p = View.defined subs) as Hp.
  { unfold p, View.defined. rewrite lower_set_empty. set_solver. }
  assert (Resolver.lower_set p = p) as Hlow by apply lower_set_available.
  split.
  - intros (c' & ret & Hsort). unfold Resolver._sort_subcircuits in Hsort.
    destruct (Resolver._sort_subcircuits_scope _ _ _ _ _) as [e|[result d]] eqn:Hs;
      simpl in Hsort; [done|].
    pose proof Hs as Hspec. apply sort_scope_spec in Hspec as (Hord & _ & _ & _).
    2:{ apply Forall_forall. intros x _. apply sort_sub_spec. }
    unfold Resolver._sort_subcircuits_scope in Hs. fold subs p in Hs.
    destruct (traverse _ subs) as [e|dependencies] eqn:Htr; simpl in Hs; [done|].
    destruct (Resolver.check_required_subcircuits _ _ _) as [e|[]] eqn:Hcheck;
      simpl in Hs; [done|].
    destruct (Resolver.sort_loop (Resolver.sorted_items dependencies)) as [items' res] eqn:Hloop.
    destruct (0 <? length items') eqn:Hlen; [done|]. injection Hs as <- _.
    apply Nat.ltb_ge in Hlen. destruct items' as [|? ?]; [|simpl in Hlen; lia].
    apply traverse_Forall2 in Htr.
    assert (Forall (λ s, SubCircuitStatement._required_subcircuits s ⊆ p) subs
            ∧ dependencies = map (λ x, (x, SubCircuitStatement._required_subcircuits x)) subs)
      as [Hreq ->].
    { by apply sorted_leaves. }
    rewrite <- Hp. split; [|split; [done|]].
    + intros z Hz. apply elem_of_elements in Hz.
      by apply (check_required_subcircuits_inv _ _ _ Hcheck) in Hz.
    + exists res. split; [|done].
      apply sort_loop_spec in Hloop as [_ Hperm].
      2:{ rewrite sorted_items_perm. apply Forall_fmap, Forall_forall. intros x Hx.
          unfold Spec.item_ok, Spec.depends_of. simpl.
          rewrite Forall_forall in Hflat. rewrite (Hflat x Hx). simpl. set_solver. }
      simpl in Hperm. rewrite app_nil_r, sorted_items_perm, map_map in Hperm. simpl in Hperm.
      by rewrite map_id in Hperm.
  - rewrite <- Hp. intros (Hreq & Hsubs & l0 & Hperm & Hord).
    unfold Resolver._sort_subcircuits.
    destruct (sort_scope_complete Resolver._sort_subcircuits_sub (CircuitStatement.name c)
                subs required ∅
                (map (λ x, (x, SubCircuitStatement._required_subcircuits x)) subs) l0)
      as (result & Hs & _).
    + apply traverse_leaves. fold p. rewrite Hlow.
      rewrite Forall_forall in Hflat, Hsubs. apply Forall_forall. intros x Hx. split; auto.
    + apply Forall_fmap, Forall_forall. intros x Hx.
      unfold Spec.item_ok, Spec.depends_of. simpl.
      rewrite Forall_forall in Hflat. rewrite Hflat by done. simpl. set_solver.
    + done.
    + done.
    + rewrite map_map. simpl. by rewrite map_id.
    + fold subs required. rewrite Hs. simpl. eauto.
Qed.

Lemma flat_sort_succeeds_iff_witness :
  (∃ c' ret,
     Resolver._sort_subcircuits
       (Examples.chain_circuit [Examples.leaf_C; Examples.leaf_B; Examples.leaf_A]) ∅
     = inr (c', ret))
  ↔ (∅ ⊆ View.defined [Examples.leaf_C; Examples.leaf_B; Examples.leaf_A]
     ∧ Forall (λ s, SubCircuitStatement._required_subcircuits s
                      ⊆ View.defined [Examples.leaf_C; Examples.leaf_B; Examples.leaf_A])
         [Examples.leaf_C; Examples.leaf_B; Examples.leaf_A]
     ∧ ∃ l0, l0 ≡ₚ [Examples.leaf_C; Examples.leaf_B; Examples.leaf_A] ∧ Spec.ordered l0).
Proof.
  apply (flat_sort_succeeds_iff
           (Examples.chain_circuit [Examples.leaf_C; Examples.leaf_B; Examples.leaf_A])).
  unfold View.flat. simpl. repeat constructor.
Defined.

(** X3.  Subcircuits that instantiate nothing are left in the order of the
    netlist: when no subcircuit of the circuit holds or requires a
    subcircuit, and what the circuit requires is defined, the sort gives the
    circuit back unchanged. *)
Theorem independent_subcircuits_keep_their_order c :
  Forall (λ s, SubCircuitStatement._subcircuits s = []
               ∧ SubCircuitStatement._required_subcircuits s = ∅)
    (CircuitStatement._subcircuits c) →
  CircuitStatement._required_subcircuits c ⊆ View.defined (CircuitStatement._subcircuits c) →
  Resolver._sort_subcircuits c ∅
  = inr (c, CircuitStatement._required_subcircuits c
              ∖ View.defined (CircuitStatement._subcircuits c)).
Proof.
  intros Hind Hreq. unfold Resolver._sort_subcircuits, Resolver._sort_subcircuits_scope.
  rewrite lower_set_empty, (left_id_L ∅ (∪)).
  rewrite traverse_leaves.
  2:{ eapply Forall_impl; [exact Hind|]. simpl. intros s [H1 H2].
      split; [done|]. rewrite H2. set_solver. }
  simpl. rewrite check_required_subcircuits_ok.
  2:{ intros x Hx. apply elem_of_elements in Hx. by apply Hreq. }
  simpl.
  assert (Forall (λ it : Resolver.item, snd it = ∅)
            (map (λ x, (x, SubCircuitStatement._required_subcircuits x))
               (CircuitStatement._subcircuits c))) as Hempty.
  { apply Forall_fmap. eapply Forall_impl; [exact Hind|]. by intros s [_ ?]. }
  rewrite sorted_items_independent, sort_loop_independent by done.
  simpl. rewrite map_map. simpl. rewrite map_id. by rewrite set_subcircuits_same.
Qed.

Lemma independent_subcircuits_keep_their_order_witness :
  Resolver._sort_subcircuits
    (Examples.chain_circuit [Examples.leaf "B" ∅ []; Examples.leaf "A" ∅ []]) ∅
  = inr (Examples.chain_circuit [Examples.leaf "B" ∅ []; Examples.leaf "A" ∅ []],
         ∅ ∖ View.defined [Examples.leaf "B" ∅ []; Examples.leaf "A" ∅ []]).
Proof.
  apply (independent_subcircuits_keep_their_order
           (Examples.chain_circuit [Examples.leaf "B" ∅ []; Examples.leaf "A" ∅ []])).
  - simpl. repeat constructor.
  - simpl. set_solver.
Defined.

(** X4.  The closing block of the constructor turns every failure of the two
    passes into a [ParseError] whose message is the path, a colon and one of
    three texts: a model that is not available, a subcircuit that is not
    available, or crossed dependencies. *)
Theorem resolve_fails_in_three_ways path circuit e :
  SpiceParser.resolve path circuit = inl e →
  ∃ msg, e = ParseError (path +:+ ": " +:+ msg) ∧ View.resolver_message msg.
Proof.
  unfold SpiceParser.resolve, SpiceParser._check_models, SpiceParser._sort_subcircuits.
  destruct (Resolver._check_models circuit ∅) as [e1|[]] eqn:Hcheck; simpl.
  - intros [= <-]. apply check_circuit_error in Hcheck as (m & n & -> & _). simpl.
    eexists. split; [done|]. left. apply startswith_app.
  - destruct (Resolver._sort_subcircuits circuit ∅) as [e2|[c' ret]] eqn:Hsort; [|done].
    intros [= <-]. apply sort_circuit_error in Hsort as (msg & -> & Hmsg). simpl.
    by exists msg.
Qed.

Lemma resolve_fails_in_three_ways_witness :
  ∃ msg,
    ParseError "/work: Model (unkmod) not available in (T)"
    = ParseError ("/work" +:+ ": " +:+ msg)
    ∧ View.resolver_message msg.
Proof.
  apply (resolve_fails_in_three_ways "/work" (Examples.walked Examples.unknown_model "/work")).
  vm_compute. reflexivity.
Defined.

(** X5.  A netlist whose subcircuits hold no subcircuits and find what they
    require, but whose top level instantiates a subcircuit that is defined
    nowhere, is refused: the sort raises [Subcircuit (x) not available in
    (title)] for a required name [x] that no subcircuit bears. *)
Theorem missing_subcircuit_is_reported c :
  View.flat c →
  Forall (λ s, SubCircuitStatement._required_subcircuits s
                 ⊆ View.defined (CircuitStatement._subcircuits c))
    (CircuitStatement._subcircuits c) →
  ¬ CircuitStatement._required_subcircuits c ⊆ View.defined (CircuitStatement._subcircuits c) →
  ∃ x, x ∈ CircuitStatement._required_subcircuits c
       ∧ (x ∉ View.defined (CircuitStatement._subcircuits c))
       ∧ Resolver._sort_subcircuits c ∅
         = inl (ValueError ("Subcircuit (" +:+ x +:+ ") not available in ("
                              +:+ CircuitStatement.name c +:+ ")")).
Proof.
  intros Hflat Hsubs Hmissing.
  unfold Resolver._sort_subcircuits, Resolver._sort_subcircuits_scope.
  rewrite lower_set_empty, (left_id_L ∅ (∪)). fold (View.defined (CircuitStatement._subcircuits c)).
  rewrite traverse_leaves.
  2:{ unfold View.flat in Hflat. rewrite Forall_forall in Hflat, Hsubs.
      apply Forall_forall. intros s Hs. split; [by apply Hflat|].
      rewrite lower_set_defined. by apply Hsubs. }
  simpl.
  destruct (Resolver.check_required_subcircuits _ _ _) as [e|[]] eqn:Hcheck; simpl.
  - apply check_required_subcircuits_error in Hcheck as (x & Hx & Hno & ->).
    exists x. split; [by apply elem_of_elements|done].
  - destruct Hmissing. intros x Hx.
    eapply check_required_subcircuits_inv; [exact Hcheck|]. by apply elem_of_elements.
Qed.

Lemma missing_subcircuit_is_reported_witness :
  ∃ x, x ∈ ({["opamp"]} : gset string)
       ∧ (x ∉ View.defined [Examples.leaf_A])
       ∧ Resolver._sort_subcircuits
           (CircuitStatement.add_required_subcircuit "opamp"
              (Examples.chain_circuit [Examples.leaf_A])) ∅
         = inl (ValueError ("Subcircuit (" +:+ x +:+ ") not available in ("
                              +:+ "chain" +:+ ")")).
Proof.
  destruct (missing_subcircuit_is_reported
              (CircuitStatement.add_required_subcircuit "opamp"
                 (Examples.chain_circuit [Examples.leaf_A]))) as (x & Hx & Hno & Hsort).
  - unfold View.flat. simpl. repeat constructor.
  - simpl. repeat constructor. set_solver.
  - simpl. intros H. specialize (H "opamp"). vm_compute in H.
    assert (∀ b : bool, (true = true → b = true) → b = true) as Hb by (intros []; auto).
    set_solver.
  - exists x. simpl in Hx. split; [set_solver|]. split; [exact Hno|exact Hsort].
Defined.

(** X6.  In library mode the constructor replaces what the top level of the
    netlist requires by the names the netlist defines itself, so nothing
    written at the top level can fail the resolution: a walked netlist
    without subcircuits is always accepted, whatever models and subcircuits
    its elements name. *)
Theorem library_mode_drops_the_requirements_of_the_top_level path model circuit :
  SpiceModelWalker.walk_Circuit model path = inr circuit →
  CircuitStatement._subcircuits circuit = [] →
  SpiceParser.from_model path true model
  = inr (SpiceParser.mk path (SpiceParser.promote true circuit)).
Proof.
  intros Hwalk Hsubs. unfold SpiceParser.from_model. rewrite Hwalk. cbn [result_bind].
  unfold SpiceParser.resolve, SpiceParser._check_models, SpiceParser._sort_subcircuits.
  assert (Resolver._check_models (SpiceParser.promote true circuit) ∅ = inr tt) as ->.
  { apply check_circuit_ok. split; simpl; [done|]. rewrite Hsubs. constructor. }
  simpl. unfold Resolver._sort_subcircuits, Resolver._sort_subcircuits_scope. simpl.
  rewrite Hsubs. simpl. rewrite elements_empty. simpl.
  do 3 f_equal. destruct circuit; simpl in *. by subst.
Qed.

Lemma library_mode_drops_the_requirements_of_the_top_level_witness :
  SpiceParser.from_model "/work" true Examples.unknown_model
  = inr (SpiceParser.mk "/work"
           (SpiceParser.promote true (Examples.walked Examples.unknown_model "/work"))).
Proof.
  apply (library_mode_drops_the_requirements_of_the_top_level "/work" Examples.unknown_model).
  - vm_compute. reflexivity.
  - reflexivity.
Defined.

(** ** The walker: scopes and frames *)

Section Frames.
Import Node SpiceModelWalker Spec View.

Lemma same_but_data_refl c : same_but_data c c.
Proof. by destruct c. Qed.

Lemma same_but_data_trans c1 c2 c3 :
  same_but_data c1 c2 → same_but_data c2 c3 → same_but_data c1 c3.
Proof.
  unfold same_but_data. intros H12 H23. rewrite H23 at 1. rewrite H12 at 1. by destruct c1.
Qed.

Lemma same_header_refl sc : same_header sc sc.
Proof. by destruct sc. Qed.

Lemma same_header_trans sc1 sc2 sc3 :
  same_header sc1 sc2 → same_header sc2 sc3 → same_header sc1 sc3.
Proof.
  destruct sc1, sc2, sc3; simpl; try done.
  - intros (? & ? & ?) (? & ? & ?). repeat split; congruence.
  - congruence.
Qed.

Lemma inside_refl w : _scopes w ≠ [] → inside w w.
Proof.
  intros H. unfold inside. split; [done|]. split; [apply same_but_data_refl|].
  destruct (_scopes w); [done|]. split; [apply same_header_refl|done].
Qed.

Lemma inside_trans w1 w2 w3 : inside w1 w2 → inside w2 w3 → inside w1 w3.
Proof.
  unfold inside. intros (Hp1 & Hr1 & Hs1) (Hp2 & Hr2 & Hs2).
  split; [congruence|]. split; [by eapply same_but_data_trans|].
  destruct (_scopes w1), (_scopes w2), (_scopes w3); try done.
  destruct Hs1 as [? ->], Hs2 as [? ->]. split; [by eapply same_header_trans|done].
Qed.

Lemma inside_open w w' : inside w w' → _scopes w' ≠ [].
Proof. unfold inside. intros (_ & _ & H). by destruct (_scopes w), (_scopes w'). Qed.

(** A method of the present scope that keeps the header of a subcircuit
    and of a library. *)
Lemma on_present_inside fc fs fl w w' :
  (∀ s s', fs s = inr s' →
     SubCircuitStatement._name s' = SubCircuitStatement._name s
     ∧ SubCircuitStatement._nodes s' = SubCircuitStatement._nodes s
     ∧ SubCircuitStatement._parameters s' = SubCircuitStatement._parameters s) →
  (∀ l l', fl l = inr l' → LibraryStatement._entry l' = LibraryStatement._entry l) →
  _scopes w ≠ [] →
  on_present fc fs fl w = inr w' → inside w w'.
Proof.
  intros Hfs Hfl Hne. unfold on_present, inside.
  destruct (_scopes w) as [|[s|l] rest]; [done| |].
  - destruct (fs s) as [e|s'] eqn:Hs; simpl; [done|]. intros [= <-]. simpl.
    split; [done|]. split; [apply same_but_data_refl|]. split; [by apply Hfs|done].
  - destruct (fl l) as [e|l'] eqn:Hl; simpl; [done|]. intros [= <-]. simpl.
    split; [done|]. split; [apply same_but_data_refl|]. split; [by apply Hfl|done].
Qed.

Ltac header_kept :=
  first [ by intros ? ? [= <-] | by intros ? ? ].

Lemma present_append_inside st w w' :
  _scopes w ≠ [] → present_append st w = inr w' → inside w w'.
Proof. apply on_present_inside; header_kept. Qed.

Lemma present_appendModel_inside m w w' :
  _scopes w ≠ [] → present_appendModel m w = inr w' → inside w w'.
Proof. apply on_present_inside; header_kept. Qed.

Lemma present_appendParam_inside p w w' :
  _scopes w ≠ [] → present_appendParam p w = inr w' → inside w w'.
Proof. apply on_present_inside; header_kept. Qed.

Lemma present_appendLibraryCall_inside lc w w' :
  _scopes w ≠ [] → present_appendLibraryCall lc w = inr w' → inside w w'.
Proof. apply on_present_inside; header_kept. Qed.

Lemma present_require_model_inside name w w' :
  _scopes w ≠ [] → present_require_model name w = inr w' → inside w w'.
Proof. apply on_present_inside; header_kept. Qed.

Lemma present_require_subcircuit_inside name w w' :
  _scopes w ≠ [] → present_require_subcircuit name w = inr w' → inside w w'.
Proof. apply on_present_inside; header_kept. Qed.

Lemma append_element_inside cls device nodes kw w w' :
  _scopes w ≠ [] → append_element cls device nodes kw w = inr w' → inside w w'.
Proof.
  intros Hne. unfold append_element.
  destruct (Py.check_keywords _ _ kw) as [e|[]]; simpl; [done|].
  destruct (ElementStatement.__init__ _ _ _ _) as [e|el]; simpl; [done|].
  by apply present_append_inside.
Qed.

Lemma optional_model_inside model kw w r :
  _scopes w ≠ [] → optional_model model kw w = inr r → inside w (snd r).
Proof.
  intros Hne. unfold optional_model. destruct model as [m|].
  - destruct (present_require_model _ w) as [e|w1] eqn:Hreq; simpl; [done|].
    intros [= <-]. simpl. by eapply present_require_model_inside.
  - intros [= <-]. by apply inside_refl.
Qed.

Lemma foldM_inside lines :
  Forall (λ line, ∀ w w', _scopes w ≠ [] → walk_Line line w = inr w' → inside w w') lines →
  ∀ w w', _scopes w ≠ [] → foldM walk_Line lines w = inr w' → inside w w'.
Proof.
  induction 1 as [|line lines Hline _ IH]; intros w w' Hne; simpl.
  - intros [= <-]. by apply inside_refl.
  - destruct (walk_Line line w) as [e|w1] eqn:Hw; simpl; [done|].
    intros H. apply Hline in Hw; [|done]. eapply inside_trans; [exact Hw|].
    apply IH; [|done]. by eapply inside_open.
Qed.

Ltac frame_steps :=
  repeat match goal with
    | |- result_bind ?m _ = inr _ → _ =>
        let H := fresh "Hstep" in destruct m eqn:H; simpl; [done|]
    end.

Ltac frame_last Hne H :=
  first [ apply append_element_inside in H; [exact H|exact Hne]
        | apply present_appendModel_inside in H; [exact H|exact Hne]
        | apply present_appendParam_inside in H; [exact H|exact Hne]
        | apply present_appendLibraryCall_inside in H; [exact H|exact Hne] ].

Ltac frame_done Hne :=
  let H := fresh "Hlast" in
  intros H;
  first
    [ frame_last Hne H
    | match goal with
      | Hreq : present_require_model _ _ = inr _ |- _ =>
          apply present_require_model_inside in Hreq; [|exact Hne];
          eapply inside_trans; [exact Hreq|];
          apply append_element_inside in H; [exact H|by eapply inside_open]
      | Hreq : present_require_subcircuit _ _ = inr _ |- _ =>
          apply present_require_subcircuit_inside in Hreq; [|exact Hne];
          eapply inside_trans; [exact Hreq|];
          apply append_element_inside in H; [exact H|by eapply inside_open]
      end ].

Lemma walk_Switch_inside node w w' :
  _scopes w ≠ [] → walk_Switch node w = inr w' → inside w w'.
Proof.
  intros Hne. unfold walk_Switch.
  destruct (walk_Device (sw_dev node)) as [e|device]; simpl; [done|].
  destruct (sw_model node) as [model_name|]; simpl.
  - destruct (present_require_model _ w) as [e|w1] eqn:Hreq; simpl; [done|].
    frame_steps. frame_done Hne.
  - frame_steps. frame_done Hne.
Qed.

Lemma walk_passive_inside cls key lower upper node w w' :
  _scopes w ≠ [] → walk_passive cls key lower upper node w = inr w' → inside w w'.
Proof.
  intros Hne. unfold walk_passive.
  destruct (walk_Device (pas_dev node)) as [e|device]; simpl; [done|].
  destruct (optional_model _ _ w) as [e|r] eqn:Hr; simpl; [done|]. intros H.
  apply optional_model_inside in Hr; [|done]. eapply inside_trans; [exact Hr|].
  apply append_element_inside in H; [done|by eapply inside_open].
Qed.

Lemma walk_MutualInductor_inside node w w' :
  _scopes w ≠ [] → walk_MutualInductor node w = inr w' → inside w w'.
Proof.
  intros Hne. unfold walk_MutualInductor.
  destruct (walk_Device (mut_dev node)) as [e|device]; simpl; [done|].
  destruct (optional_model _ _ w) as [e|r] eqn:Hr; simpl; [done|].
  destruct (negb _); simpl; [done|]. intros H.
  apply optional_model_inside in Hr; [|done]. eapply inside_trans; [exact Hr|].
  apply append_element_inside in H; [done|by eapply inside_open].
Qed.

Lemma walk_source_inside cls node w w' :
  _scopes w ≠ [] → walk_source cls node w = inr w' → inside w w'.
Proof.
  intros Hne. unfold walk_source.
  destruct (walk_Device (src_dev node)) as [e|device]; simpl; [done|].
  match goal with |- result_bind ?m _ = _ → _ => destruct m as [e|kw]; simpl; [done|] end.
  by apply append_element_inside.
Qed.

Lemma with_root_inside f w :
  _scopes w ≠ [] → same_but_data (_root w) (f (_root w)) → inside w (with_root f w).
Proof.
  intros Hne Hf. unfold inside, with_root. simpl. split; [done|]. split; [done|].
  destruct (_scopes w); [done|]. split; [apply same_header_refl|done].
Qed.

Lemma appendData_same_but_data d c : same_but_data c (CircuitStatement.appendData d c).
Proof. by destruct c. Qed.

(** Whatever is walked inside an open [.subckt] or [.lib] block stays in
    the block: the scopes around it are left as they were, and of the root
    only the data tables can change. *)
Lemma walk_Line_inside line : ∀ w w',
  _scopes w ≠ [] → walk_Line line w = inr w' → inside w w'.
Proof.
  induction line as [line IH] using Line_nested_ind. intros w w' Hne.
  destruct line; simpl in *.
  - unfold walk_BJT. frame_steps. frame_done Hne.
  - unfold walk_MOSFET. frame_steps. frame_done Hne.
  - by apply walk_Switch_inside.
  - unfold walk_VoltageControlledVoltageSource. frame_steps. frame_done Hne.
  - unfold walk_VoltageControlledCurrentSource. frame_steps. frame_done Hne.
  - unfold walk_CurrentControlledCurrentSource. frame_steps. frame_done Hne.
  - unfold walk_CurrentControlledVoltageSource. frame_steps. frame_done Hne.
  - unfold walk_NonLinearDependentSource. frame_steps. frame_done Hne.
  - unfold walk_Subcircuit. frame_steps. frame_done Hne.
  - intros H. apply walk_DataCmd_root in H as ->.
    apply with_root_inside; [done|]. apply appendData_same_but_data.
  - unfold walk_ModelCmd. frame_steps. frame_done Hne.
  - unfold walk_ParamCmd. frame_steps. frame_done Hne.
  - unfold walk_TitleCmd. by destruct (_scopes w).
  - unfold walk_LibCall. frame_steps. frame_done Hne.
  - destruct (library_entry entry) as [e|entries]; simpl; [done|].
    destruct (foldM walk_Line lines _) as [e|w1] eqn:Hfold; simpl; [done|]. intros Hclose.
    apply foldM_inside in Hfold; [|done|done].
    destruct Hfold as (_ & _ & Hsc). unfold close_LibBlock in Hclose. simpl in Hsc.
    destruct (_scopes w1) as [|sc1 rest1]; [done|]. destruct Hsc as [Hh ->].
    destruct (_scopes w) as [|sc rest]; [done|]. by destruct sc1.
  - destruct (subckt_name _ _ _) as [e|n]; simpl; [done|].
    destruct (walk_option node) as [e|nodes]; simpl; [done|].
    destruct (Py.check_keywords _ _ _) as [e|[]]; simpl; [done|].
    destruct (foldM walk_Line lines _) as [e|w1] eqn:Hfold; simpl; [done|]. intros Hclose.
    apply foldM_inside in Hfold; [|done|done].
    destruct Hfold as (Hpath & Hroot & Hsc). unfold close_SubcktCmd in Hclose.
    simpl in Hsc, Hpath, Hroot.
    destruct (_scopes w1) as [|sc1 rest1]; [done|]. destruct Hsc as [Hh ->].
    unfold inside.
    destruct (_scopes w) as [|sc rest]; [done|].
    destruct sc1 as [s1|l1]; [|done].
    destruct sc as [p|p]; injection Hclose as <-; simpl; rewrite Hpath; done.
  - by apply walk_passive_inside.
  - by apply walk_passive_inside.
  - by apply walk_passive_inside.
  - unfold walk_Diode. frame_steps. frame_done Hne.
  - unfold walk_JFET. frame_steps. frame_done Hne.
  - by apply walk_MutualInductor_inside.
  - by apply walk_source_inside.
  - by apply walk_source_inside.
  - unfold walk_IncludeCmd. destruct failure; [done|]. by apply present_append_inside.
  - intros [= <-]. by apply inside_refl.
Qed.

Lemma walk_Lines_inside lines w w' :
  _scopes w ≠ [] → foldM walk_Line lines w = inr w' → inside w w'.
Proof.
  apply foldM_inside, Forall_forall. intros line _. apply walk_Line_inside.
Qed.

End Frames.

Section Blocks.
Import Node SpiceModelWalker Spec View.

Lemma foldM_app {A S} (f : A → S → result S) l1 l2 s :
  foldM f (l1 ++ l2) s = (s' <- foldM f l1 s ;; foldM f l2 s')%result.
Proof.
  revert s. induction l1 as [|x l1 IH]; intros s; simpl; [done|].
  destruct (f x s) as [e|s1]; simpl; [done|]. apply IH.
Qed.

Lemma inside_library l w w1 :
  inside (open_scope (LibScope l) w) w1 →
  ∃ l1, _scopes w1 = LibScope l1 :: _scopes w
        ∧ LibraryStatement._entry l1 = LibraryStatement._entry l.
Proof.
  intros (_ & _ & Hsc). simpl in Hsc. destruct (_scopes w1) as [|[s1|l1] rest1]; try done.
  - by destruct Hsc.
  - destruct Hsc as [? ->]. eauto.
Qed.

Lemma require_model_in_library name w :
  in_library w → ∃ e, present_require_model name w = inl e.
Proof.
  intros (l & rest & Hsc). unfold present_require_model, on_present. rewrite Hsc. simpl. eauto.
Qed.

Lemma require_subcircuit_in_library name w :
  in_library w → ∃ e, present_require_subcircuit name w = inl e.
Proof.
  intros (l & rest & Hsc). unfold present_require_subcircuit, on_present. rewrite Hsc.
  simpl. eauto.
Qed.

Ltac fail_steps :=
  repeat match goal with
    | |- ∃ e, result_bind ?m _ = inl e =>
        let H := fresh "Hstep" in destruct m eqn:H; simpl; [by eauto|]
    end.

Lemma requirement_in_library line w :
  records_requirement line → in_library w → ∃ e, walk_Line line w = inl e.
Proof.
  intros Hline Hlib.
  assert (∀ name w', present_require_model name w = inr w' → False) as Hmodel.
  { intros name w' H. destruct (require_model_in_library name w Hlib) as [e He]. congruence. }
  assert (∀ name w', present_require_subcircuit name w = inr w' → False) as Hsub.
  { intros name w' H. destruct (require_subcircuit_in_library name w Hlib) as [e He].
    congruence. }
  destruct line; try done; simpl.
  - unfold walk_BJT. fail_steps. exfalso. eauto.
  - unfold walk_MOSFET. fail_steps. exfalso. eauto.
  - unfold walk_Switch. simpl in Hline. destruct Hline as [m Hm]. rewrite Hm.
    fail_steps. exfalso.
    destruct (present_require_model (Str.lower m) w) as [e|w1] eqn:Hreq; [done|eauto].
  - unfold walk_Subcircuit. fail_steps. exfalso. eauto.
Qed.

End Blocks.

(** X7.  The check for an open hierarchy at the end of [walk_Circuit] never
    fires: every block that a line opens is closed by the same line, so the
    walk of a circuit succeeds or fails exactly as the walk of its lines
    does, and gives the root that the lines were walked on. *)
Theorem walk_Circuit_is_the_walk_of_its_lines model path :
  SpiceModelWalker.walk_Circuit model path
  = result_map SpiceModelWalker._root
      (SpiceModelWalker.walk_Lines (Node.circuit_lines model)
         (SpiceModelWalker.mk path
            (CircuitStatement.__init__ (Node.circuit_title model) path) [])).
Proof.
  unfold SpiceModelWalker.walk_Circuit.
  destruct (SpiceModelWalker.walk_Lines _ _) as [e|w] eqn:Hwalk; simpl; [done|].
  apply walk_Lines_scopes in Hwalk. unfold Spec.same_scopes in Hwalk. simpl in Hwalk.
  by destruct (SpiceModelWalker._scopes w).
Qed.

(** X8.  A [.lib] block, a [.lib] call and a [.title] line are lines of the
    top level: inside an open [.subckt] or [.lib] block each of them makes
    the walk fail, the title with a [SyntaxError]. *)
Theorem lines_of_the_top_level_only w :
  SpiceModelWalker._scopes w ≠ [] →
  (∀ entry lines, ∃ e, SpiceModelWalker.walk_Line (Node.LLibBlock entry lines) w = inl e)
  ∧ (∀ node, ∃ e, SpiceModelWalker.walk_Line (Node.LLibCall node) w = inl e)
  ∧ (∀ title,
       SpiceModelWalker.walk_Line (Node.LTitleCmd title) w
       = inl (SyntaxError ".Title command can only be used in the root circuit.")).
Proof.
  intros Hne. split; [|split].
  - intros entry lines. simpl.
    destruct (SpiceModelWalker.library_entry entry) as [e|entries]; simpl; [eauto|].
    destruct (foldM SpiceModelWalker.walk_Line lines _) as [e|w1] eqn:Hfold; simpl; [eauto|].
    apply walk_Lines_inside in Hfold; [|done].
    apply inside_library in Hfold as (l1 & Hsc & _).
    unfold SpiceModelWalker.close_LibBlock. rewrite Hsc.
    destruct (SpiceModelWalker._scopes w) as [|sc rest]; [done|]. eauto.
  - intros node. simpl. unfold SpiceModelWalker.walk_LibCall.
    destruct (SpiceModelWalker.library_entry _) as [e|entries]; simpl; [eauto|].
    unfold SpiceModelWalker.present_appendLibraryCall, SpiceModelWalker.on_present.
    destruct (SpiceModelWalker._scopes w) as [|[s|l] rest]; [done|simpl; eauto..].
  - intros title. simpl. unfold SpiceModelWalker.walk_TitleCmd.
    by destruct (SpiceModelWalker._scopes w).
Qed.

Lemma lines_of_the_top_level_only_witness :
  (∀ entry lines,
     ∃ e, SpiceModelWalker.walk_Line (Node.LLibBlock entry lines) Examples.in_subckt = inl e)
  ∧ (∀ node, ∃ e, SpiceModelWalker.walk_Line (Node.LLibCall node) Examples.in_subckt = inl e)
  ∧ (∀ title,
       SpiceModelWalker.walk_Line (Node.LTitleCmd title) Examples.in_subckt
       = inl (SyntaxError ".Title command can only be used in the root circuit.")).
Proof. apply (lines_of_the_top_level_only Examples.in_subckt). simpl. done. Defined.

(** X9.  A library block has no set of required models or subcircuits, so
    a line that records one (a MOSFET, a BJT, an instance of a subcircuit, a
    switch with a model) written directly in a [.lib] block makes the walk of
    the block fail, in whatever state the block is met. *)
Theorem lib_block_refuses_lines_with_a_requirement entry lines line w :
  View.records_requirement line → line ∈ lines →
  ∃ e, SpiceModelWalker.walk_Line (Node.LLibBlock entry lines) w = inl e.
Proof.
  intros Hline Hin. simpl.
  destruct (SpiceModelWalker.library_entry entry) as [e|entries]; simpl; [eauto|].
  apply list_elem_of_split in Hin as (before & after & ->).
  rewrite foldM_app.
  destruct (foldM SpiceModelWalker.walk_Line before _) as [e|w1] eqn:Hfold; simpl; [eauto|].
  apply walk_Lines_inside in Hfold; [|done].
  apply inside_library in Hfold as (l1 & Hsc & _).
  destruct (requirement_in_library line w1 Hline) as [e He].
  { by exists l1, (SpiceModelWalker._scopes w). }
  rewrite He. simpl. eauto.
Qed.

Lemma lib_block_refuses_lines_with_a_requirement_witness :
  ∃ e, SpiceModelWalker.walk_Line
         (Node.LLibBlock (Node.Single "fast")
            [Node.LModelCmd (Node.mkModelCmd "nch" "nmos" None);
             Node.LMOSFET (Node.mkMOSFET "M1" (Some "nch") None "d" "g" "s" "b")])
         Examples.at_root = inl e.
Proof.
  apply (lib_block_refuses_lines_with_a_requirement (Node.Single "fast") _
           (Node.LMOSFET (Node.mkMOSFET "M1" (Some "nch") None "d" "g" "s" "b"))).
  - simpl. done.
  - apply elem_of_cons. right. apply elem_of_cons. by left.
Defined.

(** X10.  A [.subckt] block met at the top level whose walk succeeds has a
    node list: the walk adds one subcircuit to the root, with the name, the
    nodes and the parameters of its first line, and leaves every other
    attribute of the root as it was, but for the data tables that [.data]
    lines inside the block have written: what the lines of the block define
    or require is kept in the subcircuit. *)
Theorem subckt_block_stays_in_its_subcircuit name node parameters lines line w w' :
  SpiceModelWalker._scopes w = [] →
  SpiceModelWalker.walk_Line (Node.LSubcktCmd name node parameters lines line) w = inr w' →
  ∃ s,
    SpiceModelWalker.subckt_name (SpiceModelWalker._path w) line name
    = inr (SubCircuitStatement._name s)
    ∧ node = Some (SubCircuitStatement._nodes s)
    ∧ SubCircuitStatement._parameters s = SpiceModelWalker.default_parameters parameters
    ∧ SpiceModelWalker._scopes w' = []
    ∧ SpiceModelWalker._root w'
      = CircuitStatement.appendSubCircuit s
          (View.with_data (CircuitStatement._data (SpiceModelWalker._root w'))
             (SpiceModelWalker._root w)).
Proof.
  intros Hroot. simpl.
  destruct (SpiceModelWalker.subckt_name _ _ _) as [e|n]; simpl; [done|].
  destruct node as [nodes|]; simpl; [|done].
  destruct (Py.check_keywords _ _ _) as [e|[]]; simpl; [done|].
  destruct (foldM SpiceModelWalker.walk_Line lines _) as [e|w1] eqn:Hfold; simpl; [done|].
  apply walk_Lines_inside in Hfold; [|done].
  destruct Hfold as (Hpath & Hdata & Hsc). simpl in Hpath, Hdata, Hsc.
  unfold SpiceModelWalker.close_SubcktCmd.
  destruct (SpiceModelWalker._scopes w1) as [|[s1|l1] rest1]; try done.
  destruct Hsc as [(Hn & Hnodes & Hpar) ->]. rewrite Hroot.
  intros [= <-]. exists s1. simpl.
  split; [by rewrite Hn|]. split; [by rewrite Hnodes|]. split; [done|]. split; [done|].
  unfold View.same_but_data in Hdata. rewrite Hdata at 1.
  by destruct (SpiceModelWalker._root w).
Qed.

Lemma subckt_block_stays_in_its_subcircuit_witness :
  ∃ s,
    SpiceModelWalker.subckt_name "/work" 1 (Node.Single "B") = inr (SubCircuitStatement._name s)
    ∧ Some ["a"; "b"] = Some (SubCircuitStatement._nodes s)
    ∧ SubCircuitStatement._parameters s = ∅
    ∧ SpiceModelWalker._scopes
        (Examples.after (Examples.subckt "B" [Examples.instance "X1" "A"]) Examples.at_root) = []
    ∧ SpiceModelWalker._root
        (Examples.after (Examples.subckt "B" [Examples.instance "X1" "A"]) Examples.at_root)
      = CircuitStatement.appendSubCircuit s
          (View.with_data
             (CircuitStatement._data
                (SpiceModelWalker._root
                   (Examples.after (Examples.subckt "B" [Examples.instance "X1" "A"])
                      Examples.at_root)))
             (SpiceModelWalker._root Examples.at_root)).
Proof.
  apply (subckt_block_stays_in_its_subcircuit (Node.Single "B") (Some ["a"; "b"]) None
           [Examples.instance "X1" "A"] 1 Examples.at_root).
  - reflexivity.
  - vm_compute. reflexivity.
Defined.

(** X11.  A [.lib] block met at the top level is stored in the library map
    of the root under its entry name, where it takes the place of an earlier
    block of that name; every other attribute of the root is left as it was,
    but for the data tables.  The models a library block defines are
    therefore not seen by the model check of the netlist. *)
Theorem lib_block_is_stored_under_its_entry entry lines w w' :
  SpiceModelWalker._scopes w = [] →
  SpiceModelWalker.walk_Line (Node.LLibBlock entry lines) w = inr w' →
  ∃ l,
    SpiceModelWalker.library_entry entry = inr (LibraryStatement._entry l)
    ∧ SpiceModelWalker._scopes w' = []
    ∧ SpiceModelWalker._root w'
      = CircuitStatement.appendLibrary l
          (View.with_data (CircuitStatement._data (SpiceModelWalker._root w'))
             (SpiceModelWalker._root w))
    ∧ CircuitStatement._libraries (SpiceModelWalker._root w')
      = <[LibraryStatement._entry l := l]>
          (CircuitStatement._libraries (SpiceModelWalker._root w))
    ∧ ∀ available,
        Resolver._check_models (SpiceModelWalker._root w') available
        = Resolver._check_models (SpiceModelWalker._root w) available.
Proof.
  intros Hroot. simpl.
  destruct (SpiceModelWalker.library_entry entry) as [e|entries]; simpl; [done|].
  destruct (foldM SpiceModelWalker.walk_Line lines _) as [e|w1] eqn:Hfold; simpl; [done|].
  apply walk_Lines_inside in Hfold; [|done].
  destruct Hfold as (Hpath & Hdata & Hsc). simpl in Hpath, Hdata, Hsc.
  unfold SpiceModelWalker.close_LibBlock.
  destruct (SpiceModelWalker._scopes w1) as [|[s1|l1] rest1]; [done|by destruct Hsc|].
  destruct Hsc as [Hentry ->]. rewrite Hroot.
  intros [= <-]. exists l1. simpl.
  split; [by rewrite Hentry|]. split; [done|].
  unfold View.same_but_data in Hdata. rewrite Hdata.
  by destruct (SpiceModelWalker._root w).
Qed.

Lemma lib_block_is_stored_under_its_entry_witness :
  ∃ l,
    SpiceModelWalker.library_entry (Node.Single "fast") = inr (LibraryStatement._entry l)
    ∧ SpiceModelWalker._scopes
        (Examples.after
           (Node.LLibBlock (Node.Single "fast")
              [Node.LModelCmd (Node.mkModelCmd "nch" "nmos" None)]) Examples.at_root) = []
    ∧ SpiceModelWalker._root
        (Examples.after
           (Node.LLibBlock (Node.Single "fast")
              [Node.LModelCmd (Node.mkModelCmd "nch" "nmos" None)]) Examples.at_root)
      = CircuitStatement.appendLibrary l
          (View.with_data
             (CircuitStatement._data
                (SpiceModelWalker._root
                   (Examples.after
                      (Node.LLibBlock (Node.Single "fast")
                         [Node.LModelCmd (Node.mkModelCmd "nch" "nmos" None)])
                      Examples.at_root)))
             (SpiceModelWalker._root Examples.at_root))
    ∧ CircuitStatement._libraries
        (SpiceModelWalker._root
           (Examples.after
              (Node.LLibBlock (Node.Single "fast")
                 [Node.LModelCmd (Node.mkModelCmd "nch" "nmos" None)]) Examples.at_root))
      = <[LibraryStatement._entry l := l]>
          (CircuitStatement._libraries (SpiceModelWalker._root Examples.at_root))
    ∧ ∀ available,
        Resolver._check_models
          (SpiceModelWalker._root
             (Examples.after
                (Node.LLibBlock (Node.Single "fast")
                   [Node.LModelCmd (Node.mkModelCmd "nch" "nmos" None)]) Examples.at_root))
          available
        = Resolver._check_models (SpiceModelWalker._root Examples.at_root) available.
Proof.
  apply (lib_block_is_stored_under_its_entry (Node.Single "fast")
           [Node.LModelCmd (Node.mkModelCmd "nch" "nmos" None)] Examples.at_root).
  - reflexivity.
  - vm_compute. reflexivity.
Defined.

(** ** The build *)

Section Build.
Import View.

Lemma received_nil n : received [] n = n.
Proof. destruct n. simpl. by rewrite app_nil_r. Qed.

Lemma received_app a b n : received b (received a n) = received (a ++ b) n.
Proof. destruct n. simpl. by rewrite app_assoc. Qed.

Lemma receive_received c n : Netlist.receive c n = received [c] n.
Proof. by destruct n. Qed.

Lemma fold_receive {A} (f : A → Netlist.call) l n :
  fold_left (λ c x, Netlist.receive (f x) c) l n = received (map f l) n.
Proof.
  revert n. induction l as [|x l IH]; intros n; simpl; [by rewrite received_nil|].
  by rewrite IH, receive_received, received_app.
Qed.

Lemma ParamStatement_build_calls p n :
  ParamStatement.build p n = received (parameter_calls p) n.
Proof. unfold ParamStatement.build, parameter_calls. apply fold_receive. Qed.

Lemma fold_params params n :
  fold_left (λ c p, ParamStatement.build p c) params n
  = received (concat (map parameter_calls params)) n.
Proof.
  revert n. induction params as [|p params IH]; intros n; simpl; [by rewrite received_nil|].
  by rewrite IH, ParamStatement_build_calls, received_app.
Qed.

Lemma fold_models models n :
  fold_left (λ c m, ModelStatement.build m c) models n = received (map model_call models) n.
Proof. apply (fold_receive model_call). Qed.

Lemma fold_statements ground statements n :
  fold_left (build_statement ground) statements n = received (element_calls statements) n.
Proof.
  revert n. induction statements as [|st statements IH]; intros n; simpl;
    [by rewrite received_nil|].
  rewrite IH. destruct st as [e|i]; simpl.
  - unfold ElementStatement.build. by rewrite receive_received, received_app.
  - done.
Qed.

Lemma LibCallStatement_build_calls lc n libraries n' :
  LibCallStatement.build lc n libraries = inr n' →
  n' = received (library_call_calls libraries lc) n.
Proof.
  unfold LibCallStatement.build, library_call_calls, scope_calls.
  destruct (libraries !! LibCallStatement._entry lc) as [library|]; [|done].
  intros [= <-]. by rewrite fold_params, fold_models, received_app.
Qed.

Lemma fold_library_calls libraries calls : ∀ n n',
  foldM (λ statement circuit, LibCallStatement.build statement circuit libraries) calls n
  = inr n' →
  n' = received (concat (map (library_call_calls libraries) calls)) n.
Proof.
  induction calls as [|lc calls IH]; intros n n'; simpl.
  - intros [= <-]. by rewrite received_nil.
  - destruct (LibCallStatement.build lc n libraries) as [e|n1] eqn:Hlc; simpl; [done|].
    intros H. apply IH in H as ->. apply LibCallStatement_build_calls in Hlc as ->.
    by rewrite received_app.
Qed.

End Build.

(** X12.  [build] replays the IR on the sink in a fixed order.  A
    subcircuit becomes a [SubCircuit] with its name, nodes and parameters that
    receives its parameters, then its models, then its subcircuits (built in
    the same way), then its elements, each group in the order of the IR, and
    the parameters of one [.param] line in the order in which the line names
    them; the circuit receives before these the parameters and models of the
    libraries it calls.  Include statements make no call, and neither do the
    data tables nor the subcircuits of a called library. *)
Theorem build_replays_the_statements_in_order :
  (∀ s ground,
     SubCircuitStatement.build s ground
     = Netlist.mk (SubCircuitStatement._name s) (SubCircuitStatement._nodes s)
         (SubCircuitStatement._parameters s)
         (View.scope_calls (SubCircuitStatement._params s) (SubCircuitStatement._models s)
          ++ map (λ x, Netlist.CallSubcircuit (SubCircuitStatement.build x ground))
               (SubCircuitStatement._subcircuits s)
          ++ View.element_calls (SubCircuitStatement._statements s)))
  ∧ (∀ c ground n,
       CircuitStatement.build c ground = inr n →
       n = Netlist.mk (CircuitStatement._title c) [] ∅
             (concat (map (View.library_call_calls (CircuitStatement._libraries c))
                        (CircuitStatement._library_calls c))
              ++ View.scope_calls (CircuitStatement._params c) (CircuitStatement._models c)
              ++ map (λ x, Netlist.CallSubcircuit (SubCircuitStatement.build x ground))
                   (CircuitStatement._subcircuits c)
              ++ View.element_calls (CircuitStatement._statements c))).
Proof.
  split.
  - intros s ground.
    destruct s as [name nodes parameters statements subcircuits models rs rm params].
    cbn [SubCircuitStatement.build SubCircuitStatement._name SubCircuitStatement._nodes
         SubCircuitStatement._parameters SubCircuitStatement._params
         SubCircuitStatement._models SubCircuitStatement._subcircuits
         SubCircuitStatement._statements].
    rewrite fold_statements.
    rewrite (fold_receive (λ x, Netlist.CallSubcircuit (SubCircuitStatement.build x ground))).
    rewrite fold_models, fold_params, !received_app.
    unfold View.scope_calls, Netlist.SubCircuit. simpl. by rewrite <- !app_assoc.
  - intros c ground n. unfold CircuitStatement.build.
    destruct (foldM _ (CircuitStatement._library_calls c) _) as [e|n1] eqn:Hlib; simpl; [done|].
    intros [= <-]. apply fold_library_calls in Hlib as ->.
    rewrite fold_statements.
    rewrite (fold_receive (λ x, Netlist.CallSubcircuit (SubCircuitStatement.build x ground))).
    rewrite fold_models, fold_params, !received_app.
    unfold View.scope_calls, Netlist.Circuit. simpl. by rewrite <- !app_assoc.
Qed.

Lemma build_replays_the_statements_in_order_witness :
  Netlist.mk "T" [] ∅
    [Netlist.CallParameter "b" (PInt 1);
     Netlist.CallParameter "a" (PInt 2);
     Netlist.CallModel "nch" "nmos" ∅;
     Netlist.CallElement Mosfet "1" [NStr "d"; NStr "g"; NStr "gnd"; NStr "gnd"]
       (<["model" := PStr "nch"]> ∅)]
  = Netlist.mk "T" [] ∅
      (concat (map (View.library_call_calls ∅) [])
       ++ View.scope_calls [ParamStatement.mk [("b", PInt 1); ("a", PInt 2)]]
            [ModelStatement.mk "nch" "nmos" ∅]
       ++ map (λ x, Netlist.CallSubcircuit (SubCircuitStatement.build x (NStr "gnd"))) []
       ++ View.element_calls
            [SElement (ElementStatement.mk Mosfet "M" "1"
                         [NStr "d"; NStr "g"; NStr "gnd"; NStr "gnd"]
                         (<["model" := PStr "nch"]> ∅))]).
Proof.
  apply (proj2 build_replays_the_statements_in_order
           (Examples.walked Examples.parameters_b_a "/work") (NStr "gnd")).
  vm_compute. reflexivity.
Defined.

(** X13.  The build of a library call looks its entry up in the library
    map of the circuit before it makes any call on the sink: for an entry that
    no [.lib] block of the circuit has defined it raises the [KeyError] of the
    entry, whatever the sink has received so far.  So a build of a circuit
    that returns has found the entry of every library call of the circuit. *)
Theorem build_fails_on_an_unknown_library_entry :
  (∀ lc n libraries,
     libraries !! LibCallStatement._entry lc = None →
     LibCallStatement.build lc n libraries
     = inl (KeyError (Str.repr (LibCallStatement._entry lc))))
  ∧ (∀ c ground n,
       CircuitStatement.build c ground = inr n →
       Forall (λ lc, is_Some (CircuitStatement._libraries c !! LibCallStatement._entry lc))
         (CircuitStatement._library_calls c)).
Proof.
  split.
  - intros lc n libraries Hl. unfold LibCallStatement.build. by rewrite Hl.
  - intros c ground n Hn. apply Forall_forall. intros lc Hlc.
    destruct (CircuitStatement._libraries c !! LibCallStatement._entry lc) eqn:Hl; [eauto|].
    exfalso. revert Hn. unfold CircuitStatement.build.
    destruct (foldM _ (CircuitStatement._library_calls c) _) as [e'|n1] eqn:Hlib; simpl; [done|].
    intros _. revert Hlib. generalize (Netlist.Circuit (CircuitStatement._title c)).
    induction (CircuitStatement._library_calls c) as [|lc' calls IH]; intros n0;
      [by apply elem_of_nil in Hlc|].
    simpl. apply elem_of_cons in Hlc as [<-|Hlc].
    + unfold LibCallStatement.build at 1. by rewrite Hl.
    + destruct (LibCallStatement.build lc' n0 _) as [e'|n2]; simpl; [done|]. by apply IH.
Qed.

Lemma build_fails_on_an_unknown_library_entry_witness :
  CircuitStatement.build (Examples.walked Examples.unknown_library_call "/work") (NInt 0)
  = inl (KeyError "'fast'").
Proof.
  pose proof (proj1 build_fails_on_an_unknown_library_entry
                (LibCallStatement.mk "models.lib" "fast") (Netlist.Circuit "T") ∅ eq_refl)
    as Hcall.
  vm_compute in Hcall. vm_compute. exact Hcall.
Defined.

(** X14.  The ground argument of [build_circuit] has no effect: whatever
    node is named as the ground, the sink receives the same calls. *)
Theorem build_circuit_does_not_depend_on_the_ground p ground1 ground2 :
  SpiceParser.build_circuit p ground1 = SpiceParser.build_circuit p ground2.
Proof. unfold SpiceParser.build_circuit. apply CircuitStatement_build_ignores_ground. Qed.

(** ** The device walkers *)

Section Devices.
Import Node SpiceModelWalker Spec View.

Lemma present_require_model_required name w w' :
  present_require_model name w = inr w' →
  present_required_models w' = {[name]} ∪ present_required_models w
  ∧ present_required_subcircuits w' = present_required_subcircuits w.
Proof.
  unfold present_require_model, on_present, present_required_models,
    present_required_subcircuits.
  destruct (_scopes w) as [|[s|l] rest]; simpl; [| |done]; by intros [= <-].
Qed.

Lemma present_require_subcircuit_required name w w' :
  present_require_subcircuit name w = inr w' →
  present_required_subcircuits w' = {[name]} ∪ present_required_subcircuits w
  ∧ present_required_models w' = present_required_models w
  ∧ present_statements w' = present_statements w.
Proof.
  unfold present_require_subcircuit, on_present, present_required_models,
    present_required_subcircuits, present_statements.
  destruct (_scopes w) as [|[s|l] rest]; simpl; [| |done]; by intros [= <-].
Qed.

Lemma present_require_subcircuit_ok name w :
  ¬ in_library w → ∃ w', present_require_subcircuit name w = inr w'.
Proof.
  unfold present_require_subcircuit, on_present, in_library.
  destruct (_scopes w) as [|[s|l] rest]; simpl; eauto.
  intros H. destruct H. eauto.
Qed.

Lemma append_element_required cls device nodes kw w w' :
  append_element cls device nodes kw w = inr w' →
  present_required_models w' = present_required_models w
  ∧ present_required_subcircuits w' = present_required_subcircuits w.
Proof.
  unfold append_element.
  destruct (Py.check_keywords _ _ kw) as [e|[]]; simpl; [done|].
  destruct (ElementStatement.__init__ _ _ _ _) as [e|el]; simpl; [done|].
  unfold present_append, on_present, present_required_models, present_required_subcircuits.
  destruct (_scopes w) as [|[s|l] rest]; simpl; by intros [= <-].
Qed.

Lemma in_library_kept w w' : same_scopes w w' → ¬ in_library w → ¬ in_library w'.
Proof.
  unfold same_scopes, in_library. intros Hsame Hw (l & rest & Hsc). rewrite Hsc in Hsame.
  destruct (_scopes w) as [|[s0|l0] rest0]; try done. apply Hw. eauto.
Qed.

(** An element made after its model has been recorded. *)
Lemma element_with_model cls device nodes kw m w w1 w' :
  present_require_model (Str.lower m) w = inr w1 →
  append_element cls device nodes kw w1 = inr w' →
  ∃ c rest,
    device = String c rest
    ∧ present_statements w'
      = present_statements w ++ [SElement (ElementStatement.mk cls c rest (map NStr nodes) kw)]
    ∧ present_required_models w' = {[Str.lower m]} ∪ present_required_models w
    ∧ present_required_subcircuits w' = present_required_subcircuits w.
Proof.
  intros Hreq Happ.
  pose proof (present_require_model_statements _ _ _ Hreq) as Hst.
  apply present_require_model_required in Hreq as [Hm Hs].
  pose proof (append_element_required _ _ _ _ _ _ Happ) as [Hm' Hs'].
  apply append_element_statements in Happ as (c & rest & -> & Hst').
  exists c, rest. rewrite Hst', Hst, Hm', Hm, Hs', Hs. done.
Qed.

Lemma element_with_model_ok cls c rest nodes kw m w :
  ¬ in_library w →
  kw !! "self" = None → kw !! "statement" = None → kw !! "name" = None →
  ∃ w1 w', present_require_model (Str.lower m) w = inr w1
           ∧ append_element cls (String c rest) nodes kw w1 = inr w'.
Proof.
  intros Hlib H1 H2 H3.
  destruct (present_require_model_ok (Str.lower m) w Hlib) as [w1 Hw1].
  destruct (append_element_ok cls c rest nodes kw w1 H1 H2 H3) as [w' Hw'].
  eauto.
Qed.

Lemma update_parameters_lookup parameters (kw : kwargs) k :
  free_keywords parameters → k ∈ ["self"; "statement"; "name"] → kw !! k = None →
  update_parameters parameters kw !! k = None.
Proof.
  intros Hfree Hk Hkw. unfold update_parameters, Py.update.
  destruct parameters as [p|]; [|done].
  destruct (Hfree p eq_refl) as (H1 & H2 & H3).
  apply lookup_union_None. split; [|done].
  repeat (apply elem_of_cons in Hk as [->|Hk]; [done|]). by apply elem_of_nil in Hk.
Qed.

End Devices.

(** X15.  A MOSFET, a diode and a JFET line need a model.  When the walker
    accepts such a line, the model is set; its lowercased name joins the
    required models of the present scope, and nothing else is required anew;
    and one element is appended to the statements of the scope, of the class
    of the device, with the nodes in the order drain, gate, source, bulk (M),
    positive, negative (D) and drain, gate, source (J), and with the model
    under the key [model] as it was written. *)
Theorem model_lines_record_their_model w w' :
  (∀ node,
     SpiceModelWalker.walk_MOSFET node w = inr w' →
     ∃ m c rest,
       Node.mos_model node = Some m
       ∧ SpiceModelWalker.walk_Device (Node.mos_dev node) = inr (String c rest)
       ∧ SpiceModelWalker.present_statements w'
         = SpiceModelWalker.present_statements w
           ++ [SElement (ElementStatement.mk Mosfet c rest
                           [NStr (Node.mos_drain node); NStr (Node.mos_gate node);
                            NStr (Node.mos_source node); NStr (Node.mos_bulk node)]
                           (SpiceModelWalker.update_parameters (Node.mos_param node)
                              (<["model" := PStr m]> ∅)))]
       ∧ View.present_required_models w' = {[Str.lower m]} ∪ View.present_required_models w
       ∧ View.present_required_subcircuits w' = View.present_required_subcircuits w)
  ∧ (∀ node,
       SpiceModelWalker.walk_Diode node w = inr w' →
       ∃ m c rest,
         Node.dio_model node = Some m
         ∧ SpiceModelWalker.walk_Device (Node.dio_dev node) = inr (String c rest)
         ∧ SpiceModelWalker.present_statements w'
           = SpiceModelWalker.present_statements w
             ++ [SElement (ElementStatement.mk Diode c rest
                             [NStr (Node.dio_positive node); NStr (Node.dio_negative node)]
                             (match Node.dio_area node with
                              | Some area => <["area" := area]> (<["model" := PStr m]> ∅)
                              | None => <["model" := PStr m]> ∅
                              end))]
         ∧ View.present_required_models w' = {[Str.lower m]} ∪ View.present_required_models w
         ∧ View.present_required_subcircuits w' = View.present_required_subcircuits w)
  ∧ (∀ node,
       SpiceModelWalker.walk_JFET node w = inr w' →
       ∃ m c rest,
         Node.jfet_model node = Some m
         ∧ SpiceModelWalker.walk_Device (Node.jfet_dev node) = inr (String c rest)
         ∧ SpiceModelWalker.present_statements w'
           = SpiceModelWalker.present_statements w
             ++ [SElement (ElementStatement.mk JunctionFieldEffectTransistor c rest
                             [NStr (Node.jfet_drain node); NStr (Node.jfet_gate node);
                              NStr (Node.jfet_source node)]
                             (SpiceModelWalker.update_parameters (Node.jfet_parameters node)
                                (match Node.jfet_area node with
                                 | Some area => <["area" := area]> (<["model" := PStr m]> ∅)
                                 | None => <["model" := PStr m]> ∅
                                 end)))]
         ∧ View.present_required_models w' = {[Str.lower m]} ∪ View.present_required_models w
         ∧ View.present_required_subcircuits w' = View.present_required_subcircuits w).
Proof.
  split; [|split]; intros node.
  - unfold SpiceModelWalker.walk_MOSFET.
    destruct (SpiceModelWalker.walk_Device _) as [e|device]; simpl; [done|].
    destruct (Node.mos_model node) as [m|]; simpl; [|done].
    destruct (SpiceModelWalker.present_require_model _ w) as [e|w1] eqn:Hreq; simpl; [done|].
    intros Happ.
    destruct (element_with_model _ _ _ _ _ _ _ _ Hreq Happ) as (c & rest & -> & ? & ? & ?).
    by exists m, c, rest.
  - unfold SpiceModelWalker.walk_Diode.
    destruct (SpiceModelWalker.walk_Device _) as [e|device]; simpl; [done|].
    destruct (Node.dio_model node) as [m|]; simpl; [|done].
    destruct (SpiceModelWalker.present_require_model _ w) as [e|w1] eqn:Hreq; simpl; [done|].
    intros Happ.
    destruct (element_with_model _ _ _ _ _ _ _ _ Hreq Happ) as (c & rest & -> & ? & ? & ?).
    by exists m, c, rest.
  - unfold SpiceModelWalker.walk_JFET.
    destruct (SpiceModelWalker.walk_Device _) as [e|device]; simpl; [done|].
    destruct (Node.jfet_model node) as [m|]; simpl; [|done].
    destruct (SpiceModelWalker.present_require_model _ w) as [e|w1] eqn:Hreq; simpl; [done|].
    intros Happ.
    destruct (element_with_model _ _ _ _ _ _ _ _ Hreq Happ) as (c & rest & -> & ? & ? & ?).
    by exists m, c, rest.
Qed.

(** X16.  The walker accepts a MOSFET, a diode and a JFET line in every
    scope but a library block, provided the line has a device name and a
    model and none of its keywords is called [self], [statement] or [name];
    without a model it raises the [ValueError] [The device ... has no
    model]. *)
Theorem model_lines_are_accepted_outside_libraries w :
  ¬ Spec.in_library w →
  (∀ node m,
     Node.mos_dev node ≠ "" → Node.mos_model node = Some m →
     View.free_keywords (Node.mos_param node) →
     ∃ w', SpiceModelWalker.walk_MOSFET node w = inr w')
  ∧ (∀ node m,
       Node.dio_dev node ≠ "" → Node.dio_model node = Some m →
       ∃ w', SpiceModelWalker.walk_Diode node w = inr w')
  ∧ (∀ node m,
       Node.jfet_dev node ≠ "" → Node.jfet_model node = Some m →
       View.free_keywords (Node.jfet_parameters node) →
       ∃ w', SpiceModelWalker.walk_JFET node w = inr w')
  ∧ (∀ node,
       Node.mos_dev node ≠ "" → Node.mos_model node = None →
       SpiceModelWalker.walk_MOSFET node w
       = inl (ValueError ("The device " +:+ Node.mos_dev node +:+ " has no model")))
  ∧ (∀ node,
       Node.dio_dev node ≠ "" → Node.dio_model node = None →
       SpiceModelWalker.walk_Diode node w
       = inl (ValueError ("The device " +:+ Node.dio_dev node +:+ " has no model")))
  ∧ (∀ node,
       Node.jfet_dev node ≠ "" → Node.jfet_model node = None →
       SpiceModelWalker.walk_JFET node w
       = inl (ValueError ("The device " +:+ Node.jfet_dev node +:+ " has no model"))).
Proof.
  intros Hlib.
  assert (∀ k m, k ∈ ["self"; "statement"; "name"] →
                 (<["model" := PStr m]> ∅ : kwargs) !! k = None) as Hmodel.
  { intros k m Hk.
    repeat (apply elem_of_cons in Hk as [->|Hk]; [done|]). by apply elem_of_nil in Hk. }
  repeat split.
  - intros node m Hdev Hm Hfree. unfold SpiceModelWalker.walk_MOSFET.
    destruct (walk_Device_ok _ Hdev) as (c & rest & ->). rewrite Hm. simpl.
    destruct (element_with_model_ok Mosfet c rest
                [Node.mos_drain node; Node.mos_gate node; Node.mos_source node;
                 Node.mos_bulk node]
                (SpiceModelWalker.update_parameters (Node.mos_param node)
                   (<["model" := PStr m]> ∅)) m w Hlib) as (w1 & w' & -> & Happ).
    1-3: apply update_parameters_lookup; [done| |apply Hmodel];
         rewrite !elem_of_cons; auto.
    simpl. eauto.
  - intros node m Hdev Hm. unfold SpiceModelWalker.walk_Diode.
    destruct (walk_Device_ok _ Hdev) as (c & rest & ->). rewrite Hm. simpl.
    destruct (element_with_model_ok Diode c rest
                [Node.dio_positive node; Node.dio_negative node]
                (match Node.dio_area node with
                 | Some area => <["area" := area]> (<["model" := PStr m]> ∅)
                 | None => <["model" := PStr m]> ∅
                 end) m w Hlib) as (w1 & w' & -> & Happ).
    1-3: by destruct (Node.dio_area node).
    simpl. eauto.
  - intros node m Hdev Hm Hfree. unfold SpiceModelWalker.walk_JFET.
    destruct (walk_Device_ok _ Hdev) as (c & rest & ->). rewrite Hm. simpl.
    destruct (element_with_model_ok JunctionFieldEffectTransistor c rest
                [Node.jfet_drain node; Node.jfet_gate node; Node.jfet_source node]
                (SpiceModelWalker.update_parameters (Node.jfet_parameters node)
                   (match Node.jfet_area node with
                    | Some area => <["area" := area]> (<["model" := PStr m]> ∅)
                    | None => <["model" := PStr m]> ∅
                    end)) m w Hlib) as (w1 & w' & -> & Happ).
    1-3: apply update_parameters_lookup; [done|rewrite !elem_of_cons; auto|];
         by destruct (Node.jfet_area node).
    simpl. eauto.
  - intros node Hdev Hm. unfold SpiceModelWalker.walk_MOSFET.
    destruct (walk_Device_ok _ Hdev) as (c & rest & ->). by rewrite Hm.
  - intros node Hdev Hm. unfold SpiceModelWalker.walk_Diode.
    destruct (walk_Device_ok _ Hdev) as (c & rest & ->). by rewrite Hm.
  - intros node Hdev Hm. unfold SpiceModelWalker.walk_JFET.
    destruct (walk_Device_ok _ Hdev) as (c & rest & ->). by rewrite Hm.
Qed.

Lemma model_lines_are_accepted_outside_libraries_witness :
  ∃ w', SpiceModelWalker.walk_Diode (Node.mkDiodeDevice "D1" (Some "1N4148") None "a" "k")
          Examples.in_subckt = inr w'.
Proof.
  assert (¬ Spec.in_library Examples.in_subckt) as Hlib.
  { intros (l & rest & H). done. }
  destruct (model_lines_are_accepted_outside_libraries Examples.in_subckt Hlib)
    as (_ & Hdiode & _).
  by apply (Hdiode (Node.mkDiodeDevice "D1" (Some "1N4148") None "a" "k") "1N4148").
Defined.

(** X17.  The readings of a Q line.  After the nodes collector, base,
    emitter and an optional substrate the walker takes one argument as the
    model; two arguments as model and area when the second is a number, else
    as a thermal node and the model; three arguments as substrate, thermal
    node and model, when the line has no substrate and no area and the third
    is not a number.  An accepted line has one of these shapes and appends a
    [BipolarJunctionTransistor] with the nodes and the model read in this
    way, recording the lowercased model; a line of one of these shapes, with a
    device name and free keywords, is accepted in every scope but a library
    block. *)
Theorem bjt_line_shapes node w :
  (∀ w',
     SpiceModelWalker.walk_BJT node w = inr w' →
     ∃ extra area m c rest,
       View.bjt_shape node = Some (extra, area, m)
       ∧ SpiceModelWalker.walk_Device (Node.bjt_dev node) = inr (String c rest)
       ∧ SpiceModelWalker.present_statements w'
         = SpiceModelWalker.present_statements w
           ++ [SElement (ElementStatement.mk BipolarJunctionTransistor c rest
                           (map NStr (View.bjt_nodes node ++ extra))
                           (View.bjt_keywords node area m))]
       ∧ View.present_required_models w' = {[Str.lower m]} ∪ View.present_required_models w
       ∧ View.present_required_subcircuits w' = View.present_required_subcircuits w)
  ∧ (∀ extra area m,
       View.bjt_shape node = Some (extra, area, m) →
       Node.bjt_dev node ≠ "" →
       ¬ Spec.in_library w →
       View.free_keywords (Node.bjt_parameters node) →
       ∃ w', SpiceModelWalker.walk_BJT node w = inr w').
Proof.
  split.
  - intros w'. unfold SpiceModelWalker.walk_BJT, View.bjt_shape, View.bjt_nodes,
      View.bjt_keywords.
    destruct (SpiceModelWalker.walk_Device _) as [e|device]; simpl; [done|].
    destruct (Node.bjt_args node) as [|a [|b [|c [|d args]]]]; simpl; try done.
    + destruct (SpiceModelWalker.present_require_model _ w) as [e|w1] eqn:Hreq; simpl; [done|].
      intros Happ.
      destruct (element_with_model _ _ _ _ _ _ _ _ Hreq Happ) as (c & rest & -> & ? & ? & ?).
      exists [], None, a, c, rest. rewrite app_nil_r.
      by destruct (Node.bjt_substrate node).
    + unfold SpiceModelWalker.bjt_two, SpiceModelWalker.arg. simpl.
      destruct (Node.bjt_area node) as [area|]; simpl; [done|].
      destruct (SpiceModelWalker._to_number b) as [e|v]; simpl.
      * destruct (SpiceModelWalker.present_require_model _ w) as [e'|w1] eqn:Hreq; simpl;
          [done|].
        intros Happ.
        destruct (element_with_model _ _ _ _ _ _ _ _ Hreq Happ) as (c & rest & -> & ? & ? & ?).
        exists [a], None, b, c, rest. by destruct (Node.bjt_substrate node).
      * destruct (SpiceModelWalker.present_require_model _ w) as [e'|w1] eqn:Hreq; simpl;
          [done|].
        intros Happ.
        destruct (element_with_model _ _ _ _ _ _ _ _ Hreq Happ) as (c & rest & -> & ? & ? & ?).
        exists [], (Some v), a, c, rest. rewrite app_nil_r.
        by destruct (Node.bjt_substrate node).
    + unfold SpiceModelWalker.bjt_three, SpiceModelWalker.arg. simpl.
      destruct (Node.bjt_area node) as [area|]; simpl.
      { by destruct (Node.bjt_substrate node). }
      destruct (SpiceModelWalker._to_number c) as [e|v]; simpl; [|done].
      destruct (Node.bjt_substrate node) as [s|]; simpl; [done|].
      destruct (SpiceModelWalker.present_require_model _ w) as [e'|w1] eqn:Hreq; simpl;
        [done|].
      intros Happ.
      destruct (element_with_model _ _ _ _ _ _ _ _ Hreq Happ) as (c0 & rest & -> & ? & ? & ?).
      by exists [a; b], None, c, c0, rest.
  - intros extra area m Hshape Hdev Hlib Hfree.
    destruct (walk_Device_ok _ Hdev) as (c0 & rest0 & Hwd).
    assert (∀ nodes area' m',
              ∃ w1 w', SpiceModelWalker.present_require_model (Str.lower m') w = inr w1
                       ∧ SpiceModelWalker.append_element BipolarJunctionTransistor
                           (String c0 rest0) nodes
                           (<["model" := PStr m']>
                              (SpiceModelWalker.update_parameters (Node.bjt_parameters node)
                                 (match area' with
                                  | Some v => <["area" := v]> ∅
                                  | None => ∅
                                  end))) w1 = inr w') as Hok.
    { intros nodes area' m'. apply element_with_model_ok; [done|..].
      all: rewrite lookup_insert_ne by done;
        apply update_parameters_lookup; [done|rewrite !elem_of_cons; auto|];
        by destruct area'. }
    revert Hshape. unfold SpiceModelWalker.walk_BJT, View.bjt_shape.
    rewrite Hwd. simpl.
    destruct (Node.bjt_args node) as [|a [|b [|c [|d args]]]]; simpl; try done.
    + intros _. unfold SpiceModelWalker.arg. simpl.
      destruct (Hok (match Node.bjt_substrate node with
                     | Some s => [Node.bjt_collector node; Node.bjt_base node;
                                  Node.bjt_emitter node] ++ [s]
                     | None => [Node.bjt_collector node; Node.bjt_base node;
                                Node.bjt_emitter node]
                     end) None a) as (w1 & w' & -> & Happ).
      simpl. eauto.
    + unfold SpiceModelWalker.bjt_two, SpiceModelWalker.arg. simpl.
      destruct (Node.bjt_area node) as [area0|]; simpl; [done|].
      destruct (SpiceModelWalker._to_number b) as [e|v]; simpl; intros _.
      * destruct (Hok ((match Node.bjt_substrate node with
                        | Some s => [Node.bjt_collector node; Node.bjt_base node;
                                     Node.bjt_emitter node] ++ [s]
                        | None => [Node.bjt_collector node; Node.bjt_base node;
                                   Node.bjt_emitter node]
                        end) ++ [a]) None b) as (w1 & w' & -> & Happ).
        simpl. eauto.
      * destruct (Hok (match Node.bjt_substrate node with
                       | Some s => [Node.bjt_collector node; Node.bjt_base node;
                                    Node.bjt_emitter node] ++ [s]
                       | None => [Node.bjt_collector node; Node.bjt_base node;
                                  Node.bjt_emitter node]
                       end) (Some v) a) as (w1 & w' & -> & Happ).
        simpl. eauto.
    + unfold SpiceModelWalker.bjt_three, SpiceModelWalker.arg. simpl.
      destruct (Node.bjt_area node) as [area0|]; simpl; [done|].
      destruct (Node.bjt_substrate node) as [s|]; simpl; [done|].
      destruct (SpiceModelWalker._to_number c) as [e|v]; simpl; [|done]. intros _.
      destruct (Hok [Node.bjt_collector node; Node.bjt_base node; Node.bjt_emitter node; a; b]
                  None c) as (w1 & w' & -> & Happ).
      simpl. eauto.
Qed.

Lemma bjt_line_shapes_witness :
  ∃ w', SpiceModelWalker.walk_BJT Examples.bjt_model_area Examples.in_subckt = inr w'.
Proof.
  destruct (bjt_line_shapes Examples.bjt_model_area Examples.in_subckt) as [_ Hok].
  apply (Hok [] (Some (PFloat "1.5")) "2N2222").
  - vm_compute. reflexivity.
  - done.
  - intros (l & rest & H). done.
  - intros p H. done.
Defined.

Section Instances.
Import Node SpiceModelWalker Spec View.

(** [l[-k]] and [l[:-k]] split the list around the element read. *)
Lemma from_end_split k l x :
  0 < k → from_end k l = inr x →
  l = take (length l - k) l ++ x :: drop (S (length l - k)) l
  ∧ length (drop (S (length l - k)) l) = k - 1.
Proof.
  intros Hk. unfold from_end.
  destruct (rev l !! (k - 1)) as [y|] eqn:Hy; [|done]. intros [= <-].
  rewrite rev_alt in Hy. fold (reverse l) in Hy.
  assert (k - 1 < length l) as Hlt.
  { apply lookup_lt_Some in Hy. by rewrite length_reverse in Hy. }
  rewrite reverse_lookup in Hy by done.
  replace (length l - S (k - 1)) with (length l - k) in Hy by lia.
  split.
  - symmetry. by apply take_drop_middle.
  - rewrite length_drop. lia.
Qed.

Lemma from_end_ok k l :
  0 < k → k ≤ length l → ∃ x, from_end k l = inr x.
Proof.
  intros Hk Hlen. unfold from_end.
  destruct (rev l !! (k - 1)) as [y|] eqn:Hy; [eauto|].
  apply lookup_ge_None in Hy. rewrite length_rev in Hy. lia.
Qed.

Lemma optional_model_result model kw w r :
  optional_model model kw w = inr r →
  fst r = match model with Some m => <["model" := PStr m]> kw | None => kw end
  ∧ present_statements (snd r) = present_statements w
  ∧ present_required_subcircuits (snd r) = present_required_subcircuits w
  ∧ present_required_models (snd r)
    = match model with
      | Some m => {[Str.lower m]} ∪ present_required_models w
      | None => present_required_models w
      end.
Proof.
  unfold optional_model. destruct model as [m|].
  - destruct (present_require_model _ w) as [e|w1] eqn:Hreq; simpl; [done|].
    intros [= <-]. simpl.
    pose proof (present_require_model_statements _ _ _ Hreq).
    apply present_require_model_required in Hreq as [? ?]. done.
  - by intros [= <-].
Qed.

Lemma optional_model_ok model kw w :
  model = None ∨ ¬ in_library w → ∃ r, optional_model model kw w = inr r.
Proof.
  intros H. unfold optional_model. destruct model as [m|]; [|eauto].
  destruct H as [|Hlib]; [done|].
  destruct (present_require_model_ok (Str.lower m) w Hlib) as [w1 ->]. simpl. eauto.
Qed.

(** The keywords of a passive element whose value is given by keyword and
    those of the same line with the value written after the nodes. *)
Lemma value_by_keyword key lower v (p kw0 : kwargs) :
  p !! lower = None → p !! key = None → kw0 !! lower = None →
  <[key := v]> (delete lower (Py.update kw0 (<[lower := v]> p)))
  = Py.update (<[key := v]> kw0) p.
Proof.
  intros Hl Hk H0. unfold Py.update. apply map_eq. intros k.
  destruct (decide (k = key)) as [->|Hne].
  - rewrite lookup_insert_eq. symmetry. apply lookup_union_Some_raw. right.
    split; [done|]. apply lookup_insert_eq.
  - rewrite lookup_insert_ne by done.
    destruct (decide (k = lower)) as [->|Hne'].
    + rewrite lookup_delete_eq. symmetry. apply lookup_union_None.
      split; [done|]. by rewrite lookup_insert_ne.
    + rewrite lookup_delete_ne by done.
      rewrite !lookup_union, lookup_insert_ne by done.
      by rewrite (lookup_insert_ne kw0) by done.
Qed.

Lemma walk_passive_lower cls key lower upper dev model v p pos neg w :
  lower ≠ "model" → p !! lower = None → p !! key = None →
  walk_passive cls key lower upper (mkPassive dev model None (Some (<[lower := v]> p)) pos neg) w
  = walk_passive cls key lower upper (mkPassive dev model (Some v) (Some p) pos neg) w.
Proof.
  intros Hm Hl Hk. unfold walk_passive. simpl.
  destruct (walk_Device dev) as [e|device]; simpl; [done|].
  destruct (optional_model model ∅ w) as [e|r] eqn:Hr; simpl; [done|].
  apply optional_model_result in Hr as (Hkw & _).
  unfold value_from_keywords.
  assert (fst r !! lower = None) as H0.
  { rewrite Hkw. destruct model; [by rewrite lookup_insert_ne|done]. }
  replace (Py.update (fst r) (<[lower := v]> p) !! lower) with (Some v).
  2:{ symmetry. unfold Py.update. apply lookup_union_Some_raw. left. apply lookup_insert_eq. }
  by rewrite value_by_keyword.
Qed.

Lemma walk_passive_upper cls key lower upper dev model v p pos neg w :
  upper ≠ "model" → lower ≠ "model" → lower ≠ upper →
  p !! lower = None → p !! upper = None → p !! key = None →
  walk_passive cls key lower upper (mkPassive dev model None (Some (<[upper := v]> p)) pos neg) w
  = walk_passive cls key lower upper (mkPassive dev model (Some v) (Some p) pos neg) w.
Proof.
  intros Hm Hm' Hlu Hl Hu Hk. unfold walk_passive. simpl.
  destruct (walk_Device dev) as [e|device]; simpl; [done|].
  destruct (optional_model model ∅ w) as [e|r] eqn:Hr; simpl; [done|].
  apply optional_model_result in Hr as (Hkw & _).
  unfold value_from_keywords.
  assert (fst r !! upper = None ∧ fst r !! lower = None) as [H0 H1].
  { rewrite Hkw. destruct model; [by rewrite !lookup_insert_ne|done]. }
  replace (Py.update (fst r) (<[upper := v]> p) !! lower) with (@None pyvalue).
  2:{ symmetry. unfold Py.update. apply lookup_union_None.
      split; [by rewrite lookup_insert_ne|done]. }
  replace (Py.update (fst r) (<[upper := v]> p) !! upper) with (Some v).
  2:{ symmetry. unfold Py.update. apply lookup_union_Some_raw. left. apply lookup_insert_eq. }
  by rewrite value_by_keyword.
Qed.

End Instances.

(** X18.  An X line names its subcircuit after its nodes: the last token of
    the line is the name, or the last but one when the line has a [params:]
    part, in which case the token after the name is dropped.  An accepted
    line appends a [SubCircuitElement] whose first node is the name, followed
    by the nodes before it, and records the lowercased name among the required
    subcircuits of the present scope; a line with too few tokens raises an
    [IndexError]. *)
Theorem subcircuit_instance_names_its_subcircuit node w :
  (∀ w',
     SpiceModelWalker.walk_Subcircuit node w = inr w' →
     ∃ nodes name trailing c rest,
       Node.x_node node = nodes ++ name :: trailing
       ∧ length trailing = match Node.x_params node with Some _ => 1 | None => 0 end
       ∧ SpiceModelWalker.walk_Device (Node.x_dev node) = inr (String c rest)
       ∧ SpiceModelWalker.present_statements w'
         = SpiceModelWalker.present_statements w
           ++ [SElement (ElementStatement.mk SubCircuitElement c rest
                           (map NStr (name :: nodes))
                           (SpiceModelWalker.update_parameters (Node.x_parameters node) ∅))]
       ∧ View.present_required_subcircuits w'
         = {[Str.lower name]} ∪ View.present_required_subcircuits w
       ∧ View.present_required_models w' = View.present_required_models w)
  ∧ (Node.x_dev node ≠ "" →
     length (Node.x_node node) < match Node.x_params node with Some _ => 2 | None => 1 end →
     SpiceModelWalker.walk_Subcircuit node w = inl (IndexError "list index out of range"))
  ∧ (Node.x_dev node ≠ "" →
     match Node.x_params node with Some _ => 2 | None => 1 end ≤ length (Node.x_node node) →
     ¬ Spec.in_library w →
     View.free_keywords (Node.x_parameters node) →
     ∃ w', SpiceModelWalker.walk_Subcircuit node w = inr w').
Proof.
  split; [|split].
  - intros w'. unfold SpiceModelWalker.walk_Subcircuit.
    destruct (SpiceModelWalker.walk_Device _) as [e|device]; simpl; [done|].
    set (k := match Node.x_params node with Some _ => 2 | None => 1 end).
    destruct (SpiceModelWalker.from_end k (Node.x_node node)) as [e|name] eqn:Hname; simpl;
      [done|].
    destruct (SpiceModelWalker.present_require_subcircuit _ w) as [e|w1] eqn:Hreq; simpl;
      [done|].
    intros Happ.
    apply from_end_split in Hname as [Hsplit Hlen].
    2:{ unfold k. destruct (Node.x_params node); lia. }
    apply present_require_subcircuit_required in Hreq as (Hs & Hm & Hst).
    pose proof (append_element_required _ _ _ _ _ _ Happ) as [Hm' Hs'].
    apply append_element_statements in Happ as (c & rest & -> & Hst').
    exists (take (length (Node.x_node node) - k) (Node.x_node node)), name,
      (drop (S (length (Node.x_node node) - k)) (Node.x_node node)), c, rest.
    split; [done|]. split.
    { rewrite Hlen. unfold k. by destruct (Node.x_params node). }
    split; [done|]. rewrite Hst', Hst, Hs', Hs, Hm', Hm. done.
  - intros Hdev Hlen. unfold SpiceModelWalker.walk_Subcircuit.
    destruct (walk_Device_ok _ Hdev) as (c & rest & ->). simpl.
    unfold SpiceModelWalker.from_end.
    set (k := match Node.x_params node with Some _ => 2 | None => 1 end) in *.
    destruct (rev (Node.x_node node) !! (k - 1)) as [y|] eqn:Hy; [|done].
    apply lookup_lt_Some in Hy. rewrite length_rev in Hy.
    assert (0 < k) by (unfold k; destruct (Node.x_params node); lia). lia.
  - intros Hdev Hlen Hlib Hfree. unfold SpiceModelWalker.walk_Subcircuit.
    destruct (walk_Device_ok _ Hdev) as (c & rest & ->). simpl.
    set (k := match Node.x_params node with Some _ => 2 | None => 1 end) in *.
    destruct (from_end_ok k (Node.x_node node)) as [name ->]; [|done|].
    { unfold k. destruct (Node.x_params node); lia. }
    simpl.
    destruct (present_require_subcircuit_ok (Str.lower name) w Hlib) as [w1 Hw1].
    rewrite Hw1. simpl. apply append_element_ok.
    all: apply update_parameters_lookup; [done|rewrite !elem_of_cons; auto|done].
Qed.

Lemma subcircuit_instance_names_its_subcircuit_witness :
  ∃ w', SpiceModelWalker.walk_Subcircuit
          (Node.mkSubcircuit "X1" ["in"; "out"; "opamp"] None None) Examples.in_subckt
        = inr w'.
Proof.
  destruct (subcircuit_instance_names_its_subcircuit
              (Node.mkSubcircuit "X1" ["in"; "out"; "opamp"] None None) Examples.in_subckt)
    as (_ & _ & Hok).
  apply Hok.
  - done.
  - simpl. lia.
  - intros (l & rest & H). done.
  - intros p H. done.
Defined.

(** X19.  The value of a resistor, a capacitor and an inductor can be
    written after the nodes or as a keyword ([r=] or [R=], [c=] or [C=], [l=]
    or [L=]): the two spellings give the same walk, that is the same element
    with the value under [resistance], [capacitance] or [inductance] and the
    keyword removed, provided the other keywords of the line do not bear
    these names. *)
Theorem value_after_the_nodes_or_by_keyword dev model v p pos neg w :
  (p !! "r" = None → p !! "resistance" = None →
   SpiceModelWalker.walk_Resistor
     (Node.mkPassive dev model None (Some (<["r" := v]> p)) pos neg) w
   = SpiceModelWalker.walk_Resistor (Node.mkPassive dev model (Some v) (Some p) pos neg) w)
  ∧ (p !! "r" = None → p !! "R" = None → p !! "resistance" = None →
     SpiceModelWalker.walk_Resistor
       (Node.mkPassive dev model None (Some (<["R" := v]> p)) pos neg) w
     = SpiceModelWalker.walk_Resistor (Node.mkPassive dev model (Some v) (Some p) pos neg) w)
  ∧ (p !! "c" = None → p !! "capacitance" = None →
     SpiceModelWalker.walk_Capacitor
       (Node.mkPassive dev model None (Some (<["c" := v]> p)) pos neg) w
     = SpiceModelWalker.walk_Capacitor (Node.mkPassive dev model (Some v) (Some p) pos neg) w)
  ∧ (p !! "c" = None → p !! "C" = None → p !! "capacitance" = None →
     SpiceModelWalker.walk_Capacitor
       (Node.mkPassive dev model None (Some (<["C" := v]> p)) pos neg) w
     = SpiceModelWalker.walk_Capacitor (Node.mkPassive dev model (Some v) (Some p) pos neg) w)
  ∧ (p !! "l" = None → p !! "inductance" = None →
     SpiceModelWalker.walk_Inductor
       (Node.mkPassive dev model None (Some (<["l" := v]> p)) pos neg) w
     = SpiceModelWalker.walk_Inductor (Node.mkPassive dev model (Some v) (Some p) pos neg) w)
  ∧ (p !! "l" = None → p !! "L" = None → p !! "inductance" = None →
     SpiceModelWalker.walk_Inductor
       (Node.mkPassive dev model None (Some (<["L" := v]> p)) pos neg) w
     = SpiceModelWalker.walk_Inductor (Node.mkPassive dev model (Some v) (Some p) pos neg) w).
Proof.
  unfold SpiceModelWalker.walk_Resistor, SpiceModelWalker.walk_Capacitor,
    SpiceModelWalker.walk_Inductor.
  split_and!; intros; first [ by apply walk_passive_lower | by apply walk_passive_upper ].
Qed.

Lemma value_after_the_nodes_or_by_keyword_witness :
  SpiceModelWalker.walk_Resistor
    (Node.mkPassive "R1" None None (Some (<["r" := PInt 50]> (<["tc1" := PInt 1]> ∅))) "a" "b")
    Examples.at_root
  = SpiceModelWalker.walk_Resistor
      (Node.mkPassive "R1" None (Some (PInt 50)) (Some (<["tc1" := PInt 1]> ∅)) "a" "b")
      Examples.at_root.
Proof.
  pose proof (value_after_the_nodes_or_by_keyword "R1" None (PInt 50) (<["tc1" := PInt 1]> ∅)
                "a" "b" Examples.at_root) as (Hlower & _).
  apply Hlower; vm_compute; reflexivity.
Defined.

(** X20.  [walk_MutualInductor] case by case, in the order of the code.  A
    K line without a device name raises an [IndexError].  With a device name,
    a line that names a model where the present scope is a library block
    raises the [AttributeError] of the missing set of required models, before
    its inductors are counted.  Otherwise, that is with a device name and
    either no model or a present scope that is the circuit or a subcircuit, a
    line that names another number of inductors than two raises the
    [ParseError] [Presently, only two inductors are allowed.], and a line that
    names two is accepted: it appends a [CoupledInductor] without nodes whose
    keywords hold the two inductors, the coupling factor and the model if
    there is one. *)
Theorem mutual_inductor_couples_two_inductors node w :
  (Node.mut_dev node = "" →
   SpiceModelWalker.walk_MutualInductor node w = inl (IndexError "string index out of range"))
  ∧ (Node.mut_dev node ≠ "" →
     is_Some (Node.mut_model node) →
     Spec.in_library w →
     SpiceModelWalker.walk_MutualInductor node w
     = inl (AttributeError "'LibraryStatement' object has no attribute '_required_models'"))
  ∧ (Node.mut_dev node ≠ "" →
     Node.mut_model node = None ∨ ¬ Spec.in_library w →
     (length (Node.mut_inductor node) ≠ 2 →
      SpiceModelWalker.walk_MutualInductor node w
      = inl (ParseError "Presently, only two inductors are allowed."))
     ∧ (∀ l1 l2,
          Node.mut_inductor node = [l1; l2] →
          ∃ w' c rest,
            SpiceModelWalker.walk_MutualInductor node w = inr w'
            ∧ SpiceModelWalker.walk_Device (Node.mut_dev node) = inr (String c rest)
            ∧ SpiceModelWalker.present_statements w'
              = SpiceModelWalker.present_statements w
                ++ [SElement (ElementStatement.mk CoupledInductor c rest []
                                (<["coupling_factor" := Node.mut_value node]>
                                   (<["inductor2" := PStr l2]>
                                      (<["inductor1" := PStr l1]>
                                         (match Node.mut_model node with
                                          | Some m => <["model" := PStr m]> ∅
                                          | None => ∅
                                          end)))))])).
Proof.
  split; [|split].
  - intros Hdev. unfold SpiceModelWalker.walk_MutualInductor. by rewrite Hdev.
  - intros Hdev [m Hm] (l & rest & Hscope). unfold SpiceModelWalker.walk_MutualInductor.
    destruct (walk_Device_ok _ Hdev) as (c & rest' & ->). simpl.
    rewrite Hm. unfold SpiceModelWalker.optional_model, SpiceModelWalker.present_require_model,
      SpiceModelWalker.on_present.
    rewrite Hscope. reflexivity.
  - intros Hdev Hmodel. unfold SpiceModelWalker.walk_MutualInductor.
    destruct (walk_Device_ok _ Hdev) as (c & rest & ->). simpl.
    destruct (optional_model_ok (Node.mut_model node) ∅ w Hmodel) as [r Hr]. rewrite Hr. simpl.
    apply optional_model_result in Hr as (Hkw & Hst & _).
    split.
    + intros Hlen. destruct (length (Node.mut_inductor node) =? 2) eqn:Heq; [|done].
      by apply Nat.eqb_eq in Heq.
    + intros l1 l2 Hl. rewrite Hl. simpl. unfold SpiceModelWalker.arg. simpl.
      rewrite Hkw.
      destruct (append_element_ok CoupledInductor c rest []
                  (<["coupling_factor" := Node.mut_value node]>
                     (<["inductor2" := PStr l2]>
                        (<["inductor1" := PStr l1]>
                           (match Node.mut_model node with
                            | Some m => <["model" := PStr m]> ∅
                            | None => ∅
                            end)))) (snd r)) as [w' Hw'].
      1-3: rewrite !lookup_insert_ne by done; by destruct (Node.mut_model node).
      exists w', c, rest. split; [done|]. split; [done|].
      apply append_element_statements in Hw' as (c' & rest' & [= <- <-] & ->).
      by rewrite Hst.
Qed.

Lemma mutual_inductor_couples_two_inductors_witness :
  SpiceModelWalker.walk_MutualInductor
    (Node.mkMutualInductor "K1" None ["L1"; "L2"; "L3"] (PFloat "0.9")) Examples.in_library
  = inl (ParseError "Presently, only two inductors are allowed.")
  ∧ SpiceModelWalker.walk_MutualInductor
      (Node.mkMutualInductor "K1" (Some "kmod") ["L1"; "L2"] (PFloat "0.9")) Examples.in_library
    = inl (AttributeError "'LibraryStatement' object has no attribute '_required_models'").
Proof.
  split.
  - destruct (mutual_inductor_couples_two_inductors
                (Node.mkMutualInductor "K1" None ["L1"; "L2"; "L3"] (PFloat "0.9"))
                Examples.in_library) as (_ & _ & Hcount).
    destruct Hcount as [Hthree _]; [done|by left|].
    apply Hthree. simpl. lia.
  - destruct (mutual_inductor_couples_two_inductors
                (Node.mkMutualInductor "K1" (Some "kmod") ["L1"; "L2"] (PFloat "0.9"))
                Examples.in_library) as (_ & Hlib & _).
    apply Hlib; [done|by eexists|].
    by exists (LibraryStatement.__init__ "fast"), [].
Defined.

Section Transients.
Import Node SpiceModelWalker.

Lemma dict_lookup_snoc {V} (pairs : list (string * V)) k v :
  Py.dict (pairs ++ [(k, v)]) !! k = Some v.
Proof. unfold Py.dict. rewrite fold_left_app. simpl. apply lookup_insert_eq. Qed.

Lemma dict_snoc_ne {V} (pairs : list (string * V)) k v k' :
  k ≠ k' → Py.dict (pairs ++ [(k, v)]) !! k' = Py.dict pairs !! k'.
Proof. intros H. unfold Py.dict. rewrite fold_left_app. simpl. by apply lookup_insert_ne. Qed.




End Transients.



Section Columns.
Import Node SpiceModelWalker View.

Lemma slice_at_cons {A} o idx step (x : A) l :
  slice_at o idx step (x :: l)
  = if (idx <=? o)%nat && ((o - idx) mod step =? 0)%nat
    then x :: slice_at (S o) idx step l
    else slice_at (S o) idx step l.
Proof.
  unfold slice_at. simpl.
  assert (imap ((λ i (x0 : A), (o + i, x0)) ∘ S) l = imap (λ i x0, (S o + i, x0)) l) as ->.
  { apply imap_ext. intros i y _. simpl. f_equal. lia. }
  rewrite filter_cons. simpl. rewrite Nat.add_0_r.
  destruct ((idx <=? o)%nat && ((o - idx) mod step =? 0)%nat); simpl; reflexivity.
Qed.

Lemma slice_at_lookup {A} (l : list A) : ∀ o idx step d k,
  0 < step → idx ≤ o + d → (o + d - idx) mod step = 0 →
  (∀ i, i < d → (idx <=? o + i)%nat && ((o + i - idx) mod step =? 0)%nat = false) →
  slice_at o idx step l !! k = l !! (d + k * step).
Proof.
  induction l as [|x l IH]; intros o idx step d k Hstep Hle Hmod Hfirst; [done|].
  rewrite slice_at_cons. destruct d as [|d].
  - rewrite Nat.add_0_r in Hle, Hmod.
    assert ((idx <=? o)%nat && ((o - idx) mod step =? 0)%nat = true) as ->.
    { apply andb_true_iff. split; [by apply Nat.leb_le|by apply Nat.eqb_eq]. }
    destruct k as [|k]; [done|]. simpl.
    replace (step + k * step) with (S (step - 1 + k * step)) by lia. simpl.
    apply IH; [done|lia| |].
    + replace (S o + (step - 1) - idx) with (o - idx + 1 * step) by lia.
      by rewrite Nat.Div0.mod_add.
    + intros i Hi. apply andb_false_iff. right. apply Nat.eqb_neq.
      apply Nat.Lcm0.mod_divide in Hmod as [q Hq].
      replace (S o + i - idx) with (S i + q * step) by lia.
      rewrite Nat.Div0.mod_add, Nat.mod_small by lia. lia.
  - pose proof (Hfirst 0 ltac:(lia)) as Hzero. rewrite Nat.add_0_r in Hzero. rewrite Hzero.
    simpl. apply IH; [done|lia| |].
    + by replace (S o + d - idx) with (o + S d - idx) by lia.
    + intros i Hi. replace (S o + i) with (o + S i) by lia. apply Hfirst. lia.
Qed.

(** [l[idx::step]] holds at position [k] the element of [l] at position
    [idx + k * step]. *)
Lemma slice_from_step_lookup {A} (l : list A) idx step k :
  0 < step → Py.slice_from_step idx step l !! k = l !! (idx + k * step).
Proof.
  intros Hstep. unfold Py.slice_from_step.
  assert (imap pair l = imap (λ i x, (0 + i, x)) l) as -> by done.
  apply (slice_at_lookup l 0 idx step idx k); [done|lia| |].
  - by rewrite Nat.sub_diag, Nat.Div0.mod_0_l.
  - intros i Hi. apply andb_false_iff. left. apply Nat.leb_gt. simpl. lia.
Qed.

Lemma slice_from_step_length {A} (l : list A) idx n q :
  idx < n → length l = q * n → length (Py.slice_from_step idx n l) = q.
Proof.
  intros Hidx Hlen.
  assert (∀ k, is_Some (Py.slice_from_step idx n l !! k) ↔ k < q) as Hsome.
  { intros k. rewrite slice_from_step_lookup by lia. rewrite lookup_lt_is_Some. nia. }
  destruct (decide (length (Py.slice_from_step idx n l) ≤ q)) as [Hle|Hgt].
  - destruct (decide (length (Py.slice_from_step idx n l) = q)) as [|Hne]; [done|].
    assert (length (Py.slice_from_step idx n l) < q) as Hlt by lia.
    apply Hsome, lookup_lt_is_Some in Hlt. lia.
  - assert (q < length (Py.slice_from_step idx n l)) as Hlt by lia.
    apply lookup_lt_is_Some, Hsome in Hlt. lia.
Qed.

(** A dictionary built from pairs holds for a key the value of the last
    pair with this key. *)
Lemma dict_lookup_last {V} (pairs : list (string * V)) i k v :
  pairs !! i = Some (k, v) →
  (∀ i' v', i < i' → pairs !! i' ≠ Some (k, v')) →
  Py.dict pairs !! k = Some v.
Proof.
  revert i. induction pairs as [|[k' v'] pairs IH] using rev_ind; intros i Hi Hlast; [done|].
  destruct (decide (i = length pairs)) as [->|Hne].
  - rewrite list_lookup_middle in Hi by done. injection Hi as -> ->. apply dict_lookup_snoc.
  - assert (i < length pairs) as Hlt.
    { apply lookup_lt_Some in Hi. rewrite length_app in Hi. simpl in Hi. lia. }
    rewrite lookup_app_l in Hi by done.
    rewrite dict_snoc_ne.
    + apply (IH i); [done|]. intros i' v'' Hlt' Hi'.
      apply (Hlast i' v'' Hlt'). rewrite lookup_app_l; [done|]. by eapply lookup_lt_Some.
    + intros ->. apply (Hlast (length pairs) v' Hlt). by rewrite list_lookup_middle.
Qed.

Lemma data_parameters_lookup names values j name :
  names !! j = Some name →
  (∀ j', j < j' → names !! j' ≠ Some name) →
  data_parameters names values !! name
  = Some (Py.slice_from_step j (length names) values).
Proof.
  intros Hj Hlast. unfold data_parameters. apply (dict_lookup_last _ j).
  - by rewrite list_lookup_imap, Hj.
  - intros j' v' Hlt. rewrite list_lookup_imap.
    destruct (names !! j') as [name'|] eqn:Hj'; simpl; [|done].
    intros [= -> _]. by apply (Hlast j' Hlt).
Qed.

End Columns.

(** X22.  A [.data] line is a table written row by row, and the walker
    stores it column by column: with [n] column names, the column of a name
    holds at row [r] the value at position [r * n + j] of the line, where [j]
    is the last position of the name among the columns, and every column has
    as many rows as the line has values divided by [n]; no other column is
    stored.  A line without column names raises a [ZeroDivisionError], a line
    whose number of values is no multiple of [n] a [ValueError] that gives
    its line number. *)
Theorem data_columns_take_every_nth_value node w :
  (Node.data_name node = [] →
   SpiceModelWalker.walk_DataCmd node w
   = inl (ZeroDivisionError "integer division or modulo by zero"))
  ∧ (Node.data_name node ≠ [] →
     length (Node.data_value node) mod length (Node.data_name node) ≠ 0 →
     SpiceModelWalker.walk_DataCmd node w
     = inl (ValueError ("The number of elements per parameter do not match (line: "
                          +:+ pretty (Node.data_line node) +:+ ")")))
  ∧ (∀ w',
       SpiceModelWalker.walk_DataCmd node w = inr w' →
       ∃ d,
         CircuitStatement._data (SpiceModelWalker._root w') !! Node.data_table node = Some d
         ∧ (∀ name, name ∉ Node.data_name node → DataStatement._parameters d !! name = None)
         ∧ ∀ j name,
             Node.data_name node !! j = Some name →
             (∀ j', j < j' → Node.data_name node !! j' ≠ Some name) →
             ∃ column,
               DataStatement._parameters d !! name = Some column
               ∧ length column
                 = length (Node.data_value node) / length (Node.data_name node)
               ∧ ∀ r, column !! r
                      = Node.data_value node !! (r * length (Node.data_name node) + j)).
Proof.
  split_and!.
  - intros Hnames. unfold SpiceModelWalker.walk_DataCmd. by rewrite Hnames.
  - intros Hnames Hmod. unfold SpiceModelWalker.walk_DataCmd. cbv zeta.
    destruct (length (Node.data_name node) =? 0) eqn:Hzero.
    { apply Nat.eqb_eq in Hzero. by destruct (Node.data_name node). }
    simpl. apply Nat.eqb_neq in Hmod. by rewrite Hmod.
  - intros w' Hwalk.
    assert (0 < length (Node.data_name node)
            ∧ length (Node.data_value node) mod length (Node.data_name node) = 0)
      as [Hpos Hmod].
    { revert Hwalk. unfold SpiceModelWalker.walk_DataCmd. cbv zeta.
      destruct (length (Node.data_name node) =? 0) eqn:Hzero; simpl; [done|].
      apply Nat.eqb_neq in Hzero.
      destruct (length (Node.data_value node) mod length (Node.data_name node) =? 0)
        eqn:Hmod; simpl; [|done].
      apply Nat.eqb_eq in Hmod. intros _. split; [lia|done]. }
    apply walk_DataCmd_root in Hwalk as ->.
    exists (Spec.data_statement node). split_and!.
    + simpl. unfold DataStatement.table. simpl. apply lookup_insert_eq.
    + intros name Hname. by apply data_parameters_lookup_None.
    + intros j name Hj Hlast. eexists. split; [by apply data_parameters_lookup|].
      split.
      * apply slice_from_step_length; [by eapply lookup_lt_Some|].
        apply Nat.Lcm0.mod_divide in Hmod as [q Hq]. rewrite Hq.
        by rewrite Nat.div_mul by lia.
      * intros r. rewrite slice_from_step_lookup by done. f_equal. lia.
Qed.

Lemma data_columns_take_every_nth_value_witness :
  ∃ d,
    CircuitStatement._data
      (SpiceModelWalker._root
         (Examples.after (Node.LDataCmd Examples.data_sweep) Examples.at_root))
    !! "sweep" = Some d
    ∧ DataStatement._parameters d !! "c" = Some [PInt 2; PInt 4].
Proof.
  destruct (data_columns_take_every_nth_value Examples.data_sweep Examples.at_root)
    as (_ & _ & Hcolumns).
  destruct (Hcolumns (Examples.after (Node.LDataCmd Examples.data_sweep) Examples.at_root))
    as (d & Hd & _ & Hcolumn); [vm_compute; reflexivity|].
  exists d. split; [exact Hd|].
  destruct (Hcolumn 1 "c") as (column & Hc & Hlen & Hrows); [reflexivity| |].
  { intros [|[|j']] Hlt; [lia|lia|by destruct j']. }
  rewrite Hc. f_equal. apply list_eq. intros [|[|r]].
  - by rewrite Hrows.
  - by rewrite Hrows.
  - rewrite lookup_ge_None_2; [done|]. rewrite Hlen. vm_compute. lia.
Defined.

(** ** Names in lower case *)

Section Lowercase.
Import Node SpiceModelWalker Spec View.

Lemma lowercase_add name X : lowercase X → lowercase ({[Str.lower name]} ∪ X).
Proof.
  intros HX x Hx. apply elem_of_union in Hx as [Hx|Hx]; [|by apply HX].
  apply elem_of_singleton in Hx as ->. apply lower_idemp.
Qed.

Lemma lowercase_names (l : list string) : lowercase (list_to_set (map Str.lower l)).
Proof.
  intros x Hx. apply elem_of_list_to_set, list_elem_of_fmap in Hx as (y & -> & _).
  apply lower_idemp.
Qed.

Lemma lowered_sub_inv s :
  lowered_sub s →
  lowercase (SubCircuitStatement._required_models s)
  ∧ lowercase (SubCircuitStatement._required_subcircuits s)
  ∧ Forall lowered_sub (SubCircuitStatement._subcircuits s).
Proof. by inversion 1. Qed.

(** A method of the present scope that keeps the requirements in lower
    case. *)
Lemma on_present_lowered fc fs fl w w' :
  (∀ c c', lowered_circuit c → fc c = inr c' → lowered_circuit c') →
  (∀ s s', lowered_sub s → fs s = inr s' → lowered_sub s') →
  (∀ l l', lowered_library l → fl l = inr l' → lowered_library l') →
  lowered w → on_present fc fs fl w = inr w' → lowered w'.
Proof.
  intros Hfc Hfs Hfl [Hroot Hscopes]. unfold on_present, lowered.
  destruct (_scopes w) as [|[s|l] rest].
  - destruct (fc (_root w)) as [e|c'] eqn:Hc; simpl; [done|]. intros [= <-]. simpl.
    split; [by eapply Hfc|done].
  - destruct (fs s) as [e|s'] eqn:Hs; simpl; [done|]. intros [= <-]. simpl.
    apply Forall_cons in Hscopes as [Hsc Hrest]. split; [done|].
    constructor; [by eapply Hfs|done].
  - destruct (fl l) as [e|l'] eqn:Hl; simpl; [done|]. intros [= <-]. simpl.
    apply Forall_cons in Hscopes as [Hsc Hrest]. split; [done|].
    constructor; [by eapply Hfl|done].
Qed.

Ltac kept_lowered :=
  first [ by intros ? ? ? [= <-]
        | by intros ? ? ? ?
        | intros ? ? (? & ? & ? & ?) [= <-]; by split_and!
        | intros ? ? [? [? ?]%lowered_sub_inv]%lowered_sub_inv [= <-]; by constructor
        | intros ? ? (? & ? & ?)%lowered_sub_inv [= <-]; by constructor ].

Lemma present_append_lowered st w w' :
  lowered w → present_append st w = inr w' → lowered w'.
Proof. apply on_present_lowered; kept_lowered. Qed.

Lemma present_appendModel_lowered m w w' :
  lowered w → present_appendModel m w = inr w' → lowered w'.
Proof. apply on_present_lowered; kept_lowered. Qed.

Lemma present_appendParam_lowered p w w' :
  lowered w → present_appendParam p w = inr w' → lowered w'.
Proof. apply on_present_lowered; kept_lowered. Qed.

Lemma present_appendLibraryCall_lowered lc w w' :
  lowered w → present_appendLibraryCall lc w = inr w' → lowered w'.
Proof. apply on_present_lowered; kept_lowered. Qed.

Lemma present_require_model_lowered name w w' :
  lowered w → present_require_model (Str.lower name) w = inr w' → lowered w'.
Proof.
  apply on_present_lowered.
  - intros c c' (Hm & Hs & Hsubs & Hlibs) [= <-]. split_and!; try done.
    by apply lowercase_add.
  - intros s s' (Hm & Hs & Hsubs)%lowered_sub_inv [= <-]. constructor; try done.
    by apply lowercase_add.
  - done.
Qed.

Lemma present_require_subcircuit_lowered name w w' :
  lowered w → present_require_subcircuit (Str.lower name) w = inr w' → lowered w'.
Proof.
  apply on_present_lowered.
  - intros c c' (Hm & Hs & Hsubs & Hlibs) [= <-]. split_and!; try done.
    by apply lowercase_add.
  - intros s s' (Hm & Hs & Hsubs)%lowered_sub_inv [= <-]. constructor; try done.
    by apply lowercase_add.
  - done.
Qed.

Lemma append_element_lowered cls device nodes kw w w' :
  lowered w → append_element cls device nodes kw w = inr w' → lowered w'.
Proof.
  intros Hlow. unfold append_element.
  destruct (Py.check_keywords _ _ kw) as [e|[]]; simpl; [done|].
  destruct (ElementStatement.__init__ _ _ _ _) as [e|el]; simpl; [done|].
  by apply present_append_lowered.
Qed.

Lemma foldM_lowered lines :
  Forall (λ line, ∀ w w', lowered w → walk_Line line w = inr w' → lowered w') lines →
  ∀ w w', lowered w → foldM walk_Line lines w = inr w' → lowered w'.
Proof.
  induction 1 as [|line lines Hline _ IH]; intros w w' Hlow; simpl.
  - by intros [= <-].
  - destruct (walk_Line line w) as [e|w1] eqn:Hw; simpl; [done|].
    apply IH. by eapply Hline.
Qed.

Ltac lowered_steps :=
  repeat match goal with
    | |- result_bind ?m _ = inr _ → _ =>
        let H := fresh "Hstep" in destruct m eqn:H; simpl; [done|]
    end.

Ltac lowered_done :=
  let H := fresh "Hlast" in
  intros H;
  eauto 4 using append_element_lowered, present_appendModel_lowered,
    present_appendParam_lowered, present_appendLibraryCall_lowered,
    present_require_model_lowered, present_require_subcircuit_lowered.

Lemma walk_Switch_lowered node w w' :
  lowered w → walk_Switch node w = inr w' → lowered w'.
Proof.
  intros Hlow. unfold walk_Switch.
  destruct (walk_Device (sw_dev node)) as [e|device]; simpl; [done|].
  destruct (sw_model node) as [model_name|]; simpl.
  - destruct (present_require_model _ w) as [e|w1] eqn:Hreq; simpl; [done|].
    lowered_steps. lowered_done.
  - lowered_steps. lowered_done.
Qed.

Lemma optional_model_lowered model kw w r :
  lowered w → optional_model model kw w = inr r → lowered (snd r).
Proof.
  intros Hlow. unfold optional_model. destruct model as [m|].
  - destruct (present_require_model _ w) as [e|w1] eqn:Hreq; simpl; [done|].
    intros [= <-]. simpl. by eapply present_require_model_lowered.
  - by intros [= <-].
Qed.

Lemma walk_passive_lowered cls key lower upper node w w' :
  lowered w → walk_passive cls key lower upper node w = inr w' → lowered w'.
Proof.
  intros Hlow. unfold walk_passive.
  destruct (walk_Device (pas_dev node)) as [e|device]; simpl; [done|].
  destruct (optional_model _ _ w) as [e|r] eqn:Hr; simpl; [done|].
  apply optional_model_lowered in Hr; [|done]. by apply append_element_lowered.
Qed.

Lemma walk_MutualInductor_lowered node w w' :
  lowered w → walk_MutualInductor node w = inr w' → lowered w'.
Proof.
  intros Hlow. unfold walk_MutualInductor.
  destruct (walk_Device (mut_dev node)) as [e|device]; simpl; [done|].
  destruct (optional_model _ _ w) as [e|r] eqn:Hr; simpl; [done|].
  destruct (negb _); simpl; [done|].
  apply optional_model_lowered in Hr; [|done]. by apply append_element_lowered.
Qed.

(** The walk of a line keeps the requirements of the root and of the open
    scopes in lower case. *)
Lemma walk_Line_lowered line : ∀ w w',
  lowered w → walk_Line line w = inr w' → lowered w'.
Proof.
  induction line as [line IH] using Line_nested_ind. intros w w' Hlow.
  destruct line; simpl in *.
  - unfold walk_BJT. lowered_steps. lowered_done.
  - unfold walk_MOSFET. lowered_steps. lowered_done.
  - by apply walk_Switch_lowered.
  - unfold walk_VoltageControlledVoltageSource. lowered_steps. lowered_done.
  - unfold walk_VoltageControlledCurrentSource. lowered_steps. lowered_done.
  - unfold walk_CurrentControlledCurrentSource. lowered_steps. lowered_done.
  - unfold walk_CurrentControlledVoltageSource. lowered_steps. lowered_done.
  - unfold walk_NonLinearDependentSource. lowered_steps. lowered_done.
  - unfold walk_Subcircuit. lowered_steps. lowered_done.
  - intros H. apply walk_DataCmd_root in H as ->. by destruct Hlow.
  - unfold walk_ModelCmd. lowered_steps. lowered_done.
  - unfold walk_ParamCmd. lowered_steps. lowered_done.
  - unfold walk_TitleCmd. destruct (_scopes w) eqn:Hsc; [|done].
    intros [= <-]. destruct Hlow as [Hroot Hscopes]. split; [done|]. simpl. by rewrite Hsc.
  - unfold walk_LibCall. lowered_steps. lowered_done.
  - destruct (library_entry entry) as [e|entries]; simpl; [done|].
    destruct (foldM walk_Line lines _) as [e|w1] eqn:Hfold; simpl; [done|]. intros Hclose.
    apply foldM_lowered in Hfold as [Hroot Hscopes]; [|done|].
    2:{ destruct Hlow as [Hroot Hscopes]. split; [done|]. simpl. constructor; [|done].
        constructor. }
    unfold close_LibBlock in Hclose.
    destruct (_scopes w1) as [|sc1 [|sc rest]]; [done| |by destruct sc1].
    destruct sc1 as [s1|l1]; [done|].
    injection Hclose as <-. apply Forall_cons in Hscopes as [Hl1 _].
    destruct Hroot as (Hm & Hs & Hsubs & Hlibs). split; [|done]. simpl.
    split_and!; try done. simpl. by apply map_Forall_insert_2.
  - destruct (subckt_name _ _ _) as [e|n]; simpl; [done|].
    destruct (walk_option node) as [e|nodes]; simpl; [done|].
    destruct (Py.check_keywords _ _ _) as [e|[]]; simpl; [done|].
    destruct (foldM walk_Line lines _) as [e|w1] eqn:Hfold; simpl; [done|]. intros Hclose.
    apply foldM_lowered in Hfold as [Hroot Hscopes]; [|done|].
    2:{ destruct Hlow as [Hroot Hscopes]. split; [done|]. simpl. constructor; [|done].
        simpl. by constructor. }
    unfold close_SubcktCmd in Hclose.
    destruct (_scopes w1) as [|[s1|l1] rest]; try done.
    apply Forall_cons in Hscopes as [Hs1 Hrest].
    destruct rest as [|[p|p] rest].
    + injection Hclose as <-. destruct Hroot as (Hm & Hs & Hsubs & Hlibs).
      split; [|done]. simpl. split_and!; try done. simpl.
      apply Forall_app. split; [done|by constructor].
    + injection Hclose as <-. apply Forall_cons in Hrest as [Hp Hrest].
      apply lowered_sub_inv in Hp as (Hm & Hs & Hsubs).
      split; [done|]. simpl. constructor; [|done]. simpl. constructor; try done. simpl.
      apply Forall_app. split; [done|by constructor].
    + injection Hclose as <-. apply Forall_cons in Hrest as [Hp Hrest].
      split; [done|]. simpl. constructor; [|done]. simpl. unfold lowered_library. simpl.
      apply Forall_app. split; [done|by constructor].
  - by apply walk_passive_lowered.
  - by apply walk_passive_lowered.
  - by apply walk_passive_lowered.
  - unfold walk_Diode. lowered_steps. lowered_done.
  - unfold walk_JFET. lowered_steps. lowered_done.
  - by apply walk_MutualInductor_lowered.
  - unfold walk_VoltageSource, walk_source. lowered_steps. lowered_done.
  - unfold walk_CurrentSource, walk_source. lowered_steps. lowered_done.
  - unfold walk_IncludeCmd. destruct failure; [done|]. by apply present_append_lowered.
  - by intros [= <-].
Qed.

Lemma walk_Circuit_lowered model path c :
  walk_Circuit model path = inr c → lowered_circuit c.
Proof.
  unfold walk_Circuit, walk_Lines.
  destruct (foldM walk_Line _ _) as [e|w] eqn:Hwalk; simpl; [done|].
  destruct (negb _); [done|]. intros [= <-].
  apply foldM_lowered in Hwalk as [Hroot _]; [done| |].
  - apply Forall_forall. intros line _. apply walk_Line_lowered.
  - split; [|constructor]. simpl. by split_and!.
Qed.

Lemma promote_lowered library c :
  lowered_circuit c → lowered_circuit (SpiceParser.promote library c).
Proof.
  intros (Hm & Hs & Hsubs & Hlibs). destruct library; [|done].
  unfold SpiceParser.promote, lowered_circuit. simpl. split_and!; try done.
  - unfold Resolver.model_names. rewrite <- (map_map ModelStatement.name Str.lower).
    apply lowercase_names.
  - unfold Resolver.subcircuit_names.
    rewrite <- (map_map SubCircuitStatement.name Str.lower). apply lowercase_names.
Qed.

Lemma Forall2_lowered mid result :
  Forall (λ x, ∀ x', reordered x x' → lowered_sub x → lowered_sub x') mid →
  Forall lowered_sub mid → Forall2 reordered mid result → Forall lowered_sub result.
Proof.
  intros IH Hmid H2. induction H2 as [|x y mid result Hxy _ IHl]; [done|].
  apply Forall_cons in IH as [Hx IH]. apply Forall_cons in Hmid as [Hlx Hmid].
  constructor; [by apply Hx|by apply IHl].
Qed.

Lemma reordered_lowered s : ∀ s', reordered s s' → lowered_sub s → lowered_sub s'.
Proof.
  induction s as [s IH] using SubCircuit_nested_ind. intros s' Hre Hlow.
  inversion Hre as [s0 mid result Hperm Hmid]; subst.
  apply lowered_sub_inv in Hlow as (Hm & Hs & Hsubs).
  constructor; [by destruct s|by destruct s|]. destruct s; simpl in *.
  apply (Forall2_lowered mid result); [by rewrite <- Hperm|by rewrite <- Hperm|exact Hmid].
Qed.

Lemma sort_lowered c available c' ret :
  Resolver._sort_subcircuits c available = inr (c', ret) →
  lowered_circuit c → lowered_circuit c'.
Proof.
  unfold Resolver._sort_subcircuits.
  destruct (Resolver._sort_subcircuits_scope _ _ _ _ _) as [e|[result d]] eqn:Hs; simpl; [done|].
  intros [= <- <-] (Hm & Hs' & Hsubs & Hlibs).
  apply sort_scope_reorders in Hs as (mid & Hperm & Hmid).
  2:{ apply Forall_forall. intros x _ a r Hr.
      split; [by eapply sort_sub_spec|by eapply sort_sub_reorders]. }
  split_and!; try done. simpl.
  apply (Forall2_lowered mid result); [|by rewrite <- Hperm|exact Hmid].
  apply Forall_forall. intros x _. apply reordered_lowered.
Qed.

End Lowercase.

(** X23.  The names that elements require are kept in lower case.  After
    the walk of a netlist, whatever lines it is made of (the Q, M, S, X, R, C,
    L, D, J and K lines, whose walkers add to a set of required names, as well
    as the E, F, G, H, B, V and I lines, the [.model], [.param], [.data],
    [.title], [.include] and [.lib] lines, the [.lib] and [.subckt] blocks and
    the commands without effect), and in the circuit of a parser that the
    constructor has built, every name in the sets of required models and of
    required subcircuits is its own lowercase, in the circuit, in its
    subcircuits at every depth and in the subcircuits of its library blocks.
    The resolver lowercases the names of the definitions only, so this is
    what makes the search for a model or a subcircuit blind to case. *)
Theorem requirements_are_kept_in_lower_case :
  (∀ model path c,
     SpiceModelWalker.walk_Circuit model path = inr c → View.lowered_circuit c)
  ∧ (∀ e path source library p,
       SpiceParser.__init__ e path source library = inr p →
       View.lowered_circuit (SpiceParser._circuit p)).
Proof.
  split; [apply walk_Circuit_lowered|].
  intros e path source library p Hinit.
  apply init_from_model in Hinit as (path' & model & Hp).
  apply from_model_sorted in Hp as (circuit & ret & Hwalk & _ & Hsort).
  eapply sort_lowered; [exact Hsort|].
  apply promote_lowered. by eapply walk_Circuit_lowered.
Qed.
